(** * netcap: TCP stream reassembler and per-flow reader pipeline

    A shallow embedding of [encoder/tcpReader.go] (the reader half of the
    pipeline, package [encoder]) and of the assembler that feeds it
    (package [reassembly]), followed by the properties stated about them.

    Conventions of the embedding.
    - A [*page] / [*halfconnection] / [*connection] that the Go code mutates
      in place is a value that the model functions take and return.
    - The doubly linked queue [half.first .. half.last] is the list of its
      pages from first to last; [half.saved] likewise.
    - Go panics (slice bounds, index out of range, negative WaitGroup
      counter) are [None] in the [option] monad.
    - [int] counters are unbounded [Z]; sequence numbers carry their 32-bit
      wrap-around explicitly.
    - Debug logging ([*debugLog], [a.dump], [utils.ReassemblyLog]) has no
      effect on the state and is left out. *)

From Stdlib Require Import ZArith Lia.
From Stdlib Require Import Strings.Byte.
From Stdlib Require Numbers.DecimalString Numbers.DecimalZ.
From stdpp Require Import base option list gmap strings.

Local Open Scope Z_scope.

(** ** Go slices of bytes *)

Definition len {A} (b : list A) : Z := Z.of_nat (length b).

(** [b[n:]]; out of range panics. *)
Definition slice_from {A} (b : list A) (n : Z) : option (list A) :=
  if (0 <=? n) && (n <=? len b) then Some (drop (Z.to_nat n) b) else None.

(** [b[:n]]; the model treats every [n] beyond [len b] as out of range
    (Go would allow [n] up to the capacity of the backing array). *)
Definition slice_to {A} (b : list A) (n : Z) : option (list A) :=
  if (0 <=? n) && (n <=? len b) then Some (take (Z.to_nat n) b) else None.

(** [copy(dst[a:a+len(src)], src)]: overwrite the interior of [dst]. *)
Definition copy_into {A} (dst : list A) (a : Z) (src : list A) : option (list A) :=
  if (0 <=? a) && (a + len src <=? len dst)
  then Some (take (Z.to_nat a) dst ++ src ++ drop (Z.to_nat (a + len src)) dst)
  else None.

Module Reassembly.

(** ** Sequence arithmetic *)

Definition Sequence := Z.

(** Modelled from the spec: the [Sequence] type and its sentinel are declared
    outside [tcpReader.go]; INVALID lies outside the 32-bit space. *)
Definition invalidSequence : Sequence := -1.

Definition two32 : Z := 2 ^ 32.
Definition two31 : Z := 2 ^ 31.

Definition signed32 (x : Z) : Z :=
  let m := x mod two32 in if m <? two31 then m else m - two32.

(** Modelled from the spec: [Sequence.Add], 32-bit modular addition of a
    signed amount. *)
Definition Add (s : Sequence) (t : Z) : Sequence := (s + t) mod two32.

(** Modelled from the spec: [Sequence.Difference], [d(a,b) = signed_32(b-a)]. *)
Definition Difference (s t : Sequence) : Z := signed32 (t - s).

(** ** Capture metadata *)

(** Timestamps ([time.Time]) are integers; [Before] is [<]. *)
Record CaptureInfo := { Timestamp : Z }.

(** An [AssemblerContext] is an interface value providing [GetCaptureInfo]. *)
Record AssemblerContext := { GetCaptureInfo : CaptureInfo }.

Inductive TCPFlowDirection := TCPDirClientToServer | TCPDirServerToClient.

(** ** Pages and the page cache *)

(** Modelled from the spec: the [page] struct. [p_id] stands for the address
    of the page (pointer equality in [cleanSG]); [p_ac] is set for the first
    page of a packet only; [p_end] carries the end mark of the packet. *)
Record page := {
  p_id : nat;
  p_seq : Sequence;
  p_bytes : list byte;
  p_seen : Z;
  p_ac : option AssemblerContext;
  p_end : bool }.

Definition page_set_bytes (p : page) (b : list byte) : page :=
  {| p_id := p_id p; p_seq := p_seq p; p_bytes := b; p_seen := p_seen p;
     p_ac := p_ac p; p_end := p_end p |}.

Definition page_set_seq (p : page) (s : Sequence) : page :=
  {| p_id := p_id p; p_seq := s; p_bytes := p_bytes p; p_seen := p_seen p;
     p_ac := p_ac p; p_end := p_end p |}.

(** Modelled from the spec: the page cache, a free-list of reusable pages
    (here their addresses) grown on demand and never shrunk, with its [used]
    and [size] counters. Growth adds one page. *)
Record pageCache := {
  pc_free : list nat;
  pc_size : nat;
  pc_used : Z }.

Definition newPageCache : pageCache := {| pc_free := []; pc_size := 0; pc_used := 0 |}.

Definition pc_grow (c : pageCache) : pageCache :=
  {| pc_free := pc_free c ++ [pc_size c]; pc_size := S (pc_size c); pc_used := pc_used c |}.

(** [pc.next(ts)]: acquire a page, stamped with [ts], with no bytes. *)
Definition pc_next (c : pageCache) (ts : Z) : page * pageCache :=
  let c1 := match pc_free c with [] => pc_grow c | _ => c end in
  let id := hd 0%nat (pc_free c1) in
  ({| p_id := id; p_seq := 0; p_bytes := []; p_seen := ts; p_ac := None;
      p_end := false |},
   {| pc_free := tl (pc_free c1); pc_size := pc_size c1; pc_used := pc_used c1 + 1 |}).

(** [pc.replace(p)]: give a page back to the free-list. *)
Definition pc_replace (c : pageCache) (p : page) : pageCache :=
  {| pc_free := p_id p :: pc_free c; pc_size := pc_size c; pc_used := pc_used c - 1 |}.

(** [page.isPacket()]: the page is the origin of a packet. *)
Definition page_isPacket (p : page) : bool :=
  match p_ac p with Some _ => true | None => false end.

(** ** Live packets and byte containers *)

Record livePacket := {
  lp_bytes : list byte;
  lp_start : bool;
  lp_end : bool;
  lp_ci : CaptureInfo;
  lp_ac : option AssemblerContext;
  lp_seq : Sequence }.

(** The [byteContainer] interface has two implementations. *)
Inductive byteContainer :=
| BCPage (p : page)
| BCLive (lp : livePacket).

Definition bc_getBytes (r : byteContainer) : list byte :=
  match r with BCPage p => p_bytes p | BCLive lp => lp_bytes lp end.
Definition bc_length (r : byteContainer) : Z := len (bc_getBytes r).
Definition bc_getSeq (r : byteContainer) : Sequence :=
  match r with BCPage p => p_seq p | BCLive lp => lp_seq lp end.
Definition bc_isEnd (r : byteContainer) : bool :=
  match r with BCPage p => p_end p | BCLive lp => lp_end lp end.
Definition bc_assemblerContext (r : byteContainer) : option AssemblerContext :=
  match r with BCPage p => p_ac p | BCLive lp => lp_ac lp end.

(** The sequence number that follows the last byte of a container. *)
Definition bc_endSeq (r : byteContainer) : Sequence := Add (bc_getSeq r) (bc_length r).

(** [r.release(pc)]: a page goes back to the cache and counts for one, a live
    packet holds no page. *)
Definition bc_release (r : byteContainer) (c : pageCache) : Z * pageCache :=
  match r with
  | BCPage p => (1, pc_replace c p)
  | BCLive _ => (0, c)
  end.

Section Pages.

(** The capacity of a page, a constant declared outside [tcpReader.go]. *)
Variable pageBytes : nat.

(** The chain of pages that holds [bytes] from sequence number [s] on; the
    first page is written into [cur], the others are acquired from the cache.
    [fuel] bounds the number of pages. *)
Fixpoint fillPages (fuel : nat) (c : pageCache) (ts : Z) (isEnd : bool)
    (cur : page) (s : Sequence) (bytes : list byte) : list page * pageCache :=
  let length := Nat.min (length bytes) pageBytes in
  let cur1 := page_set_seq (page_set_bytes cur (take length bytes)) s in
  let rest := drop length bytes in
  match rest, fuel with
  | [], _ | _, O =>
      ([{| p_id := p_id cur1; p_seq := p_seq cur1; p_bytes := p_bytes cur1;
           p_seen := p_seen cur1; p_ac := p_ac cur1; p_end := isEnd |}], c)
  | _, S fuel' =>
      let '(nxt, c1) := pc_next c ts in
      let '(ps, c2) := fillPages fuel' c1 ts isEnd nxt (Add s (Z.of_nat length)) rest in
      (cur1 :: ps, c2)
  end.

(** Modelled from the spec: [livePacket.convertToPages(pc, skip, ac)], a
    payload longer than one page is split into a chain of pages sharing one
    origin. Returns the chain (first to last) and the number of pages. *)
Definition lp_convertToPages (lp : livePacket) (c : pageCache) (skip : Z)
    (ac : option AssemblerContext) : option (list page * Z * pageCache) :=
  bytes ← slice_from (lp_bytes lp) skip;
  let '(first, c1) := pc_next c (Timestamp (lp_ci lp)) in
  let first1 :=
    {| p_id := p_id first; p_seq := p_seq first; p_bytes := p_bytes first;
       p_seen := p_seen first; p_ac := ac; p_end := false |} in
  let '(ps, c2) := fillPages (length bytes) c1 (Timestamp (lp_ci lp)) (lp_end lp)
                     first1 (Add (lp_seq lp) skip) bytes in
  Some (ps, len ps, c2).

(** Modelled from the spec: [page.convertToPages(pc, skip, ac)], the page is
    kept, without its first [skip] bytes. *)
Definition page_convertToPages (p : page) (skip : Z) : option (list page * Z) :=
  if skip =? 0 then Some ([p], 1)
  else
    b ← slice_from (p_bytes p) skip;
    Some ([page_set_seq (page_set_bytes p b) (Add (p_seq p) skip)], 1).

Definition bc_convertToPages (r : byteContainer) (c : pageCache) (skip : Z)
    (ac : option AssemblerContext) : option (list page * Z * pageCache) :=
  match r with
  | BCPage p => '(ps, n) ← page_convertToPages p skip; Some (ps, n, c)
  | BCLive lp => lp_convertToPages lp c skip ac
  end.

End Pages.


(** ** Flows, keys and TCP segments *)

(** A [gopacket.Flow]: an opaque pair of endpoints. For a transport flow the
    endpoints are the port numbers. *)
Record Flow := { fsrc : Z; fdst : Z }.

Definition Flow_Reverse (f : Flow) : Flow := {| fsrc := fdst f; fdst := fsrc f |}.

#[global] Instance Flow_eq_dec : EqDecision Flow.
Proof. solve_decision. Defined.

#[global] Instance Flow_countable : Countable Flow.
Proof.
  refine (inj_countable' (fun f => (fsrc f, fdst f))
                         (fun p => {| fsrc := p.1; fdst := p.2 |}) _).
  intros []; reflexivity.
Defined.

(** The pool key: network flow and transport flow. *)
Definition key : Type := Flow * Flow.

Definition key_Reverse (k : key) : key := (Flow_Reverse k.1, Flow_Reverse k.2).

(** The fields of [layers.TCP] that the assembler reads. *)
Record TCP := {
  SrcPort : Z;
  DstPort : Z;
  Seq : Z;
  Ack : Z;
  SYN : bool;
  ACK : bool;
  FIN : bool;
  RST : bool;
  Payload : list byte }.

Definition TransportFlow (t : TCP) : Flow := {| fsrc := SrcPort t; fdst := DstPort t |}.

(** ** Half connections, connections, the pool *)

(** Modelled from the spec: the [halfconnection] struct. [queue] is the list
    [first .. last]; the [stream] reference, shared by the two halves, is kept
    in the connection. *)
Record halfconnection := {
  dir : TCPFlowDirection;
  pages : Z;
  saved : list page;
  queue : list page;
  nextSeq : Sequence;
  ackSeq : Sequence;
  lastSeen : Z;
  closed : bool;
  queuedPackets : Z;
  queuedBytes : Z;
  overlapPackets : Z;
  overlapBytes : Z }.

Definition half_set_pages (h : halfconnection) (v : Z) : halfconnection :=
  {| dir := dir h; pages := v; saved := saved h; queue := queue h;
     nextSeq := nextSeq h; ackSeq := ackSeq h; lastSeen := lastSeen h;
     closed := closed h; queuedPackets := queuedPackets h;
     queuedBytes := queuedBytes h; overlapPackets := overlapPackets h;
     overlapBytes := overlapBytes h |}.

Definition half_set_saved (h : halfconnection) (v : list page) : halfconnection :=
  {| dir := dir h; pages := pages h; saved := v; queue := queue h;
     nextSeq := nextSeq h; ackSeq := ackSeq h; lastSeen := lastSeen h;
     closed := closed h; queuedPackets := queuedPackets h;
     queuedBytes := queuedBytes h; overlapPackets := overlapPackets h;
     overlapBytes := overlapBytes h |}.

Definition half_set_queue (h : halfconnection) (v : list page) : halfconnection :=
  {| dir := dir h; pages := pages h; saved := saved h; queue := v;
     nextSeq := nextSeq h; ackSeq := ackSeq h; lastSeen := lastSeen h;
     closed := closed h; queuedPackets := queuedPackets h;
     queuedBytes := queuedBytes h; overlapPackets := overlapPackets h;
     overlapBytes := overlapBytes h |}.

Definition half_set_nextSeq (h : halfconnection) (v : Sequence) : halfconnection :=
  {| dir := dir h; pages := pages h; saved := saved h; queue := queue h;
     nextSeq := v; ackSeq := ackSeq h; lastSeen := lastSeen h;
     closed := closed h; queuedPackets := queuedPackets h;
     queuedBytes := queuedBytes h; overlapPackets := overlapPackets h;
     overlapBytes := overlapBytes h |}.

Definition half_set_ackSeq (h : halfconnection) (v : Sequence) : halfconnection :=
  {| dir := dir h; pages := pages h; saved := saved h; queue := queue h;
     nextSeq := nextSeq h; ackSeq := v; lastSeen := lastSeen h;
     closed := closed h; queuedPackets := queuedPackets h;
     queuedBytes := queuedBytes h; overlapPackets := overlapPackets h;
     overlapBytes := overlapBytes h |}.

Definition half_set_lastSeen (h : halfconnection) (v : Z) : halfconnection :=
  {| dir := dir h; pages := pages h; saved := saved h; queue := queue h;
     nextSeq := nextSeq h; ackSeq := ackSeq h; lastSeen := v;
     closed := closed h; queuedPackets := queuedPackets h;
     queuedBytes := queuedBytes h; overlapPackets := overlapPackets h;
     overlapBytes := overlapBytes h |}.

Definition half_set_closed (h : halfconnection) (v : bool) : halfconnection :=
  {| dir := dir h; pages := pages h; saved := saved h; queue := queue h;
     nextSeq := nextSeq h; ackSeq := ackSeq h; lastSeen := lastSeen h;
     closed := v; queuedPackets := queuedPackets h;
     queuedBytes := queuedBytes h; overlapPackets := overlapPackets h;
     overlapBytes := overlapBytes h |}.

(** The four statistics counters, in the order [queuedPackets],
    [queuedBytes], [overlapPackets], [overlapBytes]. *)
Definition half_set_stats (h : halfconnection) (qp qb op ob : Z) : halfconnection :=
  {| dir := dir h; pages := pages h; saved := saved h; queue := queue h;
     nextSeq := nextSeq h; ackSeq := ackSeq h; lastSeen := lastSeen h;
     closed := closed h; queuedPackets := qp; queuedBytes := qb;
     overlapPackets := op; overlapBytes := ob |}.

(** The scatter-gather object handed to the consumer. *)
Record reassemblyObject := {
  sg_all : list byteContainer;
  sg_Skip : Z;
  sg_Direction : TCPFlowDirection;
  sg_saved : Z;
  sg_toKeep : Z;
  sg_queuedBytes : Z;
  sg_queuedPackets : Z;
  sg_overlapBytes : Z;
  sg_overlapPackets : Z }.

Definition sg_set_toKeep (sg : reassemblyObject) (v : Z) : reassemblyObject :=
  {| sg_all := sg_all sg; sg_Skip := sg_Skip sg; sg_Direction := sg_Direction sg;
     sg_saved := sg_saved sg; sg_toKeep := v; sg_queuedBytes := sg_queuedBytes sg;
     sg_queuedPackets := sg_queuedPackets sg; sg_overlapBytes := sg_overlapBytes sg;
     sg_overlapPackets := sg_overlapPackets sg |}.

(** The bytes a delivery carries, saved bytes included. *)
Definition sg_payload (sg : reassemblyObject) : list byte :=
  concat (map bc_getBytes (sg_all sg)).

(** What a stream has been called with; a ghost record of the calls. *)
Inductive callback :=
| CbAccept (t : TCP) (accepted : bool)
| CbReassembled (sg : reassemblyObject)
| CbReassemblyComplete.

Inductive side := C2S | S2C.

Section Assembler.

Variable pageBytes : nat.

(** *** The consumer: the [Stream] and [StreamFactory] interfaces *)

(** The state of a stream object. *)
Variable Stream : Type.

(** [Accept(tcp, ci, dir, nextSeq, &start, ac)]: returns the verdict and the
    value left in [start]. *)
Variable Accept :
  Stream -> TCP -> CaptureInfo -> TCPFlowDirection -> Sequence -> bool ->
  AssemblerContext -> bool * bool * Stream.

(** [ReassembledSG(sg, ac)]: returns the value left in [sg.toKeep]. *)
Variable ReassembledSG :
  Stream -> reassemblyObject -> option AssemblerContext -> Z * Stream.

(** [ReassemblyComplete(ac)]: true if the connection may be removed. *)
Variable ReassemblyComplete : Stream -> option AssemblerContext -> bool * Stream.

(** [StreamFactory.New(netFlow, tcpFlow, tcp, ac)]. *)
Variable New : Flow -> Flow -> TCP -> AssemblerContext -> Stream.

(** Modelled from the spec: the [connection] struct. [stream] is the object
    both halves refer to, [received] the calls it has received so far
    (oldest first). *)
Record connection := {
  ckey : key;
  c2s : halfconnection;
  s2c : halfconnection;
  stream : Stream;
  received : list callback }.

Definition getHalf (c : connection) (sd : side) : halfconnection :=
  match sd with C2S => c2s c | S2C => s2c c end.

Definition setHalf (c : connection) (sd : side) (h : halfconnection) : connection :=
  match sd with
  | C2S => {| ckey := ckey c; c2s := h; s2c := s2c c; stream := stream c;
              received := received c |}
  | S2C => {| ckey := ckey c; c2s := c2s c; s2c := h; stream := stream c;
              received := received c |}
  end.

Definition other (sd : side) : side := match sd with C2S => S2C | S2C => C2S end.

(** A call on the stream: the new stream state and the call, recorded. *)
Definition conn_called (c : connection) (s : Stream) (cb : callback) : connection :=
  {| ckey := ckey c; c2s := c2s c; s2c := s2c c; stream := s;
     received := received c ++ [cb] |}.

(** The payloads the stream has been handed through [ReassembledSG], oldest
    first. *)
Definition deliveries (c : connection) : list (list byte) :=
  omap (fun cb => match cb with CbReassembled sg => Some (sg_payload sg) | _ => None end)
       (received c).

(** The stream has received [ReassemblyComplete]. *)
Definition is_complete (cb : callback) : bool :=
  match cb with CbReassemblyComplete => true | _ => false end.

Definition completed (c : connection) : bool := existsb is_complete (received c).

(** Modelled from the spec: [connection.lastSeen()], the later of the two
    halves' [lastSeen]. *)
Definition conn_lastSeen (c : connection) : Z :=
  if lastSeen (c2s c) <? lastSeen (s2c c) then lastSeen (s2c c) else lastSeen (c2s c).

(** Modelled from the spec: the [StreamPool], a mapping from key to
    connection and a users counter. *)
Record StreamPool := {
  conns : gmap key connection;
  users : Z }.

Definition pool_set_conns (p : StreamPool) (m : gmap key connection) : StreamPool :=
  {| conns := m; users := users p |}.

(** [pool.remove(conn)]. *)
Definition pool_remove (p : StreamPool) (c : connection) : StreamPool :=
  pool_set_conns p (delete (ckey c) (conns p)).

(** [pool.connections()]: the connections of the pool, with their keys. *)
Definition pool_connections (p : StreamPool) : list connection :=
  (map_to_list (conns p)).*2.

Record AssemblerOptions := {
  MaxBufferedPagesTotal : Z;
  MaxBufferedPagesPerConnection : Z }.

Definition DefaultAssemblerOptions : AssemblerOptions :=
  {| MaxBufferedPagesTotal := 0; MaxBufferedPagesPerConnection := 0 |}.

Record Assembler := {
  opts : AssemblerOptions;
  ret : list byteContainer;
  pc : pageCache;
  connPool : StreamPool;
  cacheLP : livePacket;
  cacheSG : reassemblyObject;
  start : bool }.

Definition asm_set_ret (a : Assembler) (v : list byteContainer) : Assembler :=
  {| opts := opts a; ret := v; pc := pc a; connPool := connPool a;
     cacheLP := cacheLP a; cacheSG := cacheSG a; start := start a |}.

Definition asm_set_pc (a : Assembler) (v : pageCache) : Assembler :=
  {| opts := opts a; ret := ret a; pc := v; connPool := connPool a;
     cacheLP := cacheLP a; cacheSG := cacheSG a; start := start a |}.

Definition asm_set_connPool (a : Assembler) (v : StreamPool) : Assembler :=
  {| opts := opts a; ret := ret a; pc := pc a; connPool := v;
     cacheLP := cacheLP a; cacheSG := cacheSG a; start := start a |}.

Definition asm_set_cacheLP (a : Assembler) (v : livePacket) : Assembler :=
  {| opts := opts a; ret := ret a; pc := pc a; connPool := connPool a;
     cacheLP := v; cacheSG := cacheSG a; start := start a |}.

Definition asm_set_cacheSG (a : Assembler) (v : reassemblyObject) : Assembler :=
  {| opts := opts a; ret := ret a; pc := pc a; connPool := connPool a;
     cacheLP := cacheLP a; cacheSG := v; start := start a |}.

Definition asm_set_start (a : Assembler) (v : bool) : Assembler :=
  {| opts := opts a; ret := ret a; pc := pc a; connPool := connPool a;
     cacheLP := cacheLP a; cacheSG := cacheSG a; start := v |}.

Definition emptyLP : livePacket :=
  {| lp_bytes := []; lp_start := false; lp_end := false;
     lp_ci := {| Timestamp := 0 |}; lp_ac := None; lp_seq := 0 |}.

Definition emptySG : reassemblyObject :=
  {| sg_all := []; sg_Skip := 0; sg_Direction := TCPDirClientToServer;
     sg_saved := 0; sg_toKeep := 0; sg_queuedBytes := 0; sg_queuedPackets := 0;
     sg_overlapBytes := 0; sg_overlapPackets := 0 |}.

(** [NewAssembler(pool)]. *)
Definition NewAssembler (pool : StreamPool) : Assembler :=
  {| opts := DefaultAssemblerOptions; ret := []; pc := newPageCache;
     connPool := {| conns := conns pool; users := users pool + 1 |};
     cacheLP := emptyLP; cacheSG := emptySG; start := false |}.

(** *** Overlap resolution *)

(** The variables of the loop of [checkOverlap], besides [cur]:
    [os_bytes] is the local [bytes]; [os_next] is [next] with the pages that
    follow it; [os_skipped] holds the pages between [cur] and [next] (case 6
    moves [cur] without moving [next]); the other fields are the parts of
    [half] and of the page cache that the loop updates. *)
Record overlapState := {
  os_bytes : list byte;
  os_skipped : list page;
  os_next : list page;
  os_overlapPackets : Z;
  os_overlapBytes : Z;
  os_pages : Z;
  os_pc : pageCache }.

(** [next = cur]. *)
Definition os_set_next (st : overlapState) (cur : page) : overlapState :=
  {| os_bytes := os_bytes st; os_skipped := [];
     os_next := cur :: os_skipped st ++ os_next st;
     os_overlapPackets := os_overlapPackets st;
     os_overlapBytes := os_overlapBytes st; os_pages := os_pages st;
     os_pc := os_pc st |}.

(** Case 3: [cur] is counted as overlap, unlinked and released. *)
Definition os_drop (st : overlapState) (cur : page) : overlapState :=
  {| os_bytes := os_bytes st; os_skipped := os_skipped st; os_next := os_next st;
     os_overlapPackets :=
       if page_isPacket cur then os_overlapPackets st + 1 else os_overlapPackets st;
     os_overlapBytes := os_overlapBytes st + len (p_bytes cur);
     os_pages := os_pages st - 1;
     os_pc := pc_replace (os_pc st) cur |}.

(** Case 6: the new bytes are consumed, [cur] moves on, [next] stays. *)
Definition os_consume (st : overlapState) (cur : page) : overlapState :=
  {| os_bytes := []; os_skipped := cur :: os_skipped st; os_next := os_next st;
     os_overlapPackets := os_overlapPackets st;
     os_overlapBytes := os_overlapBytes st; os_pages := os_pages st;
     os_pc := os_pc st |}.

(** The loop [for cur != nil] of [checkOverlap]. [curs] is [cur] followed by
    [cur.prev], [cur.prev.prev], ...; the result is the value of that list
    when the loop is left. *)
Fixpoint checkOverlap_loop (start end_ : Sequence) (curs : list page)
    (st : overlapState) : option (list page * overlapState) :=
  match curs with
  | [] => Some ([], st)
  | cur :: prevs =>
      (* end < cur.start: continue (5) *)
      if Difference end_ (p_seq cur) >? 0 then
        checkOverlap_loop start end_ prevs (os_set_next st cur)
      else
        let curEnd := Add (p_seq cur) (len (p_bytes cur)) in
        (* start > cur.end: stop (1) *)
        if Difference start curEnd <=? 0 then Some (curs, st)
        else
          let diffStart := Difference start (p_seq cur) in
          let diffEnd := Difference end_ curEnd in
          (* end > cur.end && start < cur.start: drop (3) *)
          if (diffEnd <=? 0) && (diffStart >=? 0) then
            checkOverlap_loop start end_ prevs (os_drop st cur)
          (* end > cur.end && start < cur.end: drop cur's end (2) *)
          else if (diffEnd <? 0) && (Difference start curEnd >? 0) then
            b ← slice_to (p_bytes cur) (- Difference start (p_seq cur));
            Some (page_set_bytes cur b :: prevs, st)
          (* start < cur.start && end > cur.start: drop cur's start (4) *)
          else if (diffStart >? 0) && (Difference end_ (p_seq cur) <? 0) then
            b ← slice_from (p_bytes cur) (- Difference end_ (p_seq cur));
            let cur1 := page_set_bytes cur b in
            let cur2 := page_set_seq cur1 (Add (p_seq cur1) (- Difference end_ (p_seq cur1))) in
            checkOverlap_loop start end_ prevs (os_set_next st cur2)
          (* end < cur.end && start > cur.start: replace bytes inside cur (6) *)
          else if (diffEnd >? 0) && (diffStart <? 0) then
            b ← copy_into (p_bytes cur) (- diffStart) (os_bytes st);
            checkOverlap_loop start end_ prevs (os_consume st (page_set_bytes cur b))
          else
            checkOverlap_loop start end_ prevs (os_set_next st cur)
  end.

Definition lp_set_bytes_seq (lp : livePacket) (b : list byte) (s : Sequence) : livePacket :=
  {| lp_bytes := b; lp_start := lp_start lp; lp_end := lp_end lp; lp_ci := lp_ci lp;
     lp_ac := lp_ac lp; lp_seq := s |}.

(** The number of bytes held by the pages of a queue. *)
Fixpoint qbytes (q : list page) : Z :=
  match q with
  | [] => 0
  | p :: q' => len (p_bytes p) + qbytes q'
  end.

(** The sequence number that follows the last byte of a page, of a live
    packet. *)
Definition page_end (p : page) : Sequence := Add (p_seq p) (len (p_bytes p)).
Definition lp_endSeq (lp : livePacket) : Sequence := Add (lp_seq lp) (len (lp_bytes lp)).

(** A queued page without its first [k] bytes. *)
Definition cut_head (cur : page) (k : Z) : page :=
  page_set_seq (page_set_bytes cur (drop (Z.to_nat k) (p_bytes cur))) (Add (p_seq cur) k).

(** [a.checkOverlap(half, queue, ac)]. *)
Definition checkOverlap (a : Assembler) (half : halfconnection) (queue_ : bool)
    (ac : AssemblerContext) : option (Assembler * halfconnection) :=
  let bytes := lp_bytes (cacheLP a) in
  let start := lp_seq (cacheLP a) in
  let end_ := Add start (len bytes) in
  '(curs, st) ← checkOverlap_loop start end_ (rev (queue half))
                  {| os_bytes := bytes; os_skipped := []; os_next := [];
                     os_overlapPackets := overlapPackets half;
                     os_overlapBytes := overlapBytes half;
                     os_pages := pages half; os_pc := pc a |};
  let half1 :=
    half_set_pages
      (half_set_stats half (queuedPackets half) (queuedBytes half)
         (os_overlapPackets st) (os_overlapBytes st))
      (os_pages st) in
  (* Split bytes into pages, and insert in queue *)
  let lp := lp_set_bytes_seq (cacheLP a) (os_bytes st) start in
  let a1 := asm_set_cacheLP (asm_set_pc a (os_pc st)) lp in
  if (len (os_bytes st) >? 0) && queue_ then
    '(ps, numPages, c) ← lp_convertToPages pageBytes lp (pc a1) 0 (Some ac);
    let half2 :=
      half_set_pages
        (half_set_stats half1 (queuedPackets half1 + 1)
           (queuedBytes half1 + len (os_bytes st))
           (overlapPackets half1) (overlapBytes half1))
        (pages half1 + numPages) in
    Some (asm_set_pc a1 c, half_set_queue half2 (rev curs ++ ps ++ os_next st))
  else
    Some (a1, half_set_queue half1 (rev curs ++ os_skipped st ++ os_next st)).

(** [a.overlapExisting(half, start, end, bytes)]: trim what has already been
    sent. Returns the bytes left, their sequence number and the half. *)
Definition overlapExisting (half : halfconnection) (start end_ : Sequence)
    (bytes : list byte) : option (list byte * Sequence * halfconnection) :=
  if nextSeq half =? invalidSequence then
    (* no start yet *)
    Some (bytes, start, half)
  else
    let diff := Difference start (nextSeq half) in
    if diff =? 0 then Some (bytes, start, half)
    else
      let s := 0 in
      let e := len bytes in
      let half1 :=
        if negb (e =? 0) then
          half_set_stats half (queuedPackets half) (queuedBytes half)
            (overlapPackets half + 1) (overlapBytes half + diff)
        else half in
      let s := s + diff in
      (* Completely included in sent *)
      let s := if s >=? e then e else s in
      bytes1 ← slice_from bytes s;
      Some (bytes1, nextSeq half, half1).

(** [a.addNextFromConn(conn)]: pop the first page of the queue into [a.ret]. *)
Definition addNextFromConn (a : Assembler) (half : halfconnection)
    : Assembler * halfconnection :=
  match queue half with
  | [] => (a, half)
  | p :: q => (asm_set_ret a (ret a ++ [BCPage p]), half_set_queue half q)
  end.

Record assemblerAction := {
  act_nextSeq : Sequence;
  act_queue : bool }.

(** [a.handleBytes(bytes, seq, half, ci, start, end, action, ac)]: prepare
    send or queue. *)
Definition handleBytes (a : Assembler) (bytes : list byte) (seq : Sequence)
    (half : halfconnection) (ci : CaptureInfo) (start_ end_ : bool)
    (action : assemblerAction) (ac : AssemblerContext)
    : option (Assembler * halfconnection * assemblerAction) :=
  let a0 :=
    asm_set_cacheLP a
      {| lp_bytes := bytes; lp_start := start_; lp_end := end_; lp_ci := ci;
         lp_ac := Some ac; lp_seq := seq |} in
  if act_queue action then
    '(a1, half1) ← checkOverlap a0 half true ac;
    if ((MaxBufferedPagesPerConnection (opts a1) >? 0)
          && (pages half1 >=? MaxBufferedPagesPerConnection (opts a1)))
       || ((MaxBufferedPagesTotal (opts a1) >? 0)
          && (pc_used (pc a1) >=? MaxBufferedPagesTotal (opts a1)))
    then
      let '(a2, half2) := addNextFromConn a1 half1 in
      Some (a2, half2, {| act_nextSeq := act_nextSeq action; act_queue := false |})
    else Some (a1, half1, action)
  else
    '(b, s, half1) ← overlapExisting half seq (Add seq (len bytes)) (lp_bytes (cacheLP a0));
    let a1 := asm_set_cacheLP a0 (lp_set_bytes_seq (cacheLP a0) b s) in
    '(a2, half2) ← checkOverlap a1 half1 false ac;
    if negb (len (lp_bytes (cacheLP a2)) =? 0) || end_ || start_ then
      Some (asm_set_ret a2 (ret a2 ++ [BCLive (cacheLP a2)]), half2, action)
    else Some (a2, half2, action).

(** [a.setStatsToSG(half)]: move the statistics of the half into the
    scatter-gather object. *)
Definition setStatsToSG (a : Assembler) (half : halfconnection)
    : Assembler * halfconnection :=
  let sg := cacheSG a in
  (asm_set_cacheSG a
     {| sg_all := sg_all sg; sg_Skip := sg_Skip sg; sg_Direction := sg_Direction sg;
        sg_saved := sg_saved sg; sg_toKeep := sg_toKeep sg;
        sg_queuedBytes := queuedBytes half; sg_queuedPackets := queuedPackets half;
        sg_overlapBytes := overlapBytes half; sg_overlapPackets := overlapPackets half |},
   half_set_stats half 0 0 0 0).

(** The pages of [l] given back to the cache, in order. *)
Definition pc_replace_all (c : pageCache) (l : list page) : pageCache :=
  foldl pc_replace c l.

(** [a.addPending(half, firstSeq)]: prepend the saved pages to [a.ret] if they
    end where [firstSeq] starts, drop them otherwise. Returns the number of
    saved bytes prepended. *)
Definition addPending (a : Assembler) (half : halfconnection) (firstSeq : Sequence)
    : Assembler * halfconnection * Z :=
  match saved half with
  | [] => (a, half, 0)
  | p0 :: _ =>
      let s := len (concat (map p_bytes (saved half))) in
      if negb (Add (p_seq p0) s =? firstSeq) then
        (* non-continuous saved: drop them *)
        (asm_set_pc a (pc_replace_all (pc a) (saved half)), half_set_saved half [], 0)
      else
        (asm_set_ret a (map BCPage (saved half) ++ ret a), half, s)
  end.

(** The loop of [addContiguous]: pages leave the queue for [a.ret] as long as
    each starts where the previous one ended. *)
Fixpoint addContiguous_loop (q : list page) (lastSeq : Sequence)
    (r : list byteContainer) : list page * Sequence * list byteContainer :=
  match q with
  | [] => ([], lastSeq, r)
  | p :: q' =>
      if Difference lastSeq (p_seq p) =? 0
      then addContiguous_loop q' (Add lastSeq (len (p_bytes p))) (r ++ [BCPage p])
      else (q, lastSeq, r)
  end.

(** [a.addContiguous(half, lastSeq)]. *)
Definition addContiguous (a : Assembler) (half : halfconnection) (lastSeq : Sequence)
    : Assembler * halfconnection * Sequence :=
  match queue half with
  | [] => (a, half, lastSeq)
  | p :: _ =>
      let lastSeq1 := if lastSeq =? invalidSequence then p_seq p else lastSeq in
      let '(q, lastSeq2, r) := addContiguous_loop (queue half) lastSeq1 (ret a) in
      (asm_set_ret a r, half_set_queue half q, lastSeq2)
  end.

(** [a.buildSG(half)]: build the scatter-gather object, i.e. prepend saved
    bytes and append continuous bytes. Returns [end] and the next sequence
    number. *)
Definition buildSG (a : Assembler) (half : halfconnection)
    : option (bool * Sequence * Assembler * halfconnection) :=
  r0 ← head (ret a);
  (* find if there are skipped bytes *)
  let skip :=
    if negb (nextSeq half =? invalidSequence)
    then Difference (nextSeq half) (bc_getSeq r0) else -1 in
  let last_ := Add (bc_getSeq r0) (bc_length r0) in
  let '(a1, half1, saved_) := addPending a half (bc_getSeq r0) in
  let '(a2, half2, nextSeq_) := addContiguous a1 half1 last_ in
  let a3 :=
    asm_set_cacheSG a2
      {| sg_all := ret a2; sg_Skip := skip; sg_Direction := dir half2;
         sg_saved := saved_; sg_toKeep := -1;
         sg_queuedBytes := sg_queuedBytes (cacheSG a2);
         sg_queuedPackets := sg_queuedPackets (cacheSG a2);
         sg_overlapBytes := sg_overlapBytes (cacheSG a2);
         sg_overlapPackets := sg_overlapPackets (cacheSG a2) |} in
  let '(a4, half3) := setStatsToSG a3 half2 in
  rl ← last (ret a4);
  Some (bc_isEnd rl, nextSeq_, a4, half3).

(** The search of [cleanSG] for the first container to keep. [i] is the
    index of the head of [rs], [cur] the bytes before it. Returns [found],
    the value left in [ndx] and the value left in [skip]. *)
Fixpoint cleanSG_find (toKeep : Z) (rs : list byteContainer) (i : nat) (cur skip : Z)
    : bool * nat * Z :=
  match rs with
  | [] => (false, Nat.pred i, skip)
  | r :: rs' =>
      if toKeep <? cur + bc_length r then (true, i, skip)
      else cleanSG_find toKeep rs' (S i) (cur + bc_length r)
             (if skip >=? bc_length r then skip - bc_length r else skip)
  end.

(** [r == half.saved], [r == half.first]: the container is that very page. *)
Definition bc_is_page (r : byteContainer) (p : option page) : bool :=
  match r, p with
  | BCPage q, Some p => bool_decide (p_id q = p_id p)
  | _, _ => false
  end.

(** The loop of [cleanSG] that releases the consumed containers. *)
Fixpoint cleanSG_release (rs : list byteContainer) (c : pageCache)
    (half : halfconnection) : pageCache * halfconnection :=
  match rs with
  | [] => (c, half)
  | r :: rs' =>
      let half1 :=
        if bc_is_page r (head (saved half)) then half_set_saved half (tail (saved half))
        else if bc_is_page r (head (queue half)) then half_set_queue half (tail (queue half))
        else half in
      let '(n, c1) := bc_release r c in
      cleanSG_release rs' c1 (half_set_pages half1 (pages half1 - n))
  end.

(** The loop of [cleanSG] that turns the kept containers into saved pages. *)
Fixpoint cleanSG_keep (rs : list byteContainer) (c : pageCache) (skip : Z)
    (ac : option AssemblerContext) (sv : list page) : option (pageCache * list page) :=
  match rs with
  | [] => Some (c, sv)
  | r :: rs' =>
      '(ps, _, c1) ← bc_convertToPages pageBytes r c skip ac;
      cleanSG_keep rs' c1 skip ac (sv ++ ps)
  end.

(** [a.cleanSG(half, ac)]. *)
Definition cleanSG (a : Assembler) (half : halfconnection)
    (ac : option AssemblerContext) : option (Assembler * halfconnection) :=
  let all := sg_all (cacheSG a) in
  let toKeep := sg_toKeep (cacheSG a) in
  (* Find first page to keep *)
  let '(ndx, skip) :=
    if toKeep <? 0 then (length all, 0)
    else
      let '(found, ndx, skip) := cleanSG_find toKeep all 0 0 toKeep in
      (if found then ndx else S ndx, skip) in
  (* Release consumed pages *)
  consumed ← slice_to all (Z.of_nat ndx);
  let '(c1, half1) := cleanSG_release consumed (pc a) half in
  (* Keep un-consumed pages *)
  kept ← slice_from all (Z.of_nat ndx);
  '(c2, sv) ← cleanSG_keep kept c1 skip ac [];
  Some (asm_set_pc a c2, half_set_saved half1 sv).

(** [a.closeHalfConnection(conn, half)]; [sd] tells which half of [conn]
    [half] points to. The queued pages go back to the cache; the queue is
    left as it is. *)
Definition closeHalfConnection (a : Assembler) (conn : connection) (sd : side)
    : Assembler * connection :=
  let half := getHalf conn sd in
  let half1 := half_set_closed half true in
  let a1 := asm_set_pc a (pc_replace_all (pc a) (queue half1)) in
  let half2 := half_set_pages half1 (pages half1 - len (queue half1)) in
  let conn1 := setHalf conn sd half2 in
  if closed (s2c conn1) && closed (c2s conn1) then
    let '(rm, s) := ReassemblyComplete (stream conn1) None in
    let conn2 := conn_called conn1 s CbReassemblyComplete in
    if rm then (asm_set_connPool a1 (pool_remove (connPool a1) conn2), conn2)
    else (a1, conn2)
  else (a1, conn1).

(** [a.sendToConnection(conn, half, ac)]: send the current values in [a.ret]
    to the connection, closing the half if the last thing sent had End set. *)
Definition sendToConnection (a : Assembler) (conn : connection) (sd : side)
    (ac : option AssemblerContext) : option (Assembler * connection * Sequence) :=
  '(end_, nextSeq_, a1, half1) ← buildSG a (getHalf conn sd);
  let '(keep, s) := ReassembledSG (stream conn) (cacheSG a1) ac in
  let conn1 := conn_called (setHalf conn sd half1) s (CbReassembled (cacheSG a1)) in
  let a2 := asm_set_cacheSG a1 (sg_set_toKeep (cacheSG a1) keep) in
  '(a3, half2) ← cleanSG a2 half1 ac;
  let conn2 := setHalf conn1 sd half2 in
  let '(a4, conn3) :=
    if (end_ : bool) then closeHalfConnection a3 conn2 sd else (a3, conn2) in
  Some (a4, conn3, nextSeq_).

(** [a.skipFlush(conn, half)]: skip the first set of bytes we are waiting for
    and return the first set of bytes we have; with no bytes queued, close
    the half. *)
Definition skipFlush (a : Assembler) (conn : connection) (sd : side)
    : option (Assembler * connection) :=
  match queue (getHalf conn sd) with
  | [] => Some (closeHalfConnection a conn sd)
  | _ :: _ =>
      let a0 := asm_set_ret a [] in
      let '(a1, half1) := addNextFromConn a0 (getHalf conn sd) in
      r0 ← head (ret a1);
      '(a2, conn1, nextSeq_) ←
        sendToConnection a1 (setHalf conn sd half1) sd (bc_assemblerContext r0);
      if negb (nextSeq_ =? invalidSequence)
      then Some (a2, setHalf conn1 sd (half_set_nextSeq (getHalf conn1 sd) nextSeq_))
      else Some (a2, conn1)
  end.

(** *** Assembling a segment *)

(** [AssembleWithContext] on the connection [conn] that [getConnection] has
    found or created, [sd] being the sending half: the reset of [a.ret] and
    everything from the lock on. *)
Definition AssembleWithContext_conn (a : Assembler) (conn : connection) (sd : side)
    (t : TCP) (ac : AssemblerContext) : option (Assembler * connection) :=
  let a := asm_set_ret a [] in
  let ci := GetCaptureInfo ac in
  let timestamp := Timestamp ci in
  let half := getHalf conn sd in
  let half := if lastSeen half <? timestamp then half_set_lastSeen half timestamp else half in
  let a := asm_set_start a ((nextSeq half =? invalidSequence) && SYN t) in
  let '(ok, start_, s) := Accept (stream conn) t ci (dir half) (nextSeq half) (start a) ac in
  let a := asm_set_start a start_ in
  let conn := conn_called (setHalf conn sd half) s (CbAccept t ok) in
  if negb ok then Some (a, conn)
  else if closed half then
    (* this way is closed *)
    Some (a, conn)
  else
    let seq := Seq t in
    let ack := Ack t in
    let bytes := Payload t in
    let half := if ACK t then half_set_ackSeq half ack else half in
    let '(seq, half, queue_) :=
      if nextSeq half =? invalidSequence then
        if SYN t then
          let seq := Add seq 1 in (seq, half_set_nextSeq half seq, false)
        else if start a then (seq, half_set_nextSeq half seq, false)
        else (seq, half, true)
      else
        let diff := Difference (nextSeq half) seq in
        if diff >? 0 then (seq, half, true) else (seq, half, false) in
    let action := {| act_nextSeq := invalidSequence; act_queue := queue_ |} in
    '(a, half, action) ← handleBytes a bytes seq half ci (SYN t) (RST t || FIN t) action ac;
    let conn := setHalf conn sd half in
    '(a, conn, nextSeq_) ←
      (if len (ret a) >? 0 then sendToConnection a conn sd (Some ac)
       else Some (a, conn, act_nextSeq action));
    if negb (nextSeq_ =? invalidSequence) then
      let half := half_set_nextSeq (getHalf conn sd) nextSeq_ in
      let half := if FIN t then half_set_nextSeq half (Add (nextSeq half) 1) else half in
      Some (a, setHalf conn sd half)
    else Some (a, conn).

(** A fresh connection: both directions wait for their first sequence
    number. *)
Definition newHalf (d : TCPFlowDirection) (ts : Z) : halfconnection :=
  {| dir := d; pages := 0; saved := []; queue := [];
     nextSeq := invalidSequence; ackSeq := invalidSequence; lastSeen := ts;
     closed := false; queuedPackets := 0; queuedBytes := 0;
     overlapPackets := 0; overlapBytes := 0 |}.

Definition newConnection (k : key) (s : Stream) (ts : Z) : connection :=
  {| ckey := k; c2s := newHalf TCPDirClientToServer ts;
     s2c := newHalf TCPDirServerToClient ts; stream := s; received := [] |}.

(** Modelled from the spec: [pool.getConnection(key, false, ts, tcp, ac)],
    look up or create the connection; both directions of one 4-tuple resolve
    to the same connection, the half being the sending direction. *)
Definition getConnection (p : StreamPool) (k : key) (ts : Z) (t : TCP)
    (ac : AssemblerContext) : StreamPool * connection * side :=
  match conns p !! k with
  | Some c => (p, c, C2S)
  | None =>
      match conns p !! key_Reverse k with
      | Some c => (p, c, S2C)
      | None =>
          let c := newConnection k (New k.1 k.2 t ac) ts in
          (pool_set_conns p (<[k := c]> (conns p)), c, C2S)
      end
  end.

(** The connection object [conn] as it stands after an operation, seen
    through the pool: the pool holds it unless it has been removed. *)
Definition pool_store (a : Assembler) (conn : connection) : Assembler :=
  match conns (connPool a) !! ckey conn with
  | Some _ =>
      asm_set_connPool a
        (pool_set_conns (connPool a) (<[ckey conn := conn]> (conns (connPool a))))
  | None => a
  end.

(** [a.AssembleWithContext(netFlow, t, ac)]. *)
Definition AssembleWithContext (a : Assembler) (netFlow : Flow) (t : TCP)
    (ac : AssemblerContext) : option Assembler :=
  let k : key := (netFlow, TransportFlow t) in
  let timestamp := Timestamp (GetCaptureInfo ac) in
  let '(p, conn, sd) := getConnection (connPool a) k timestamp t ac in
  let a := asm_set_connPool a p in
  '(a, conn) ← AssembleWithContext_conn a conn sd t ac;
  Some (pool_store a conn).

(** [a.Assemble(netFlow, t)]: [AssembleWithContext] with the current time,
    [now] being what [time.Now()] returns. *)
Definition Assemble (a : Assembler) (netFlow : Flow) (t : TCP) (now : Z)
    : option Assembler :=
  AssembleWithContext a netFlow t {| GetCaptureInfo := {| Timestamp := now |} |}.

(** *** Flushing *)

(** The loop of [flushClose]: skip-flush while the head of the queue is older
    than [t]. Returns the flags [flushed] and [closed]; [closed] set means
    that [flushClose] returns from inside the loop. [fuel] bounds the number
    of iterations. *)
Fixpoint flushClose_loop (fuel : nat) (a : Assembler) (conn : connection) (sd : side)
    (t : Z) (flushed : bool) : option (Assembler * connection * bool * bool) :=
  match queue (getHalf conn sd) with
  | [] => Some (a, conn, flushed, false)
  | p :: _ =>
      if p_seen p <? t then
        match fuel with
        | O => None
        | S fuel' =>
            '(a1, conn1) ← skipFlush a conn sd;
            if closed (getHalf conn1 sd) then Some (a1, conn1, true, true)
            else flushClose_loop fuel' a1 conn1 sd t true
        end
      else Some (a, conn, flushed, false)
  end.

(** [a.flushClose(conn, half, t, tc)]. *)
Definition flushClose (a : Assembler) (conn : connection) (sd : side) (t tc : Z)
    : option (Assembler * connection * bool * bool) :=
  if closed (getHalf conn sd) then Some (a, conn, false, false)
  else
    '(a1, conn1, flushed, closed_) ←
      flushClose_loop (length (queue (getHalf conn sd))) a conn sd t false;
    if (closed_ : bool) then Some (a1, conn1, flushed, closed_)
    else
      (* Close the connection only if both halfs of the connection last seen
         before tc. *)
      let half := getHalf conn1 sd in
      if negb (closed half) && bool_decide (queue half = []) && (conn_lastSeen conn1 <? tc)
      then
        let '(a2, conn2) := closeHalfConnection a1 conn1 sd in
        Some (a2, conn2, flushed, true)
      else Some (a1, conn1, flushed, closed_).

Record FlushOptions := { T : Z; TC : Z }.

(** The body of the loop of [FlushWithOptions] for one connection. *)
Definition FlushWithOptions_conn (a : Assembler) (conn : connection) (opt : FlushOptions)
    (flushes closes : Z) : option (Assembler * connection * Z * Z) :=
  '(a1, conn1, f1, c1) ← flushClose a conn S2C (T opt) (TC opt);
  let flushes := if (f1 : bool) then flushes + 1 else flushes in
  let closes := if (c1 : bool) then closes + 1 else closes in
  '(a2, conn2, f2, c2) ← flushClose a1 conn1 C2S (T opt) (TC opt);
  let flushes := if (f2 : bool) then flushes + 1 else flushes in
  let closes := if (c2 : bool) then closes + 1 else closes in
  let remove :=
    closed (s2c conn2) && closed (c2s conn2)
    && (lastSeen (s2c conn2) <? TC opt) && (lastSeen (c2s conn2) <? TC opt) in
  let a3 := pool_store a2 conn2 in
  let a4 := if remove then asm_set_connPool a3 (pool_remove (connPool a3) conn2) else a3 in
  Some (a4, conn2, flushes, closes).

Fixpoint FlushWithOptions_conns (a : Assembler) (cs : list connection) (opt : FlushOptions)
    (flushes closes : Z) : option (Assembler * list connection * Z * Z) :=
  match cs with
  | [] => Some (a, [], flushes, closes)
  | conn :: cs' =>
      '(a1, conn1, flushes1, closes1) ← FlushWithOptions_conn a conn opt flushes closes;
      '(a2, cs1, flushes2, closes2) ← FlushWithOptions_conns a1 cs' opt flushes1 closes1;
      Some (a2, conn1 :: cs1, flushes2, closes2)
  end.

(** [a.FlushWithOptions(opt)]: returns the assembler, the connections that
    were in the pool as the call leaves them, and the counts [flushed] and
    [closed]. *)
Definition FlushWithOptions (a : Assembler) (opt : FlushOptions)
    : option (Assembler * list connection * Z * Z) :=
  FlushWithOptions_conns a (pool_connections (connPool a)) opt 0 0.

(** [a.FlushCloseOlderThan(t)]. *)
Definition FlushCloseOlderThan (a : Assembler) (t : Z)
    : option (Assembler * list connection * Z * Z) :=
  FlushWithOptions a {| T := t; TC := t |}.

(** The loop [for !half.closed { a.skipFlush(conn, half) }] of [FlushAll];
    [fuel] bounds the number of iterations. *)
Fixpoint FlushAll_half (fuel : nat) (a : Assembler) (conn : connection) (sd : side)
    : option (Assembler * connection) :=
  if closed (getHalf conn sd) then Some (a, conn)
  else
    match fuel with
    | O => None
    | S fuel' =>
        '(a1, conn1) ← skipFlush a conn sd;
        FlushAll_half fuel' a1 conn1 sd
    end.

(** The body of the loop of [FlushAll] over one half. *)
Definition FlushAll_side (a : Assembler) (conn : connection) (sd : side)
    : option (Assembler * connection) :=
  '(a1, conn1) ← FlushAll_half (S (length (queue (getHalf conn sd)))) a conn sd;
  if negb (closed (getHalf conn1 sd)) then Some (closeHalfConnection a1 conn1 sd)
  else Some (a1, conn1).

(** The body of the loop of [FlushAll] for one connection. *)
Definition FlushAll_conn (a : Assembler) (conn : connection)
    : option (Assembler * connection) :=
  '(a1, conn1) ← FlushAll_side a conn S2C;
  '(a2, conn2) ← FlushAll_side a1 conn1 C2S;
  Some (pool_store a2 conn2, conn2).

Fixpoint FlushAll_conns (a : Assembler) (cs : list connection)
    : option (Assembler * list connection) :=
  match cs with
  | [] => Some (a, [])
  | conn :: cs' =>
      '(a1, conn1) ← FlushAll_conn a conn;
      '(a2, cs1) ← FlushAll_conns a1 cs';
      Some (a2, conn1 :: cs1)
  end.

(** [a.FlushAll()]: returns [closed], the assembler, and the connections that
    were in the pool as the call leaves them. *)
Definition FlushAll (a : Assembler) : option (Z * Assembler * list connection) :=
  let cs := pool_connections (connPool a) in
  let closed_ := len cs in
  '(a1, cs1) ← FlushAll_conns a cs;
  Some (closed_, a1, cs1).

(** *** The steps of [AssembleWithContext], named *)

(** The half once the sighting of a segment at time [ts] is recorded. *)
Definition seen_at (h : halfconnection) (ts : Z) : halfconnection :=
  if lastSeen h <? ts then half_set_lastSeen h ts else h.

(** The sequence decision: the sequence number the payload is handled at,
    the half, and whether the payload is to be queued. *)
Definition sequenceDecision (half : halfconnection) (t : TCP) (start_ : bool)
    : Sequence * halfconnection * bool :=
  if nextSeq half =? invalidSequence then
    if SYN t then (Add (Seq t) 1, half_set_nextSeq half (Add (Seq t) 1), false)
    else if start_ then (Seq t, half_set_nextSeq half (Seq t), false)
    else (Seq t, half, true)
  else if Difference (nextSeq half) (Seq t) >? 0 then (Seq t, half, true)
  else (Seq t, half, false).

(** The last step: the next sequence number, one further for a FIN. *)
Definition finishAssemble (conn : connection) (sd : side) (t : TCP) (nextSeq_ : Sequence)
    : connection :=
  if negb (nextSeq_ =? invalidSequence) then
    setHalf conn sd
      (if FIN t
       then half_set_nextSeq (half_set_nextSeq (getHalf conn sd) nextSeq_) (Add nextSeq_ 1)
       else half_set_nextSeq (getHalf conn sd) nextSeq_)
  else conn.

(** No limit on the number of buffered pages. *)
Definition unlimited (o : AssemblerOptions) : Prop :=
  MaxBufferedPagesPerConnection o <= 0 /\ MaxBufferedPagesTotal o <= 0.

(** A segment that carries data and none of SYN, FIN, RST, with a sequence
    number of 32 bits. *)
Definition plain_data (t : TCP) : Prop :=
  SYN t = false /\ FIN t = false /\ RST t = false /\ 0 <= Seq t < two32.

(** Every queued page starts after the next sequence number expected, which
    is a 32-bit number, and the queue together with [n] further bytes spans
    less than half of the sequence space. *)
Definition queue_ahead (half : halfconnection) (n : Z) : Prop :=
  (nextSeq half = invalidSequence \/ 0 <= nextSeq half < two32)
  /\ Forall (fun p => Difference (nextSeq half) (p_seq p) > 0) (queue half)
  /\ qbytes (queue half) + n < two31.

(** The half has nothing left to take from the segment [t]: it is closed, or
    it still waits for its first sequence number, or the segment lies ahead,
    or the segment is empty, or the whole segment lies before the next
    sequence number expected. *)
Definition absorbed (half : halfconnection) (t : TCP) : Prop :=
  closed half = true
  \/ nextSeq half = invalidSequence
  \/ Difference (nextSeq half) (Seq t) > 0
  \/ Payload t = []
  \/ (Difference (Seq t) (nextSeq half) <> 0
      /\ Difference (Seq t) (nextSeq half) >= len (Payload t)).

(** A stream that accepts every segment and leaves [start] as it finds it. *)
Definition accepts_all : Prop :=
  forall s t ci d n st ac, exists s', Accept s t ci d n st ac = (true, st, s').

(** A stream that never asks the assembler to keep bytes for it: the value
    it passes to [KeepFrom], if any, is negative. *)
Definition keeps_nothing : Prop :=
  forall s sg ac, fst (ReassembledSG s sg ac) < 0.

(** The pages of [ps] follow one another without a gap from the sequence
    number [s] on. *)
Fixpoint contiguous_from (s : Sequence) (ps : list page) : Prop :=
  match ps with
  | [] => True
  | p :: ps' => Difference s (p_seq p) = 0 /\ contiguous_from (Add s (len (p_bytes p))) ps'
  end.

(** The saved pages that [addPending] puts in front of a delivery starting
    at [firstSeq]: all of them if they end where the delivery starts, none
    otherwise. *)
Definition pending_for (half : halfconnection) (firstSeq : Sequence) : list page :=
  match saved half with
  | [] => []
  | p0 :: _ =>
      if Add (p_seq p0) (len (concat (map p_bytes (saved half)))) =? firstSeq
      then saved half else []
  end.

(** The bytes of a list of pages. *)
Definition pages_bytes (ps : list page) : list byte := concat (map p_bytes ps).

(** Every page of [q] holds bytes and starts at the sequence number [s] or
    after it. *)
Definition queue_beyond (s : Sequence) (q : list page) : Prop :=
  Forall (fun p => Difference s (p_seq p) >= 0 /\ 0 < len (p_bytes p)) q.

(** *** Relations between states, for the proofs *)

(** The fields of a half that only [AssembleWithContext], [skipFlush] and
    [closeHalfConnection] themselves write. *)
Definition half_frame (h h' : halfconnection) : Prop :=
  closed h' = closed h /\ nextSeq h' = nextSeq h /\ dir h' = dir h
  /\ lastSeen h' = lastSeen h /\ ackSeq h' = ackSeq h.

(** The fields of the assembler that the handling of bytes leaves alone. *)
Definition asm_frame (a a' : Assembler) : Prop :=
  opts a' = opts a /\ connPool a' = connPool a.

(** *** Operations on a connection *)

(** What the assembler may do to a connection. *)
Inductive operation :=
| OpAssemble (sd : side) (t : TCP) (ac : AssemblerContext)
| OpSkipFlush (sd : side)
| OpFlushClose (sd : side) (t tc : Z)
| OpClose (sd : side)
| OpFlushWithOptions (opt : FlushOptions)
| OpFlushAll.

Definition run_operation (a : Assembler) (conn : connection) (o : operation)
    : option (Assembler * connection) :=
  match o with
  | OpAssemble sd t ac => AssembleWithContext_conn a conn sd t ac
  | OpSkipFlush sd => skipFlush a conn sd
  | OpFlushClose sd t tc =>
      '(a1, conn1, _, _) ← flushClose a conn sd t tc; Some (a1, conn1)
  | OpClose sd => Some (closeHalfConnection a conn sd)
  | OpFlushWithOptions opt =>
      '(a1, conn1, _, _) ← FlushWithOptions_conn a conn opt 0 0; Some (a1, conn1)
  | OpFlushAll => FlushAll_conn a conn
  end.

(** Once both halves are closed the stream has received
    [ReassemblyComplete]. *)
Definition completion_inv (c : connection) : Prop :=
  closed (s2c c) = true -> closed (c2s c) = true -> completed c = true.

(** A step of a connection: closed halves stay closed, the record of calls
    grows, and the completion invariant survives. *)
Definition conn_step (c c' : connection) : Prop :=
  ckey c' = ckey c
  /\ (forall sd, closed (getHalf c sd) = true -> closed (getHalf c' sd) = true)
  /\ (exists l, received c' = received c ++ l)
  /\ (completion_inv c -> completion_inv c').

(** Two halves that hold the same pages and the same counters, whatever
    their sequence numbers and times. *)
Definition same_data (h h' : halfconnection) : Prop :=
  dir h' = dir h /\ pages h' = pages h /\ saved h' = saved h /\ queue h' = queue h
  /\ closed h' = closed h
  /\ queuedPackets h' = queuedPackets h /\ queuedBytes h' = queuedBytes h
  /\ overlapPackets h' = overlapPackets h /\ overlapBytes h' = overlapBytes h.

(** Two halves that differ in [lastSeen] at most. *)
Definition same_but_lastSeen (h h' : halfconnection) : Prop :=
  dir h' = dir h /\ pages h' = pages h /\ saved h' = saved h /\ queue h' = queue h
  /\ nextSeq h' = nextSeq h /\ ackSeq h' = ackSeq h /\ closed h' = closed h
  /\ queuedPackets h' = queuedPackets h /\ queuedBytes h' = queuedBytes h
  /\ overlapPackets h' = overlapPackets h /\ overlapBytes h' = overlapBytes h.

End Assembler.

Arguments ckey {Stream} _.
Arguments c2s {Stream} _.
Arguments s2c {Stream} _.
Arguments stream {Stream} _.
Arguments received {Stream} _.
Arguments getHalf {Stream} _ _.
Arguments setHalf {Stream} _ _ _.
Arguments conn_called {Stream} _ _ _.
Arguments conn_lastSeen {Stream} _.
Arguments deliveries {Stream} _.
Arguments completed {Stream} _.
Arguments completion_inv {Stream} _.
Arguments accepts_all {Stream} Accept.
Arguments keeps_nothing {Stream} ReassembledSG.
Arguments conn_step {Stream} _ _.
Arguments asm_frame {Stream} _ _.
Arguments finishAssemble {Stream} _ _ _ _.
Arguments conns {Stream} _.
Arguments users {Stream} _.
Arguments pool_set_conns {Stream} _ _.
Arguments pool_remove {Stream} _ _.
Arguments pool_connections {Stream} _.
Arguments pool_store {Stream} _ _.
Arguments opts {Stream} _.
Arguments ret {Stream} _.
Arguments pc {Stream} _.
Arguments connPool {Stream} _.
Arguments cacheLP {Stream} _.
Arguments cacheSG {Stream} _.
Arguments start {Stream} _.
Arguments asm_set_ret {Stream} _ _.
Arguments asm_set_pc {Stream} _ _.
Arguments asm_set_connPool {Stream} _ _.
Arguments asm_set_cacheLP {Stream} _ _.
Arguments asm_set_cacheSG {Stream} _ _.
Arguments asm_set_start {Stream} _ _.
Arguments NewAssembler {Stream} _.
Arguments newConnection {Stream} _ _ _.
Arguments addNextFromConn {Stream} _ _.
Arguments addPending {Stream} _ _ _.
Arguments addContiguous {Stream} _ _ _.
Arguments setStatsToSG {Stream} _ _.
Arguments buildSG {Stream} _ _.
Arguments checkOverlap pageBytes {Stream} _ _ _ _.
Arguments handleBytes pageBytes {Stream} _ _ _ _ _ _ _ _ _.
Arguments cleanSG pageBytes {Stream} _ _ _.
Arguments closeHalfConnection {Stream} ReassemblyComplete a conn sd.
Arguments sendToConnection pageBytes {Stream} ReassembledSG ReassemblyComplete a conn sd ac.
Arguments skipFlush pageBytes {Stream} ReassembledSG ReassemblyComplete a conn sd.
Arguments AssembleWithContext_conn pageBytes {Stream} Accept ReassembledSG
  ReassemblyComplete a conn sd t ac.
Arguments getConnection {Stream} New p k ts t ac.
Arguments AssembleWithContext pageBytes {Stream} Accept ReassembledSG
  ReassemblyComplete New a netFlow t ac.
Arguments flushClose_loop pageBytes {Stream} ReassembledSG ReassemblyComplete
  fuel a conn sd t flushed.
Arguments flushClose pageBytes {Stream} ReassembledSG ReassemblyComplete a conn sd t tc.
Arguments FlushWithOptions_conn pageBytes {Stream} ReassembledSG ReassemblyComplete
  a conn opt flushes closes.
Arguments FlushWithOptions_conns pageBytes {Stream} ReassembledSG ReassemblyComplete
  a cs opt flushes closes.
Arguments FlushWithOptions pageBytes {Stream} ReassembledSG ReassemblyComplete a opt.
Arguments FlushAll_half pageBytes {Stream} ReassembledSG ReassemblyComplete fuel a conn sd.
Arguments FlushAll_side pageBytes {Stream} ReassembledSG ReassemblyComplete a conn sd.
Arguments FlushAll_conn pageBytes {Stream} ReassembledSG ReassemblyComplete a conn.
Arguments FlushAll_conns pageBytes {Stream} ReassembledSG ReassemblyComplete a cs.
Arguments FlushAll pageBytes {Stream} ReassembledSG ReassemblyComplete a.
Arguments run_operation pageBytes {Stream} Accept ReassembledSG ReassemblyComplete a conn o.
Arguments Assemble pageBytes {Stream} Accept ReassembledSG ReassemblyComplete New
  a netFlow t now.
Arguments FlushCloseOlderThan pageBytes {Stream} ReassembledSG ReassemblyComplete a t.

End Reassembly.

(** * The reader pipeline: package [encoder] *)

Module Encoder.

Import Reassembly.

(** ** Standard-library functions used by the reader *)

Definition byte_val (b : byte) : Z := Z.of_N (Byte.to_N b).

Definition byte_in (lo hi : Z) (b : byte) : bool :=
  (lo <=? byte_val b) && (byte_val b <=? hi).

(** [utf8.ValidString(string(data))]: the bytes are a sequence of well-formed
    UTF-8 encodings (no overlong form, no surrogate, nothing above U+10FFFF). *)
Fixpoint utf8_ValidString (p : list byte) : bool :=
  match p with
  | [] => true
  | b0 :: r0 =>
      let x := byte_val b0 in
      if x <? 0x80 then utf8_ValidString r0
      else if (0xC2 <=? x) && (x <=? 0xDF) then
        match r0 with
        | b1 :: r1 => byte_in 0x80 0xBF b1 && utf8_ValidString r1
        | _ => false
        end
      else if (0xE0 <=? x) && (x <=? 0xEF) then
        match r0 with
        | b1 :: b2 :: r2 =>
            byte_in (if x =? 0xE0 then 0xA0 else 0x80)
                    (if x =? 0xED then 0x9F else 0xBF) b1
            && byte_in 0x80 0xBF b2 && utf8_ValidString r2
        | _ => false
        end
      else if (0xF0 <=? x) && (x <=? 0xF4) then
        match r0 with
        | b1 :: b2 :: b3 :: r3 =>
            byte_in (if x =? 0xF0 then 0x90 else 0x80)
                    (if x =? 0xF4 then 0x8F else 0xBF) b1
            && byte_in 0x80 0xBF b2 && byte_in 0x80 0xBF b3 && utf8_ValidString r3
        | _ => false
        end
      else false
  end.

(** [Endpoint.String()] of a port endpoint: the port in decimal. *)
Definition Endpoint_String (port : Z) : string :=
  DecimalString.NilZero.string_of_int (Z.to_int port).

(** [strconv.Atoi] on decimal numerals; the reader discards the error, which
    leaves 0. *)
Definition strconv_Atoi (s : string) : Z :=
  match DecimalString.NilZero.int_of_string s with
  | Some d => Z.of_int d
  | None => 0
  end.

(** ** The world the reader acts on *)

Section Reader.

(** Audit records written by [writeCredentials]. *)
Variable Credentials : Type.

(** What the reader takes from outside [tcpReader.go]: package variables,
    collaborators, library functions and constants, and the behaviour of the
    operating system. *)
Record Env := {
  (** [tcpConnectionHarvesters]: the pluggable byte scanners, taking the raw
      conversation, the identifier and the time of the first packet. *)
  tcpConnectionHarvesters : list (list byte -> string -> Z -> option Credentials);
  (** [resolvers.LookupServiceByPort(port, proto)]. *)
  LookupServiceByPort : Z -> string -> string;
  (** [c.Out], the root output directory. *)
  Out : string;
  (** [filepath.Join], [filepath.Clean], [path.Base], [path.Join]. *)
  filepath_Join : list string -> string;
  filepath_Clean : string -> string;
  path_Base : string -> string;
  path_Join : list string -> string;
  (** [ansi.Red], [ansi.Blue], [ansi.Reset]. *)
  ansi_Red : list byte;
  ansi_Blue : list byte;
  ansi_Reset : list byte;
  (** The operating system may refuse to open a file, fail while writing to
      it (after some bytes) or fail to close it. *)
  OpenFile_err : string -> option string;
  Copy_err : string -> list byte -> option (nat * string);
  Close_err : string -> option string }.

Variable env : Env.

(** The file system, the audit records, the statistics and the error log;
    [harvesterRuns] counts the harvesters that have been run. *)
Record World := {
  dirs : gset string;
  files : gmap string (list byte);
  credentials : list Credentials;
  harvesterRuns : Z;
  savedConnections : Z;
  errorLog : list string }.

Definition world_set_files (w : World) (v : gmap string (list byte)) : World :=
  {| dirs := dirs w; files := v; credentials := credentials w;
     harvesterRuns := harvesterRuns w; savedConnections := savedConnections w;
     errorLog := errorLog w |}.

Definition logReassemblyError (w : World) (task : string) : World :=
  {| dirs := dirs w; files := files w; credentials := credentials w;
     harvesterRuns := harvesterRuns w; savedConnections := savedConnections w;
     errorLog := errorLog w ++ [task] |}.

(** [writeCredentials(c)]: the audit record is emitted. *)
Definition writeCredentials (w : World) (c : Credentials) : World :=
  {| dirs := dirs w; files := files w; credentials := credentials w ++ [c];
     harvesterRuns := harvesterRuns w; savedConnections := savedConnections w;
     errorLog := errorLog w |}.

Definition world_ran_harvester (w : World) : World :=
  {| dirs := dirs w; files := files w; credentials := credentials w;
     harvesterRuns := harvesterRuns w + 1; savedConnections := savedConnections w;
     errorLog := errorLog w |}.

(** [os.MkdirAll(root, directoryPermission)]. *)
Definition os_MkdirAll (w : World) (root : string) : World :=
  {| dirs := {[ root ]} ∪ dirs w; files := files w; credentials := credentials w;
     harvesterRuns := harvesterRuns w; savedConnections := savedConnections w;
     errorLog := errorLog w |}.

Definition world_saved_connection (w : World) : World :=
  {| dirs := dirs w; files := files w; credentials := credentials w;
     harvesterRuns := harvesterRuns w; savedConnections := savedConnections w + 1;
     errorLog := errorLog w |}.

(** [os.OpenFile(name, O_CREATE|O_WRONLY|O_APPEND|O_SYNC, 0700)]: the file
    exists afterwards, with the content it had. *)
Definition os_OpenFile (w : World) (name : string) : World + string :=
  match OpenFile_err env name with
  | Some e => inr e
  | None => inl (world_set_files w (<[name := default [] (files w !! name)]> (files w)))
  end.

(** Writing to a file opened for appending. *)
Definition file_append (w : World) (name : string) (data : list byte) : World :=
  world_set_files w (<[name := default [] (files w !! name) ++ data]> (files w)).

(** [io.Copy(f, bytes.NewBuffer(data))] and the log entry that follows it. *)
Definition io_Copy (w : World) (name : string) (data : list byte) (task : string) : World :=
  match Copy_err env name data with
  | Some (n, _) => logReassemblyError (file_append w name (take n data)) task
  | None => file_append w name data
  end.

(** [f.Close()] and the log entry that follows a failure. *)
Definition file_Close (w : World) (name : string) (task : string) : World :=
  match Close_err env name with
  | Some _ => logReassemblyError w task
  | None => w
  end.

(** ** Service class *)

(** [getServiceName(data, destination)]. *)
Definition getServiceName (data : list byte) (destination : Flow) : string :=
  let dstPort := strconv_Atoi (Endpoint_String (fdst destination)) in
  let s := LookupServiceByPort env dstPort "tcp" in
  if negb (String.eqb s EmptyString) then s
  else if utf8_ValidString data then "utf8"
  else "unknown".

(** ** Saving a connection *)

(** The loop over the harvesters: stop after the first match. *)
Fixpoint runHarvesters (hs : list (list byte -> string -> Z -> option Credentials))
    (w : World) (raw : list byte) (ident : string) (firstPacket : Z) : World :=
  match hs with
  | [] => w
  | ch :: hs' =>
      match ch raw ident firstPacket with
      | Some c =>
          (* write audit record; stop after a match for now *)
          writeCredentials (world_ran_harvester w) c
      | None => runHarvesters hs' (world_ran_harvester w) raw ident firstPacket
      end
  end.

(** The path [saveConnection] writes to. *)
Definition connectionPath (raw : list byte) (ident : string) (transport : Flow) : string :=
  let typ := getServiceName raw transport in
  let root := filepath_Join env [Out env; "tcpConnections"; typ] in
  let base := filepath_Clean env (path_Base env ident) +:+ ".bin" in
  path_Join env [root; base].

(** [saveConnection(raw, colored, ident, firstPacket, transport)]: returns the
    world and the error ([None] is [nil]). *)
Definition saveConnection (w : World) (raw colored : list byte) (ident : string)
    (firstPacket : Z) (transport : Flow) : World * option string :=
  (* prevent saving zero bytes *)
  if len raw =? 0 then (w, None)
  else
    (* run harvesters against raw data *)
    let w := runHarvesters (tcpConnectionHarvesters env) w raw ident firstPacket in
    let typ := getServiceName raw transport in
    let root := filepath_Join env [Out env; "tcpConnections"; typ] in
    let base := filepath_Clean env (path_Base env ident) +:+ ".bin" in
    (* make sure root path exists *)
    let w := os_MkdirAll w root in
    let base := path_Join env [root; base] in
    let w := world_saved_connection w in
    (* append to files *)
    match os_OpenFile w base with
    | inr err => (logReassemblyError w "TCP conn create", Some err)
    | inl w =>
        (* save the colored version *)
        let w := io_Copy w base colored "TCP stream" in
        let w := file_Close w base "TCP conn" in
        (w, None)
    end.

(** ** Readers *)

(** The [tcpConnection] the two readers of a connection share. *)
Record tcpConnection := {
  ident : string;
  net : Flow;
  transport : Flow;
  firstPacket : Z;
  conversationRaw : list byte;
  conversationColored : list byte;
  last : bool }.

(** A channel of byte chunks: what has been sent and not yet received, and
    whether the channel has been closed. *)
Record bytesChan := {
  pending : list (list byte);
  chanClosed : bool }.

Record tcpReader := {
  r_ident : string;
  isClient : bool;
  bytes : bytesChan;
  data : list byte;
  clientData : list byte;
  serverData : list byte;
  saved : bool }.

(** The factory: the wait group counter and the number of active readers. *)
Record tcpConnectionFactory := {
  wg : Z;
  numActive : Z }.

(** [f.wg.Done()]: a negative counter panics. *)
Definition wg_Done (f : tcpConnectionFactory) : option tcpConnectionFactory :=
  if wg f - 1 <? 0 then None
  else Some {| wg := wg f - 1; numActive := numActive f |}.

(** [f.numActive--]. *)
Definition numActive_dec (f : tcpConnectionFactory) : tcpConnectionFactory :=
  {| wg := wg f; numActive := numActive f - 1 |}.

(** The receive loop at the head of [Read]: take chunks from the channel until
    one is not empty or the channel is closed and drained. Returns [h.data],
    [ok] and the channel; [None] when the reader blocks. *)
Fixpoint Read_receive (chunks : list (list byte)) (isClosed : bool)
    : option (list byte * bool * bytesChan) :=
  match chunks with
  | [] =>
      if isClosed then Some ([], false, {| pending := []; chanClosed := true |})
      else None
  | c :: chunks' =>
      match c with
      | [] => Read_receive chunks' isClosed
      | _ :: _ => Some (c, true, {| pending := chunks'; chanClosed := isClosed |})
      end
  end.

Inductive ReadResult :=
| ReadBlocks
| ReadEOF (h : tcpReader)
| ReadBytes (l : list byte) (h : tcpReader) (parent : tcpConnection).

(** [h.Read(p)] with [len(p) = n]. *)
Definition Read (h : tcpReader) (parent : tcpConnection) (n : nat) : ReadResult :=
  let received :=
    match data h with
    | [] => Read_receive (pending (bytes h)) (chanClosed (bytes h))
    | _ :: _ => Some (data h, true, bytes h)
    end in
  match received with
  | None => ReadBlocks
  | Some (d, ok, ch) =>
      if negb ok || (len d =? 0) then
        ReadEOF {| r_ident := r_ident h; isClient := isClient h; bytes := ch;
                   data := d; clientData := clientData h;
                   serverData := serverData h; saved := saved h |}
      else
        let dataCpy := take n d in
        let parent1 :=
          {| ident := ident parent; net := net parent; transport := transport parent;
             firstPacket := firstPacket parent;
             (* write raw *)
             conversationRaw := conversationRaw parent ++ dataCpy;
             (* colored for debugging *)
             conversationColored :=
               conversationColored parent
               ++ (if isClient h then ansi_Red env else ansi_Blue env) ++ dataCpy ++ ansi_Reset env;
             last := last parent |} in
        ReadBytes dataCpy
          {| r_ident := r_ident h; isClient := isClient h; bytes := ch;
             data := drop n d;
             clientData := if isClient h then clientData h ++ dataCpy else clientData h;
             serverData := if isClient h then serverData h else serverData h ++ dataCpy;
             saved := saved h |}
          parent1
  end.

Definition parent_set_last (p : tcpConnection) (v : bool) : tcpConnection :=
  {| ident := ident p; net := net p; transport := transport p;
     firstPacket := firstPacket p; conversationRaw := conversationRaw p;
     conversationColored := conversationColored p; last := v |}.

Definition reader_set_saved (h : tcpReader) (v : bool) : tcpReader :=
  {| r_ident := r_ident h; isClient := isClient h; bytes := bytes h; data := data h;
     clientData := clientData h; serverData := serverData h; saved := v |}.

(** [h.Cleanup(f, s2c, c2s)]: the reader, its parent, the factory and the
    world after the call; [None] if [wg.Done] panics. *)
Definition Cleanup (h : tcpReader) (parent : tcpConnection) (f : tcpConnectionFactory)
    (w : World) : option (tcpReader * tcpConnection * tcpConnectionFactory * World) :=
  (* save data for the current stream *)
  let '(h, w) :=
    if isClient h then
      let '(w1, _) :=
        saveConnection w (conversationRaw parent) (conversationColored parent)
          (ident parent) (firstPacket parent) (transport parent) in
      (reader_set_saved h true, w1)
    else (h, w) in
  (* determine if one side of the stream has already been closed *)
  if negb (last parent) then
    (* signal wait group *)
    f ← wg_Done f;
    let f := numActive_dec f in
    (* indicate close on the parent tcpConnection *)
    Some (h, parent_set_last parent true, f, w)
  else
    (* signal wait group *)
    f ← wg_Done f;
    let f := numActive_dec f in
    Some (h, parent, f, w).

(** ** Running a reader *)

(** [bufio.NewReader(h)]: a reader of the standard library that asks [h] for
    up to 4096 bytes whenever it has none left, and hands them out from its
    buffer. *)
Definition bufio_size : nat := 4096.

(** What a read of the stream comes to: the reader waits on its channel for
    ever, it has met the end of the stream, or it goes on, with [buffered]
    bytes left in the buffered reader. *)
Inductive ReadStreamResult :=
| StreamBlocks
| StreamEOF (h : tcpReader) (parent : tcpConnection)
| StreamMore (h : tcpReader) (parent : tcpConnection) (buffered : list byte).

(** [h.readStream(b)]: one [b.Read] into 512 fresh bytes, which are then
    dropped. The buffered reader calls [h.Read] only when its buffer is
    empty; [h.Read] fails with [io.EOF] only, which [readStream] returns. *)
Definition readStream (h : tcpReader) (parent : tcpConnection) (buffered : list byte)
    : ReadStreamResult :=
  match buffered with
  | _ :: _ => StreamMore h parent (drop 512 buffered)
  | [] =>
      match Read h parent bufio_size with
      | ReadBlocks => StreamBlocks
      | ReadEOF h' => StreamEOF h' parent
      | ReadBytes l h' parent' => StreamMore h' parent' (drop 512 l)
      end
  end.

(** The loop of [Run]: read the stream until an error. [fuel] bounds the
    number of turns; [StreamMore] says that the loop has not come to its end
    within them. *)
Fixpoint Run_loop (fuel : nat) (h : tcpReader) (parent : tcpConnection)
    (buffered : list byte) : ReadStreamResult :=
  match fuel with
  | O => StreamMore h parent buffered
  | S fuel' =>
      match readStream h parent buffered with
      | StreamMore h' parent' buffered' => Run_loop fuel' h' parent' buffered'
      | r => r
      end
  end.

Inductive RunResult :=
| RunBlocks
| RunUnfinished
| RunPanics
| RunDone (h : tcpReader) (parent : tcpConnection) (f : tcpConnectionFactory) (w : World).

(** [h.Run(f)]: read the stream to its end, then clean up (the deferred
    call). The two [Connection] values that [Run] builds are passed to
    [Cleanup], which does not look at them. *)
Definition Run (fuel : nat) (h : tcpReader) (parent : tcpConnection)
    (f : tcpConnectionFactory) (w : World) : RunResult :=
  match Run_loop fuel h parent [] with
  | StreamBlocks => RunBlocks
  | StreamMore _ _ _ => RunUnfinished
  | StreamEOF h' parent' =>
      match Cleanup h' parent' f w with
      | Some (h2, parent2, f2, w2) => RunDone h2 parent2 f2 w2
      | None => RunPanics
      end
  end.

(** ** Saving one direction of a connection *)

(** [saveTCPServiceBanner(data, ident, firstPacket, net, transport)], declared
    outside [tcpReader.go]: whatever it does to the world. *)
Variable saveTCPServiceBanner : World -> list byte -> string -> Z -> Flow -> Flow -> World.

(** The path [saveStream] writes to. *)
Definition streamPath (data : list byte) (ident : string) (transport : Flow) : string :=
  let typ := getServiceName data transport in
  let root := filepath_Join env [Out env; "tcpStreams"; typ] in
  let base := filepath_Clean env (path_Base env ident) +:+ ".bin" in
  path_Join env [root; base].

(** [saveStream(data, ident, isClient, firstPacket, net, transport)];
    [savedStreams] is the counter [reassemblyStats.savedStreams]. Returns the
    world, the counter and the error ([None] is [nil]). *)
Definition saveStream (w : World) (savedStreams : Z) (data : list byte) (ident : string)
    (isClient_ : bool) (firstPacket : Z) (net_ transport_ : Flow)
    : World * Z * option string :=
  (* prevent saving zero bytes *)
  if len data =? 0 then (w, savedStreams, None)
  else
    let typ := getServiceName data transport_ in
    let root := filepath_Join env [Out env; "tcpStreams"; typ] in
    let base := filepath_Clean env (path_Base env ident) +:+ ".bin" in
    (* make sure root path exists *)
    let w := os_MkdirAll w root in
    let base := path_Join env [root; base] in
    let savedStreams := savedStreams + 1 in
    (* append to files *)
    match os_OpenFile w base with
    | inr err => (logReassemblyError w "TCP stream create", savedStreams, Some err)
    | inl w =>
        let w := io_Copy w base data "TCP stream" in
        let w := file_Close w base "TCP stream" in
        let w :=
          if negb isClient_
          then saveTCPServiceBanner w data ident firstPacket net_ transport_
          else w in
        (w, savedStreams, None)
    end.

End Reader.

Arguments tcpConnectionHarvesters {Credentials} _.
Arguments LookupServiceByPort {Credentials} _.
Arguments Out {Credentials} _.
Arguments filepath_Join {Credentials} _.
Arguments filepath_Clean {Credentials} _.
Arguments path_Base {Credentials} _.
Arguments path_Join {Credentials} _.
Arguments ansi_Red {Credentials} _.
Arguments ansi_Blue {Credentials} _.
Arguments ansi_Reset {Credentials} _.
Arguments OpenFile_err {Credentials} _.
Arguments Copy_err {Credentials} _.
Arguments Close_err {Credentials} _.
Arguments dirs {Credentials} _.
Arguments files {Credentials} _.
Arguments credentials {Credentials} _.
Arguments harvesterRuns {Credentials} _.
Arguments savedConnections {Credentials} _.
Arguments errorLog {Credentials} _.
Arguments world_set_files {Credentials}.
Arguments logReassemblyError {Credentials}.
Arguments writeCredentials {Credentials}.
Arguments world_ran_harvester {Credentials}.
Arguments os_MkdirAll {Credentials}.
Arguments world_saved_connection {Credentials}.
Arguments os_OpenFile {Credentials}.
Arguments file_append {Credentials}.
Arguments io_Copy {Credentials}.
Arguments file_Close {Credentials}.
Arguments getServiceName {Credentials}.
Arguments runHarvesters {Credentials}.
Arguments connectionPath {Credentials}.
Arguments saveConnection {Credentials}.
Arguments Read {Credentials}.
Arguments Cleanup {Credentials}.
Arguments readStream {Credentials}.
Arguments Run_loop {Credentials}.
Arguments Run {Credentials}.
Arguments RunResult : clear implicits.
Arguments streamPath {Credentials}.
Arguments saveStream {Credentials}.

End Encoder.

(** * Concrete instances *)

Module Examples.

Import Reassembly Encoder.

(** The bytes of a string literal. *)
Definition bs (s : string) : list byte := String.list_byte_of_string s.

(** An environment without harvesters and without a service registry entry,
    where paths are joined with a slash, the colour escapes are those of
    [mgutz/ansi], and the operating system never fails. *)
Definition plainEnv : Env unit :=
  {| tcpConnectionHarvesters := [];
     LookupServiceByPort := fun _ _ => EmptyString;
     Out := "out";
     filepath_Join := String.concat "/";
     filepath_Clean := fun s => s;
     path_Base := fun s => s;
     path_Join := String.concat "/";
     ansi_Red := x1b :: bs "[31m";
     ansi_Blue := x1b :: bs "[34m";
     ansi_Reset := x1b :: bs "[0m";
     OpenFile_err := fun _ => None;
     Copy_err := fun _ _ => None;
     Close_err := fun _ => None |}.

Definition emptyWorld : World unit :=
  {| dirs := ∅; files := ∅; credentials := []; harvesterRuns := 0;
     savedConnections := 0; errorLog := [] |}.

Definition webFlow : Flow := {| fsrc := 49152; fdst := 80 |}.

(** A connection whose client has sent one chunk, not yet read. *)
Definition freshParent : tcpConnection :=
  {| ident := "10.0.0.1:49152->10.0.0.2:80"; net := {| fsrc := 1; fdst := 2 |};
     transport := webFlow; firstPacket := 0; conversationRaw := [];
     conversationColored := []; last := false |}.

Definition clientReader : tcpReader :=
  {| r_ident := "10.0.0.1:49152->10.0.0.2:80"; isClient := true;
     bytes := {| pending := [bs "A"]; chanClosed := true |}; data := [];
     clientData := []; serverData := []; saved := false |}.

Definition serverReader : tcpReader :=
  {| r_ident := "10.0.0.1:49152->10.0.0.2:80"; isClient := false;
     bytes := {| pending := []; chanClosed := true |}; data := [];
     clientData := []; serverData := []; saved := false |}.

(** The client reader and its parent after one [Read] into a buffer of 512
    bytes, as [readStream] issues it. *)
Definition clientAfterRead : tcpReader * tcpConnection :=
  match Read plainEnv clientReader freshParent 512 with
  | ReadBytes _ h p => (h, p)
  | _ => (clientReader, freshParent)
  end.

Definition twoReaders : tcpConnectionFactory := {| wg := 2; numActive := 2 |}.

(** The file the client's conversation goes to in [plainEnv]. *)
Definition clientFile : string :=
  "out/tcpConnections/utf8/10.0.0.1:49152->10.0.0.2:80.bin".

(** The content of [clientFile] once the client reader has cleaned up. *)
Definition clientFileAfterCleanup : option (list byte) :=
  '(_, _, _, w) ← Cleanup plainEnv clientAfterRead.1 clientAfterRead.2 twoReaders emptyWorld;
  files w !! clientFile.


(** [plainEnv] with three harvesters: the first finds nothing, the second
    and the third match every conversation. *)
Definition harvestingEnv : Env unit :=
  {| tcpConnectionHarvesters :=
       [fun _ _ _ => None; fun _ _ _ => Some tt; fun _ _ _ => Some tt];
     LookupServiceByPort := LookupServiceByPort plainEnv;
     Out := Out plainEnv;
     filepath_Join := filepath_Join plainEnv;
     filepath_Clean := filepath_Clean plainEnv;
     path_Base := path_Base plainEnv;
     path_Join := path_Join plainEnv;
     ansi_Red := ansi_Red plainEnv;
     ansi_Blue := ansi_Blue plainEnv;
     ansi_Reset := ansi_Reset plainEnv;
     OpenFile_err := OpenFile_err plainEnv;
     Copy_err := Copy_err plainEnv;
     Close_err := Close_err plainEnv |}.

(** [plainEnv] on a file system that refuses to open files. *)
Definition readOnlyEnv : Env unit :=
  {| tcpConnectionHarvesters := [];
     LookupServiceByPort := LookupServiceByPort plainEnv;
     Out := Out plainEnv;
     filepath_Join := filepath_Join plainEnv;
     filepath_Clean := filepath_Clean plainEnv;
     path_Base := path_Base plainEnv;
     path_Join := path_Join plainEnv;
     ansi_Red := ansi_Red plainEnv;
     ansi_Blue := ansi_Blue plainEnv;
     ansi_Reset := ansi_Reset plainEnv;
     OpenFile_err := fun _ => Some "read-only file system";
     Copy_err := Copy_err plainEnv;
     Close_err := Close_err plainEnv |}.

(** [plainEnv] on a disk that is full after three more bytes. *)
Definition fullDiskEnv : Env unit :=
  {| tcpConnectionHarvesters := [];
     LookupServiceByPort := LookupServiceByPort plainEnv;
     Out := Out plainEnv;
     filepath_Join := filepath_Join plainEnv;
     filepath_Clean := filepath_Clean plainEnv;
     path_Base := path_Base plainEnv;
     path_Join := path_Join plainEnv;
     ansi_Red := ansi_Red plainEnv;
     ansi_Blue := ansi_Blue plainEnv;
     ansi_Reset := ansi_Reset plainEnv;
     OpenFile_err := OpenFile_err plainEnv;
     Copy_err := fun _ _ => Some (3%nat, "no space left on device");
     Close_err := Close_err plainEnv |}.

(** The client reader with its channel still open. *)
Definition waitingReader : tcpReader :=
  {| r_ident := r_ident clientReader; isClient := true;
     bytes := {| pending := [bs "A"]; chanClosed := false |}; data := [];
     clientData := []; serverData := []; saved := false |}.

(** A service banner hook that leaves the world alone. *)
Definition noBanner (w : World unit) (data : list byte) (ident_ : string) (firstPacket_ : Z)
    (net_ transport_ : Flow) : World unit := w.

(** ** A stream that accepts every segment and keeps nothing *)

(** The page capacity used in the examples. *)
Definition examplePageBytes : nat := 1900.

Definition acceptAll (s : unit) (t : TCP) (ci : CaptureInfo) (d : TCPFlowDirection)
    (nextSeq_ : Sequence) (start_ : bool) (ac : AssemblerContext) : bool * bool * unit :=
  (true, start_, s).

Definition rejectAll (s : unit) (t : TCP) (ci : CaptureInfo) (d : TCPFlowDirection)
    (nextSeq_ : Sequence) (start_ : bool) (ac : AssemblerContext) : bool * bool * unit :=
  (false, start_, s).

Definition keepNothing (s : unit) (sg : reassemblyObject) (ac : option AssemblerContext)
    : Z * unit := (-1, s).

Definition complete (s : unit) (ac : option AssemblerContext) : bool * unit := (true, s).

Definition newStream (netFlow tcpFlow : Flow) (t : TCP) (ac : AssemblerContext) : unit := tt.

Definition clientNet : Flow := {| fsrc := 1; fdst := 2 |}.

Definition clientKey : key := (clientNet, webFlow).

Definition at_ (ts : Z) : AssemblerContext := {| GetCaptureInfo := {| Timestamp := ts |} |}.

(** A segment from the client to the server. *)
Definition segment (sq : Z) (syn fin : bool) (payload : string) : TCP :=
  {| SrcPort := fsrc webFlow; DstPort := fdst webFlow; Seq := sq; Ack := 0;
     SYN := syn; ACK := false; FIN := fin; RST := false; Payload := bs payload |}.

Definition syn (sq : Z) : TCP := segment sq true false EmptyString.
Definition data_ (sq : Z) (payload : string) : TCP := segment sq false false payload.
Definition fin (sq : Z) (payload : string) : TCP := segment sq false true payload.

(** A segment from the server to the client. *)
Definition reply (sq : Z) (syn_ : bool) (payload : string) : TCP :=
  {| SrcPort := fdst webFlow; DstPort := fsrc webFlow; Seq := sq; Ack := 0;
     SYN := syn_; ACK := false; FIN := false; RST := false; Payload := bs payload |}.

Definition emptyPool : StreamPool unit := {| conns := ∅; users := 0 |}.

Definition freshAssembler : Assembler unit := NewAssembler emptyPool.

(** [a.AssembleWithContext] for segments of the client, seen at time [ts]. *)
Definition assemble (a : Assembler unit) (t : TCP) (ts : Z) : option (Assembler unit) :=
  AssembleWithContext examplePageBytes acceptAll keepNothing complete newStream
    a clientNet t (at_ ts).

(** The segments of [ts] assembled one after the other, all seen at time 1. *)
Definition assembleAll (a : Assembler unit) (ts : list TCP) : option (Assembler unit) :=
  foldl (fun a t => a ← a; assemble a t 1) (Some a) ts.

Definition clientConn (a : option (Assembler unit)) : option (connection unit) :=
  a ← a; conns (connPool a) !! clientKey.

Definition clientHalf (a : option (Assembler unit)) : option halfconnection :=
  c2s <$> clientConn a.

(** The sequence numbers and bytes of the pages of a queue. *)
Definition pageRuns (q : list page) : list (Sequence * list byte) :=
  map (fun p => (p_seq p, p_bytes p)) q.


(** A page [EFGH] queued at 1010, and an assembler about to check the
    segment [abcd] at 1008 against it. *)
Definition queuedEFGH : page :=
  {| p_id := 0; p_seq := 1010; p_bytes := bs "EFGH"; p_seen := 1;
     p_ac := Some (at_ 1); p_end := false |}.

Definition halfWithEFGH : halfconnection :=
  {| dir := TCPDirClientToServer; pages := 1; Reassembly.saved := []; queue := [queuedEFGH];
     nextSeq := 1001; ackSeq := invalidSequence; lastSeen := 1; closed := false;
     queuedPackets := 1; queuedBytes := 4; overlapPackets := 0; overlapBytes := 0 |}.

Definition checkingAbcd : Assembler unit :=
  asm_set_cacheLP freshAssembler
    {| lp_bytes := bs "abcd"; lp_start := false; lp_end := false;
       lp_ci := {| Timestamp := 1 |}; lp_ac := Some (at_ 1); lp_seq := 1008 |}.

(** An assembler about to check the segment [payload] at [sq]. *)
Definition checkingSegment (sq : Z) (payload : string) : Assembler unit :=
  asm_set_cacheLP freshAssembler
    {| lp_bytes := bs payload; lp_start := false; lp_end := false;
       lp_ci := {| Timestamp := 1 |}; lp_ac := Some (at_ 1); lp_seq := sq |}.


(** An assembler whose pool holds one connection, with two pages queued
    behind a gap from the client and nothing yet from the server. *)
Definition withQueuedPages : Assembler unit :=
  default freshAssembler
    (assembleAll freshAssembler [syn 1000; data_ 1010 "XY"; data_ 1020 "PQ"]).


(** The assembler and the connection once the client's SYN 1000 has been
    assembled. *)
Definition afterSyn : Assembler unit :=
  default freshAssembler (assembleAll freshAssembler [syn 1000]).

Definition connAfterSyn : connection unit :=
  default (newConnection clientKey tt 1) (clientConn (Some afterSyn)).


(** [AssembleWithContext] on the client's half of a connection at hand. *)
Definition assembleConn (ac : Assembler unit * connection unit) (t : TCP) (ts : Z)
    : option (Assembler unit * connection unit) :=
  AssembleWithContext_conn examplePageBytes acceptAll keepNothing complete
    ac.1 ac.2 C2S t (at_ ts).

(** After the SYN: [ABCD] at 1001 once, and twice. *)
Definition afterABCD : Assembler unit * connection unit :=
  default (afterSyn, connAfterSyn)
    (assembleConn (afterSyn, connAfterSyn) (data_ 1001 "ABCD") 1).

Definition afterABCDtwice : Assembler unit * connection unit :=
  default afterABCD (assembleConn afterABCD (data_ 1001 "ABCD") 2).

(** After the SYN: a FIN at 1001. *)
Definition afterFin : Assembler unit * connection unit :=
  default (afterSyn, connAfterSyn) (assembleConn (afterSyn, connAfterSyn) (fin 1001 EmptyString) 1).

(** After the SYN: the client's half closed. *)
Definition afterClose : Assembler unit * connection unit :=
  closeHalfConnection complete afterSyn connAfterSyn C2S.

(** ** A stream that holds back a lone [K], under a limit of two pages *)

(** The stream keeps the bytes of a delivery that consists of the single
    byte [K] (it waits for more), and nothing of any other delivery. *)
Definition keepLoneK (s : unit) (sg : reassemblyObject) (ac : option AssemblerContext)
    : Z * unit :=
  (match sg_payload sg with
   | [b] => if Byte.eqb b "K"%byte then 0 else -1
   | _ => -1
   end, s).

Definition limitedAssembler : Assembler unit :=
  {| opts := {| MaxBufferedPagesTotal := 2; MaxBufferedPagesPerConnection := 0 |};
     ret := []; pc := newPageCache; connPool := emptyPool; cacheLP := emptyLP;
     cacheSG := emptySG; start := false |}.

Definition assembleK (a : Assembler unit) (t : TCP) : option (Assembler unit) :=
  AssembleWithContext examplePageBytes acceptAll keepLoneK complete newStream
    a (if bool_decide (SrcPort t = fsrc webFlow) then clientNet else Flow_Reverse clientNet)
    t (at_ 1).

Definition assembleAllK (a : Assembler unit) (ts : list TCP) : option (Assembler unit) :=
  foldl (fun a t => a ← a; assembleK a t) (Some a) ts.

(** Both directions open, [XY] queued behind a gap from the client, a [K]
    from the server held back by the stream; then [PQ], further ahead. *)
Definition beforePQ : list TCP :=
  [syn 1000; reply 5000 true EmptyString; data_ 1010 "XY"; reply 5001 false "K"].

Definition segmentPQ : TCP := data_ 1020 "PQ".

(** The payloads delivered for the client's direction. *)
Definition clientDeliveries (a : option (Assembler unit)) : option (list (list byte)) :=
  c ← clientConn a;
  Some (omap (fun cb =>
                match cb with
                | CbReassembled sg =>
                    match sg_Direction sg with
                    | TCPDirClientToServer => Some (sg_payload sg)
                    | TCPDirServerToClient => None
                    end
                | _ => None
                end) (received c)).

(** ** Segments out of order, late starts and retransmissions *)

Definition segmentAB : TCP := data_ 1001 "AB".
Definition segmentABCD : TCP := data_ 1001 "ABCD".
Definition segmentCDEF : TCP := data_ 1003 "CDEF".
Definition segmentEF : TCP := data_ 1005 "EF".
Definition segmentEFGH : TCP := data_ 1005 "EFGH".

(** After the SYN: [EFGH] at 1005, four bytes ahead, then [ABCD] at 1001. *)
Definition afterEFGH : Assembler unit * connection unit :=
  default (afterSyn, connAfterSyn)
    (assembleConn (afterSyn, connAfterSyn) (data_ 1005 "EFGH") 1).

Definition afterEFGHthenABCD : Assembler unit * connection unit :=
  default afterEFGH (assembleConn afterEFGH (data_ 1001 "ABCD") 2).

(** After [ABCD] at 1001: [CDEF] at 1003, of which [CD] has been delivered. *)
Definition afterCDEF : Assembler unit * connection unit :=
  default afterABCD (assembleConn afterABCD (data_ 1003 "CDEF") 2).

(** A connection that has seen no segment. *)
Definition freshConn : connection unit := newConnection clientKey tt 1.

(** [AB] at 1001 before the SYN, then the SYN at 1000. *)
Definition beforeSyn : Assembler unit * connection unit :=
  default (freshAssembler, freshConn)
    (assembleConn (freshAssembler, freshConn) (data_ 1001 "AB") 1).

Definition afterLateSyn : Assembler unit * connection unit :=
  default beforeSyn (assembleConn beforeSyn (syn 1000) 2).

(** The connection of [withQueuedPages], the first page of its queue and
    the pages behind it. *)
Definition connWithQueuedPages : connection unit :=
  default freshConn (clientConn (Some withQueuedPages)).

Definition firstQueuedPage : page :=
  default queuedEFGH (head (queue (c2s connWithQueuedPages))).

Definition otherQueuedPages : list page := tail (queue (c2s connWithQueuedPages)).

Definition afterSkipFlush : Assembler unit * connection unit :=
  default (withQueuedPages, connWithQueuedPages)
    (skipFlush examplePageBytes keepNothing complete withQueuedPages connWithQueuedPages C2S).

(** The client's half of that connection flushed and closed at time 10. *)
Definition afterFlushClose : Assembler unit * connection unit * bool * bool :=
  default (withQueuedPages, connWithQueuedPages, false, false)
    (flushClose examplePageBytes keepNothing complete withQueuedPages connWithQueuedPages
       C2S 10 10).

Definition afterFlushConn : Assembler unit * connection unit * Z * Z :=
  default (withQueuedPages, connWithQueuedPages, 0, 0)
    (FlushWithOptions_conn examplePageBytes keepNothing complete withQueuedPages
       connWithQueuedPages {| T := 10; TC := 10 |} 0 0).

(** The assembler after the SYN, with a limit of one page per connection;
    then [EFGH] at 1005. *)
Definition onePageAssembler : Assembler unit :=
  {| opts := {| MaxBufferedPagesTotal := 0; MaxBufferedPagesPerConnection := 1 |};
     ret := []; pc := pc afterSyn; connPool := connPool afterSyn; cacheLP := emptyLP;
     cacheSG := emptySG; start := false |}.

Definition afterForcedEFGH : Assembler unit * connection unit :=
  default (onePageAssembler, connAfterSyn)
    (AssembleWithContext_conn examplePageBytes acceptAll keepNothing complete
       onePageAssembler connAfterSyn C2S (data_ 1005 "EFGH") (at_ 2)).

(** A stream that keeps the bytes of every delivery from offset 2 on. *)
Definition keepFromTwo (s : unit) (sg : reassemblyObject) (ac : option AssemblerContext)
    : Z * unit := (2, s).

End Examples.

(** * Properties of the assembler *)

Module ReassemblyProps.

Import Reassembly Examples.

(** ** Sequence arithmetic *)

Ltac seq_arith :=
  unfold Difference, Add, signed32, two32, two31, invalidSequence in *;
  repeat match goal with
         | |- context [(?a <? ?b)] => destruct (Z.ltb_spec a b)
         | H : context [(?a <? ?b)] |- _ => destruct (Z.ltb_spec a b)
         end;
  Z.div_mod_to_equations; lia.

Lemma signed32_range (x : Z) : - two31 <= signed32 x < two31.
Proof. seq_arith. Qed.

Lemma signed32_small (x : Z) : - two31 <= x < two31 -> signed32 x = x.
Proof. intros. seq_arith. Qed.

Lemma Add_range (s : Sequence) (t : Z) : 0 <= Add s t < two32.
Proof. seq_arith. Qed.

Lemma Add_valid (s : Sequence) (t : Z) : Add s t <> invalidSequence.
Proof. seq_arith. Qed.

Lemma Add_Add (s : Sequence) (t u : Z) : Add (Add s t) u = Add s (t + u).
Proof. seq_arith. Qed.

Lemma Difference_self (s : Sequence) : Difference s s = 0.
Proof. seq_arith. Qed.

(** The distance from [e] to the end of a run of [l] bytes that starts at
    [c]. *)
Lemma Difference_Add (e c : Sequence) (l : Z) :
  Difference e (Add c l) = signed32 (Difference e c + l).
Proof. seq_arith. Qed.


(** ** Overlap resolution *)

(** A page [EFGH] queued at 1010 and a new segment [abcd] at 1008: the new
    segment is queued whole and the queued page loses its first two bytes. *)
Lemma head_overlap_cuts_queued_page :
  pageRuns <$> (queue <$> clientHalf (assembleAll freshAssembler [syn 1000; data_ 1010 "EFGH"]))
  = Some [(1010, bs "EFGH")]
  /\ pageRuns <$> (queue <$> clientHalf (assembleAll freshAssembler
                                           [syn 1000; data_ 1010 "EFGH"; data_ 1008 "abcd"]))
     = Some [(1008, bs "abcd"); (1012, bs "GH")].
Proof. split; vm_compute; reflexivity. Qed.


#[local] Arguments pc_next : simpl never.

Section Overlap.

Variable pageBytes : nat.
Variable Stream : Type.

Lemma len_nonneg {A} (b : list A) : 0 <= len b.
Proof. unfold len. lia. Qed.

Lemma len_app {A} (b c : list A) : len (b ++ c) = len b + len c.
Proof. unfold len. rewrite length_app. lia. Qed.

Lemma len_nil_inv {A} (b : list A) : len b = 0 -> b = [].
Proof. destruct b; [done | discriminate]. Qed.

(** With enough fuel the chain of pages holds exactly the bytes given. *)
Lemma fillPages_concat (fuel : nat) (c : pageCache) (ts : Z) (e : bool) (cur : page)
    (s : Sequence) (b : list byte) :
  (0 < pageBytes)%nat ->
  (length (drop (Nat.min (length b) pageBytes) b) <= fuel)%nat ->
  concat (map p_bytes (fillPages pageBytes fuel c ts e cur s b).1) = b.
Proof.
  intros Hpb. revert c cur s b.
  induction fuel as [| fuel IH]; intros c cur s b Hfuel; cbn [fillPages].
  - destruct (drop (Nat.min (length b) pageBytes) b) eqn:Hrest; cbn.
    + rewrite app_nil_r.
      pose proof (take_drop (Nat.min (length b) pageBytes) b) as Htd.
      rewrite Hrest, app_nil_r in Htd. exact Htd.
    + simpl in Hfuel. lia.
  - destruct (drop (Nat.min (length b) pageBytes) b) as [| x rest] eqn:Hrest.
    + cbn. rewrite app_nil_r.
      pose proof (take_drop (Nat.min (length b) pageBytes) b) as Htd.
      rewrite Hrest, app_nil_r in Htd. exact Htd.
    + destruct (pc_next c ts) as [nxt c1].
      destruct (fillPages pageBytes fuel c1 ts e nxt
                  (Add s (Z.of_nat (Nat.min (length b) pageBytes))) (x :: rest))
        as [ps c2] eqn:Hrec.
      assert (IH' : concat (map p_bytes ps) = x :: rest).
      { pose proof (IH c1 nxt (Add s (Z.of_nat (Nat.min (length b) pageBytes))) (x :: rest)) as IH'.
        rewrite Hrec in IH'. apply IH'.
        rewrite length_drop. simpl in Hfuel |- *. destruct pageBytes; [lia |]. lia. }
      cbn. rewrite IH', <- Hrest. apply take_drop.
Qed.

Lemma fillPages_first_seq (fuel : nat) (c : pageCache) (ts : Z) (e : bool) (cur : page)
    (s : Sequence) (b : list byte) :
  p_seq <$> head (fillPages pageBytes fuel c ts e cur s b).1 = Some s.
Proof.
  destruct fuel; cbn [fillPages].
  - destruct (drop (Nat.min (length b) pageBytes) b); reflexivity.
  - destruct (drop (Nat.min (length b) pageBytes) b); [reflexivity |].
    destruct (pc_next c ts) as [nxt c1].
    destruct (fillPages pageBytes fuel c1 ts e nxt _ _). reflexivity.
Qed.

(** The pages a live packet is turned into hold its bytes, from its sequence
    number on. *)
Lemma lp_convertToPages_all (lp : livePacket) (c : pageCache) (ac : option AssemblerContext) :
  (0 < pageBytes)%nat ->
  exists ps n c',
    lp_convertToPages pageBytes lp c 0 ac = Some (ps, n, c')
    /\ concat (map p_bytes ps) = lp_bytes lp
    /\ p_seq <$> head ps = Some (Add (lp_seq lp) 0).
Proof.
  intros Hpb. unfold lp_convertToPages, slice_from.
  assert (H0 : (0 <=? 0) && (0 <=? len (lp_bytes lp)) = true).
  { pose proof (len_nonneg (lp_bytes lp)). apply andb_true_iff. split; apply Z.leb_le; lia. }
  rewrite H0. cbn -[pc_next fillPages Add].
  change (Z.to_nat 0) with 0%nat. rewrite drop_0.
  destruct (pc_next c (Timestamp (lp_ci lp))) as [first c1].
  set (first1 := {| p_id := p_id first; p_seq := p_seq first; p_bytes := p_bytes first;
                    p_seen := p_seen first; p_ac := ac; p_end := false |}).
  pose proof (fillPages_concat (length (lp_bytes lp)) c1 (Timestamp (lp_ci lp)) (lp_end lp)
                first1 (Add (lp_seq lp) 0) (lp_bytes lp) Hpb) as Hc.
  pose proof (fillPages_first_seq (length (lp_bytes lp)) c1 (Timestamp (lp_ci lp)) (lp_end lp)
                first1 (Add (lp_seq lp) 0) (lp_bytes lp)) as Hs.
  destruct (fillPages pageBytes (length (lp_bytes lp)) c1 (Timestamp (lp_ci lp)) (lp_end lp)
              first1 (Add (lp_seq lp) 0) (lp_bytes lp)) as [ps c2].
  eexists _, _, _. split; [reflexivity |]. split; [| exact Hs].
  apply Hc. rewrite length_drop. lia.
Qed.

(** One turn of the loop of [checkOverlap] on a page whose head the new range
    overlaps. *)
Lemma checkOverlap_loop_case4 (start end_ : Sequence) (cur : page) (prevs : list page)
    (st : overlapState) :
  len (p_bytes cur) < two31 ->
  Difference start (p_seq cur) > 0 ->
  Difference end_ (p_seq cur) < 0 ->
  Difference end_ (Add (p_seq cur) (len (p_bytes cur))) > 0 ->
  Difference start (Add (p_seq cur) (len (p_bytes cur))) > 0 ->
  0 < - Difference end_ (p_seq cur) < len (p_bytes cur)
  /\ checkOverlap_loop start end_ (cur :: prevs) st
     = checkOverlap_loop start end_ prevs
         (os_set_next st (cut_head cur (- Difference end_ (p_seq cur)))).
Proof.
  intros HL Hs He Hee Hse.
  assert (Hk : 0 < - Difference end_ (p_seq cur) < len (p_bytes cur)).
  { rewrite Difference_Add in Hee. pose proof (len_nonneg (p_bytes cur)).
    pose proof (signed32_range (end_ - end_)).
    revert Hee He HL H. generalize (len (p_bytes cur)). intros L.
    generalize (p_seq cur). intros cs. intros. seq_arith. }
  split; [exact Hk |].
  simpl.
  destruct (Z.gtb_spec (Difference end_ (p_seq cur)) 0); [lia |].
  destruct (Z.leb_spec (Difference start (Add (p_seq cur) (len (p_bytes cur)))) 0); [lia |].
  destruct (Z.leb_spec (Difference end_ (Add (p_seq cur) (len (p_bytes cur)))) 0); [lia |].
  simpl.
  destruct (Z.ltb_spec (Difference end_ (Add (p_seq cur) (len (p_bytes cur)))) 0); [lia |].
  simpl.
  destruct (Z.gtb_spec (Difference start (p_seq cur)) 0); [| lia].
  destruct (Z.ltb_spec (Difference end_ (p_seq cur)) 0); [| lia].
  simpl. unfold slice_from.
  destruct (Z.leb_spec 0 (- Difference end_ (p_seq cur))); [| lia].
  destruct (Z.leb_spec (- Difference end_ (p_seq cur)) (len (p_bytes cur))); [| lia].
  simpl. reflexivity.
Qed.

(** C1 (amended). In [checkOverlap], when the new range [start, end)
    extends before a queued page [cur = [cs, ce)] at its head only, with
    [start < cs] and [cs < end < ce], it is the queued page that is cut: [cur]
    loses its first [end - cs] bytes and starts at [end]; the new range is
    not truncated, all of its bytes remain to be queued, in front of what
    is left of [cur]. *)
Theorem checkOverlap_head_overlap (a : Assembler Stream) (half : halfconnection)
    (cur : page) (prevs : list page) (st : overlapState) (ac : AssemblerContext) :
  (0 < pageBytes)%nat ->
  len (p_bytes cur) < two31 ->
  Difference (lp_seq (cacheLP a)) (p_seq cur) > 0 ->
  Difference (lp_endSeq (cacheLP a)) (p_seq cur) < 0 ->
  Difference (lp_endSeq (cacheLP a)) (page_end cur) > 0 ->
  Difference (lp_seq (cacheLP a)) (page_end cur) > 0 ->
  0 < - Difference (lp_endSeq (cacheLP a)) (p_seq cur) < len (p_bytes cur)
  /\ p_bytes (cut_head cur (- Difference (lp_endSeq (cacheLP a)) (p_seq cur)))
       <> p_bytes cur
  /\ checkOverlap_loop (lp_seq (cacheLP a)) (lp_endSeq (cacheLP a)) (cur :: prevs) st
     = checkOverlap_loop (lp_seq (cacheLP a)) (lp_endSeq (cacheLP a)) prevs
         (os_set_next st (cut_head cur (- Difference (lp_endSeq (cacheLP a)) (p_seq cur))))
  /\ os_bytes (os_set_next st (cut_head cur (- Difference (lp_endSeq (cacheLP a)) (p_seq cur))))
     = os_bytes st
  /\ (queue half = [cur] ->
      exists a' half' ps,
        checkOverlap pageBytes a half true ac = Some (a', half')
        /\ queue half'
           = ps ++ [cut_head cur (- Difference (lp_endSeq (cacheLP a)) (p_seq cur))]
        /\ concat (map p_bytes ps) = lp_bytes (cacheLP a)
        /\ p_seq <$> head ps = Some (Add (lp_seq (cacheLP a)) 0)
        /\ overlapBytes half' = overlapBytes half
        /\ queuedBytes half' = queuedBytes half + len (lp_bytes (cacheLP a))).
Proof.
  intros Hpb HL Hs He Hee Hse.
  destruct (checkOverlap_loop_case4 (lp_seq (cacheLP a)) (lp_endSeq (cacheLP a)) cur prevs st
              HL Hs He Hee Hse) as [Hk Hloop].
  split; [exact Hk |]. split.
  { unfold cut_head. simpl. intros Heq.
    apply (f_equal length) in Heq. rewrite length_drop in Heq.
    unfold len in Hk. lia. }
  split; [exact Hloop |]. split; [reflexivity |].
  intros Hq.
  assert (Hlen : len (lp_bytes (cacheLP a)) > 0).
  { unfold lp_endSeq in He. pose proof (len_nonneg (lp_bytes (cacheLP a))).
    revert Hs He H. generalize (len (lp_bytes (cacheLP a))) (lp_seq (cacheLP a)) (p_seq cur).
    intros L s0 cs. intros. seq_arith. }
  unfold checkOverlap. rewrite Hq. cbn [rev app rev_append].
  fold (lp_endSeq (cacheLP a)).
  change (rev [cur]) with [cur].
  rewrite (proj2 (checkOverlap_loop_case4 (lp_seq (cacheLP a)) (lp_endSeq (cacheLP a)) cur []
                    _ HL Hs He Hee Hse)).
  cbn [checkOverlap_loop mbind option_bind os_set_next os_bytes os_skipped os_next
       os_overlapPackets os_overlapBytes os_pages os_pc app].
  destruct (Z.gtb_spec (len (lp_bytes (cacheLP a))) 0) as [_ | Hn]; [| lia].
  cbn [andb].
  destruct (lp_convertToPages_all
              (lp_set_bytes_seq (cacheLP a) (lp_bytes (cacheLP a)) (lp_seq (cacheLP a)))
              (pc (asm_set_cacheLP (asm_set_pc a (pc a))
                     (lp_set_bytes_seq (cacheLP a) (lp_bytes (cacheLP a)) (lp_seq (cacheLP a)))))
              (Some ac) Hpb) as (ps & n & c' & Hconv & Hcat & Hhd).
  rewrite Hconv. cbn [mbind option_bind].
  eexists _, _, ps. split; [reflexivity |].
  cbn. repeat split; try assumption; reflexivity.
Qed.

End Overlap.

Lemma checkOverlap_head_overlap_witness :
  exists a' half' ps,
    checkOverlap examplePageBytes checkingAbcd halfWithEFGH true (at_ 1) = Some (a', half')
    /\ queue half' = ps ++ [cut_head queuedEFGH 2]
    /\ concat (map p_bytes ps) = bs "abcd"
    /\ p_bytes (cut_head queuedEFGH 2) = bs "GH".
Proof.
  destruct (checkOverlap_head_overlap examplePageBytes unit checkingAbcd halfWithEFGH
              queuedEFGH [] {| os_bytes := []; os_skipped := []; os_next := [];
                               os_overlapPackets := 0; os_overlapBytes := 0;
                               os_pages := 0; os_pc := newPageCache |} (at_ 1))
    as (_ & _ & _ & _ & H).
  - unfold examplePageBytes. lia.
  - vm_compute. reflexivity.
  - vm_compute. reflexivity.
  - vm_compute. reflexivity.
  - vm_compute. reflexivity.
  - vm_compute. reflexivity.
  - destruct (H eq_refl) as (a' & half' & ps & E & Hq & Hc & _).
    exists a', half', ps. repeat split; assumption.
Defined.

(** ** What the parts of the assembler leave alone *)

Section Frames.

Variable pageBytes : nat.
Variable Stream : Type.
Variable Accept :
  Stream -> TCP -> CaptureInfo -> TCPFlowDirection -> Sequence -> bool ->
  AssemblerContext -> bool * bool * Stream.
Variable ReassembledSG :
  Stream -> reassemblyObject -> option AssemblerContext -> Z * Stream.
Variable ReassemblyComplete : Stream -> option AssemblerContext -> bool * Stream.

Lemma half_frame_refl h : half_frame h h.
Proof. unfold half_frame. tauto. Qed.

Lemma half_frame_trans h1 h2 h3 : half_frame h1 h2 -> half_frame h2 h3 -> half_frame h1 h3.
Proof. unfold half_frame. intuition congruence. Qed.

Lemma asm_frame_refl (a : Assembler Stream) : asm_frame a a.
Proof. unfold asm_frame. tauto. Qed.

Lemma asm_frame_trans (a1 a2 a3 : Assembler Stream) :
  asm_frame a1 a2 -> asm_frame a2 a3 -> asm_frame a1 a3.
Proof. unfold asm_frame. intuition congruence. Qed.

Lemma checkOverlap_frame (a : Assembler Stream) half q ac a' half' :
  checkOverlap pageBytes a half q ac = Some (a', half') ->
  half_frame half half' /\ asm_frame a a' /\ ret a' = ret a
  /\ saved half' = saved half /\ lp_seq (cacheLP a') = lp_seq (cacheLP a)
  /\ lp_end (cacheLP a') = lp_end (cacheLP a)
  /\ lp_start (cacheLP a') = lp_start (cacheLP a).
Proof.
  unfold checkOverlap, half_frame, asm_frame. intros H.
  repeat (simplify_option_eq || case_match); simpl; tauto.
Qed.

Lemma overlapExisting_frame half s e b b' s' half' :
  overlapExisting half s e b = Some (b', s', half') ->
  half_frame half half' /\ queue half' = queue half /\ saved half' = saved half
  /\ pages half' = pages half.
Proof.
  unfold overlapExisting, half_frame. intros H.
  repeat (simplify_option_eq || case_match); simpl; tauto.
Qed.

Lemma addNextFromConn_frame (a : Assembler Stream) half a' half' :
  addNextFromConn a half = (a', half') ->
  half_frame half half' /\ asm_frame a a' /\ saved half' = saved half
  /\ (length (queue half') <= length (queue half))%nat.
Proof.
  unfold addNextFromConn, half_frame, asm_frame. intros H.
  destruct (queue half) as [| p q] eqn:Hq; simplify_eq; simpl; rewrite ?Hq; simpl;
    repeat split; auto; lia.
Qed.

Lemma handleBytes_frame (a : Assembler Stream) b s half ci st en act ac a' half' act' :
  handleBytes pageBytes a b s half ci st en act ac = Some (a', half', act') ->
  half_frame half half' /\ asm_frame a a' /\ saved half' = saved half
  /\ act_nextSeq act' = act_nextSeq act.
Proof.
  unfold handleBytes. intros H.
  destruct (act_queue act).
  - destruct (checkOverlap pageBytes _ half true ac) as [[a1 half1] |] eqn:E1;
      [| discriminate].
    apply checkOverlap_frame in E1. simpl in H.
    destruct E1 as (F1 & G1 & _ & S1 & _).
    case_match.
    + destruct (addNextFromConn a1 half1) as [a2 half2] eqn:E2.
      apply addNextFromConn_frame in E2. destruct E2 as (F2 & G2 & S2 & _).
      simplify_eq. unfold asm_frame in *. simpl in *.
      split; [eapply half_frame_trans; eassumption |].
      split; [intuition congruence |]. split; congruence.
    + simplify_eq. unfold asm_frame in *. simpl in *.
      split; [assumption |]. split; [intuition congruence |]. split; congruence.
  - destruct (overlapExisting half s _ _) as [[[b1 s1] half1] |] eqn:E1; [| discriminate].
    apply overlapExisting_frame in E1. destruct E1 as (F1 & _ & S1 & _).
    simpl in H.
    destruct (checkOverlap pageBytes _ half1 false ac) as [[a2 half2] |] eqn:E2;
      [| discriminate].
    apply checkOverlap_frame in E2. destruct E2 as (F2 & G2 & _ & S2 & _).
    simpl in H.
    case_match; simplify_eq; unfold asm_frame in *; simpl in *;
      (split; [eapply half_frame_trans; eassumption |];
       split; [intuition congruence |]; split; congruence).
Qed.

Lemma addPending_frame (a : Assembler Stream) half fs a' half' n :
  addPending a half fs = (a', half', n) ->
  half_frame half half' /\ asm_frame a a' /\ queue half' = queue half.
Proof.
  unfold addPending, half_frame, asm_frame. intros H.
  repeat (simplify_eq || case_match); simpl; tauto.
Qed.

Lemma addContiguous_loop_length q ls r q' ls' r' :
  addContiguous_loop q ls r = (q', ls', r') -> (length q' <= length q)%nat.
Proof.
  revert ls r. induction q as [| p q IH]; intros ls r H; simpl in H.
  - simplify_eq. simpl. lia.
  - case_match.
    + apply IH in H. simpl. lia.
    + simplify_eq. lia.
Qed.

Lemma addContiguous_frame (a : Assembler Stream) half ls a' half' ls' :
  addContiguous a half ls = (a', half', ls') ->
  half_frame half half' /\ asm_frame a a' /\ saved half' = saved half
  /\ (length (queue half') <= length (queue half))%nat.
Proof.
  unfold addContiguous, half_frame, asm_frame. intros H.
  destruct (queue half) as [| p q] eqn:Hq.
  - simplify_eq. rewrite Hq. repeat split; auto.
  - destruct (addContiguous_loop (p :: q) _ (ret a)) as [[q1 ls1] r1] eqn:El.
    apply addContiguous_loop_length in El. simplify_eq. simpl. repeat split; auto.
Qed.

Lemma setStatsToSG_frame (a : Assembler Stream) half a' half' :
  setStatsToSG a half = (a', half') ->
  half_frame half half' /\ asm_frame a a' /\ queue half' = queue half
  /\ saved half' = saved half /\ ret a' = ret a.
Proof.
  unfold setStatsToSG, half_frame, asm_frame. intros H. simplify_eq. simpl. tauto.
Qed.

Lemma buildSG_frame (a : Assembler Stream) half e ns a' half' :
  buildSG a half = Some (e, ns, a', half') ->
  half_frame half half' /\ asm_frame a a'
  /\ (length (queue half') <= length (queue half))%nat.
Proof.
  unfold buildSG. intros H.
  destruct (head (ret a)) as [r0 |]; [| discriminate]. simpl in H.
  destruct (addPending a half (bc_getSeq r0)) as [[a1 half1] sv] eqn:E1.
  destruct (addContiguous a1 half1 _) as [[a2 half2] ns2] eqn:E2.
  apply addPending_frame in E1. apply addContiguous_frame in E2.
  destruct E1 as (F1 & G1 & Q1). destruct E2 as (F2 & G2 & _ & Q2).
  unfold setStatsToSG in H. simpl in H.
  destruct (last (ret a2)); [| discriminate]. simpl in H. simplify_eq.
  split.
  { eapply half_frame_trans; [exact F1 |]. eapply half_frame_trans; [exact F2 |].
    unfold half_frame. simpl. tauto. }
  unfold asm_frame in *. simpl in *. split; [intuition congruence |].
  rewrite <- Q1. exact Q2.
Qed.

Lemma cleanSG_release_frame rs c half c' half' :
  cleanSG_release rs c half = (c', half') ->
  half_frame half half' /\ (length (queue half') <= length (queue half))%nat.
Proof.
  revert c half. induction rs as [| r rs IH]; intros c half H; simpl in H.
  - simplify_eq. split; [apply half_frame_refl | lia].
  - destruct (bc_release r c) as [n c1].
    apply IH in H. destruct H as [F Q]. simpl in Q.
    split.
    + eapply half_frame_trans; [| exact F].
      unfold half_frame. repeat case_match; simpl; tauto.
    + etrans; [exact Q |].
      repeat case_match; simpl; try lia.
      destruct (queue half); simpl; lia.
Qed.

Lemma cleanSG_frame (a : Assembler Stream) half ac a' half' :
  cleanSG pageBytes a half ac = Some (a', half') ->
  half_frame half half' /\ asm_frame a a' /\ ret a' = ret a
  /\ (length (queue half') <= length (queue half))%nat.
Proof.
  unfold cleanSG. intros H.
  destruct (if sg_toKeep (cacheSG a) <? 0 then _ else _) as [ndx skip].
  destruct (slice_to _ _) as [consumed |]; [| discriminate]. simpl in H.
  destruct (cleanSG_release consumed (pc a) half) as [c1 half1] eqn:E1.
  apply cleanSG_release_frame in E1. destruct E1 as [F1 Q1].
  destruct (slice_from _ _) as [kept |]; [| discriminate]. simpl in H.
  destruct (cleanSG_keep _ kept c1 skip ac []) as [[c2 sv] |]; [| discriminate].
  simpl in H. simplify_eq. simpl.
  split; [| split; [split; reflexivity | split; [reflexivity | exact Q1]]].
  eapply half_frame_trans; [exact F1 |]. unfold half_frame. simpl. tauto.
Qed.

(** *** Connections *)

Lemma getHalf_setHalf (c : connection Stream) sd h : getHalf (setHalf c sd h) sd = h.
Proof. destruct sd; reflexivity. Qed.

Lemma getHalf_setHalf_other (c : connection Stream) sd h :
  getHalf (setHalf c sd h) (other sd) = getHalf c (other sd).
Proof. destruct sd; reflexivity. Qed.

Lemma getHalf_conn_called (c : connection Stream) s cb sd :
  getHalf (conn_called c s cb) sd = getHalf c sd.
Proof. destruct sd; reflexivity. Qed.

Lemma conn_step_refl (c : connection Stream) : conn_step c c.
Proof. unfold conn_step. repeat split; auto. exists []. by rewrite app_nil_r. Qed.

Lemma conn_step_trans (c1 c2 c3 : connection Stream) :
  conn_step c1 c2 -> conn_step c2 c3 -> conn_step c1 c3.
Proof.
  intros (K1 & C1 & [l1 R1] & I1) (K2 & C2 & [l2 R2] & I2).
  repeat split; [congruence | auto | | auto].
  exists (l1 ++ l2). rewrite R2, R1, app_assoc. reflexivity.
Qed.

(** A step that closes nothing. *)
Lemma conn_step_quiet (c c' : connection Stream) (l : list callback) :
  ckey c' = ckey c ->
  closed (c2s c') = closed (c2s c) ->
  closed (s2c c') = closed (s2c c) ->
  received c' = received c ++ l ->
  conn_step c c'.
Proof.
  intros K H1 H2 R. repeat split; [exact K | | eauto |].
  - intros [] Hc; simpl in *; congruence.
  - unfold completion_inv, completed. intros I A B. rewrite R, existsb_app.
    apply orb_true_iff. left. apply I; congruence.
Qed.

Lemma closeHalfConnection_spec (a : Assembler Stream) conn sd a' conn' :
  closeHalfConnection ReassemblyComplete a conn sd = (a', conn') ->
  closed (getHalf conn' sd) = true
  /\ getHalf conn' (other sd) = getHalf conn (other sd)
  /\ queue (getHalf conn' sd) = queue (getHalf conn sd)
  /\ nextSeq (getHalf conn' sd) = nextSeq (getHalf conn sd)
  /\ opts a' = opts a
  /\ completion_inv conn'
  /\ conn_step conn conn'.
Proof.
  unfold closeHalfConnection. intros H.
  set (conn1 := setHalf conn sd _) in H.
  assert (Hc1 : closed (getHalf conn1 sd) = true).
  { unfold conn1. rewrite getHalf_setHalf. reflexivity. }
  assert (Ho1 : getHalf conn1 (other sd) = getHalf conn (other sd)).
  { unfold conn1. apply getHalf_setHalf_other. }
  assert (Hmono : forall sd', closed (getHalf conn sd') = true ->
                              closed (getHalf conn1 sd') = true).
  { intros sd' Hcl. destruct sd, sd'; simpl in *; auto. }
  assert (Hq1 : queue (getHalf conn1 sd) = queue (getHalf conn sd)
                /\ nextSeq (getHalf conn1 sd) = nextSeq (getHalf conn sd)).
  { unfold conn1. rewrite getHalf_setHalf. split; reflexivity. }
  assert (Hk1 : ckey conn1 = ckey conn /\ received conn1 = received conn).
  { unfold conn1. destruct sd; split; reflexivity. }
  destruct (closed (s2c conn1) && closed (c2s conn1)) eqn:Eb.
  - destruct (ReassemblyComplete (stream conn1) None) as [rm s] eqn:Er.
    assert (Hres : conn' = conn_called conn1 s CbReassemblyComplete /\ opts a' = opts a).
    { destruct rm; simplify_eq; split; reflexivity. }
    destruct Hres as [-> Ho].
    rewrite !getHalf_conn_called.
    assert (Hin : completion_inv (conn_called conn1 s CbReassemblyComplete)).
    { intros _ _. unfold completed. simpl. rewrite existsb_app. apply orb_true_iff.
      right. reflexivity. }
    destruct Hq1 as [Hq1 Hn1]. destruct Hk1 as [Hk1 Hr1].
    unfold conn_step. split_and!; try assumption;
      try (intros _; exact Hin);
      try (intros sd' Hcl; rewrite getHalf_conn_called; auto).
    exists [CbReassemblyComplete]. simpl. rewrite Hr1. reflexivity.
  - injection H as <- <-.
    assert (Hin : completion_inv conn1).
    { intros A B. rewrite A, B in Eb. discriminate. }
    destruct Hq1 as [Hq1 Hn1]. destruct Hk1 as [Hk1 Hr1].
    unfold conn_step. split_and!; try assumption; try reflexivity;
      try (intros _; exact Hin).
    exists []. rewrite app_nil_r. exact Hr1.
Qed.

Lemma conn_step_setHalf (c : connection Stream) sd h :
  closed h = closed (getHalf c sd) -> conn_step c (setHalf c sd h).
Proof.
  intros Hc. apply (conn_step_quiet _ _ []); destruct sd; simpl in *;
    rewrite ?app_nil_r; congruence.
Qed.

Lemma conn_step_called (c : connection Stream) s cb : conn_step c (conn_called c s cb).
Proof. apply (conn_step_quiet _ _ [cb]); reflexivity. Qed.

Lemma sendToConnection_spec (a : Assembler Stream) conn sd ac a' conn' ns :
  sendToConnection pageBytes ReassembledSG ReassemblyComplete a conn sd ac
  = Some (a', conn', ns) ->
  conn_step conn conn'
  /\ getHalf conn' (other sd) = getHalf conn (other sd)
  /\ (length (queue (getHalf conn' sd)) <= length (queue (getHalf conn sd)))%nat
  /\ opts a' = opts a.
Proof.
  unfold sendToConnection. intros H.
  destruct (buildSG a (getHalf conn sd)) as [[[[e ns1] a1] half1] |] eqn:E1; [| discriminate].
  simpl in H.
  destruct (ReassembledSG (stream conn) (cacheSG a1) ac) as [keep s].
  destruct (cleanSG pageBytes _ half1 ac) as [[a3 half2] |] eqn:E2; [| discriminate].
  simpl in H.
  apply buildSG_frame in E1. destruct E1 as (F1 & G1 & Q1).
  apply cleanSG_frame in E2. destruct E2 as (F2 & G2 & _ & Q2).
  set (conn2 := setHalf (conn_called (setHalf conn sd half1) s (CbReassembled (cacheSG a1)))
                  sd half2) in H.
  assert (S2 : conn_step conn conn2).
  { eapply conn_step_trans; [apply (conn_step_setHalf conn sd half1); apply F1 |].
    eapply conn_step_trans; [apply conn_step_called |].
    apply conn_step_setHalf. rewrite getHalf_conn_called, getHalf_setHalf. apply F2. }
  assert (O2 : getHalf conn2 (other sd) = getHalf conn (other sd)).
  { unfold conn2. rewrite getHalf_setHalf_other, getHalf_conn_called.
    apply getHalf_setHalf_other. }
  assert (Q : (length (queue (getHalf conn2 sd)) <= length (queue (getHalf conn sd)))%nat).
  { unfold conn2. rewrite getHalf_setHalf. lia. }
  assert (G : opts a3 = opts a).
  { unfold asm_frame in *. simpl in *. intuition congruence. }
  destruct e.
  - destruct (closeHalfConnection ReassemblyComplete a3 conn2 sd) as [a4 conn3] eqn:E3.
    apply closeHalfConnection_spec in E3.
    destruct E3 as (_ & O3 & Q3 & _ & G3 & _ & S3).
    injection H as <- <- <-.
    split_and!; [eauto using conn_step_trans | congruence | rewrite Q3; exact Q | congruence].
  - injection H as <- <- <-. split_and!; assumption.
Qed.

Lemma skipFlush_spec (a : Assembler Stream) conn sd a' conn' :
  skipFlush pageBytes ReassembledSG ReassemblyComplete a conn sd = Some (a', conn') ->
  conn_step conn conn'
  /\ getHalf conn' (other sd) = getHalf conn (other sd)
  /\ opts a' = opts a
  /\ (closed (getHalf conn' sd) = true
      \/ (length (queue (getHalf conn' sd)) < length (queue (getHalf conn sd)))%nat).
Proof.
  unfold skipFlush. intros H.
  destruct (queue (getHalf conn sd)) as [| p q] eqn:Hq.
  - injection H as H.
    apply closeHalfConnection_spec in H. destruct H as (C & O & _ & _ & G & _ & S).
    split_and!; auto.
  - unfold addNextFromConn in H. rewrite Hq in H. simpl in H.
    destruct (sendToConnection _ _ _ _ _ _ _) as [[[a2 conn1] ns] |] eqn:E; [| discriminate].
    simpl in H.
    apply sendToConnection_spec in E. destruct E as (S & O & Q & G).
    rewrite getHalf_setHalf in Q. simpl in Q.
    rewrite getHalf_setHalf_other in O.
    assert (S0 : conn_step conn conn1).
    { eapply conn_step_trans; [| exact S]. apply conn_step_setHalf. reflexivity. }
    destruct (negb (ns =? invalidSequence)); injection H as <- <-.
    + split_and!.
      * eapply conn_step_trans; [exact S0 |]. apply conn_step_setHalf. reflexivity.
      * rewrite getHalf_setHalf_other. exact O.
      * exact G.
      * right. rewrite getHalf_setHalf. simpl. lia.
    + split_and!; auto. right. simpl. lia.
Qed.

(** *** FlushAll *)

Lemma FlushAll_half_closed fuel (a : Assembler Stream) conn sd :
  closed (getHalf conn sd) = true ->
  FlushAll_half pageBytes ReassembledSG ReassemblyComplete fuel a conn sd = Some (a, conn).
Proof. intros H. destruct fuel; simpl; rewrite H; reflexivity. Qed.

(** The loop of [FlushAll] over one half ends with the half closed. *)
Lemma FlushAll_half_spec fuel (a : Assembler Stream) conn sd a' conn' :
  FlushAll_half pageBytes ReassembledSG ReassemblyComplete fuel a conn sd = Some (a', conn') ->
  closed (getHalf conn' sd) = true
  /\ conn_step conn conn'
  /\ getHalf conn' (other sd) = getHalf conn (other sd)
  /\ opts a' = opts a.
Proof.
  revert a conn. induction fuel as [| fuel IH]; intros a conn H; simpl in H.
  - destruct (closed (getHalf conn sd)) eqn:Hc; [| discriminate].
    injection H as <- <-. split_and!; auto using conn_step_refl.
  - destruct (closed (getHalf conn sd)) eqn:Hc.
    + injection H as <- <-. split_and!; auto using conn_step_refl.
    + destruct (skipFlush _ _ _ _ _ _) as [[a1 conn1] |] eqn:E; [| discriminate].
      simpl in H. apply skipFlush_spec in E. destruct E as (S1 & O1 & G1 & _).
      apply IH in H. destruct H as (C & S2 & O2 & G2).
      split_and!; [exact C | eauto using conn_step_trans | congruence | congruence].
Qed.

(** The loop of [FlushAll] over one half needs no more turns than there are
    queued pages, plus one: further fuel changes nothing. *)
Lemma FlushAll_half_fuel fuel (a : Assembler Stream) conn sd :
  (length (queue (getHalf conn sd)) < fuel)%nat ->
  FlushAll_half pageBytes ReassembledSG ReassemblyComplete (S fuel) a conn sd
  = FlushAll_half pageBytes ReassembledSG ReassemblyComplete fuel a conn sd.
Proof.
  revert a conn. induction fuel as [| fuel IH]; intros a conn Hlt; [lia |].
  cbn [FlushAll_half].
  destruct (closed (getHalf conn sd)); [reflexivity |].
  destruct (skipFlush _ _ _ _ _ _) as [[a1 conn1] |] eqn:E; [| reflexivity].
  cbn [mbind option_bind].
  apply skipFlush_spec in E. destruct E as (_ & _ & _ & [C | Q]).
  - change (FlushAll_half pageBytes ReassembledSG ReassemblyComplete (S fuel) a1 conn1 sd
            = FlushAll_half pageBytes ReassembledSG ReassemblyComplete fuel a1 conn1 sd).
    rewrite !FlushAll_half_closed by exact C. reflexivity.
  - apply IH. lia.
Qed.

Lemma pool_store_opts (a : Assembler Stream) conn : opts (pool_store a conn) = opts a.
Proof. unfold pool_store. case_match; reflexivity. Qed.

Lemma FlushAll_side_spec (a : Assembler Stream) conn sd a' conn' :
  FlushAll_side pageBytes ReassembledSG ReassemblyComplete a conn sd = Some (a', conn') ->
  closed (getHalf conn' sd) = true
  /\ conn_step conn conn'
  /\ getHalf conn' (other sd) = getHalf conn (other sd).
Proof.
  unfold FlushAll_side. intros H.
  destruct (FlushAll_half _ _ _ _ _ _ _) as [[a1 conn1] |] eqn:E; [| discriminate].
  simpl in H. apply FlushAll_half_spec in E. destruct E as (C & S1 & O & _).
  rewrite C in H. simpl in H. injection H as <- <-. auto.
Qed.

Lemma FlushAll_conn_spec (a : Assembler Stream) conn a' conn' :
  FlushAll_conn pageBytes ReassembledSG ReassemblyComplete a conn = Some (a', conn') ->
  closed (s2c conn') = true /\ closed (c2s conn') = true /\ conn_step conn conn'.
Proof.
  unfold FlushAll_conn. intros H.
  destruct (FlushAll_side _ _ _ _ _ S2C) as [[a1 conn1] |] eqn:E1; [| discriminate].
  simpl in H.
  destruct (FlushAll_side _ _ _ _ _ C2S) as [[a2 conn2] |] eqn:E2; [| discriminate].
  simpl in H. injection H as <- <-.
  apply FlushAll_side_spec in E1. destruct E1 as (C1 & S1 & _).
  apply FlushAll_side_spec in E2. destruct E2 as (C2 & S2 & O2).
  simpl in *. split_and!; [congruence | exact C2 | eauto using conn_step_trans].
Qed.

Lemma FlushAll_conns_spec (a : Assembler Stream) cs a' cs' :
  FlushAll_conns pageBytes ReassembledSG ReassemblyComplete a cs = Some (a', cs') ->
  map ckey cs' = map ckey cs
  /\ Forall (fun c => closed (s2c c) = true /\ closed (c2s c) = true) cs'.
Proof.
  revert a cs'. induction cs as [| conn cs IH]; intros a cs' H; simpl in H.
  - injection H as <- <-. split; constructor.
  - destruct (FlushAll_conn _ _ _ _ _) as [[a1 conn1] |] eqn:E1; [| discriminate].
    simpl in H.
    destruct (FlushAll_conns _ _ _ _ _) as [[a2 cs1] |] eqn:E2; [| discriminate].
    simpl in H. injection H as <- <-.
    apply FlushAll_conn_spec in E1. destruct E1 as (C1 & C2 & K & _).
    apply IH in E2. destruct E2 as [Hk Hf].
    split; [simpl; congruence | constructor; auto].
Qed.

(** *** AssembleWithContext *)

Lemma seen_at_same (h : halfconnection) (ts : Z) :
  same_but_lastSeen h (seen_at h ts) /\ lastSeen (seen_at h ts) = Z.max (lastSeen h) ts.
Proof.
  unfold seen_at, same_but_lastSeen.
  destruct (Z.ltb_spec (lastSeen h) ts); simpl; split_and!; try reflexivity; lia.
Qed.

(** A segment the stream rejects: the call records the sighting and the
    verdict, and does nothing else. *)
Lemma AssembleWithContext_conn_rejected (a : Assembler Stream) conn sd t ac st s :
  Accept (stream conn) t (GetCaptureInfo ac) (dir (getHalf conn sd))
    (nextSeq (getHalf conn sd))
    ((nextSeq (getHalf conn sd) =? invalidSequence) && SYN t) ac = (false, st, s) ->
  AssembleWithContext_conn pageBytes Accept ReassembledSG ReassemblyComplete a conn sd t ac
  = Some (asm_set_start (asm_set_start (asm_set_ret a [])
                           ((nextSeq (getHalf conn sd) =? invalidSequence) && SYN t)) st,
          conn_called (setHalf conn sd (seen_at (getHalf conn sd) (Timestamp (GetCaptureInfo ac))))
            s (CbAccept t false)).
Proof.
  intros HA. unfold AssembleWithContext_conn, seen_at. cbv zeta.
  assert (E : forall h : halfconnection, forall ts,
             dir (if lastSeen h <? ts then half_set_lastSeen h ts else h) = dir h
             /\ nextSeq (if lastSeen h <? ts then half_set_lastSeen h ts else h) = nextSeq h).
  { intros h ts. destruct (lastSeen h <? ts); split; reflexivity. }
  destruct (E (getHalf conn sd) (Timestamp (GetCaptureInfo ac))) as [-> ->].
  cbn [start asm_set_start]. rewrite HA. reflexivity.
Qed.

Lemma AssembleWithContext_conn_step (a : Assembler Stream) conn sd t ac a' conn' :
  AssembleWithContext_conn pageBytes Accept ReassembledSG ReassemblyComplete a conn sd t ac
  = Some (a', conn') ->
  conn_step conn conn' /\ getHalf conn' (other sd) = getHalf conn (other sd).
Proof.
  unfold AssembleWithContext_conn. cbv zeta. intros H.
  set (half0 := if lastSeen (getHalf conn sd) <? Timestamp (GetCaptureInfo ac)
                then half_set_lastSeen (getHalf conn sd) (Timestamp (GetCaptureInfo ac))
                else getHalf conn sd) in *.
  assert (C0 : closed half0 = closed (getHalf conn sd)).
  { unfold half0. destruct (_ <? _); reflexivity. }
  destruct (Accept _ _ _ _ _ _ _) as [[ok st] s].
  set (connA := conn_called (setHalf conn sd half0) s (CbAccept t ok)) in *.
  assert (SA : conn_step conn connA).
  { eapply conn_step_trans; [apply (conn_step_setHalf conn sd half0 C0) |].
    apply conn_step_called. }
  assert (OA : getHalf connA (other sd) = getHalf conn (other sd)).
  { unfold connA. rewrite getHalf_conn_called. apply getHalf_setHalf_other. }
  destruct ok; simpl in H; [| injection H as <- <-; auto].
  destruct (closed half0) eqn:Hcl; [injection H as <- <-; auto |].
  set (halfK := if ACK t then half_set_ackSeq half0 (Ack t) else half0) in *.
  assert (CK : closed halfK = closed half0).
  { unfold halfK. destruct (ACK t); reflexivity. }
  destruct (if nextSeq halfK =? invalidSequence then _ else _) as [[seq halfD] q] eqn:ED.
  assert (CD : closed halfD = closed halfK).
  { repeat case_match; simplify_eq; reflexivity. }
  destruct (handleBytes pageBytes _ _ _ halfD _ _ _ _ _) as [[[a1 half1] act] |] eqn:EH;
    [| discriminate].
  simpl in H. apply handleBytes_frame in EH. destruct EH as (F1 & _).
  assert (C1 : closed half1 = closed (getHalf connA sd)).
  { unfold connA. rewrite getHalf_conn_called, getHalf_setHalf.
    destruct F1 as [-> _]. congruence. }
  set (conn1 := setHalf connA sd half1) in *.
  assert (S1 : conn_step conn conn1).
  { eapply conn_step_trans; [exact SA |]. apply conn_step_setHalf. exact C1. }
  assert (O1 : getHalf conn1 (other sd) = getHalf conn (other sd)).
  { unfold conn1. rewrite getHalf_setHalf_other. exact OA. }
  destruct (if len (ret a1) >? 0 then _ else _) as [[[a2 conn2] ns] |] eqn:ES;
    [| discriminate].
  simpl in H.
  assert (S2 : conn_step conn conn2 /\ getHalf conn2 (other sd) = getHalf conn (other sd)).
  { destruct (len (ret a1) >? 0).
    - apply sendToConnection_spec in ES. destruct ES as (S & O & _).
      split; [eauto using conn_step_trans | congruence].
    - injection ES as <- <- <-. auto. }
  destruct S2 as [S2 O2].
  destruct (negb (ns =? invalidSequence)); injection H as <- <-; [| auto].
  split.
  - eapply conn_step_trans; [exact S2 |]. apply conn_step_setHalf.
    destruct (FIN t); reflexivity.
  - rewrite getHalf_setHalf_other. exact O2.
Qed.

(** *** Timed flushing *)

Lemma flushClose_loop_step fuel (a : Assembler Stream) conn sd t fl a' conn' fl' cl' :
  flushClose_loop pageBytes ReassembledSG ReassemblyComplete fuel a conn sd t fl
  = Some (a', conn', fl', cl') ->
  conn_step conn conn'.
Proof.
  revert a conn fl. induction fuel as [| fuel IH]; intros a conn fl H; simpl in H.
  - destruct (queue (getHalf conn sd)) as [| p q]; [injection H as <- <- <- <- |].
    + apply conn_step_refl.
    + destruct (p_seen p <? t); [discriminate |]. injection H as <- <- <- <-.
      apply conn_step_refl.
  - destruct (queue (getHalf conn sd)) as [| p q]; [injection H as <- <- <- <- |].
    + apply conn_step_refl.
    + destruct (p_seen p <? t); [| injection H as <- <- <- <-; apply conn_step_refl].
      destruct (skipFlush _ _ _ _ _ _) as [[a1 conn1] |] eqn:E; [| discriminate].
      simpl in H. apply skipFlush_spec in E. destruct E as (S1 & _).
      destruct (closed (getHalf conn1 sd)).
      * injection H as <- <- <- <-. exact S1.
      * apply IH in H. eauto using conn_step_trans.
Qed.

Lemma flushClose_step (a : Assembler Stream) conn sd t tc a' conn' fl cl :
  flushClose pageBytes ReassembledSG ReassemblyComplete a conn sd t tc
  = Some (a', conn', fl, cl) ->
  conn_step conn conn'.
Proof.
  unfold flushClose. intros H.
  destruct (closed (getHalf conn sd)); [injection H as <- <- <- <-; apply conn_step_refl |].
  destruct (flushClose_loop _ _ _ _ _ _ _ _ _) as [[[[a1 conn1] fl1] cl1] |] eqn:E;
    [| discriminate].
  simpl in H. apply flushClose_loop_step in E.
  destruct cl1; [injection H as <- <- <- <-; exact E |].
  destruct (negb _ && _ && _).
  - destruct (closeHalfConnection ReassemblyComplete a1 conn1 sd) as [a2 conn2] eqn:E2.
    apply closeHalfConnection_spec in E2. destruct E2 as (_ & _ & _ & _ & _ & _ & S2).
    injection H as <- <- <- <-. eauto using conn_step_trans.
  - injection H as <- <- <- <-. exact E.
Qed.

Lemma FlushWithOptions_conn_step (a : Assembler Stream) conn opt f c a' conn' f' c' :
  FlushWithOptions_conn pageBytes ReassembledSG ReassemblyComplete a conn opt f c
  = Some (a', conn', f', c') ->
  conn_step conn conn'.
Proof.
  unfold FlushWithOptions_conn. intros H.
  destruct (flushClose _ _ _ _ _ S2C _ _) as [[[[a1 conn1] f1] c1] |] eqn:E1; [| discriminate].
  simpl in H.
  destruct (flushClose _ _ _ _ _ C2S _ _) as [[[[a2 conn2] f2] c2] |] eqn:E2; [| discriminate].
  simpl in H. injection H as <- <- <- <-.
  apply flushClose_step in E1. apply flushClose_step in E2.
  eauto using conn_step_trans.
Qed.

(** Every operation of the assembler is a step of the connection. *)
Lemma run_operation_step (a : Assembler Stream) conn o a' conn' :
  run_operation pageBytes Accept ReassembledSG ReassemblyComplete a conn o = Some (a', conn') ->
  conn_step conn conn'.
Proof.
  destruct o as [sd t ac | sd | sd t tc | sd | opt |]; simpl; intros H.
  - apply AssembleWithContext_conn_step in H. tauto.
  - apply skipFlush_spec in H. tauto.
  - destruct (flushClose _ _ _ _ _ _ _ _) as [[[[a1 conn1] f1] c1] |] eqn:E; [| discriminate].
    simpl in H. injection H as <- <-. eapply flushClose_step; eassumption.
  - injection H as H. apply closeHalfConnection_spec in H. tauto.
  - destruct (FlushWithOptions_conn _ _ _ _ _ _ _ _) as [[[[a1 conn1] f1] c1] |] eqn:E;
      [| discriminate].
    simpl in H. injection H as <- <-. eapply FlushWithOptions_conn_step; eassumption.
  - apply FlushAll_conn_spec in H. tauto.
Qed.


(** *** The bytes that overlap resolution leaves to be sent *)

Lemma qbytes_nonneg q : 0 <= qbytes q.
Proof. induction q as [| p q IH]; simpl; [lia |]. pose proof (len_nonneg (p_bytes p)). lia. Qed.

Lemma qbytes_app q1 q2 : qbytes (q1 ++ q2) = qbytes q1 + qbytes q2.
Proof. induction q1 as [| p q1 IH]; simpl; [lia |]. rewrite IH. lia. Qed.

Lemma qbytes_rev q : qbytes (rev q) = qbytes q.
Proof.
  induction q as [| p q IH]; simpl; [reflexivity |].
  rewrite qbytes_app, IH. simpl. lia.
Qed.

Lemma slice_to_len {A} (b b' : list A) n : slice_to b n = Some b' -> len b' <= len b.
Proof.
  unfold slice_to. case_match; [| discriminate]. intros [= <-].
  unfold len. rewrite length_take. lia.
Qed.

Lemma slice_from_len {A} (b b' : list A) n : slice_from b n = Some b' -> len b' <= len b.
Proof.
  unfold slice_from. case_match; [| discriminate]. intros [= <-].
  unfold len. rewrite length_drop. lia.
Qed.

Lemma copy_into_len {A} (dst src dst' : list A) n :
  copy_into dst n src = Some dst' -> len dst' = len dst.
Proof.
  unfold copy_into. case_match eqn:E; [| discriminate]. intros [= <-].
  apply andb_true_iff in E. destruct E as [E1 E2].
  apply Z.leb_le in E1. apply Z.leb_le in E2.
  unfold len in *. rewrite !length_app, length_take, length_drop. lia.
Qed.

(** Once the new bytes are used up they stay used up. *)
Lemma checkOverlap_loop_bytes_nil s e curs st curs' st' :
  checkOverlap_loop s e curs st = Some (curs', st') ->
  os_bytes st = [] -> os_bytes st' = [].
Proof.
  revert st. induction curs as [| cur prevs IH]; intros st H Hb; simpl in H.
  - injection H as <- <-. exact Hb.
  - repeat case_match; simplify_option_eq; eauto.
Qed.

(** Without a queued page that starts before the new range, nothing of the
    new range is written into the queue. *)
Lemma checkOverlap_loop_bytes_keep s e curs st curs' st' :
  checkOverlap_loop s e curs st = Some (curs', st') ->
  Forall (fun p => Difference s (p_seq p) >= 0) curs ->
  os_bytes st' = os_bytes st.
Proof.
  revert st. induction curs as [| cur prevs IH]; intros st H Hf; simpl in H.
  - injection H as <- <-. reflexivity.
  - inversion Hf as [| ? ? Hc Hp]; subst.
    repeat case_match; simplify_option_eq;
      try (erewrite IH by eassumption; reflexivity); try reflexivity.
    exfalso.
    match goal with
    | H : _ && (Difference s (p_seq cur) <? 0) = true |- _ =>
        apply andb_true_iff in H; destruct H as [_ H]; apply Z.ltb_lt in H; lia
    end.
Qed.

(** Overlap resolution by itself never adds bytes to the queue. *)
Lemma checkOverlap_loop_qbytes s e curs st curs' st' :
  checkOverlap_loop s e curs st = Some (curs', st') ->
  qbytes (rev curs' ++ os_skipped st' ++ os_next st')
  <= qbytes (rev curs ++ os_skipped st ++ os_next st).
Proof.
  revert st. induction curs as [| cur prevs IH]; intros st H; simpl in H.
  - injection H as <- <-. lia.
  - pose proof (len_nonneg (p_bytes cur)) as Hn.
    repeat case_match; simplify_option_eq;
      try (match goal with
           | H : checkOverlap_loop _ _ _ _ = Some _ |- _ => apply IH in H
           end);
      simpl in *; rewrite ?qbytes_app, ?qbytes_rev in *; simpl in *;
      rewrite ?qbytes_app in *; simpl in *;
      try match goal with
          | H : slice_to _ _ = Some _ |- _ => apply slice_to_len in H
          | H : slice_from _ _ = Some _ |- _ => apply slice_from_len in H
          | H : copy_into _ _ _ = Some _ |- _ => apply copy_into_len in H
          end;
      try lia.
Qed.

Lemma checkOverlap_noqueue (a : Assembler Stream) half ac a' half' :
  checkOverlap pageBytes a half false ac = Some (a', half') ->
  qbytes (queue half') <= qbytes (queue half)
  /\ (lp_bytes (cacheLP a) = [] -> lp_bytes (cacheLP a') = [])
  /\ (Forall (fun p => Difference (lp_seq (cacheLP a)) (p_seq p) >= 0) (queue half) ->
      lp_bytes (cacheLP a') = lp_bytes (cacheLP a))
  /\ lp_ac (cacheLP a') = lp_ac (cacheLP a)
  /\ lp_ci (cacheLP a') = lp_ci (cacheLP a).
Proof.
  unfold checkOverlap. intros H.
  destruct (checkOverlap_loop _ _ _ _) as [[curs st] |] eqn:E; [| discriminate].
  simpl in H. rewrite andb_false_r in H. injection H as <- <-. simpl.
  split_and!; try reflexivity.
  - apply checkOverlap_loop_qbytes in E. simpl in E.
    rewrite !qbytes_app, !qbytes_rev in *. simpl in E. lia.
  - intros Hb. eapply checkOverlap_loop_bytes_nil; [exact E | exact Hb].
  - intros Hf.
    apply checkOverlap_loop_bytes_keep in E; [exact E |].
    apply Forall_rev. exact Hf.
Qed.

(** What [overlapExisting] returns. *)
Lemma overlapExisting_inv half s e b b' s' half' :
  overlapExisting half s e b = Some (b', s', half') ->
  ((nextSeq half = invalidSequence \/ Difference s (nextSeq half) = 0)
   /\ b' = b /\ s' = s /\ half' = half)
  \/ (nextSeq half <> invalidSequence
      /\ Difference s (nextSeq half) <> 0
      /\ s' = nextSeq half
      /\ ((Difference s (nextSeq half) >= len b /\ b' = [])
          \/ (0 <= Difference s (nextSeq half) < len b
              /\ b' = drop (Z.to_nat (Difference s (nextSeq half))) b))).
Proof.
  unfold overlapExisting. intros H.
  destruct (Z.eqb_spec (nextSeq half) invalidSequence) as [Hi | Hi].
  { injection H as <- <- <-. left. auto. }
  destruct (Z.eqb_spec (Difference s (nextSeq half)) 0) as [Hd | Hd].
  { injection H as <- <- <-. left. auto. }
  right. cbv zeta in H. rewrite Z.add_0_l in H.
  destruct (Z.geb_spec (Difference s (nextSeq half)) (len b)) as [Hge | Hlt].
  - unfold slice_from in H.
    pose proof (len_nonneg b).
    destruct (Z.leb_spec 0 (len b)); [| lia].
    destruct (Z.leb_spec (len b) (len b)); [| lia].
    simpl in H. injection H as <- <- <-.
    split; [exact Hi |]. split; [exact Hd |]. split; [reflexivity |].
    left. split; [lia |].
    unfold len. rewrite Nat2Z.id. apply drop_all.
  - unfold slice_from in H.
    destruct (Z.leb_spec 0 (Difference s (nextSeq half))); [| discriminate].
    destruct (Z.leb_spec (Difference s (nextSeq half)) (len b)); [| lia].
    simpl in H. injection H as <- <- <-.
    split; [exact Hi |]. split; [exact Hd |]. split; [reflexivity |].
    right. split; [lia | reflexivity].
Qed.

(** *** What a delivery hands over, and the sequence number it yields *)

Lemma addContiguous_loop_ns q ls r q' ls' r' :
  addContiguous_loop q ls r = (q', ls', r') ->
  0 <= ls < two32 ->
  (exists rl, last r = Some rl /\ bc_endSeq rl = ls) ->
  (exists rl, last r' = Some rl /\ bc_endSeq rl = ls')
  /\ exists n, 0 <= n <= qbytes q /\ ls' = Add ls n.
Proof.
  revert ls r. induction q as [| p q IH]; intros ls r H Hr Hl; simpl in H.
  - injection H as <- <- <-. split; [exact Hl |]. exists 0. simpl. split; [lia |].
    clear Hl. seq_arith.
  - pose proof (len_nonneg (p_bytes p)) as Hn. pose proof (qbytes_nonneg q) as Hq.
    destruct (Z.eqb_spec (Difference ls (p_seq p)) 0) as [Hd | Hd].
    + apply IH in H.
      * destruct H as [Hl' (n & Hn' & ->)]. split; [exact Hl' |].
        exists (len (p_bytes p) + n). split; [simpl; lia |]. apply Add_Add.
      * apply Add_range.
      * exists (BCPage p). split; [apply last_snoc |].
        unfold bc_endSeq, bc_length. simpl.
        revert Hd Hr. generalize (len (p_bytes p)) (p_seq p). intros L cs Hd Hr.
        seq_arith.
    + injection H as <- <- <-. split; [exact Hl |]. exists 0. split; [simpl; lia |].
      clear Hl Hd Hn Hq. seq_arith.
Qed.

Lemma bc_endSeq_range r : 0 <= bc_endSeq r < two32.
Proof. apply Add_range. Qed.

Lemma buildSG_ns (a : Assembler Stream) half e ns a' half' r0 :
  buildSG a half = Some (e, ns, a', half') ->
  ret a = [r0] ->
  exists rl n,
    last (sg_all (cacheSG a')) = Some rl
    /\ ns = bc_endSeq rl
    /\ e = bc_isEnd rl
    /\ 0 <= n <= qbytes (queue half)
    /\ ns = Add (bc_endSeq r0) n.
Proof.
  unfold buildSG. intros H Hr. rewrite Hr in H. simpl in H.
  destruct (addPending a half (bc_getSeq r0)) as [[a1 half1] sv] eqn:E1.
  assert (Hr1 : exists pre, ret a1 = pre ++ [r0]).
  { unfold addPending in E1. destruct (saved half) as [| p0 l].
    - injection E1 as <- <- <-. exists []. exact Hr.
    - destruct (negb _); injection E1 as <- <- <-; simpl; rewrite Hr.
      + exists []. reflexivity.
      + eexists (_ :: _). reflexivity. }
  apply addPending_frame in E1. destruct E1 as (_ & _ & Q1).
  destruct Hr1 as [pre Hr1].
  assert (Hl1 : exists rl, last (ret a1) = Some rl
                           /\ bc_endSeq rl = Add (bc_getSeq r0) (bc_length r0)).
  { exists r0. rewrite Hr1, last_snoc. split; reflexivity. }
  destruct (addContiguous a1 half1 _) as [[a2 half2] ns2] eqn:E2.
  assert (Hc : (exists rl, last (ret a2) = Some rl /\ bc_endSeq rl = ns2)
               /\ exists n, 0 <= n <= qbytes (queue half1)
                            /\ ns2 = Add (Add (bc_getSeq r0) (bc_length r0)) n).
  { unfold addContiguous in E2.
    destruct (queue half1) as [| p q] eqn:Hq.
    - injection E2 as <- <- <-. split; [exact Hl1 |]. exists 0. simpl. split; [lia |].
      clear. generalize (bc_getSeq r0) (bc_length r0). intros s0 l0. seq_arith.
    - destruct (Z.eqb_spec (Add (bc_getSeq r0) (bc_length r0)) invalidSequence) as [Hi | Hi].
      { exfalso. exact (Add_valid _ _ Hi). }
      destruct (addContiguous_loop (p :: q) _ (ret a1)) as [[q1 ls1] r1] eqn:El.
      injection E2 as <- <- <-.
      exact (addContiguous_loop_ns _ _ _ _ _ _ El (Add_range _ _) Hl1). }
  unfold setStatsToSG in H. simpl in H.
  destruct Hc as [(rl & Hl & Hns) (n & Hn & Hadd)].
  rewrite Hl in H. simpl in H. injection H as <- <- <- <-. simpl.
  exists rl, n. rewrite <- Q1. split_and!; auto; lia.
Qed.

Lemma sendToConnection_received (a : Assembler Stream) conn sd ac a' conn' ns r0 :
  sendToConnection pageBytes ReassembledSG ReassemblyComplete a conn sd ac
  = Some (a', conn', ns) ->
  ret a = [r0] ->
  exists sg l rl n,
    received conn' = received conn ++ CbReassembled sg :: l
    /\ (l = [] \/ l = [CbReassemblyComplete])
    /\ last (sg_all sg) = Some rl
    /\ ns = bc_endSeq rl
    /\ 0 <= n <= qbytes (queue (getHalf conn sd))
    /\ ns = Add (bc_endSeq r0) n
    /\ (bc_isEnd rl = true -> closed (getHalf conn' sd) = true)
    /\ nextSeq (getHalf conn' sd) = nextSeq (getHalf conn sd).
Proof.
  unfold sendToConnection. intros H Hr.
  destruct (buildSG a (getHalf conn sd)) as [[[[e ns1] a1] half1] |] eqn:E1; [| discriminate].
  simpl in H.
  destruct (ReassembledSG (stream conn) (cacheSG a1) ac) as [keep s].
  destruct (cleanSG pageBytes _ half1 ac) as [[a3 half2] |] eqn:E2; [| discriminate].
  simpl in H.
  pose proof (buildSG_ns _ _ _ _ _ _ _ E1 Hr) as (rl & n & Hl & Hns & He & Hn & Hadd).
  apply buildSG_frame in E1. destruct E1 as (F1 & _).
  apply cleanSG_frame in E2. destruct E2 as (F2 & _).
  set (conn2 := setHalf (conn_called (setHalf conn sd half1) s (CbReassembled (cacheSG a1)))
                  sd half2) in H.
  assert (R2 : received conn2 = received conn ++ [CbReassembled (cacheSG a1)]).
  { unfold conn2. destruct sd; reflexivity. }
  assert (N2 : nextSeq (getHalf conn2 sd) = nextSeq (getHalf conn sd)).
  { unfold conn2. rewrite getHalf_setHalf. destruct F1 as (_ & <- & _).
    destruct F2 as (_ & <- & _). reflexivity. }
  exists (cacheSG a1). destruct e.
  - destruct (closeHalfConnection ReassemblyComplete a3 conn2 sd) as [a4 conn3] eqn:E3.
    injection H as <- <- <-.
    pose proof (closeHalfConnection_spec _ _ _ _ _ E3) as (C3 & _ & _ & N3 & _ & _ & _).
    assert (R3 : received conn3 = received conn2 \/
                 received conn3 = received conn2 ++ [CbReassemblyComplete]).
    { unfold closeHalfConnection in E3. repeat case_match; simplify_eq; simpl; auto;
        destruct sd; simpl; auto. }
    destruct R3 as [R3 | R3]; rewrite R3, R2.
    + exists [], rl, n. split_and!; auto; try lia; congruence.
    + exists [CbReassemblyComplete], rl, n. rewrite <- app_assoc.
      split_and!; auto; try lia; congruence.
  - injection H as <- <- <-. exists [], rl, n. rewrite R2.
    split_and!; auto; try lia. intros Hend. congruence.
Qed.

(** *** [AssembleWithContext], step by step *)

Lemma AssembleWithContext_conn_eq (a : Assembler Stream) conn sd t ac :
  AssembleWithContext_conn pageBytes Accept ReassembledSG ReassemblyComplete a conn sd t ac
  = let ci := GetCaptureInfo ac in
    let half0 := seen_at (getHalf conn sd) (Timestamp ci) in
    let st0 := (nextSeq half0 =? invalidSequence) && SYN t in
    let '(ok, st, s) := Accept (stream conn) t ci (dir half0) (nextSeq half0) st0 ac in
    let aA := asm_set_start (asm_set_start (asm_set_ret a []) st0) st in
    let connA := conn_called (setHalf conn sd half0) s (CbAccept t ok) in
    if negb ok then Some (aA, connA)
    else if closed half0 then Some (aA, connA)
    else
      let halfK := if ACK t then half_set_ackSeq half0 (Ack t) else half0 in
      let '(seq, halfD, q) := sequenceDecision halfK t st in
      '(a1, half1, act) ←
        handleBytes pageBytes aA (Payload t) seq halfD ci (SYN t) (RST t || FIN t)
          {| act_nextSeq := invalidSequence; act_queue := q |} ac;
      '(a2, conn2, ns) ←
        (if len (ret a1) >? 0
         then sendToConnection pageBytes ReassembledSG ReassemblyComplete a1
                (setHalf connA sd half1) sd (Some ac)
         else Some (a1, setHalf connA sd half1, act_nextSeq act));
      Some (a2, finishAssemble conn2 sd t ns).
Proof.
  unfold AssembleWithContext_conn, seen_at. cbv zeta.
  destruct (Accept _ _ _ _ _ _ _) as [[ok st] s].
  destruct ok; [| reflexivity]. cbn [negb].
  destruct (closed _); [reflexivity |].
  cbn [start asm_set_start].
  set (halfK := if ACK t then _ else _).
  unfold sequenceDecision.
  destruct (nextSeq halfK =? invalidSequence), (SYN t), st,
    (Difference (nextSeq halfK) (Seq t) >? 0);
    (destruct (handleBytes _ _ _ _ _ _ _ _ _ _) as [[[a1 half1] act] |]; [| reflexivity];
     cbn [mbind option_bind];
     destruct (if len (ret a1) >? 0 then _ else _) as [[[a2 conn2] ns] |]; [| reflexivity];
     cbn [mbind option_bind]; unfold finishAssemble;
     destruct (negb (ns =? invalidSequence)); [| reflexivity];
     destruct (FIN t); reflexivity).
Qed.

Lemma handleBytes_queued (a : Assembler Stream) b s half ci st en ns ac a' half' act' :
  unlimited (opts a) ->
  handleBytes pageBytes a b s half ci st en {| act_nextSeq := ns; act_queue := true |} ac
  = Some (a', half', act') ->
  ret a' = ret a /\ act' = {| act_nextSeq := ns; act_queue := true |}.
Proof.
  intros [U1 U2]. unfold handleBytes. cbn [act_queue]. intros H.
  destruct (checkOverlap pageBytes _ half true ac) as [[a1 half1] |] eqn:E; [| discriminate].
  cbn [mbind option_bind] in H.
  apply checkOverlap_frame in E. destruct E as (_ & [Ho _] & Hr & _).
  simpl in Ho, Hr. rewrite Ho in H.
  destruct (Z.gtb_spec (MaxBufferedPagesPerConnection (opts a)) 0); [lia |].
  destruct (Z.gtb_spec (MaxBufferedPagesTotal (opts a)) 0); [lia |].
  simpl in H. injection H as <- <- <-. auto.
Qed.

Lemma handleBytes_immediate (a : Assembler Stream) b s half ci st en ns ac a' half' act' :
  handleBytes pageBytes a b s half ci st en {| act_nextSeq := ns; act_queue := false |} ac
  = Some (a', half', act') ->
  act' = {| act_nextSeq := ns; act_queue := false |}
  /\ exists b1 s1 halfE a2,
       overlapExisting half s (Add s (len b)) b = Some (b1, s1, halfE)
       /\ checkOverlap pageBytes
            (asm_set_cacheLP a
               {| lp_bytes := b1; lp_start := st; lp_end := en; lp_ci := ci;
                  lp_ac := Some ac; lp_seq := s1 |})
            halfE false ac = Some (a2, half')
       /\ ret a2 = ret a
       /\ lp_seq (cacheLP a2) = s1
       /\ lp_end (cacheLP a2) = en
       /\ a' = (if negb (len (lp_bytes (cacheLP a2)) =? 0) || en || st
                then asm_set_ret a2 (ret a2 ++ [BCLive (cacheLP a2)]) else a2).
Proof.
  unfold handleBytes. cbn [act_queue]. intros H.
  destruct (overlapExisting half s _ _) as [[[b1 s1] halfE] |] eqn:E1; [| discriminate].
  cbn [mbind option_bind] in H.
  change (asm_set_cacheLP
            (asm_set_cacheLP a {| lp_bytes := b; lp_start := st; lp_end := en; lp_ci := ci;
                                  lp_ac := Some ac; lp_seq := s |})
            (lp_set_bytes_seq
               (cacheLP (asm_set_cacheLP a {| lp_bytes := b; lp_start := st; lp_end := en;
                                              lp_ci := ci; lp_ac := Some ac; lp_seq := s |}))
               b1 s1))
    with (asm_set_cacheLP a {| lp_bytes := b1; lp_start := st; lp_end := en; lp_ci := ci;
                               lp_ac := Some ac; lp_seq := s1 |}) in H.
  destruct (checkOverlap pageBytes _ halfE false ac) as [[a2 half2] |] eqn:E2; [| discriminate].
  cbn [mbind option_bind] in H.
  pose proof (checkOverlap_frame _ _ _ _ _ _ E2) as (_ & _ & Hr & _ & Hs & He & _).
  simpl in Hr, Hs, He.
  assert (R : a' = (if negb (len (lp_bytes (cacheLP a2)) =? 0) || en || st
                    then asm_set_ret a2 (ret a2 ++ [BCLive (cacheLP a2)]) else a2)
              /\ half' = half2
              /\ act' = {| act_nextSeq := ns; act_queue := false |}).
  { destruct (negb (len (lp_bytes (cacheLP a2)) =? 0) || en || st);
      injection H as <- <- <-; auto. }
  destruct R as (-> & -> & ->). split; [reflexivity |].
  exists b1, s1, halfE, a2. split_and!; auto.
Qed.

(** What [handleBytes] leaves in [a.ret]: nothing, or one container. *)
Lemma handleBytes_ret (a : Assembler Stream) b s half ci st en act ac a' half' act' :
  handleBytes pageBytes a b s half ci st en act ac = Some (a', half', act') ->
  ret a = [] ->
  ret a' = [] \/ exists r0, ret a' = [r0].
Proof.
  intros H Hr. destruct act as [ns [|]].
  - unfold handleBytes in H. cbn [act_queue] in H.
    destruct (checkOverlap pageBytes _ half true ac) as [[a1 half1] |] eqn:E; [| discriminate].
    cbn [mbind option_bind] in H.
    apply checkOverlap_frame in E. destruct E as (_ & _ & Hr1 & _). simpl in Hr1.
    destruct (_ || _).
    + unfold addNextFromConn in H. destruct (queue half1); injection H as <- <- <-.
      * left. congruence.
      * right. simpl. rewrite Hr1, Hr. eexists. reflexivity.
    + injection H as <- <- <-. left. congruence.
  - apply handleBytes_immediate in H.
    destruct H as (_ & b1 & s1 & halfE & a2 & _ & _ & Hr2 & _ & _ & ->).
    destruct (_ || _ || _).
    + right. simpl. rewrite Hr2, Hr. eexists. reflexivity.
    + left. congruence.
Qed.

Lemma seen_at_fields (h : halfconnection) (ts : Z) :
  dir (seen_at h ts) = dir h /\ nextSeq (seen_at h ts) = nextSeq h
  /\ closed (seen_at h ts) = closed h /\ queue (seen_at h ts) = queue h.
Proof. unfold seen_at. destruct (lastSeen h <? ts); simpl; auto. Qed.

Lemma sequenceDecision_fields (h : halfconnection) (t : TCP) (st : bool) :
  closed (sequenceDecision h t st).1.2 = closed h
  /\ queue (sequenceDecision h t st).1.2 = queue h
  /\ ((sequenceDecision h t st).2 = true ->
      (sequenceDecision h t st).1.2 = h /\ (sequenceDecision h t st).1.1 = Seq t).
Proof. unfold sequenceDecision. repeat case_match; simpl; split_and!; auto; discriminate. Qed.

Lemma finishAssemble_fields (c : connection Stream) sd t ns :
  ns <> invalidSequence ->
  nextSeq (getHalf (finishAssemble c sd t ns) sd) = (if FIN t then Add ns 1 else ns)
  /\ closed (getHalf (finishAssemble c sd t ns) sd) = closed (getHalf c sd)
  /\ received (finishAssemble c sd t ns) = received c.
Proof.
  intros Hn. unfold finishAssemble.
  destruct (Z.eqb_spec ns invalidSequence); [contradiction |]. cbn [negb].
  rewrite getHalf_setHalf. destruct (FIN t), sd; simpl; auto.
Qed.

(** An accepted segment on an open half: either nothing is handed to the
    stream, or one delivery is made, which fixes the next sequence number. *)
Lemma AssembleWithContext_conn_outcome (a : Assembler Stream) conn sd t ac st s a' conn' :
  Accept (stream conn) t (GetCaptureInfo ac) (dir (getHalf conn sd))
    (nextSeq (getHalf conn sd))
    ((nextSeq (getHalf conn sd) =? invalidSequence) && SYN t) ac = (true, st, s) ->
  closed (getHalf conn sd) = false ->
  AssembleWithContext_conn pageBytes Accept ReassembledSG ReassemblyComplete a conn sd t ac
  = Some (a', conn') ->
  let half0 := seen_at (getHalf conn sd) (Timestamp (GetCaptureInfo ac)) in
  let halfK := if ACK t then half_set_ackSeq half0 (Ack t) else half0 in
  let aA := asm_set_start
              (asm_set_start (asm_set_ret a [])
                 ((nextSeq (getHalf conn sd) =? invalidSequence) && SYN t)) st in
  let connA := conn_called (setHalf conn sd half0) s (CbAccept t true) in
  exists a1 half1 act,
    handleBytes pageBytes aA (Payload t) (sequenceDecision halfK t st).1.1
      (sequenceDecision halfK t st).1.2 (GetCaptureInfo ac) (SYN t) (RST t || FIN t)
      {| act_nextSeq := invalidSequence; act_queue := (sequenceDecision halfK t st).2 |} ac
    = Some (a1, half1, act)
    /\ ((ret a1 = [] /\ a' = a1 /\ conn' = setHalf connA sd half1)
        \/ exists r0 sg l rl n,
             ret a1 = [r0]
             /\ received conn' = received conn ++ CbAccept t true :: CbReassembled sg :: l
             /\ (l = [] \/ l = [CbReassemblyComplete])
             /\ last (sg_all sg) = Some rl
             /\ 0 <= n <= qbytes (queue half1)
             /\ bc_endSeq rl = Add (bc_endSeq r0) n
             /\ nextSeq (getHalf conn' sd)
                = (if FIN t then Add (bc_endSeq rl) 1 else bc_endSeq rl)
             /\ (bc_isEnd rl = true -> closed (getHalf conn' sd) = true)).
Proof.
  intros HA Hc H. cbv zeta.
  rewrite AssembleWithContext_conn_eq in H. cbv zeta in H.
  destruct (seen_at_fields (getHalf conn sd) (Timestamp (GetCaptureInfo ac)))
    as (Hd & Hn & Hcl & _).
  rewrite Hd, Hn, HA, Hcl, Hc in H. cbn [negb] in H.
  set (half0 := seen_at (getHalf conn sd) (Timestamp (GetCaptureInfo ac))) in *.
  set (halfK := if ACK t then half_set_ackSeq half0 (Ack t) else half0) in *.
  destruct (sequenceDecision halfK t st) as [[seq halfD] q]. cbn [fst snd].
  set (aA := asm_set_start _ st) in *.
  set (connA := conn_called (setHalf conn sd half0) s (CbAccept t true)) in *.
  destruct (handleBytes _ _ _ _ _ _ _ _ _ _) as [[[a1 half1] act] |] eqn:EH; [| discriminate].
  cbn [mbind option_bind] in H.
  exists a1, half1, act. split; [reflexivity |].
  pose proof (handleBytes_frame _ _ _ _ _ _ _ _ _ _ _ _ EH) as (_ & _ & _ & Hact).
  cbn [act_nextSeq] in Hact.
  destruct (handleBytes_ret _ _ _ _ _ _ _ _ _ _ _ _ EH eq_refl) as [Hr | [r0 Hr]].
  - left. rewrite Hr in H. cbn in H. rewrite Hact in H. cbn in H.
    injection H as <- <-. auto.
  - right. rewrite Hr in H. cbn [len length Z.of_nat Z.gtb Z.compare] in H.
    change (Z.of_nat 1 >? 0) with true in H. cbv iota in H.
    destruct (sendToConnection _ _ _ _ _ _ _) as [[[a2 conn2] ns] |] eqn:ES; [| discriminate].
    cbn [mbind option_bind] in H. injection H as <- <-.
    pose proof (sendToConnection_received _ _ _ _ _ _ _ _ ES Hr)
      as (sg & l & rl & n & HR & Hl & Hlast & Hns & Hnb & Hadd & Hend & _).
    assert (Hv : ns <> invalidSequence).
    { rewrite Hns. apply Add_valid. }
    destruct (finishAssemble_fields conn2 sd t ns Hv) as (FN & FC & FR).
    exists r0, sg, l, rl, n. rewrite getHalf_setHalf in Hnb.
    split_and!; auto; try lia; try congruence.
    + rewrite FR, HR. unfold connA. destruct sd; simpl; rewrite <- app_assoc; reflexivity.
    + rewrite FN, Hns. reflexivity.
    + intros He. rewrite FC. auto.
Qed.

Lemma halfK_fields (h : halfconnection) (t : TCP) :
  nextSeq (if ACK t then half_set_ackSeq h (Ack t) else h) = nextSeq h
  /\ closed (if ACK t then half_set_ackSeq h (Ack t) else h) = closed h
  /\ queue (if ACK t then half_set_ackSeq h (Ack t) else h) = queue h.
Proof. destruct (ACK t); simpl; auto. Qed.

(** A segment with FIN that is not queued is always handed to the stream. *)
Lemma handleBytes_end_sent (a : Assembler Stream) b s half ci st ns ac a' half' act' :
  handleBytes pageBytes a b s half ci st true {| act_nextSeq := ns; act_queue := false |} ac
  = Some (a', half', act') ->
  ret a' <> [].
Proof.
  intros H. apply handleBytes_immediate in H.
  destruct H as (_ & b1 & s1 & halfE & a2 & _ & _ & _ & _ & _ & ->).
  rewrite orb_true_r. simpl. intros E. destruct (ret a2); discriminate E.
Qed.


(** *** Duplicate segments *)

Lemma AssembleWithContext_conn_closed (a : Assembler Stream) conn sd t ac st s :
  Accept (stream conn) t (GetCaptureInfo ac) (dir (getHalf conn sd))
    (nextSeq (getHalf conn sd))
    ((nextSeq (getHalf conn sd) =? invalidSequence) && SYN t) ac = (true, st, s) ->
  closed (getHalf conn sd) = true ->
  AssembleWithContext_conn pageBytes Accept ReassembledSG ReassemblyComplete a conn sd t ac
  = Some (asm_set_start (asm_set_start (asm_set_ret a [])
                           ((nextSeq (getHalf conn sd) =? invalidSequence) && SYN t)) st,
          conn_called (setHalf conn sd (seen_at (getHalf conn sd) (Timestamp (GetCaptureInfo ac))))
            s (CbAccept t true)).
Proof.
  intros HA Hc. rewrite AssembleWithContext_conn_eq. cbv zeta.
  destruct (seen_at_fields (getHalf conn sd) (Timestamp (GetCaptureInfo ac)))
    as (Hd & Hn & Hcl & _).
  rewrite Hd, Hn, HA, Hcl, Hc. reflexivity.
Qed.

Lemma AssembleWithContext_conn_opts (a : Assembler Stream) conn sd t ac a' conn' :
  AssembleWithContext_conn pageBytes Accept ReassembledSG ReassemblyComplete a conn sd t ac
  = Some (a', conn') ->
  opts a' = opts a.
Proof.
  rewrite AssembleWithContext_conn_eq. cbv zeta. intros H.
  destruct (Accept _ _ _ _ _ _ _) as [[ok st] s].
  destruct ok; cbn [negb] in H; [| injection H as <- <-; reflexivity].
  destruct (closed _); [injection H as <- <-; reflexivity |].
  destruct (sequenceDecision _ t st) as [[seq halfD] q].
  destruct (handleBytes _ _ _ _ _ _ _ _ _ _) as [[[a1 half1] act] |] eqn:EH; [| discriminate].
  cbn [mbind option_bind] in H.
  apply handleBytes_frame in EH. destruct EH as (_ & [Ho _] & _). simpl in Ho.
  destruct (len (ret a1) >? 0).
  - destruct (sendToConnection _ _ _ _ _ _ _) as [[[a2 conn2] ns] |] eqn:ES; [| discriminate].
    cbn [mbind option_bind] in H. injection H as <- <-.
    apply sendToConnection_spec in ES. destruct ES as (_ & _ & _ & Ho2). congruence.
  - cbn [mbind option_bind] in H. injection H as <- <-. exact Ho.
Qed.

(** A half that has nothing left to take from a plain data segment makes no
    delivery when the segment is assembled. *)
Lemma absorbed_no_delivery (a : Assembler Stream) conn sd t ac a' conn' :
  unlimited (opts a) ->
  accepts_all Accept ->
  plain_data t ->
  absorbed (getHalf conn sd) t ->
  AssembleWithContext_conn pageBytes Accept ReassembledSG ReassemblyComplete a conn sd t ac
  = Some (a', conn') ->
  received conn' = received conn ++ [CbAccept t true].
Proof.
  intros Hu Hacc (HS & HF & HR & Hseq) Habs H.
  destruct (Hacc (stream conn) t (GetCaptureInfo ac) (dir (getHalf conn sd))
              (nextSeq (getHalf conn sd))
              ((nextSeq (getHalf conn sd) =? invalidSequence) && SYN t) ac) as [s HA].
  rewrite HS, andb_false_r in HA.
  destruct (closed (getHalf conn sd)) eqn:Hc.
  { rewrite (AssembleWithContext_conn_closed a conn sd t ac false s) in H;
      [| rewrite HS, andb_false_r; exact HA | exact Hc].
    injection H as <- <-. destruct sd; reflexivity. }
  pose proof (AssembleWithContext_conn_outcome a conn sd t ac false s a' conn') as O.
  rewrite HS, andb_false_r in O. specialize (O HA Hc H). cbv zeta in O.
  set (half0 := seen_at (getHalf conn sd) (Timestamp (GetCaptureInfo ac))) in *.
  set (halfK := if ACK t then half_set_ackSeq half0 (Ack t) else half0) in *.
  destruct (seen_at_fields (getHalf conn sd) (Timestamp (GetCaptureInfo ac)))
    as (_ & Hn0 & _ & _).
  fold half0 in Hn0.
  destruct (halfK_fields half0 t) as (HnK & _ & _). fold halfK in HnK.
  destruct O as (a1 & half1 & act & EH & O).
  destruct O as [(_ & _ & ->) | (r0 & _ & _ & _ & _ & Hr0 & _)].
  { destruct sd; reflexivity. }
  exfalso.
  rewrite ?HR, ?HF, ?HS in EH. cbn [orb] in EH.
  unfold sequenceDecision in EH. rewrite ?HS, HnK, Hn0 in EH.
  destruct Habs as [Hcl | Habs]; [congruence |].
  destruct (Z.eqb_spec (nextSeq (getHalf conn sd)) invalidSequence) as [Hi | Hi].
  { cbn [fst snd] in EH. apply handleBytes_queued in EH; [| exact Hu].
    destruct EH as [Hr _]. simpl in Hr. congruence. }
  destruct Habs as [Hinv | Habs]; [contradiction |].
  destruct (Z.gtb_spec (Difference (nextSeq (getHalf conn sd)) (Seq t)) 0) as [Hg | Hg].
  { cbn [fst snd] in EH. apply handleBytes_queued in EH; [| exact Hu].
    destruct EH as [Hr _]. simpl in Hr. congruence. }
  destruct Habs as [Hgt | Habs]; [lia |].
  cbn [fst snd] in EH. apply handleBytes_immediate in EH.
  destruct EH as (_ & b1 & s1 & halfE & a2 & EO & EC & Hr2 & _ & _ & ->).
  simpl in Hr2.
  assert (Hb1 : b1 = []).
  { apply overlapExisting_inv in EO. rewrite HnK, Hn0 in EO.
    destruct EO as [([Hx | Hx] & -> & _) | (_ & _ & _ & [[_ ->] | [Hlt ->]])].
    - contradiction.
    - destruct Habs as [Hp | [Hne _]]; [exact Hp | contradiction].
    - reflexivity.
    - exfalso. destruct Habs as [Hp | [_ Hge]]; [rewrite Hp in Hlt; unfold len in Hlt; simpl in Hlt; lia | lia]. }
  apply checkOverlap_noqueue in EC. destruct EC as (_ & Hnil & _).
  simpl in Hnil. rewrite (Hnil Hb1) in Hr0. simpl in Hr0. congruence.
Qed.

Lemma len_drop {A} (b : list A) (d : Z) : 0 <= d <= len b -> len (drop (Z.to_nat d) b) = len b - d.
Proof. intros H. unfold len in *. rewrite length_drop. lia. Qed.

(** Once a plain data segment has been assembled the half has nothing left
    to take from it. *)
Lemma assembled_is_absorbed (a : Assembler Stream) conn sd t ac a' conn' :
  unlimited (opts a) ->
  accepts_all Accept ->
  plain_data t ->
  queue_ahead (getHalf conn sd) (len (Payload t)) ->
  AssembleWithContext_conn pageBytes Accept ReassembledSG ReassemblyComplete a conn sd t ac
  = Some (a', conn') ->
  absorbed (getHalf conn' sd) t.
Proof.
  intros Hu Hacc (HS & HF & HR & Hseq) (Hrange & HFor & Hsum) H.
  destruct (Hacc (stream conn) t (GetCaptureInfo ac) (dir (getHalf conn sd))
              (nextSeq (getHalf conn sd))
              ((nextSeq (getHalf conn sd) =? invalidSequence) && SYN t) ac) as [s HA].
  rewrite HS, andb_false_r in HA.
  destruct (seen_at_fields (getHalf conn sd) (Timestamp (GetCaptureInfo ac)))
    as (_ & Hn0 & Hc0 & Hq0).
  destruct (closed (getHalf conn sd)) eqn:Hc.
  { rewrite (AssembleWithContext_conn_closed a conn sd t ac false s) in H;
      [| rewrite HS, andb_false_r; exact HA | exact Hc].
    injection H as <- <-. rewrite getHalf_conn_called, getHalf_setHalf.
    left. congruence. }
  destruct (decide (Payload t = [])) as [Hp | Hp].
  { right. right. right. left. exact Hp. }
  assert (Hlen : 0 < len (Payload t)).
  { pose proof (len_nonneg (Payload t)).
    destruct (Z.eq_dec (len (Payload t)) 0) as [E | E]; [| lia].
    apply len_nil_inv in E. contradiction. }
  pose proof (AssembleWithContext_conn_outcome a conn sd t ac false s a' conn') as O.
  rewrite HS, andb_false_r in O. specialize (O HA Hc H). cbv zeta in O.
  set (half0 := seen_at (getHalf conn sd) (Timestamp (GetCaptureInfo ac))) in *.
  set (halfK := if ACK t then half_set_ackSeq half0 (Ack t) else half0) in *.
  destruct (halfK_fields half0 t) as (HnK & _ & HqK). fold halfK in HnK, HqK.
  destruct O as (a1 & half1 & act & EH & O).
  rewrite ?HR, ?HF, ?HS in EH. cbn [orb] in EH.
  rewrite HF in O.
  unfold sequenceDecision in EH. rewrite ?HS, HnK, Hn0 in EH.
  pose proof (handleBytes_frame _ _ _ _ _ _ _ _ _ _ _ _ EH) as ((_ & Hn1 & _) & _).
  destruct (Z.eqb_spec (nextSeq (getHalf conn sd)) invalidSequence) as [Hi | Hi].
  { cbn [fst snd] in EH, Hn1. apply handleBytes_queued in EH; [| exact Hu].
    destruct EH as [Hr _]. simpl in Hr.
    destruct O as [(_ & _ & ->) | (r0 & _ & _ & _ & _ & Hr0 & _)]; [| congruence].
    rewrite getHalf_setHalf. right. left. congruence. }
  destruct Hrange as [Hinv | Hrange]; [contradiction |].
  destruct (Z.gtb_spec (Difference (nextSeq (getHalf conn sd)) (Seq t)) 0) as [Hg | Hg].
  { cbn [fst snd] in EH, Hn1. apply handleBytes_queued in EH; [| exact Hu].
    destruct EH as [Hr _]. simpl in Hr.
    destruct O as [(_ & _ & ->) | (r0 & _ & _ & _ & _ & Hr0 & _)]; [| congruence].
    rewrite getHalf_setHalf. right. right. left. rewrite Hn1, HnK, Hn0. lia. }
  cbn [fst snd] in EH, Hn1. apply handleBytes_immediate in EH.
  destruct EH as (_ & b1 & s1 & halfE & a2 & EO & EC & Hr2 & Hs2 & _ & Ea1).
  simpl in Hr2.
  pose proof (overlapExisting_frame _ _ _ _ _ _ _ EO) as (_ & HqE & _).
  apply overlapExisting_inv in EO. rewrite HnK, Hn0 in EO.
  apply checkOverlap_noqueue in EC. destruct EC as (Hq1 & _ & Hkeep & _).
  cbn [cacheLP asm_set_cacheLP lp_seq lp_bytes] in Hkeep.
  rewrite HqE, HqK, Hq0 in Hq1, Hkeep.
  set (N0 := nextSeq (getHalf conn sd)) in *.
  assert (Hb : lp_bytes (cacheLP a2) = b1
               /\ ((s1 = Seq t /\ N0 = Seq t /\ b1 = Payload t)
                   \/ (s1 = N0 /\ Difference (Seq t) N0 <> 0
                       /\ Difference (Seq t) N0 >= len (Payload t) /\ b1 = [])
                   \/ (s1 = N0 /\ 0 < Difference (Seq t) N0 < len (Payload t)
                       /\ len b1 = len (Payload t) - Difference (Seq t) N0))).
  { destruct EO as [([Hx | Hx] & -> & -> & _) | (_ & Hne & -> & [[Hge ->] | [Hlt ->]])].
    - contradiction.
    - assert (EN : N0 = Seq t).
      { clear - Hx Hrange Hseq. revert Hx Hrange Hseq. generalize (Seq t). intros q.
        generalize N0. intros n0 Hx Hrange Hseq. seq_arith. }
      split; [| left; auto]. apply Hkeep. rewrite <- EN.
      eapply Forall_impl; [exact HFor |]. intros p Hpp. simpl in Hpp. lia.
    - split; [| right; left; auto]. apply Hkeep.
      eapply Forall_impl; [exact HFor |]. intros p Hpp. simpl in Hpp. lia.
    - split; [| right; right].
      + apply Hkeep. eapply Forall_impl; [exact HFor |]. intros p Hpp. simpl in Hpp. lia.
      + split; [reflexivity |]. split; [lia |]. apply len_drop. lia. }
  destruct Hb as [Hb Hcases].
  rewrite Hb in Ea1. rewrite !orb_false_r in Ea1.
  destruct O as [(Hr & _ & ->) | (r0 & sg & l & rl & n & Hr0 & _ & _ & _ & Hn & Hend & HN & _)].
  - (* nothing was handed over *)
    unfold absorbed. rewrite getHalf_setHalf, Hn1, HnK, Hn0. fold N0.
    destruct (Z.eqb_spec (len b1) 0) as [E0 | E0];
      [| rewrite Ea1 in Hr; simpl in Hr; destruct (ret a2); discriminate Hr].
    right. right. right. right.
    destruct Hcases as [(_ & _ & ->) | [(_ & ? & ? & _) | (_ & ? & ?)]];
      [lia | auto | lia].
  - (* one delivery *)
    destruct (Z.eqb_spec (len b1) 0) as [E0 | E0];
      [rewrite Ea1 in Hr0; simpl in Hr0; congruence |].
    rewrite Ea1 in Hr0. simpl in Hr0. rewrite Hr2 in Hr0. simpl in Hr0.
    injection Hr0 as <-.
    unfold bc_endSeq at 2 in Hend. unfold bc_length in Hend. simpl in Hend.
    rewrite Hb, Hs2 in Hend. unfold absorbed. rewrite HN, Hend.
    right. right. right. right.
    pose proof (qbytes_nonneg (queue half1)) as Hqn.
    assert (Hn' : 0 <= n /\ len (Payload t) + n < two31) by lia.
    clear - Hcases Hn' Hlen Hseq Hrange E0.
    destruct Hcases as [(-> & _ & ->) | [(_ & _ & _ & ->) | (-> & Hd & Hl)]].
    + revert Hn' Hlen Hseq. generalize (len (Payload t)) (Seq t). intros L q. intros.
      split; seq_arith.
    + exfalso. apply E0. reflexivity.
    + rewrite Hl. revert Hn' Hlen Hseq Hrange Hd.
      generalize (len (Payload t)) (Seq t) N0. intros L q n0. intros.
      split; seq_arith.
Qed.


(** *** The flush of everything returns *)

Lemma addContiguous_loop_ret q ls r q' ls' r' :
  addContiguous_loop q ls r = (q', ls', r') -> r <> [] -> r' <> [].
Proof.
  revert ls r. induction q as [| p q IH]; intros ls r H Hr; simpl in H.
  - congruence.
  - destruct (Difference ls (p_seq p) =? 0).
    + eapply IH; [exact H |]. destruct r; discriminate.
    + congruence.
Qed.

Lemma buildSG_returns (a : Assembler Stream) half :
  ret a <> [] -> is_Some (buildSG a half).
Proof.
  intros Hr. unfold buildSG.
  destruct (ret a) as [| r0 r] eqn:Er; [congruence |]. simpl.
  destruct (addPending a half (bc_getSeq r0)) as [[a1 half1] sv] eqn:E1.
  destruct (addContiguous a1 half1 _) as [[a2 half2] ns2] eqn:E2.
  assert (R1 : ret a1 <> []).
  { unfold addPending in E1. destruct (saved half) as [| p0 sv0]; [congruence |].
    destruct (negb _); simplify_eq; simpl; rewrite ?Er;
      [discriminate | destruct sv0; discriminate]. }
  assert (R2 : ret a2 <> []).
  { unfold addContiguous in E2. destruct (queue half1) as [| p q]; [congruence |].
    destruct (addContiguous_loop (p :: q) _ (ret a1)) as [[q1 ls1] r1] eqn:El.
    apply addContiguous_loop_ret in El; [| exact R1]. simplify_eq. exact El. }
  unfold setStatsToSG. simpl.
  destruct (last (ret a2)) as [rl |] eqn:El; [simpl; eauto |].
  apply last_None in El. congruence.
Qed.

Lemma cleanSG_returns (a : Assembler Stream) half ac :
  sg_toKeep (cacheSG a) < 0 -> is_Some (cleanSG pageBytes a half ac).
Proof.
  intros Hk. unfold cleanSG.
  destruct (Z.ltb_spec (sg_toKeep (cacheSG a)) 0) as [_ | ?]; [| lia].
  unfold slice_to, slice_from, len.
  destruct (Z.leb_spec 0 (Z.of_nat (length (sg_all (cacheSG a))))) as [_ | ?]; [| lia].
  rewrite Z.leb_refl. simpl. rewrite Nat2Z.id, firstn_all.
  destruct (cleanSG_release _ _ _) as [c1 half1]. simpl.
  rewrite drop_all. simpl. eauto.
Qed.

Lemma sendToConnection_returns (a : Assembler Stream) conn sd ac :
  keeps_nothing ReassembledSG -> ret a <> [] ->
  is_Some (sendToConnection pageBytes ReassembledSG ReassemblyComplete a conn sd ac).
Proof.
  intros Hk Hr. unfold sendToConnection.
  destruct (buildSG_returns a (getHalf conn sd) Hr) as [[[[e ns] a1] half1] ->]. simpl.
  pose proof (Hk (stream conn) (cacheSG a1) ac) as Hneg.
  destruct (ReassembledSG (stream conn) (cacheSG a1) ac) as [keep s]. simpl in Hneg.
  match goal with
  | |- context [cleanSG pageBytes ?a2 half1 ac] =>
      destruct (cleanSG_returns a2 half1 ac) as [[a3 half2] ->]; [simpl; exact Hneg |]
  end.
  simpl. destruct e; [destruct (closeHalfConnection _ _ _ _) |]; eauto.
Qed.

Lemma skipFlush_returns (a : Assembler Stream) conn sd :
  keeps_nothing ReassembledSG ->
  is_Some (skipFlush pageBytes ReassembledSG ReassemblyComplete a conn sd).
Proof.
  intros Hk. unfold skipFlush.
  destruct (queue (getHalf conn sd)) as [| p q] eqn:Hq; [eauto |].
  unfold addNextFromConn. rewrite Hq. simpl.
  match goal with
  | |- context [sendToConnection pageBytes ReassembledSG ReassemblyComplete ?a1 ?c sd ?x] =>
      destruct (sendToConnection_returns a1 c sd x Hk) as [[[a2 conn1] ns] ->];
        [simpl; discriminate |]
  end.
  simpl. destruct (negb _); eauto.
Qed.

Lemma FlushAll_half_returns fuel (a : Assembler Stream) conn sd :
  keeps_nothing ReassembledSG ->
  (length (queue (getHalf conn sd)) < fuel)%nat ->
  is_Some (FlushAll_half pageBytes ReassembledSG ReassemblyComplete fuel a conn sd).
Proof.
  intros Hk. revert a conn. induction fuel as [| fuel IH]; intros a conn Hlt; [lia |].
  cbn [FlushAll_half]. destruct (closed (getHalf conn sd)); [eauto |].
  destruct (skipFlush_returns a conn sd Hk) as [[a1 conn1] E]. rewrite E. simpl.
  apply skipFlush_spec in E. destruct E as (_ & _ & _ & [C | Q]).
  - rewrite FlushAll_half_closed by exact C. eauto.
  - apply IH. lia.
Qed.

Lemma FlushAll_side_returns (a : Assembler Stream) conn sd :
  keeps_nothing ReassembledSG ->
  is_Some (FlushAll_side pageBytes ReassembledSG ReassemblyComplete a conn sd).
Proof.
  intros Hk. unfold FlushAll_side.
  destruct (FlushAll_half_returns (S (length (queue (getHalf conn sd)))) a conn sd Hk)
    as [[a1 conn1] ->]; [lia |].
  simpl. destruct (negb _); [destruct (closeHalfConnection _ _ _ _) |]; eauto.
Qed.

Lemma FlushAll_conns_returns (a : Assembler Stream) cs :
  keeps_nothing ReassembledSG ->
  is_Some (FlushAll_conns pageBytes ReassembledSG ReassemblyComplete a cs).
Proof.
  intros Hk. revert a. induction cs as [| conn cs IH]; intros a; simpl; [eauto |].
  unfold FlushAll_conn.
  destruct (FlushAll_side_returns a conn S2C Hk) as [[a1 conn1] ->]. simpl.
  destruct (FlushAll_side_returns a1 conn1 C2S Hk) as [[a2 conn2] ->]. simpl.
  destruct (IH (pool_store a2 conn2)) as [[a3 cs1] ->]. simpl. eauto.
Qed.


Lemma deliveries_accept (c c' : connection Stream) t ok :
  received c' = received c ++ [CbAccept t ok] -> deliveries c' = deliveries c.
Proof.
  intros H. unfold deliveries. rewrite H, omap_app. simpl. apply app_nil_r.
Qed.

(** C2 (amended). With no limit on buffered pages configured, a stream that
    accepts every segment, and a half whose queued pages lie ahead of the
    next sequence number expected: once a segment carrying data and none of
    SYN, FIN, RST has been assembled, assembling the identical segment again
    hands the stream no bytes, so that two identical segments produce the
    deliveries of one. After SYN 1000 and [ABCD] at 1001 (delivered), a second
    [ABCD] at 1001 causes no delivery and raises overlapBytes from 0 to 4. *)
Theorem duplicate_segment_is_absorbed (a : Assembler Stream) (conn : connection Stream)
    (sd : side) (t : TCP) (ac1 ac2 : AssemblerContext)
    (a1 a2 : Assembler Stream) (conn1 conn2 : connection Stream) :
  unlimited (opts a) ->
  accepts_all Accept ->
  plain_data t ->
  queue_ahead (getHalf conn sd) (len (Payload t)) ->
  AssembleWithContext_conn pageBytes Accept ReassembledSG ReassemblyComplete a conn sd t ac1
  = Some (a1, conn1) ->
  AssembleWithContext_conn pageBytes Accept ReassembledSG ReassemblyComplete a1 conn1 sd t ac2
  = Some (a2, conn2) ->
  received conn2 = received conn1 ++ [CbAccept t true]
  /\ deliveries conn2 = deliveries conn1
  /\ deliveries <$> clientConn (assembleAll freshAssembler [syn 1000; data_ 1001 "ABCD"])
     = Some [[]; bs "ABCD"]
  /\ deliveries <$> clientConn (assembleAll freshAssembler
                                  [syn 1000; data_ 1001 "ABCD"; data_ 1001 "ABCD"])
     = Some [[]; bs "ABCD"]
  /\ overlapBytes <$> clientHalf (assembleAll freshAssembler [syn 1000; data_ 1001 "ABCD"])
     = Some 0
  /\ overlapBytes <$> clientHalf (assembleAll freshAssembler
                                    [syn 1000; data_ 1001 "ABCD"; data_ 1001 "ABCD"])
     = Some 4.
Proof.
  intros Hu Ha Hp Hq E1 E2.
  assert (Hu1 : unlimited (opts a1)).
  { rewrite (AssembleWithContext_conn_opts _ _ _ _ _ _ _ E1). exact Hu. }
  pose proof (assembled_is_absorbed _ _ _ _ _ _ _ Hu Ha Hp Hq E1) as Hab.
  pose proof (absorbed_no_delivery _ _ _ _ _ _ _ Hu1 Ha Hp Hab E2) as Hr.
  split_and!; [exact Hr | eapply deliveries_accept; exact Hr | | | |];
    vm_compute; reflexivity.
Qed.


(** ** What one call does to the stream and to the halves *)

Lemma received_setHalf (c : connection Stream) sd h :
  received (setHalf c sd h) = received c.
Proof. destruct sd; reflexivity. Qed.

(** X12. Each call of [AssembleWithContext] on a connection calls the stream
    in this order: [Accept] once, then [ReassembledSG] at most once, then
    [ReassemblyComplete] at most once and only after a [ReassembledSG]. A
    segment that is rejected, or that arrives on a closed half, leads to no
    call after [Accept]. *)
Theorem assemble_calls_stream_in_order (a : Assembler Stream) (conn : connection Stream)
    (sd : side) (t : TCP) (ac : AssemblerContext)
    (a' : Assembler Stream) (conn' : connection Stream) :
  AssembleWithContext_conn pageBytes Accept ReassembledSG ReassemblyComplete a conn sd t ac
  = Some (a', conn') ->
  exists ok l,
    received conn' = received conn ++ CbAccept t ok :: l
    /\ (l = [] \/ (exists sg, l = [CbReassembled sg])
        \/ (exists sg, l = [CbReassembled sg; CbReassemblyComplete]))
    /\ (ok = false -> l = [])
    /\ (closed (getHalf conn sd) = true -> l = []).
Proof.
  intros H.
  destruct (Accept (stream conn) t (GetCaptureInfo ac) (dir (getHalf conn sd))
              (nextSeq (getHalf conn sd))
              ((nextSeq (getHalf conn sd) =? invalidSequence) && SYN t) ac)
    as [[ok st] s] eqn:EA.
  destruct ok.
  - destruct (closed (getHalf conn sd)) eqn:Hc.
    + rewrite (AssembleWithContext_conn_closed _ _ _ _ _ _ _ EA Hc) in H.
      injection H as <- <-. exists true, []. simpl. rewrite received_setHalf.
      split_and!; auto.
    + pose proof (AssembleWithContext_conn_outcome _ _ _ _ _ _ _ _ _ EA Hc H) as O.
      cbv zeta in O. destruct O as (a1 & half1 & act & _ & [(_ & _ & ->) | O]).
      * exists true, []. destruct sd; simpl; split_and!; auto; discriminate.
      * destruct O as (r0 & sg & l & rl & n & _ & R & Hl & _).
        exists true, (CbReassembled sg :: l). split; [exact R |].
        split_and!; try discriminate.
        destruct Hl as [-> | ->]; eauto.
  - rewrite (AssembleWithContext_conn_rejected _ _ _ _ _ _ _ EA) in H.
    injection H as <- <-. exists false, []. simpl. rewrite received_setHalf.
    split_and!; auto.
Qed.

(** X13. A segment for a half that is closed is dropped, whatever [Accept]
    says of it: the stream is handed no bytes, and of the connection only
    the [lastSeen] of that half changes, to the later of its old value and
    the segment's timestamp. *)
Theorem closed_half_drops_segment (a : Assembler Stream) (conn : connection Stream)
    (sd : side) (t : TCP) (ac : AssemblerContext) :
  closed (getHalf conn sd) = true ->
  exists a' conn' ok,
    AssembleWithContext_conn pageBytes Accept ReassembledSG ReassemblyComplete a conn sd t ac
    = Some (a', conn')
    /\ received conn' = received conn ++ [CbAccept t ok]
    /\ same_but_lastSeen (getHalf conn sd) (getHalf conn' sd)
    /\ lastSeen (getHalf conn' sd)
       = Z.max (lastSeen (getHalf conn sd)) (Timestamp (GetCaptureInfo ac))
    /\ getHalf conn' (other sd) = getHalf conn (other sd)
    /\ pc a' = pc a /\ connPool a' = connPool a.
Proof.
  intros Hc.
  destruct (Accept (stream conn) t (GetCaptureInfo ac) (dir (getHalf conn sd))
              (nextSeq (getHalf conn sd))
              ((nextSeq (getHalf conn sd) =? invalidSequence) && SYN t) ac)
    as [[ok st] s] eqn:EA.
  destruct (seen_at_same (getHalf conn sd) (Timestamp (GetCaptureInfo ac))) as [Hs Hl].
  eexists _, _, ok. split.
  - destruct ok.
    + apply (AssembleWithContext_conn_closed _ _ _ _ _ _ _ EA Hc).
    + apply (AssembleWithContext_conn_rejected _ _ _ _ _ _ _ EA).
  - rewrite getHalf_conn_called, getHalf_setHalf.
    split_and!; try reflexivity; try assumption.
    + simpl. rewrite received_setHalf. reflexivity.
    + rewrite getHalf_conn_called. apply getHalf_setHalf_other.
Qed.

Lemma flushClose_loop_other fuel (a : Assembler Stream) conn sd t fl a' conn' fl' cl' :
  flushClose_loop pageBytes ReassembledSG ReassemblyComplete fuel a conn sd t fl
  = Some (a', conn', fl', cl') ->
  getHalf conn' (other sd) = getHalf conn (other sd).
Proof.
  revert a conn fl. induction fuel as [| fuel IH]; intros a conn fl H; simpl in H.
  - destruct (queue (getHalf conn sd)) as [| p q]; [injection H as <- <- <- <-; done |].
    destruct (p_seen p <? t); [discriminate |]. injection H as <- <- <- <-. done.
  - destruct (queue (getHalf conn sd)) as [| p q]; [injection H as <- <- <- <-; done |].
    destruct (p_seen p <? t); [| injection H as <- <- <- <-; done].
    destruct (skipFlush _ _ _ _ _ _) as [[a1 conn1] |] eqn:E; [| discriminate].
    simpl in H. apply skipFlush_spec in E. destruct E as (_ & O & _).
    destruct (closed (getHalf conn1 sd)).
    + injection H as <- <- <- <-. exact O.
    + rewrite (IH _ _ _ H). exact O.
Qed.

Lemma flushClose_other (a : Assembler Stream) conn sd t tc a' conn' fl cl :
  flushClose pageBytes ReassembledSG ReassemblyComplete a conn sd t tc
  = Some (a', conn', fl, cl) ->
  getHalf conn' (other sd) = getHalf conn (other sd).
Proof.
  unfold flushClose. intros H.
  destruct (closed (getHalf conn sd)); [injection H as <- <- <- <-; done |].
  destruct (flushClose_loop _ _ _ _ _ _ _ _ _) as [[[[a1 conn1] f1] c1] |] eqn:E;
    [| discriminate].
  simpl in H. apply flushClose_loop_other in E.
  destruct c1; [injection H as <- <- <- <-; exact E |].
  destruct (negb _ && _ && _).
  - destruct (closeHalfConnection _ _ _ _) as [a2 conn2] eqn:EC.
    injection H as <- <- <- <-. apply closeHalfConnection_spec in EC.
    destruct EC as (_ & O & _). congruence.
  - injection H as <- <- <- <-. exact E.
Qed.

(** X14. The two directions of a connection are kept apart: assembling a
    segment, skip-flushing, flushing or closing one half leaves every field
    of the other half as it was. *)
Theorem one_half_leaves_the_other (a : Assembler Stream) (conn : connection Stream)
    (o : operation) (a' : Assembler Stream) (conn' : connection Stream) :
  run_operation pageBytes Accept ReassembledSG ReassemblyComplete a conn o = Some (a', conn') ->
  match o with
  | OpAssemble sd _ _ | OpSkipFlush sd | OpFlushClose sd _ _ | OpClose sd =>
      getHalf conn' (other sd) = getHalf conn (other sd)
  | OpFlushWithOptions _ | OpFlushAll => True
  end.
Proof.
  destruct o as [sd t ac | sd | sd t tc | sd | opt |]; simpl; intros H; [| | | | exact I ..].
  - apply AssembleWithContext_conn_step in H. tauto.
  - apply skipFlush_spec in H. tauto.
  - destruct (flushClose _ _ _ _ _ _ _ _) as [[[[a1 conn1] f1] c1] |] eqn:E; [| discriminate].
    simpl in H. injection H as <- <-. eapply flushClose_other; exact E.
  - injection H as H. apply closeHalfConnection_spec in H. tauto.
Qed.

(** ** What a delivery carries *)

Lemma pages_bytes_len (ps : list page) : len (pages_bytes ps) = qbytes ps.
Proof.
  unfold pages_bytes, len. induction ps as [| p ps IH]; simpl; [reflexivity |].
  rewrite length_app. unfold len in *. lia.
Qed.

Lemma pages_bytes_app (ps qs : list page) :
  pages_bytes (ps ++ qs) = pages_bytes ps ++ pages_bytes qs.
Proof. unfold pages_bytes. rewrite map_app, concat_app. reflexivity. Qed.

Lemma sg_payload_pages (ps : list page) (rs : list byteContainer) :
  concat (map bc_getBytes (map BCPage ps ++ rs))
  = pages_bytes ps ++ concat (map bc_getBytes rs).
Proof.
  unfold pages_bytes. rewrite map_app, concat_app, map_map. reflexivity.
Qed.

Lemma last_app_cons {A} (l1 l2 : list A) (x : A) :
  last (l1 ++ x :: l2) = Some (List.last l2 x).
Proof.
  induction l2 as [| y l IH] using rev_ind.
  - rewrite last_snoc. reflexivity.
  - rewrite app_comm_cons, app_assoc, last_snoc, List.last_last. reflexivity.
Qed.

(** The loop of [addContiguous] takes the longest run of pages that follow
    one another from [ls] on. *)
Lemma addContiguous_loop_split q ls r q' ls' r' :
  addContiguous_loop q ls r = (q', ls', r') ->
  0 <= ls < two32 ->
  exists pre,
    q = pre ++ q'
    /\ r' = r ++ map BCPage pre
    /\ contiguous_from ls pre
    /\ ls' = Add ls (qbytes pre)
    /\ match q' with [] => True | p :: _ => Difference ls' (p_seq p) <> 0 end.
Proof.
  revert ls r. induction q as [| p q IH]; intros ls r H Hls; simpl in H.
  - injection H as <- <- <-. exists []. simpl. rewrite app_nil_r.
    split_and!; auto. clear -Hls. seq_arith.
  - destruct (Z.eqb_spec (Difference ls (p_seq p)) 0) as [E | E].
    + destruct (IH _ _ H (Add_range _ _)) as (pre & Hq & Hr & Hc & Hl & Hh).
      exists (p :: pre). simpl. rewrite Hq at 1. rewrite Hr, <- app_assoc. simpl.
      split_and!; auto. rewrite Hl, Add_Add. reflexivity.
    + injection H as <- <- <-. exists []. simpl. rewrite app_nil_r.
      assert (Add ls 0 = ls) as A0 by (clear -Hls; seq_arith).
      rewrite A0. split_and!; auto.
Qed.

(** What [buildSG] puts into the scatter-gather object, for one container
    [r0] waiting in [a.ret]. *)
Lemma buildSG_sg (a : Assembler Stream) half e ns a' half' r0 :
  buildSG a half = Some (e, ns, a', half') ->
  ret a = [r0] ->
  exists pre rest,
    queue half = pre ++ rest
    /\ queue half' = rest
    /\ contiguous_from (bc_endSeq r0) pre
    /\ match rest with [] => True | p :: _ => Difference ns (p_seq p) <> 0 end
    /\ sg_all (cacheSG a')
       = map BCPage (pending_for half (bc_getSeq r0)) ++ r0 :: map BCPage pre
    /\ ret a' = sg_all (cacheSG a')
    /\ saved half' = pending_for half (bc_getSeq r0)
    /\ sg_saved (cacheSG a') = len (pages_bytes (pending_for half (bc_getSeq r0)))
    /\ sg_Skip (cacheSG a')
       = (if nextSeq half =? invalidSequence then -1
          else Difference (nextSeq half) (bc_getSeq r0))
    /\ sg_Direction (cacheSG a') = dir half
    /\ sg_toKeep (cacheSG a') = -1
    /\ sg_queuedBytes (cacheSG a') = queuedBytes half
    /\ sg_queuedPackets (cacheSG a') = queuedPackets half
    /\ sg_overlapBytes (cacheSG a') = overlapBytes half
    /\ sg_overlapPackets (cacheSG a') = overlapPackets half
    /\ ns = Add (bc_endSeq r0) (qbytes pre)
    /\ e = bc_isEnd (List.last (map BCPage pre) r0).
Proof.
  unfold buildSG. intros H Hr. rewrite Hr in H. simpl in H.
  destruct (addPending a half (bc_getSeq r0)) as [[a1 half1] sv] eqn:E1.
  assert (P : ret a1 = map BCPage (pending_for half (bc_getSeq r0)) ++ [r0]
              /\ saved half1 = pending_for half (bc_getSeq r0)
              /\ sv = len (pages_bytes (pending_for half (bc_getSeq r0)))
              /\ queue half1 = queue half /\ nextSeq half1 = nextSeq half
              /\ dir half1 = dir half /\ queuedBytes half1 = queuedBytes half
              /\ queuedPackets half1 = queuedPackets half
              /\ overlapBytes half1 = overlapBytes half
              /\ overlapPackets half1 = overlapPackets half
              /\ cacheSG a1 = cacheSG a).
  { unfold addPending in E1. unfold pending_for, pages_bytes.
    destruct (saved half) as [| p0 l] eqn:Hs.
    - injection E1 as <- <- <-. rewrite Hs. split_and!; auto.
    - destruct (Z.eqb_spec (Add (p_seq p0) (len (concat (map p_bytes (p0 :: l)))))
                  (bc_getSeq r0)) as [Eq | Ne]; simpl in E1;
        injection E1 as <- <- <-; simpl; rewrite ?Hr, ?Hs; split_and!; auto. }
  destruct P as (Hr1 & Hs1 & Hsv & Hq1 & Hn1 & Hd1 & Hqb & Hqp & Hob & Hop & Hsg).
  destruct (addContiguous a1 half1 _) as [[a2 half2] ns2] eqn:E2.
  assert (C : exists pre rest,
             queue half1 = pre ++ rest /\ queue half2 = rest
             /\ contiguous_from (bc_endSeq r0) pre
             /\ match rest with [] => True | p :: _ => Difference ns2 (p_seq p) <> 0 end
             /\ ret a2 = ret a1 ++ map BCPage pre
             /\ ns2 = Add (bc_endSeq r0) (qbytes pre)
             /\ saved half2 = saved half1 /\ nextSeq half2 = nextSeq half1
             /\ dir half2 = dir half1 /\ queuedBytes half2 = queuedBytes half1
             /\ queuedPackets half2 = queuedPackets half1
             /\ overlapBytes half2 = overlapBytes half1
             /\ overlapPackets half2 = overlapPackets half1
             /\ cacheSG a2 = cacheSG a1).
  { unfold addContiguous in E2. fold (bc_endSeq r0) in E2.
    destruct (queue half1) as [| p q] eqn:Hq.
    - injection E2 as <- <- <-. exists [], []. rewrite Hq, app_nil_r. simpl.
      split_and!; auto; [symmetry; apply app_nil_r |].
      unfold bc_endSeq. rewrite Add_Add, Z.add_0_r. reflexivity.
    - destruct (Z.eqb_spec (bc_endSeq r0) invalidSequence) as [Hi | Hi].
      { exfalso. exact (Add_valid _ _ Hi). }
      destruct (addContiguous_loop (p :: q) _ (ret a1)) as [[q1 ls1] r1] eqn:El.
      injection E2 as <- <- <-.
      destruct (addContiguous_loop_split _ _ _ _ _ _ El (Add_range _ _))
        as (pre & Hpq & Hrr & Hc & Hl & Hh).
      exists pre, q1. simpl. split_and!; auto. }
  destruct C as (pre & rest & Hq2 & Hrest & Hcont & Hhead & Hr2 & Hns & Hs2 & Hn2 & Hd2
                 & Hqb2 & Hqp2 & Hob2 & Hop2 & Hsg2).
  unfold setStatsToSG in H. simpl in H.
  assert (Hret : ret a2 = map BCPage (pending_for half (bc_getSeq r0)) ++ r0 :: map BCPage pre).
  { rewrite Hr2, Hr1, <- app_assoc. reflexivity. }
  destruct (last (ret a2)) as [rl |] eqn:El; [| discriminate].
  simpl in H. injection H as <- <- <- <-. simpl.
  exists pre, rest. rewrite <- Hq1.
  split_and!; auto; try congruence;
    try (destruct (nextSeq half =? invalidSequence); reflexivity).
  rewrite Hret, last_app_cons in El. congruence.
Qed.

(** What [sendToConnection] hands to the stream, for one container [r0]
    waiting in [a.ret]. *)
Lemma sendToConnection_sg (a : Assembler Stream) conn sd ac a' conn' ns r0 :
  sendToConnection pageBytes ReassembledSG ReassemblyComplete a conn sd ac
  = Some (a', conn', ns) ->
  ret a = [r0] ->
  exists sg l pre rest,
    received conn' = received conn ++ CbReassembled sg :: l
    /\ (l = [] \/ l = [CbReassemblyComplete])
    /\ queue (getHalf conn sd) = pre ++ rest
    /\ contiguous_from (bc_endSeq r0) pre
    /\ match rest with [] => True | p :: _ => Difference ns (p_seq p) <> 0 end
    /\ sg_all sg
       = map BCPage (pending_for (getHalf conn sd) (bc_getSeq r0)) ++ r0 :: map BCPage pre
    /\ sg_saved sg = len (pages_bytes (pending_for (getHalf conn sd) (bc_getSeq r0)))
    /\ sg_Skip sg
       = (if nextSeq (getHalf conn sd) =? invalidSequence then -1
          else Difference (nextSeq (getHalf conn sd)) (bc_getSeq r0))
    /\ sg_Direction sg = dir (getHalf conn sd)
    /\ sg_queuedBytes sg = queuedBytes (getHalf conn sd)
    /\ sg_queuedPackets sg = queuedPackets (getHalf conn sd)
    /\ sg_overlapBytes sg = overlapBytes (getHalf conn sd)
    /\ sg_overlapPackets sg = overlapPackets (getHalf conn sd)
    /\ ns = Add (bc_endSeq r0) (qbytes pre)
    /\ closed (getHalf conn' sd)
       = closed (getHalf conn sd) || bc_isEnd (List.last (map BCPage pre) r0)
    /\ nextSeq (getHalf conn' sd) = nextSeq (getHalf conn sd).
Proof.
  unfold sendToConnection. intros H Hr.
  destruct (buildSG a (getHalf conn sd)) as [[[[e ns1] a1] half1] |] eqn:E1; [| discriminate].
  simpl in H.
  destruct (ReassembledSG (stream conn) (cacheSG a1) ac) as [keep s].
  destruct (cleanSG pageBytes _ half1 ac) as [[a3 half2] |] eqn:E2; [| discriminate].
  simpl in H.
  pose proof (buildSG_sg _ _ _ _ _ _ _ E1 Hr)
    as (pre & rest & Hq & _ & Hc & Hh & Hall & _ & _ & Hsv & Hsk & Hd & _ & Hqb & Hqp
        & Hob & Hop & Hns & He).
  apply buildSG_frame in E1. destruct E1 as (F1 & _).
  apply cleanSG_frame in E2. destruct E2 as (F2 & _).
  set (conn2 := setHalf (conn_called (setHalf conn sd half1) s (CbReassembled (cacheSG a1)))
                  sd half2) in H.
  assert (R2 : received conn2 = received conn ++ [CbReassembled (cacheSG a1)]).
  { unfold conn2. destruct sd; reflexivity. }
  assert (N2 : nextSeq (getHalf conn2 sd) = nextSeq (getHalf conn sd)).
  { unfold conn2. rewrite getHalf_setHalf. destruct F1 as (_ & <- & _).
    destruct F2 as (_ & <- & _). reflexivity. }
  assert (C2 : closed (getHalf conn2 sd) = closed (getHalf conn sd)).
  { unfold conn2. rewrite getHalf_setHalf. destruct F1 as (<- & _).
    destruct F2 as (<- & _). reflexivity. }
  exists (cacheSG a1). destruct e.
  - destruct (closeHalfConnection ReassemblyComplete a3 conn2 sd) as [a4 conn3] eqn:E3.
    injection H as <- <- <-.
    pose proof (closeHalfConnection_spec _ _ _ _ _ E3) as (C3 & _ & _ & N3 & _ & _ & _).
    assert (R3 : received conn3 = received conn2 \/
                 received conn3 = received conn2 ++ [CbReassemblyComplete]).
    { unfold closeHalfConnection in E3. repeat case_match; simplify_eq; simpl; auto;
        destruct sd; simpl; auto. }
    destruct R3 as [R3 | R3]; rewrite R3, R2.
    + exists [], pre, rest. rewrite <- He, orb_true_r. split_and!; auto; congruence.
    + exists [CbReassemblyComplete], pre, rest. rewrite <- app_assoc, <- He, orb_true_r.
      split_and!; auto; congruence.
  - injection H as <- <- <-. exists [], pre, rest. rewrite R2, <- He, orb_false_r.
    split_and!; auto.
Qed.

(** What [skipFlush] hands to the stream. *)
Lemma skipFlush_sg (a : Assembler Stream) conn sd a' conn' p q :
  skipFlush pageBytes ReassembledSG ReassemblyComplete a conn sd = Some (a', conn') ->
  queue (getHalf conn sd) = p :: q ->
  exists sg l pre rest,
    received conn' = received conn ++ CbReassembled sg :: l
    /\ (l = [] \/ l = [CbReassemblyComplete])
    /\ q = pre ++ rest
    /\ contiguous_from (page_end p) pre
    /\ match rest with
       | [] => True
       | p1 :: _ => Difference (Add (page_end p) (qbytes pre)) (p_seq p1) <> 0
       end
    /\ sg_all sg
       = map BCPage (pending_for (getHalf conn sd) (p_seq p)) ++ map BCPage (p :: pre)
    /\ sg_saved sg = len (pages_bytes (pending_for (getHalf conn sd) (p_seq p)))
    /\ sg_Skip sg
       = (if nextSeq (getHalf conn sd) =? invalidSequence then -1
          else Difference (nextSeq (getHalf conn sd)) (p_seq p))
    /\ sg_Direction sg = dir (getHalf conn sd)
    /\ nextSeq (getHalf conn' sd) = Add (page_end p) (qbytes pre)
    /\ closed (getHalf conn' sd)
       = closed (getHalf conn sd) || p_end (List.last pre p).
Proof.
  unfold skipFlush. intros H Hq. rewrite Hq in H.
  unfold addNextFromConn in H. rewrite Hq in H. simpl in H.
  destruct (sendToConnection _ _ _ _ _ _ _) as [[[a2 conn1] ns] |] eqn:E; [| discriminate].
  simpl in H.
  apply (sendToConnection_sg _ _ _ _ _ _ _ (BCPage p)) in E; [| reflexivity].
  destruct E as (sg & l & pre & rest & R & Hl & Hqq & Hc & Hh & Hall & Hsv & Hsk & Hd
                 & _ & _ & _ & _ & Hns & Hcl & Hn).
  rewrite getHalf_setHalf in *.
  change (bc_endSeq (BCPage p)) with (page_end p) in *.
  change (bc_getSeq (BCPage p)) with (p_seq p) in *.
  cbn [queue half_set_queue nextSeq closed dir saved] in *.
  change (pending_for (half_set_queue (getHalf conn sd) q) (p_seq p))
    with (pending_for (getHalf conn sd) (p_seq p)) in *.
  assert (Hlast : bc_isEnd (List.last (map BCPage pre) (BCPage p)) = p_end (List.last pre p)).
  { clear. revert p. induction pre as [| x pre IH]; intros p; [reflexivity |].
    simpl. destruct pre as [| y pre']; [reflexivity |]. apply (IH p). }
  assert (Hne : ns <> invalidSequence) by (rewrite Hns; apply Add_valid).
  destruct (Z.eqb_spec ns invalidSequence) as [? | _]; [done |]. simpl in H.
  injection H as <- <-.
  exists sg, l, pre, rest. rewrite getHalf_setHalf.
  cbn [nextSeq closed half_set_nextSeq]. rewrite received_setHalf, <- Hlast, <- Hcl.
  rewrite received_setHalf in R.
  split_and!; auto. rewrite <- Hns. exact Hh.
Qed.

(** ** Flushing *)

Lemma deliveries_reassembled (c c' : connection Stream) sg l :
  received c' = received c ++ CbReassembled sg :: l ->
  (l = [] \/ l = [CbReassemblyComplete]) ->
  deliveries c' = deliveries c ++ [sg_payload sg].
Proof.
  intros H Hl. unfold deliveries. rewrite H, omap_app. simpl.
  destruct Hl as [-> | ->]; reflexivity.
Qed.

Lemma deliveries_complete (c c' : connection Stream) :
  received c' = received c \/ received c' = received c ++ [CbReassemblyComplete] ->
  deliveries c' = deliveries c.
Proof.
  unfold deliveries. intros [-> | ->]; [reflexivity |].
  rewrite omap_app. simpl. apply app_nil_r.
Qed.

Lemma closeHalfConnection_received (a : Assembler Stream) conn sd a' conn' :
  closeHalfConnection ReassemblyComplete a conn sd = (a', conn') ->
  received conn' = received conn \/ received conn' = received conn ++ [CbReassemblyComplete].
Proof.
  unfold closeHalfConnection. intros E.
  repeat case_match; simplify_eq; simpl; auto; destruct sd; simpl; auto.
Qed.

(** X15. With pages queued, [skipFlush] hands the stream the first queued
    page together with the pages that follow it without a gap, in front of
    them the bytes saved for the stream if these end where the page starts.
    [Skip] tells the stream how many bytes are missing before the page (-1
    when the half has not seen its first sequence number), and the next
    sequence number expected moves to the end of what was handed over. The
    half is closed when the last page handed over carries the end mark. *)
Theorem skipFlush_delivers_head_of_queue (a : Assembler Stream) (conn : connection Stream)
    (sd : side) (a' : Assembler Stream) (conn' : connection Stream)
    (p : page) (q : list page) :
  skipFlush pageBytes ReassembledSG ReassemblyComplete a conn sd = Some (a', conn') ->
  queue (getHalf conn sd) = p :: q ->
  exists sg l pre rest,
    received conn' = received conn ++ CbReassembled sg :: l
    /\ (l = [] \/ l = [CbReassemblyComplete])
    /\ q = pre ++ rest
    /\ contiguous_from (page_end p) pre
    /\ match rest with
       | [] => True
       | p1 :: _ => Difference (Add (page_end p) (qbytes pre)) (p_seq p1) <> 0
       end
    /\ sg_payload sg
       = pages_bytes (pending_for (getHalf conn sd) (p_seq p)) ++ pages_bytes (p :: pre)
    /\ sg_saved sg = len (pages_bytes (pending_for (getHalf conn sd) (p_seq p)))
    /\ sg_Skip sg
       = (if nextSeq (getHalf conn sd) =? invalidSequence then -1
          else Difference (nextSeq (getHalf conn sd)) (p_seq p))
    /\ nextSeq (getHalf conn' sd) = Add (page_end p) (qbytes pre)
    /\ closed (getHalf conn' sd)
       = closed (getHalf conn sd) || p_end (List.last pre p).
Proof.
  intros H Hq.
  destruct (skipFlush_sg _ _ _ _ _ _ _ H Hq)
    as (sg & l & pre & rest & R & Hl & Hqq & Hc & Hh & Hall & Hsv & Hsk & _ & Hn & Hcl).
  exists sg, l, pre, rest. split_and!; auto.
  unfold sg_payload. rewrite Hall, sg_payload_pages.
  f_equal. rewrite <- (app_nil_r (map BCPage (p :: pre))), sg_payload_pages.
  apply app_nil_r.
Qed.

Lemma skipFlush_empty (a : Assembler Stream) conn sd a' conn' :
  skipFlush pageBytes ReassembledSG ReassemblyComplete a conn sd = Some (a', conn') ->
  queue (getHalf conn sd) = [] ->
  closed (getHalf conn' sd) = true /\ deliveries conn' = deliveries conn.
Proof.
  unfold skipFlush. intros H Hq. rewrite Hq in H. injection H as H.
  split.
  - apply closeHalfConnection_spec in H. tauto.
  - apply deliveries_complete. eapply closeHalfConnection_received. exact H.
Qed.

Lemma flushClose_loop_flags fuel (a : Assembler Stream) conn sd t fl a' conn' fl' cl' :
  flushClose_loop pageBytes ReassembledSG ReassemblyComplete fuel a conn sd t fl
  = Some (a', conn', fl', cl') ->
  closed (getHalf conn sd) = false ->
  closed (getHalf conn' sd) = cl'
  /\ ((fl' = fl /\ a' = a /\ conn' = conn)
      \/ (fl' = true /\ (length (deliveries conn) < length (deliveries conn'))%nat)).
Proof.
  revert a conn fl. induction fuel as [| fuel IH]; intros a conn fl H Hc; simpl in H.
  - destruct (queue (getHalf conn sd)) as [| p q]; [injection H as <- <- <- <-; auto |].
    destruct (p_seen p <? t); [discriminate |]. injection H as <- <- <- <-. auto.
  - destruct (queue (getHalf conn sd)) as [| p q] eqn:Hq;
      [injection H as <- <- <- <-; auto |].
    destruct (p_seen p <? t); [| injection H as <- <- <- <-; auto].
    destruct (skipFlush _ _ _ _ _ _) as [[a1 conn1] |] eqn:E; [| discriminate].
    simpl in H.
    destruct (skipFlush_sg _ _ _ _ _ _ _ E Hq) as (sg & l & _ & _ & R & Hl & _).
    pose proof (deliveries_reassembled _ _ _ _ R Hl) as D.
    assert (L : (length (deliveries conn) < length (deliveries conn1))%nat).
    { rewrite D, length_app. simpl. lia. }
    destruct (closed (getHalf conn1 sd)) eqn:Hc1.
    + injection H as <- <- <- <-. auto.
    + destruct (IH _ _ _ H Hc1) as (C & [(-> & -> & ->) | (-> & L2)]); split; auto.
      right. split; [reflexivity | lia].
Qed.

(** What the flags returned by [flushClose] tell of the call. *)
Lemma flushClose_outcome (a : Assembler Stream) (conn : connection Stream) (sd : side)
    (t tc : Z) (a' : Assembler Stream) (conn' : connection Stream) (fl cl : bool) :
  flushClose pageBytes ReassembledSG ReassemblyComplete a conn sd t tc
  = Some (a', conn', fl, cl) ->
  (cl = true <-> closed (getHalf conn sd) = false /\ closed (getHalf conn' sd) = true)
  /\ (fl = true <-> (length (deliveries conn) < length (deliveries conn'))%nat)
  /\ (fl = false -> deliveries conn' = deliveries conn)
  /\ (closed (getHalf conn sd) = true -> a' = a /\ conn' = conn).
Proof.
  unfold flushClose. intros H.
  destruct (closed (getHalf conn sd)) eqn:Hc.
  { injection H as <- <- <- <-. split_and!; auto; split; try lia; try discriminate. }
  destruct (flushClose_loop _ _ _ _ _ _ _ _ _) as [[[[a1 conn1] f1] c1] |] eqn:E;
    [| discriminate].
  simpl in H. apply flushClose_loop_flags in E; [| exact Hc].
  destruct E as (C1 & F1).
  assert (G : forall conn2 : connection Stream,
             deliveries conn2 = deliveries conn1 ->
             (f1 = true <-> (length (deliveries conn) < length (deliveries conn2))%nat)
             /\ (f1 = false -> deliveries conn2 = deliveries conn)).
  { intros conn2 D. rewrite D.
    destruct F1 as [(-> & _ & ->) | (-> & L)]; split; try split; try lia; try discriminate;
      auto. }
  destruct c1.
  - injection H as <- <- <- <-. destruct (G conn1 eq_refl). split_and!; auto; try discriminate.
    split; auto.
  - destruct (negb (closed (getHalf conn1 sd)) && bool_decide (queue (getHalf conn1 sd) = [])
              && (conn_lastSeen conn1 <? tc)).
    + destruct (closeHalfConnection _ _ _ _) as [a2 conn2] eqn:EC.
      injection H as <- <- <- <-.
      pose proof (closeHalfConnection_received _ _ _ _ _ EC) as R.
      apply closeHalfConnection_spec in EC. destruct EC as (C2 & _).
      destruct (G conn2 (deliveries_complete _ _ R)).
      split_and!; auto; try discriminate. split; auto.
    + injection H as <- <- <- <-. destruct (G conn1 eq_refl).
      split_and!; auto; try discriminate. split; [discriminate |].
      intros [_ ?]. congruence.
Qed.

(** X16. The flags that [flushClose] returns mean what they say: [closed]
    is set exactly when the call has closed the half, which was open, and
    [flushed] exactly when the call has handed bytes to the stream. A half
    that is closed already is left as it is. *)
Theorem flushClose_flags (a : Assembler Stream) (conn : connection Stream) (sd : side)
    (t tc : Z) (a' : Assembler Stream) (conn' : connection Stream) (fl cl : bool) :
  flushClose pageBytes ReassembledSG ReassemblyComplete a conn sd t tc
  = Some (a', conn', fl, cl) ->
  (cl = true <-> closed (getHalf conn sd) = false /\ closed (getHalf conn' sd) = true)
  /\ (fl = true <-> (length (deliveries conn) < length (deliveries conn'))%nat)
  /\ (fl = false -> deliveries conn' = deliveries conn)
  /\ (closed (getHalf conn sd) = true -> a' = a /\ conn' = conn).
Proof. exact (flushClose_outcome a conn sd t tc a' conn' fl cl). Qed.

Lemma FlushWithOptions_conn_inv (a : Assembler Stream) conn opt f c a' conn' f' c' :
  FlushWithOptions_conn pageBytes ReassembledSG ReassemblyComplete a conn opt f c
  = Some (a', conn', f', c') ->
  exists a1 conn1 f1 c1 a2 f2 c2,
    flushClose pageBytes ReassembledSG ReassemblyComplete a conn S2C (T opt) (TC opt)
    = Some (a1, conn1, f1, c1)
    /\ flushClose pageBytes ReassembledSG ReassemblyComplete a1 conn1 C2S (T opt) (TC opt)
       = Some (a2, conn', f2, c2)
    /\ f' = f + (if f1 then 1 else 0) + (if f2 then 1 else 0)
    /\ c' = c + (if c1 then 1 else 0) + (if c2 then 1 else 0)
    /\ a' = (if closed (s2c conn') && closed (c2s conn')
                && (lastSeen (s2c conn') <? TC opt) && (lastSeen (c2s conn') <? TC opt)
             then asm_set_connPool (pool_store a2 conn')
                    (pool_remove (connPool (pool_store a2 conn')) conn')
             else pool_store a2 conn').
Proof.
  unfold FlushWithOptions_conn. intros H.
  destruct (flushClose _ _ _ a conn S2C _ _) as [[[[a1 conn1] f1] c1] |] eqn:E1;
    [| discriminate].
  simpl in H.
  destruct (flushClose _ _ _ a1 conn1 C2S _ _) as [[[[a2 conn2] f2] c2] |] eqn:E2;
    [| discriminate].
  simpl in H. injection H as <- <- <- <-.
  exists a1, conn1, f1, c1, a2, f2, c2.
  split_and!; auto; destruct f1, f2, c1, c2; lia.
Qed.

(** X17. For each connection, [FlushWithOptions] adds to its count of
    closed halves the number of halves of the connection that were open and
    that it has closed, and to its count of flushes at most two; when the
    count of flushes has not moved the stream has been handed no bytes. A
    connection whose halves are both closed and both last seen before [TC]
    is removed from the pool. *)
Theorem FlushWithOptions_counts_per_connection (a : Assembler Stream)
    (conn : connection Stream) (opt : FlushOptions) (f c : Z)
    (a' : Assembler Stream) (conn' : connection Stream) (f' c' : Z) :
  FlushWithOptions_conn pageBytes ReassembledSG ReassemblyComplete a conn opt f c
  = Some (a', conn', f', c') ->
  c' = c + (if negb (closed (s2c conn)) && closed (s2c conn') then 1 else 0)
         + (if negb (closed (c2s conn)) && closed (c2s conn') then 1 else 0)
  /\ f <= f' <= f + 2
  /\ (f' = f -> deliveries conn' = deliveries conn)
  /\ (closed (s2c conn') && closed (c2s conn')
      && (lastSeen (s2c conn') <? TC opt) && (lastSeen (c2s conn') <? TC opt) = true ->
      conns (connPool a') !! ckey conn' = None).
Proof.
  intros H. apply FlushWithOptions_conn_inv in H.
  destruct H as (a1 & conn1 & f1 & c1 & a2 & f2 & c2 & E1 & E2 & -> & -> & ->).
  pose proof (flushClose_other _ _ _ _ _ _ _ _ _ E1) as O1.
  pose proof (flushClose_other _ _ _ _ _ _ _ _ _ E2) as O2.
  simpl in O1, O2.
  apply flushClose_outcome in E1. apply flushClose_outcome in E2.
  destruct E1 as (C1 & F1 & D1 & _). destruct E2 as (C2 & F2 & D2 & _).
  simpl in C1, C2.
  split; [| split; [| split]].
  - rewrite <- O1, O2.
    assert (X1 : (if c1 then 1 else 0)
                 = (if negb (closed (s2c conn)) && closed (s2c conn1) then 1 else 0)).
    { destruct c1.
      - destruct (proj1 C1 eq_refl) as [-> ->]. reflexivity.
      - destruct (closed (s2c conn)); [reflexivity |].
        destruct (closed (s2c conn1)); [| reflexivity].
        assert (false = true) by (apply C1; auto). discriminate. }
    assert (X2 : (if c2 then 1 else 0)
                 = (if negb (closed (c2s conn1)) && closed (c2s conn') then 1 else 0)).
    { destruct c2.
      - destruct (proj1 C2 eq_refl) as [-> ->]. reflexivity.
      - destruct (closed (c2s conn1)); [reflexivity |].
        destruct (closed (c2s conn')); [| reflexivity].
        assert (false = true) by (apply C2; auto). discriminate. }
    rewrite X1, X2. reflexivity.
  - destruct f1, f2; lia.
  - intros Hf. destruct f1, f2; try lia.
    rewrite (D2 eq_refl). apply D1. reflexivity.
  - intros ->. simpl. apply lookup_delete_eq.
Qed.

Lemma pool_store_same (a : Assembler Stream) conn :
  conns (connPool a) !! ckey conn = Some conn -> pool_store a conn = a.
Proof.
  intros H. unfold pool_store. rewrite H. rewrite insert_id by exact H.
  destruct a as [o r p [cn u] lp sg st]. reflexivity.
Qed.

Lemma flushClose_young (a : Assembler Stream) conn sd t tc :
  tc <= conn_lastSeen conn ->
  (forall p q, queue (getHalf conn sd) = p :: q -> t <= p_seen p) ->
  flushClose pageBytes ReassembledSG ReassemblyComplete a conn sd t tc
  = Some (a, conn, false, false).
Proof.
  intros Hl Hq. unfold flushClose.
  destruct (closed (getHalf conn sd)) eqn:Hc; [reflexivity |].
  destruct (queue (getHalf conn sd)) as [| p q] eqn:E.
  - simpl. rewrite E. simpl.
    destruct (Z.ltb_spec (conn_lastSeen conn) tc); [lia |].
    rewrite andb_false_r. reflexivity.
  - simpl. rewrite E. specialize (Hq p q eq_refl).
    destruct (Z.ltb_spec (p_seen p) t); [lia |]. simpl. rewrite E, Hc. simpl.
    reflexivity.
Qed.

Lemma FlushWithOptions_conn_young (a : Assembler Stream) conn opt f c :
  conns (connPool a) !! ckey conn = Some conn ->
  TC opt <= conn_lastSeen conn ->
  (forall sd p q, queue (getHalf conn sd) = p :: q -> T opt <= p_seen p) ->
  FlushWithOptions_conn pageBytes ReassembledSG ReassemblyComplete a conn opt f c
  = Some (a, conn, f, c).
Proof.
  intros Hp Hl Hq. unfold FlushWithOptions_conn.
  rewrite (flushClose_young a conn S2C) by (auto; apply Hq). simpl.
  rewrite (flushClose_young a conn C2S) by (auto; apply Hq). simpl.
  rewrite pool_store_same by exact Hp.
  assert (R : closed (s2c conn) && closed (c2s conn)
              && (lastSeen (s2c conn) <? TC opt) && (lastSeen (c2s conn) <? TC opt) = false).
  { unfold conn_lastSeen in Hl.
    destruct (Z.ltb_spec (lastSeen (c2s conn)) (lastSeen (s2c conn)));
      destruct (Z.ltb_spec (lastSeen (s2c conn)) (TC opt));
      destruct (Z.ltb_spec (lastSeen (c2s conn)) (TC opt)); try lia;
      rewrite ?andb_false_r; reflexivity. }
  rewrite R. reflexivity.
Qed.

Lemma FlushWithOptions_conns_young (a : Assembler Stream) cs opt f c :
  Forall (fun conn =>
            conns (connPool a) !! ckey conn = Some conn
            /\ TC opt <= conn_lastSeen conn
            /\ forall sd p q, queue (getHalf conn sd) = p :: q -> T opt <= p_seen p) cs ->
  FlushWithOptions_conns pageBytes ReassembledSG ReassemblyComplete a cs opt f c
  = Some (a, cs, f, c).
Proof.
  induction 1 as [| conn cs (Hp & Hl & Hq) _ IH]; simpl; [reflexivity |].
  rewrite FlushWithOptions_conn_young by assumption. simpl. rewrite IH. reflexivity.
Qed.

(** X18. [FlushCloseOlderThan(t)] leaves the young alone: when every
    connection of the pool has been seen at [t] or later, and the first page
    queued on each half is not older than [t], the call flushes nothing,
    closes nothing, removes nothing and returns zero for both counts. *)
Theorem FlushCloseOlderThan_spares_the_young (a : Assembler Stream) (t : Z) :
  (forall k conn,
      conns (connPool a) !! k = Some conn ->
      ckey conn = k
      /\ t <= conn_lastSeen conn
      /\ forall sd p q, queue (getHalf conn sd) = p :: q -> t <= p_seen p) ->
  FlushCloseOlderThan pageBytes ReassembledSG ReassemblyComplete a t
  = Some (a, pool_connections (connPool a), 0, 0).
Proof.
  intros H. unfold FlushCloseOlderThan, FlushWithOptions.
  apply FlushWithOptions_conns_young. simpl.
  apply Forall_forall. intros conn Hin.
  unfold pool_connections in Hin. apply list_elem_of_fmap in Hin.
  destruct Hin as ([k c0] & -> & Hin). simpl.
  apply elem_of_map_to_list in Hin.
  destruct (H k c0 Hin) as (Hk & Hl & Hq). rewrite Hk. auto.
Qed.

(** ** A segment at the position expected *)

(** Pages that start at the end of the new bytes or after it are left alone
    by the loop of [checkOverlap]. *)
Lemma checkOverlap_loop_beyond (start : Sequence) (n : Z) (curs : list page)
    (st : overlapState) :
  0 <= n ->
  os_skipped st = [] ->
  Forall (fun p => Difference (Add start n) (p_seq p) >= 0
                   /\ 0 < len (p_bytes p) /\ n + len (p_bytes p) < two31) curs ->
  checkOverlap_loop start (Add start n) curs st
  = Some ([], {| os_bytes := os_bytes st; os_skipped := [];
                 os_next := rev curs ++ os_next st;
                 os_overlapPackets := os_overlapPackets st;
                 os_overlapBytes := os_overlapBytes st; os_pages := os_pages st;
                 os_pc := os_pc st |}).
Proof.
  intros Hn Hsk H. revert st Hsk.
  induction H as [| cur prevs (Hd & Hl & Hw) _ IH]; intros st Hsk.
  - simpl. destruct st; simpl in *. subst. reflexivity.
  - assert (E : checkOverlap_loop start (Add start n) (cur :: prevs) st
                = checkOverlap_loop start (Add start n) prevs (os_set_next st cur)).
    { simpl.
      destruct (Z.gtb_spec (Difference (Add start n) (p_seq cur)) 0) as [G | G];
        [reflexivity |].
      assert (D0 : Difference (Add start n) (p_seq cur) = 0) by lia.
      assert (A1 : Difference start (Add (p_seq cur) (len (p_bytes cur)))
                   = n + len (p_bytes cur)).
      { clear - D0 Hn Hl Hw. revert D0 Hl Hw.
        generalize (len (p_bytes cur)) (p_seq cur). intros L cs. intros. seq_arith. }
      assert (A2 : Difference start (p_seq cur) = n).
      { clear - D0 Hn Hl Hw. revert D0 Hl Hw.
        generalize (len (p_bytes cur)) (p_seq cur). intros L cs. intros. seq_arith. }
      assert (A3 : Difference (Add start n) (Add (p_seq cur) (len (p_bytes cur)))
                   = len (p_bytes cur)).
      { clear - D0 Hn Hl Hw. revert D0 Hl Hw.
        generalize (len (p_bytes cur)) (p_seq cur). intros L cs. intros. seq_arith. }
      rewrite A1, A2, A3, D0.
      destruct (Z.leb_spec (n + len (p_bytes cur)) 0); [lia |].
      destruct (Z.leb_spec (len (p_bytes cur)) 0); [lia |].
      destruct (Z.ltb_spec (len (p_bytes cur)) 0); [lia |].
      destruct (Z.gtb_spec (len (p_bytes cur)) 0); [| lia].
      destruct (Z.ltb_spec n 0); [lia |].
      rewrite !andb_false_r. simpl. rewrite ?andb_false_r. reflexivity. }
    rewrite E, IH by reflexivity. simpl. rewrite Hsk. simpl.
    rewrite <- app_assoc. reflexivity.
Qed.

(** [checkOverlap] for bytes that are not to be queued, in front of pages
    that all start at their end or after it. *)
Lemma checkOverlap_beyond (a : Assembler Stream) half ac :
  queue_beyond (lp_endSeq (cacheLP a)) (queue half) ->
  len (lp_bytes (cacheLP a)) + qbytes (queue half) < two31 ->
  exists a' half',
    checkOverlap pageBytes a half false ac = Some (a', half')
    /\ queue half' = queue half
    /\ cacheLP a' = cacheLP a
    /\ ret a' = ret a /\ pc a' = pc a
    /\ saved half' = saved half /\ nextSeq half' = nextSeq half
    /\ closed half' = closed half /\ dir half' = dir half
    /\ queuedBytes half' = queuedBytes half
    /\ queuedPackets half' = queuedPackets half
    /\ overlapBytes half' = overlapBytes half
    /\ overlapPackets half' = overlapPackets half
    /\ pages half' = pages half.
Proof.
  intros Hb Hw. unfold checkOverlap.
  rewrite checkOverlap_loop_beyond.
  - simpl. rewrite andb_false_r. eexists _, _. split; [reflexivity |]. simpl.
    rewrite rev_involutive, app_nil_r. split_and!; try reflexivity.
    destruct (cacheLP a); reflexivity.
  - apply len_nonneg.
  - reflexivity.
  - apply Forall_rev. unfold queue_beyond, lp_endSeq in Hb.
    pose proof (len_nonneg (lp_bytes (cacheLP a))) as Hn.
    revert Hn Hb Hw. generalize (len (lp_bytes (cacheLP a))) (queue half).
    intros n q0 Hn Hb. induction Hb as [| p q (Hd & Hl) _ IH]; intros Hw; constructor.
    + cbn [qbytes] in Hw. pose proof (qbytes_nonneg q). split_and!; auto; lia.
    + apply IH. cbn [qbytes] in Hw. lia.
Qed.

Lemma last_cons_default {A} (x d : A) (l : list A) : List.last (x :: l) d = List.last l x.
Proof.
  revert x d. induction l as [| y l IH]; intros x d; [reflexivity |].
  change (List.last (x :: y :: l) d) with (List.last (y :: l) d).
  rewrite IH. symmetry. apply IH.
Qed.

Lemma last_map_default {A B} (f : A -> B) (l : list A) (d : A) :
  List.last (map f l) (f d) = f (List.last l d).
Proof.
  induction l as [| x l IH]; [reflexivity |].
  change (map f (x :: l)) with (f x :: map f l).
  rewrite !last_cons_default. clear IH. revert x.
  induction l as [| y l IH]; intros x; [reflexivity |].
  change (map f (y :: l)) with (f y :: map f l).
  rewrite !last_cons_default. apply IH.
Qed.

Lemma same_data_refl h : same_data h h.
Proof. unfold same_data. tauto. Qed.

Lemma same_data_trans h1 h2 h3 : same_data h1 h2 -> same_data h2 h3 -> same_data h1 h3.
Proof. unfold same_data. intuition congruence. Qed.

Lemma seen_at_data (h : halfconnection) (ts : Z) :
  same_data h (seen_at h ts) /\ nextSeq (seen_at h ts) = nextSeq h.
Proof. unfold seen_at, same_data. destruct (lastSeen h <? ts); simpl; tauto. Qed.

Lemma halfK_data (h : halfconnection) (t : TCP) :
  same_data h (if ACK t then half_set_ackSeq h (Ack t) else h)
  /\ nextSeq (if ACK t then half_set_ackSeq h (Ack t) else h) = nextSeq h.
Proof. unfold same_data. destruct (ACK t); simpl; tauto. Qed.

Lemma sequenceDecision_data (h : halfconnection) (t : TCP) (st : bool) :
  same_data h (sequenceDecision h t st).1.2.
Proof. unfold sequenceDecision, same_data. repeat case_match; simpl; tauto. Qed.

Lemma pending_for_data (h h' : halfconnection) (s : Sequence) :
  same_data h h' -> pending_for h' s = pending_for h s.
Proof. intros (_ & _ & Hs & _). unfold pending_for. rewrite Hs. reflexivity. Qed.

(** Where the payload of a segment is handled: at its sequence number, or
    one further for the SYN that opens the half. The segment is in position
    when that is the next sequence number the half expects. *)
Lemma sequenceDecision_position (h : halfconnection) (t : TCP) (st : bool) (seq0 : Sequence) :
  (nextSeq h = invalidSequence /\ SYN t = true /\ seq0 = Add (Seq t) 1)
  \/ (nextSeq h = invalidSequence /\ SYN t = false /\ st = true /\ seq0 = Seq t
      /\ 0 <= Seq t < two32)
  \/ (nextSeq h <> invalidSequence /\ seq0 = Seq t /\ nextSeq h = Seq t) ->
  (sequenceDecision h t st).1.1 = seq0
  /\ (sequenceDecision h t st).2 = false
  /\ nextSeq (sequenceDecision h t st).1.2 = seq0
  /\ seq0 <> invalidSequence.
Proof.
  unfold sequenceDecision.
  intros [(Hn & Hs & ->) | [(Hn & Hs & -> & -> & Hr) | (Hn & -> & Hq)]].
  - rewrite Hn, Hs. simpl. split_and!; auto. apply Add_valid.
  - rewrite Hn, Hs. simpl. split_and!; auto. unfold invalidSequence. lia.
  - destruct (Z.eqb_spec (nextSeq h) invalidSequence) as [? | _]; [contradiction |].
    rewrite Hq, Difference_self. simpl. split_and!; auto. congruence.
Qed.

(** The heart of [AssembleWithContext] for a segment that is not queued:
    [b1] and [s1] are the bytes and the sequence number that
    [overlapExisting] leaves of it. *)
Lemma assemble_immediate (a : Assembler Stream) conn sd t ac st s a' conn'
    (b1 : list byte) (s1 : Sequence) (halfE : halfconnection) :
  Accept (stream conn) t (GetCaptureInfo ac) (dir (getHalf conn sd))
    (nextSeq (getHalf conn sd))
    ((nextSeq (getHalf conn sd) =? invalidSequence) && SYN t) ac = (true, st, s) ->
  closed (getHalf conn sd) = false ->
  (let half0 := seen_at (getHalf conn sd) (Timestamp (GetCaptureInfo ac)) in
   let halfK := if ACK t then half_set_ackSeq half0 (Ack t) else half0 in
   (sequenceDecision halfK t st).2 = false
   /\ overlapExisting (sequenceDecision halfK t st).1.2 (sequenceDecision halfK t st).1.1
        (Add (sequenceDecision halfK t st).1.1 (len (Payload t))) (Payload t)
      = Some (b1, s1, halfE)) ->
  b1 <> [] \/ SYN t = true \/ FIN t = true \/ RST t = true ->
  queue_beyond (Add s1 (len b1)) (queue (getHalf conn sd)) ->
  len b1 + qbytes (queue (getHalf conn sd)) < two31 ->
  AssembleWithContext_conn pageBytes Accept ReassembledSG ReassemblyComplete a conn sd t ac
  = Some (a', conn') ->
  same_data (getHalf conn sd)
    (half_set_stats halfE (queuedPackets (getHalf conn sd)) (queuedBytes (getHalf conn sd))
       (overlapPackets (getHalf conn sd)) (overlapBytes (getHalf conn sd)))
  /\ exists sg l pre rest,
    received conn' = received conn ++ CbAccept t true :: CbReassembled sg :: l
    /\ (l = [] \/ l = [CbReassemblyComplete])
    /\ queue (getHalf conn sd) = pre ++ rest
    /\ contiguous_from (Add s1 (len b1)) pre
    /\ match rest with
       | [] => True
       | p :: _ => Difference (Add s1 (len b1 + qbytes pre)) (p_seq p) <> 0
       end
    /\ sg_all sg
       = map BCPage (pending_for (getHalf conn sd) s1)
         ++ BCLive {| lp_bytes := b1; lp_start := SYN t; lp_end := RST t || FIN t;
                      lp_ci := GetCaptureInfo ac; lp_ac := Some ac; lp_seq := s1 |}
         :: map BCPage pre
    /\ sg_saved sg = len (pages_bytes (pending_for (getHalf conn sd) s1))
    /\ sg_Skip sg
       = (if nextSeq halfE =? invalidSequence then -1 else Difference (nextSeq halfE) s1)
    /\ sg_Direction sg = dir (getHalf conn sd)
    /\ sg_overlapBytes sg = overlapBytes halfE
    /\ sg_overlapPackets sg = overlapPackets halfE
    /\ nextSeq (getHalf conn' sd)
       = (if FIN t then Add (Add s1 (len b1 + qbytes pre)) 1
          else Add s1 (len b1 + qbytes pre))
    /\ closed (getHalf conn' sd)
       = match pre with
         | [] => RST t || FIN t
         | p :: ps => p_end (List.last ps p)
         end.
Proof.
  intros HA Hc Hdec Hne Hb Hw H. cbv zeta in Hdec.
  rewrite AssembleWithContext_conn_eq in H. cbv zeta in H.
  set (h := getHalf conn sd) in *.
  set (half0 := seen_at h (Timestamp (GetCaptureInfo ac))) in *.
  destruct (seen_at_data h (Timestamp (GetCaptureInfo ac))) as [D0 N0].
  fold half0 in D0, N0.
  assert (Hd0 : dir half0 = dir h) by (destruct D0; assumption).
  assert (Hc0 : closed half0 = closed h) by (unfold same_data in D0; tauto).
  rewrite Hd0, N0, HA, Hc0, Hc in H. cbn [negb] in H.
  set (halfK := if ACK t then half_set_ackSeq half0 (Ack t) else half0) in *.
  destruct (halfK_data half0 t) as [DK NK]. fold halfK in DK, NK.
  pose proof (sequenceDecision_data halfK t st) as DD.
  destruct Hdec as [S2 EO].
  destruct (sequenceDecision halfK t st) as [[sq halfD] qd]. cbn [fst snd] in S2, EO, DD.
  subst qd.
  assert (DhD : same_data h halfD).
  { eapply same_data_trans; [exact D0 |]. eapply same_data_trans; [exact DK | exact DD]. }
  set (aA := asm_set_start
               (asm_set_start (asm_set_ret a [])
                  ((nextSeq h =? invalidSequence) && SYN t)) st) in *.
  destruct (handleBytes pageBytes aA (Payload t) sq halfD (GetCaptureInfo ac) (SYN t)
              (RST t || FIN t) {| act_nextSeq := invalidSequence; act_queue := false |} ac)
    as [[[a1 half1] act] |] eqn:EH; [| discriminate H].
  cbn [mbind option_bind] in H.
  apply handleBytes_immediate in EH.
  destruct EH as (-> & b1' & s1' & halfE' & a2 & EO' & EC & _ & _ & _ & Ea1).
  rewrite EO in EO'. injection EO' as <- <- <-.
  pose proof (overlapExisting_frame _ _ _ _ _ _ _ EO) as (FE & QE & SE & _).
  assert (DE : same_data halfD
                 (half_set_stats halfE (queuedPackets h) (queuedBytes h)
                    (overlapPackets h) (overlapBytes h))).
  { unfold overlapExisting in EO. unfold same_data in DhD |- *.
    destruct DhD as (? & ? & ? & ? & ? & ? & ? & ? & ?).
    repeat (simplify_option_eq || case_match); simpl; split_and!; congruence. }
  split; [eapply same_data_trans; [exact DhD | exact DE] |].
  set (lp := {| lp_bytes := b1; lp_start := SYN t; lp_end := RST t || FIN t;
                lp_ci := GetCaptureInfo ac; lp_ac := Some ac; lp_seq := s1 |}) in *.
  assert (QhE : queue halfE = queue h).
  { destruct DhD as (_ & _ & _ & <- & _). exact QE. }
  destruct (checkOverlap_beyond (asm_set_cacheLP aA lp) halfE ac)
    as (a2' & half1' & EC' & Q1 & LP1 & R1 & _ & Sv1 & Nx1 & Cl1 & Dr1 & Qb1 & Qp1 & Ob1 & Op1
        & Pg1).
  { rewrite QhE. exact Hb. }
  { rewrite QhE. exact Hw. }
  rewrite EC' in EC. injection EC as <- <-.
  cbn [cacheLP asm_set_cacheLP] in LP1. cbn [ret asm_set_cacheLP] in R1.
  assert (Ra1 : ret a1 = [BCLive lp]).
  { rewrite Ea1, LP1. cbn [lp_bytes lp].
    assert (X : negb (len b1 =? 0) || (RST t || FIN t) || SYN t = true).
    { destruct Hne as [Hp | [-> | [-> | ->]]]; rewrite ?orb_true_r; auto.
      destruct (Z.eqb_spec (len b1) 0) as [E | _]; [| reflexivity].
      apply len_nil_inv in E. contradiction. }
    rewrite X. cbn [ret asm_set_ret]. rewrite R1. reflexivity. }
  rewrite Ra1 in H. change (len [BCLive lp] >? 0) with true in H. cbv iota in H.
  set (connH := setHalf (conn_called (setHalf conn sd half0) s (CbAccept t true)) sd half1')
    in *.
  destruct (sendToConnection pageBytes ReassembledSG ReassemblyComplete a1 connH sd (Some ac))
    as [[[a3 conn3] ns] |] eqn:ES; [| discriminate H].
  cbn [mbind option_bind] in H. injection H as <- <-.
  destruct (sendToConnection_sg _ _ _ _ _ _ _ _ ES Ra1)
    as (sg & l & pre & rest & R & Hl & Hq & Hcont & Hh & Hall & Hsv & Hsk & Hdir & Hqb & _
        & Hob & Hop & Hns & Hcl & _).
  assert (GH : getHalf connH sd = half1') by (unfold connH; apply getHalf_setHalf).
  assert (RH : received connH = received conn ++ [CbAccept t true]).
  { unfold connH. rewrite received_setHalf. simpl. rewrite received_setHalf. reflexivity. }
  rewrite GH in *.
  assert (D1 : saved half1' = saved h /\ queue half1' = queue h /\ dir half1' = dir h
               /\ closed half1' = closed h).
  { destruct DhD as (? & _ & ? & ? & ? & _). destruct FE as (? & _ & ? & _).
    split_and!; congruence. }
  assert (P1 : pending_for half1' s1 = pending_for h s1).
  { unfold pending_for. destruct D1 as (-> & _). reflexivity. }
  change (bc_getSeq (BCLive lp)) with s1 in *.
  change (bc_endSeq (BCLive lp)) with (Add s1 (len b1)) in *.
  rewrite P1 in Hall, Hsv.
  rewrite Add_Add in Hns.
  assert (Hnv : ns <> invalidSequence) by (rewrite Hns; apply Add_valid).
  destruct (finishAssemble_fields conn3 sd t ns Hnv) as (FN & FC & FR).
  exists sg, l, pre, rest. rewrite FN, FC, FR, R, RH, <- app_assoc. simpl.
  destruct D1 as (Hs1 & Hq1 & Hd1 & Hc1).
  split_and!; auto; try congruence.
  - rewrite <- Hns. exact Hh.
  - rewrite Hsk, Nx1. reflexivity.
  - rewrite Hns. reflexivity.
  - rewrite Hcl, Hc1, Hc. cbn [orb].
    destruct pre as [| p ps]; [reflexivity |].
    change (map BCPage (p :: ps)) with (BCPage p :: map BCPage ps).
    rewrite last_cons_default, last_map_default. reflexivity.
Qed.

Lemma sg_payload_live (sg : reassemblyObject) (pend pre : list page) (lp : livePacket) :
  sg_all sg = map BCPage pend ++ BCLive lp :: map BCPage pre ->
  sg_payload sg = pages_bytes pend ++ lp_bytes lp ++ pages_bytes pre.
Proof.
  intros H. unfold sg_payload. rewrite H, sg_payload_pages. f_equal. simpl. f_equal.
  rewrite <- (app_nil_r (map BCPage pre)), sg_payload_pages. apply app_nil_r.
Qed.

Lemma halfK_nextSeq (h : halfconnection) (t : TCP) (ts : Z) :
  nextSeq (if ACK t then half_set_ackSeq (seen_at h ts) (Ack t) else seen_at h ts)
  = nextSeq h.
Proof.
  destruct (halfK_data (seen_at h ts) t) as [_ ->].
  destruct (seen_at_data h ts) as [_ ->]. reflexivity.
Qed.

(** A segment in position is not cut by [overlapExisting]. *)
Lemma decision_in_position (h : halfconnection) (t : TCP) (st : bool) (seq0 : Sequence) :
  (nextSeq h = invalidSequence /\ SYN t = true /\ seq0 = Add (Seq t) 1)
  \/ (nextSeq h = invalidSequence /\ SYN t = false /\ st = true /\ seq0 = Seq t
      /\ 0 <= Seq t < two32)
  \/ (nextSeq h <> invalidSequence /\ seq0 = Seq t /\ nextSeq h = Seq t) ->
  (sequenceDecision h t st).2 = false
  /\ overlapExisting (sequenceDecision h t st).1.2 (sequenceDecision h t st).1.1
       (Add (sequenceDecision h t st).1.1 (len (Payload t))) (Payload t)
     = Some (Payload t, seq0, (sequenceDecision h t st).1.2)
  /\ nextSeq (sequenceDecision h t st).1.2 = seq0
  /\ seq0 <> invalidSequence.
Proof.
  intros Hp. destruct (sequenceDecision_position h t st seq0 Hp) as (H1 & H2 & H3 & H4).
  split_and!; auto.
  unfold overlapExisting. rewrite H1, H3, Difference_self.
  destruct (Z.eqb_spec seq0 invalidSequence); [contradiction | reflexivity].
Qed.

(** X19. A segment that arrives where the half expects the next byte is
    handed to the stream at once, in one delivery with [Skip] 0 that holds,
    in this order: the bytes the stream had asked to keep, if they end where
    the segment starts; the payload; and the queued pages that follow the
    payload without a gap, which is how segments that arrived out of order
    are put back in order; the run of queued pages stops at the first gap.
    The next sequence number expected moves past all that was delivered, one
    further for a FIN. *)
Theorem segment_in_position_is_delivered (a : Assembler Stream) (conn : connection Stream)
    (sd : side) (t : TCP) (ac : AssemblerContext) (st : bool) (s : Stream)
    (a' : Assembler Stream) (conn' : connection Stream) :
  Accept (stream conn) t (GetCaptureInfo ac) (dir (getHalf conn sd))
    (nextSeq (getHalf conn sd))
    ((nextSeq (getHalf conn sd) =? invalidSequence) && SYN t) ac = (true, st, s) ->
  closed (getHalf conn sd) = false ->
  nextSeq (getHalf conn sd) <> invalidSequence ->
  nextSeq (getHalf conn sd) = Seq t ->
  Payload t <> [] \/ SYN t = true \/ FIN t = true \/ RST t = true ->
  queue_beyond (Add (Seq t) (len (Payload t))) (queue (getHalf conn sd)) ->
  len (Payload t) + qbytes (queue (getHalf conn sd)) < two31 ->
  AssembleWithContext_conn pageBytes Accept ReassembledSG ReassemblyComplete a conn sd t ac
  = Some (a', conn') ->
  exists sg l pre rest,
    received conn' = received conn ++ CbAccept t true :: CbReassembled sg :: l
    /\ (l = [] \/ l = [CbReassemblyComplete])
    /\ queue (getHalf conn sd) = pre ++ rest
    /\ contiguous_from (Add (Seq t) (len (Payload t))) pre
    /\ match rest with
       | [] => True
       | p :: _ =>
           Difference (Add (Seq t) (len (Payload t) + qbytes pre)) (p_seq p) <> 0
       end
    /\ sg_payload sg
       = pages_bytes (pending_for (getHalf conn sd) (Seq t)) ++ Payload t ++ pages_bytes pre
    /\ sg_Skip sg = 0
    /\ nextSeq (getHalf conn' sd)
       = (if FIN t then Add (Add (Seq t) (len (Payload t) + qbytes pre)) 1
          else Add (Seq t) (len (Payload t) + qbytes pre))
    /\ closed (getHalf conn' sd)
       = match pre with
         | [] => RST t || FIN t
         | p :: ps => p_end (List.last ps p)
         end.
Proof.
  intros HA Hc Hv Hn Hne Hb Hw H.
  set (halfK := if ACK t
                then half_set_ackSeq
                       (seen_at (getHalf conn sd) (Timestamp (GetCaptureInfo ac))) (Ack t)
                else seen_at (getHalf conn sd) (Timestamp (GetCaptureInfo ac))).
  destruct (decision_in_position halfK t st (Seq t)) as (D1 & D2 & D3 & D4).
  { right. right. unfold halfK. rewrite halfK_nextSeq. auto. }
  destruct (assemble_immediate a conn sd t ac st s a' conn' (Payload t) (Seq t)
              (sequenceDecision halfK t st).1.2 HA Hc)
    as (_ & sg & l & pre & rest & R & Hl & Hq & Hcont & Hh & Hall & Hsv & Hsk
        & _ & _ & _ & HN & HC); auto.
  exists sg, l, pre, rest. split_and!; auto.
  - rewrite (sg_payload_live _ _ _ _ Hall). reflexivity.
  - rewrite Hsk, D3, Difference_self.
    destruct (Z.eqb_spec (Seq t) invalidSequence); [contradiction | reflexivity].
Qed.

(** X20. The segment that opens a half, a SYN or a segment for which the
    stream forces the start, fixes where the half begins: one past the
    sequence number of a SYN, at the sequence number of a forced start. Its
    payload is delivered at once with [Skip] 0, followed by the pages queued
    before the start was known that continue it without a gap. *)
Theorem opening_segment_starts_the_half (a : Assembler Stream) (conn : connection Stream)
    (sd : side) (t : TCP) (ac : AssemblerContext) (st : bool) (s : Stream)
    (a' : Assembler Stream) (conn' : connection Stream) (seq0 : Sequence) :
  Accept (stream conn) t (GetCaptureInfo ac) (dir (getHalf conn sd))
    (nextSeq (getHalf conn sd))
    ((nextSeq (getHalf conn sd) =? invalidSequence) && SYN t) ac = (true, st, s) ->
  closed (getHalf conn sd) = false ->
  nextSeq (getHalf conn sd) = invalidSequence ->
  (SYN t = true /\ seq0 = Add (Seq t) 1)
  \/ (SYN t = false /\ st = true /\ seq0 = Seq t /\ 0 <= Seq t < two32) ->
  Payload t <> [] \/ SYN t = true \/ FIN t = true \/ RST t = true ->
  queue_beyond (Add seq0 (len (Payload t))) (queue (getHalf conn sd)) ->
  len (Payload t) + qbytes (queue (getHalf conn sd)) < two31 ->
  AssembleWithContext_conn pageBytes Accept ReassembledSG ReassemblyComplete a conn sd t ac
  = Some (a', conn') ->
  exists sg l pre rest,
    received conn' = received conn ++ CbAccept t true :: CbReassembled sg :: l
    /\ (l = [] \/ l = [CbReassemblyComplete])
    /\ queue (getHalf conn sd) = pre ++ rest
    /\ contiguous_from (Add seq0 (len (Payload t))) pre
    /\ match rest with
       | [] => True
       | p :: _ => Difference (Add seq0 (len (Payload t) + qbytes pre)) (p_seq p) <> 0
       end
    /\ sg_payload sg
       = pages_bytes (pending_for (getHalf conn sd) seq0) ++ Payload t ++ pages_bytes pre
    /\ sg_Skip sg = 0
    /\ nextSeq (getHalf conn' sd)
       = (if FIN t then Add (Add seq0 (len (Payload t) + qbytes pre)) 1
          else Add seq0 (len (Payload t) + qbytes pre)).
Proof.
  intros HA Hc Hv Hp Hne Hb Hw H.
  set (halfK := if ACK t
                then half_set_ackSeq
                       (seen_at (getHalf conn sd) (Timestamp (GetCaptureInfo ac))) (Ack t)
                else seen_at (getHalf conn sd) (Timestamp (GetCaptureInfo ac))).
  destruct (decision_in_position halfK t st seq0) as (D1 & D2 & D3 & D4).
  { unfold halfK. rewrite halfK_nextSeq. tauto. }
  destruct (assemble_immediate a conn sd t ac st s a' conn' (Payload t) seq0
              (sequenceDecision halfK t st).1.2 HA Hc)
    as (_ & sg & l & pre & rest & R & Hl & Hq & Hcont & Hh & Hall & Hsv & Hsk
        & _ & _ & _ & HN & HC); auto.
  exists sg, l, pre, rest. split_and!; auto.
  - rewrite (sg_payload_live _ _ _ _ Hall). reflexivity.
  - rewrite Hsk, D3, Difference_self.
    destruct (Z.eqb_spec seq0 invalidSequence); [contradiction | reflexivity].
Qed.

(** A retransmission that starts [d] bytes before the next sequence number
    expected and reaches beyond it loses its first [d] bytes in
    [overlapExisting]. *)
Lemma decision_retransmitted (h : halfconnection) (t : TCP) (st : bool) (d : Z) :
  nextSeq h <> invalidSequence ->
  Difference (Seq t) (nextSeq h) = d ->
  0 < d < len (Payload t) ->
  (sequenceDecision h t st).2 = false
  /\ overlapExisting (sequenceDecision h t st).1.2 (sequenceDecision h t st).1.1
       (Add (sequenceDecision h t st).1.1 (len (Payload t))) (Payload t)
     = Some (drop (Z.to_nat d) (Payload t), nextSeq h,
             half_set_stats h (queuedPackets h) (queuedBytes h)
               (overlapPackets h + 1) (overlapBytes h + d)).
Proof.
  intros Hv Hd Hr.
  assert (Hneg : Difference (nextSeq h) (Seq t) = - d).
  { revert Hd. seq_arith. }
  assert (SD : sequenceDecision h t st = (Seq t, h, false)).
  { unfold sequenceDecision.
    destruct (Z.eqb_spec (nextSeq h) invalidSequence); [contradiction |].
    rewrite Hneg. destruct (Z.gtb_spec (- d) 0); [lia | reflexivity]. }
  rewrite SD. cbn [fst snd]. split; [reflexivity |].
  unfold overlapExisting.
  destruct (Z.eqb_spec (nextSeq h) invalidSequence); [contradiction |].
  cbv zeta. rewrite Hd.
  destruct (Z.eqb_spec d 0); [lia |].
  destruct (Z.eqb_spec (len (Payload t)) 0); [lia |]. cbn [negb].
  replace (0 + d) with d by lia.
  destruct (Z.geb_spec d (len (Payload t))); [lia |].
  unfold slice_from.
  repeat case_match; try lia; reflexivity.
Qed.


(** *** Segments that wait in the queue *)

Lemma contiguous_from_congr (s s' : Sequence) (ps : list page) :
  Difference s s' = 0 -> contiguous_from s' ps -> contiguous_from s ps.
Proof.
  destruct ps as [| p ps]; [auto |]. simpl. intros E [H1 H2]. split.
  - revert E H1. seq_arith.
  - replace (Add s (len (p_bytes p))) with (Add s' (len (p_bytes p))); [exact H2 |].
    revert E. seq_arith.
Qed.

Lemma Difference_Add_0 (s : Sequence) : Difference s (Add s 0) = 0.
Proof. seq_arith. Qed.

(** The chain of pages made of a payload has no gap and no empty page. *)
Lemma fillPages_chain (fuel : nat) (c : pageCache) (ts : Z) (e : bool) (cur : page)
    (s : Sequence) (b : list byte) :
  (0 < pageBytes)%nat ->
  b <> [] ->
  (length (drop (Nat.min (length b) pageBytes) b) <= fuel)%nat ->
  contiguous_from s (fillPages pageBytes fuel c ts e cur s b).1
  /\ Forall (fun p => 0 < len (p_bytes p)) (fillPages pageBytes fuel c ts e cur s b).1.
Proof.
  intros Hpb. revert c cur s b.
  assert (Hlen : forall b : list byte, b <> [] ->
                   0 < len (take (Nat.min (length b) pageBytes) b)).
  { intros b Hb. unfold len. rewrite length_take. destruct b; [contradiction |].
    cbn [length]. lia. }
  induction fuel as [| fuel IH]; intros c cur s b Hb Hfuel; cbn [fillPages].
  - destruct (drop (Nat.min (length b) pageBytes) b) eqn:Hrest; [| simpl in Hfuel; lia].
    cbn. split; [split; [apply Difference_self | exact I] |].
    constructor; [| constructor]. cbn. apply Hlen, Hb.
  - destruct (drop (Nat.min (length b) pageBytes) b) as [| x rest] eqn:Hrest.
    + cbn. split; [split; [apply Difference_self | exact I] |].
      constructor; [| constructor]. cbn. apply Hlen, Hb.
    + destruct (pc_next c ts) as [nxt c1].
      destruct (IH c1 nxt (Add s (Z.of_nat (Nat.min (length b) pageBytes))) (x :: rest))
        as [I1 I2]; [discriminate | |].
      { rewrite length_drop. simpl in Hfuel |- *. destruct pageBytes; [lia |]. lia. }
      destruct (fillPages pageBytes fuel c1 ts e nxt _ (x :: rest)) as [ps c2].
      cbn in I1, I2 |- *. split; [split; [apply Difference_self |] |].
      * replace (len (take (Nat.min (length b) pageBytes) b))
          with (Z.of_nat (Nat.min (length b) pageBytes)); [exact I1 |].
        unfold len. rewrite length_take. lia.
      * constructor; [| exact I2]. cbn. apply Hlen, Hb.
Qed.

Lemma lp_convertToPages_chain (lp : livePacket) (c : pageCache)
    (ac : option AssemblerContext) :
  (0 < pageBytes)%nat ->
  lp_bytes lp <> [] ->
  exists ps c',
    lp_convertToPages pageBytes lp c 0 ac = Some (ps, len ps, c')
    /\ pages_bytes ps = lp_bytes lp
    /\ contiguous_from (lp_seq lp) ps
    /\ Forall (fun p => 0 < len (p_bytes p)) ps.
Proof.
  intros Hpb Hb. unfold lp_convertToPages, slice_from.
  assert (H0 : (0 <=? 0) && (0 <=? len (lp_bytes lp)) = true).
  { pose proof (len_nonneg (lp_bytes lp)). apply andb_true_iff. split; apply Z.leb_le; lia. }
  rewrite H0. cbn -[pc_next fillPages Add].
  change (Z.to_nat 0) with 0%nat. rewrite drop_0.
  destruct (pc_next c (Timestamp (lp_ci lp))) as [first c1].
  set (first1 := {| p_id := p_id first; p_seq := p_seq first; p_bytes := p_bytes first;
                    p_seen := p_seen first; p_ac := ac; p_end := false |}).
  pose proof (fillPages_concat pageBytes (length (lp_bytes lp)) c1 (Timestamp (lp_ci lp))
                (lp_end lp) first1 (Add (lp_seq lp) 0) (lp_bytes lp) Hpb) as Hc.
  pose proof (fillPages_chain (length (lp_bytes lp)) c1 (Timestamp (lp_ci lp)) (lp_end lp)
                first1 (Add (lp_seq lp) 0) (lp_bytes lp) Hpb Hb) as Hs.
  destruct (fillPages pageBytes (length (lp_bytes lp)) c1 (Timestamp (lp_ci lp)) (lp_end lp)
              first1 (Add (lp_seq lp) 0) (lp_bytes lp)) as [ps c2].
  exists ps, c2. cbn [fst] in Hc, Hs.
  assert (Hf : (length (drop (Nat.min (length (lp_bytes lp)) pageBytes) (lp_bytes lp))
                <= length (lp_bytes lp))%nat) by (rewrite length_drop; lia).
  destruct (Hs Hf) as [S1 S2].
  split_and!; auto.
  eapply contiguous_from_congr; [| exact S1]. apply Difference_Add_0.
Qed.

(** [checkOverlap] puts a payload that starts where the last queued page
    ends, or after it, behind the queue. *)
Lemma checkOverlap_append (a : Assembler Stream) (half : halfconnection)
    (ac : AssemblerContext) :
  (0 < pageBytes)%nat ->
  lp_bytes (cacheLP a) <> [] ->
  match last (queue half) with
  | None => True
  | Some p =>
      Difference (lp_endSeq (cacheLP a)) (p_seq p) <= 0
      /\ Difference (lp_seq (cacheLP a)) (page_end p) <= 0
  end ->
  exists a' ps,
    checkOverlap pageBytes a half true ac
    = Some (a', half_set_queue
                  (half_set_pages
                     (half_set_stats half (queuedPackets half + 1)
                        (queuedBytes half + len (lp_bytes (cacheLP a)))
                        (overlapPackets half) (overlapBytes half))
                     (pages half + len ps))
                  (queue half ++ ps))
    /\ pages_bytes ps = lp_bytes (cacheLP a)
    /\ contiguous_from (lp_seq (cacheLP a)) ps
    /\ Forall (fun p => 0 < len (p_bytes p)) ps
    /\ opts a' = opts a /\ ret a' = ret a /\ connPool a' = connPool a.
Proof.
  intros Hpb Hb Hl. unfold checkOverlap.
  set (st0 := {| os_bytes := lp_bytes (cacheLP a); os_skipped := []; os_next := [];
                 os_overlapPackets := overlapPackets half;
                 os_overlapBytes := overlapBytes half;
                 os_pages := pages half; os_pc := pc a |}).
  assert (E : checkOverlap_loop (lp_seq (cacheLP a))
                (Add (lp_seq (cacheLP a)) (len (lp_bytes (cacheLP a))))
                (rev (queue half)) st0 = Some (rev (queue half), st0)).
  { destruct (queue half) as [| p0 q0] using rev_ind; [reflexivity |].
    rewrite last_snoc in Hl. destruct Hl as [L1 L2].
    rewrite rev_unit. cbn [checkOverlap_loop].
    unfold lp_endSeq in L1. unfold page_end in L2.
    destruct (Z.gtb_spec (Difference (Add (lp_seq (cacheLP a)) (len (lp_bytes (cacheLP a))))
                            (p_seq p0)) 0); [lia |].
    destruct (Z.leb_spec (Difference (lp_seq (cacheLP a))
                            (Add (p_seq p0) (len (p_bytes p0)))) 0); [reflexivity | lia]. }
  rewrite E. cbn [mbind option_bind]. cbv zeta. cbn [os_bytes st0].
  assert (Hpos : (len (lp_bytes (cacheLP a)) >? 0) && true = true).
  { pose proof (len_nonneg (lp_bytes (cacheLP a))).
    destruct (Z.gtb_spec (len (lp_bytes (cacheLP a))) 0); [reflexivity |].
    assert (len (lp_bytes (cacheLP a)) = 0) as E0 by lia.
    apply len_nil_inv in E0. contradiction. }
  rewrite Hpos.
  set (lp := lp_set_bytes_seq (cacheLP a) (lp_bytes (cacheLP a)) (lp_seq (cacheLP a))).
  set (a1 := asm_set_cacheLP (asm_set_pc a (os_pc st0)) lp).
  destruct (lp_convertToPages_chain lp (pc a1) (Some ac) Hpb Hb)
    as (ps & c' & EC & P1 & P2 & P3).
  rewrite EC. cbn [mbind option_bind].
  exists (asm_set_pc a1 c'), ps.
  rewrite rev_involutive. cbn [os_next st0]. rewrite app_nil_r.
  split_and!; auto.
Qed.

(** A segment that cannot be delivered yet, because the half waits for its
    start or because bytes are missing before it, is stored behind the
    queue. *)
Lemma assemble_queued (a : Assembler Stream) conn sd t ac st s :
  (0 < pageBytes)%nat ->
  Accept (stream conn) t (GetCaptureInfo ac) (dir (getHalf conn sd))
    (nextSeq (getHalf conn sd))
    ((nextSeq (getHalf conn sd) =? invalidSequence) && SYN t) ac = (true, st, s) ->
  closed (getHalf conn sd) = false ->
  (nextSeq (getHalf conn sd) <> invalidSequence
   /\ Difference (nextSeq (getHalf conn sd)) (Seq t) > 0)
  \/ (nextSeq (getHalf conn sd) = invalidSequence /\ SYN t = false /\ st = false) ->
  Payload t <> [] ->
  match last (queue (getHalf conn sd)) with
  | None => True
  | Some p =>
      Difference (Add (Seq t) (len (Payload t))) (p_seq p) <= 0
      /\ Difference (Seq t) (page_end p) <= 0
  end ->
  unlimited (opts a) ->
  exists a' conn' ps,
    AssembleWithContext_conn pageBytes Accept ReassembledSG ReassemblyComplete a conn sd t ac
    = Some (a', conn')
    /\ received conn' = received conn ++ [CbAccept t true]
    /\ stream conn' = s
    /\ getHalf conn' (other sd) = getHalf conn (other sd)
    /\ queue (getHalf conn' sd) = queue (getHalf conn sd) ++ ps
    /\ same_data (getHalf conn sd)
         (half_set_queue
            (half_set_pages
               (half_set_stats (getHalf conn' sd) (queuedPackets (getHalf conn sd))
                  (queuedBytes (getHalf conn sd)) (overlapPackets (getHalf conn' sd))
                  (overlapBytes (getHalf conn' sd)))
               (pages (getHalf conn sd)))
            (queue (getHalf conn sd)))
    /\ nextSeq (getHalf conn' sd) = nextSeq (getHalf conn sd)
    /\ pages (getHalf conn' sd) = pages (getHalf conn sd) + len ps
    /\ queuedPackets (getHalf conn' sd) = queuedPackets (getHalf conn sd) + 1
    /\ queuedBytes (getHalf conn' sd) = queuedBytes (getHalf conn sd) + len (Payload t)
    /\ pages_bytes ps = Payload t
    /\ contiguous_from (Seq t) ps
    /\ Forall (fun p => 0 < len (p_bytes p)) ps
    /\ opts a' = opts a /\ connPool a' = connPool a.
Proof.
  intros Hpb HA Hc Hpos Hne Hl HU.
  rewrite AssembleWithContext_conn_eq. cbv zeta.
  set (h := getHalf conn sd) in *.
  set (half0 := seen_at h (Timestamp (GetCaptureInfo ac))) in *.
  destruct (seen_at_data h (Timestamp (GetCaptureInfo ac))) as [D0 N0].
  fold half0 in D0, N0.
  assert (Hd0 : dir half0 = dir h) by (destruct D0; assumption).
  assert (Hc0 : closed half0 = closed h) by (unfold same_data in D0; tauto).
  rewrite Hd0, N0, HA, Hc0, Hc. cbn [negb].
  set (halfK := if ACK t then half_set_ackSeq half0 (Ack t) else half0) in *.
  destruct (halfK_data half0 t) as [DK NK]. fold halfK in DK, NK.
  assert (SD : sequenceDecision halfK t st = (Seq t, halfK, true)).
  { unfold sequenceDecision. rewrite NK, N0.
    destruct Hpos as [(Hv & Hg) | (Hv & Hs & Hst)].
    - destruct (Z.eqb_spec (nextSeq h) invalidSequence); [contradiction |].
      destruct (Z.gtb_spec (Difference (nextSeq h) (Seq t)) 0); [reflexivity | lia].
    - rewrite Hv, Hs, Hst. reflexivity. }
  rewrite SD.
  assert (DhK : same_data h halfK) by (eapply same_data_trans; eassumption).
  set (aA := asm_set_start
               (asm_set_start (asm_set_ret a [])
                  ((nextSeq h =? invalidSequence) && SYN t)) st).
  set (lp := {| lp_bytes := Payload t; lp_start := SYN t; lp_end := RST t || FIN t;
                lp_ci := GetCaptureInfo ac; lp_ac := Some ac; lp_seq := Seq t |}).
  destruct (checkOverlap_append (asm_set_cacheLP aA lp) halfK ac Hpb Hne)
    as (a1 & ps & EC & P1 & P2 & P3 & O1 & R1 & CP1).
  { destruct DhK as (_ & _ & _ & -> & _). exact Hl. }
  unfold handleBytes. cbn [act_queue]. fold lp. rewrite EC. cbn [mbind option_bind].
  rewrite O1. cbn [opts asm_set_cacheLP aA asm_set_start asm_set_ret].
  destruct HU as [U1 U2].
  destruct (Z.gtb_spec (MaxBufferedPagesPerConnection (opts a)) 0); [lia |].
  destruct (Z.gtb_spec (MaxBufferedPagesTotal (opts a)) 0); [lia |].
  cbn [andb orb mbind option_bind]. rewrite R1.
  cbn [ret asm_set_cacheLP aA asm_set_start asm_set_ret].
  change (len (@nil byteContainer) >? 0) with false. cbv iota. cbn [mbind option_bind act_nextSeq].
  unfold finishAssemble. change (negb (invalidSequence =? invalidSequence)) with false.
  cbv iota.
  eexists _, _, ps. split; [reflexivity |].
  rewrite getHalf_setHalf, received_setHalf.
  destruct DhK as (K1 & K2 & K3 & K4 & K5 & K6 & K7 & K8 & K9).
  cbn [lp_bytes lp_seq cacheLP asm_set_cacheLP lp] in *.
  split_and!; auto; try (destruct sd; reflexivity); simpl; rewrite ?NK, ?N0;
    try congruence.
  unfold same_data. simpl. split_and!; auto.
Qed.

(** X22. A segment with data that cannot be delivered yet, because bytes are
    missing before it or because the half still waits for its start, is
    stored: the call returns, the stream sees the segment in [Accept] and
    nothing else, the next sequence number expected stays, and the payload
    is put in pages behind the queue when the last queued page ends at or
    before the start of the segment and no page limit is set. The half
    counts one queued packet and the bytes of the payload more. *)
Theorem segment_ahead_is_queued (a : Assembler Stream) (conn : connection Stream)
    (sd : side) (t : TCP) (ac : AssemblerContext) (st : bool) (s : Stream) :
  (0 < pageBytes)%nat ->
  Accept (stream conn) t (GetCaptureInfo ac) (dir (getHalf conn sd))
    (nextSeq (getHalf conn sd))
    ((nextSeq (getHalf conn sd) =? invalidSequence) && SYN t) ac = (true, st, s) ->
  closed (getHalf conn sd) = false ->
  (nextSeq (getHalf conn sd) <> invalidSequence
   /\ Difference (nextSeq (getHalf conn sd)) (Seq t) > 0)
  \/ (nextSeq (getHalf conn sd) = invalidSequence /\ SYN t = false /\ st = false) ->
  Payload t <> [] ->
  match last (queue (getHalf conn sd)) with
  | None => True
  | Some p =>
      Difference (Add (Seq t) (len (Payload t))) (p_seq p) <= 0
      /\ Difference (Seq t) (page_end p) <= 0
  end ->
  unlimited (opts a) ->
  exists a' conn' ps,
    AssembleWithContext_conn pageBytes Accept ReassembledSG ReassemblyComplete a conn sd t ac
    = Some (a', conn')
    /\ received conn' = received conn ++ [CbAccept t true]
    /\ queue (getHalf conn' sd) = queue (getHalf conn sd) ++ ps
    /\ pages_bytes ps = Payload t
    /\ contiguous_from (Seq t) ps
    /\ nextSeq (getHalf conn' sd) = nextSeq (getHalf conn sd)
    /\ queuedPackets (getHalf conn' sd) = queuedPackets (getHalf conn sd) + 1
    /\ queuedBytes (getHalf conn' sd) = queuedBytes (getHalf conn sd) + len (Payload t).
Proof.
  intros Hpb HA Hc Hpos Hne Hl HU.
  destruct (assemble_queued a conn sd t ac st s Hpb HA Hc Hpos Hne Hl HU)
    as (a' & conn' & ps & E & R & _ & _ & Q & _ & N & _ & QP & QB & P1 & P2 & _).
  exists a', conn', ps. split_and!; auto.
Qed.

(** Pages that follow one another from [s] on lie at [s] or beyond it. *)
Lemma contiguous_beyond (s : Sequence) (k : Z) (ps : list page) :
  0 <= k ->
  contiguous_from (Add s k) ps ->
  Forall (fun p => 0 < len (p_bytes p)) ps ->
  k + qbytes ps < two31 ->
  queue_beyond s ps.
Proof.
  unfold queue_beyond. revert k. induction ps as [| p ps IH]; intros k Hk Hc Hn Hw.
  - constructor.
  - simpl in Hc. destruct Hc as [C1 C2]. inversion Hn as [| ? ? N1 N2]; subst.
    cbn [qbytes] in Hw. pose proof (qbytes_nonneg ps).
    constructor.
    + split; [| exact N1]. revert C1. seq_arith.
    + rewrite Add_Add in C2. apply (IH (k + len (p_bytes p))); auto; lia.
Qed.

(** A run of pages without a gap is not cut short. *)
Lemma contiguous_whole (s : Sequence) (pre rest : list page) :
  contiguous_from s (pre ++ rest) ->
  match rest with
  | [] => True
  | p :: _ => Difference (Add s (qbytes pre)) (p_seq p) <> 0
  end ->
  rest = [].
Proof.
  revert s. induction pre as [| q pre IH]; intros s Hc Hh.
  - destruct rest as [| p rest]; [reflexivity |]. exfalso. apply Hh.
    simpl in Hc. destruct Hc as [C1 _]. cbn [qbytes]. revert C1. seq_arith.
  - simpl in Hc. destruct Hc as [_ C2]. apply (IH _ C2).
    destruct rest as [| p rest]; [exact I |].
    cbn [qbytes] in Hh. rewrite Add_Add. exact Hh.
Qed.



(** *** Bytes kept for the stream *)

Lemma lp_convertToPages_skip (lp : livePacket) (c : pageCache) (k : Z)
    (ac : option AssemblerContext) :
  (0 < pageBytes)%nat ->
  0 <= k < len (lp_bytes lp) ->
  exists ps c',
    lp_convertToPages pageBytes lp c k ac = Some (ps, len ps, c')
    /\ pages_bytes ps = drop (Z.to_nat k) (lp_bytes lp)
    /\ p_seq <$> head ps = Some (Add (lp_seq lp) k).
Proof.
  intros Hpb Hk. unfold lp_convertToPages, slice_from.
  destruct (Z.leb_spec 0 k); [| lia].
  destruct (Z.leb_spec k (len (lp_bytes lp))); [| lia].
  cbn -[pc_next fillPages Add].
  destruct (pc_next c (Timestamp (lp_ci lp))) as [first c1].
  set (first1 := {| p_id := p_id first; p_seq := p_seq first; p_bytes := p_bytes first;
                    p_seen := p_seen first; p_ac := ac; p_end := false |}).
  set (b := drop (Z.to_nat k) (lp_bytes lp)).
  pose proof (fillPages_concat pageBytes (length b) c1 (Timestamp (lp_ci lp)) (lp_end lp)
                first1 (Add (lp_seq lp) k) b Hpb) as Hc.
  pose proof (fillPages_first_seq pageBytes (length b) c1 (Timestamp (lp_ci lp)) (lp_end lp)
                first1 (Add (lp_seq lp) k) b) as Hs.
  destruct (fillPages pageBytes (length b) c1 (Timestamp (lp_ci lp)) (lp_end lp)
              first1 (Add (lp_seq lp) k) b) as [ps c2].
  exists ps, c2. split; [reflexivity |]. split; [| exact Hs].
  apply Hc. rewrite length_drop. lia.
Qed.

(** [cleanSG] after a delivery made of one segment, of which the stream
    keeps the bytes from offset [k] on. *)
Lemma cleanSG_single (a : Assembler Stream) (half : halfconnection)
    (ac : option AssemblerContext) (lp : livePacket) (k : Z) :
  (0 < pageBytes)%nat ->
  sg_all (cacheSG a) = [BCLive lp] ->
  sg_toKeep (cacheSG a) = k ->
  0 <= k < len (lp_bytes lp) ->
  exists c' ps,
    cleanSG pageBytes a half ac = Some (asm_set_pc a c', half_set_saved half ps)
    /\ pages_bytes ps = drop (Z.to_nat k) (lp_bytes lp)
    /\ p_seq <$> head ps = Some (Add (lp_seq lp) k).
Proof.
  intros Hpb Hall Hkeep Hk. unfold cleanSG. rewrite Hall, Hkeep.
  destruct (Z.ltb_spec k 0); [lia |].
  cbn [cleanSG_find]. change (bc_length (BCLive lp)) with (len (lp_bytes lp)).
  destruct (Z.ltb_spec k (0 + len (lp_bytes lp))); [| lia].
  change (slice_to [BCLive lp] (Z.of_nat 0)) with (Some (@nil byteContainer)).
  cbn [mbind option_bind cleanSG_release].
  change (slice_from [BCLive lp] (Z.of_nat 0)) with (Some [BCLive lp]).
  cbn [mbind option_bind cleanSG_keep bc_convertToPages].
  destruct (lp_convertToPages_skip lp (pc a) k ac Hpb Hk) as (ps & c' & E & P1 & P2).
  rewrite E. cbn [mbind option_bind app].
  exists c', ps. auto.
Qed.

(** [buildSG] with one container to send, nothing saved and nothing
    queued. *)
Lemma buildSG_single (a : Assembler Stream) (half : halfconnection) (r0 : byteContainer) :
  ret a = [r0] ->
  queue half = [] ->
  saved half = [] ->
  buildSG a half
  = Some (bc_isEnd r0, bc_endSeq r0,
          asm_set_cacheSG a
            {| sg_all := [r0];
               sg_Skip := if negb (nextSeq half =? invalidSequence)
                          then Difference (nextSeq half) (bc_getSeq r0) else -1;
               sg_Direction := dir half; sg_saved := 0; sg_toKeep := -1;
               sg_queuedBytes := queuedBytes half; sg_queuedPackets := queuedPackets half;
               sg_overlapBytes := overlapBytes half;
               sg_overlapPackets := overlapPackets half |},
          half_set_stats half 0 0 0 0).
Proof.
  intros Hr Hq Hs.
  unfold buildSG, addPending, addContiguous, setStatsToSG.
  rewrite Hr, Hs, Hq. destruct a. simpl in *. subst. reflexivity.
Qed.

(** [sendToConnection] for one segment, nothing saved and nothing queued,
    when the stream keeps the bytes from offset [k] on. *)
Lemma sendToConnection_keep (a : Assembler Stream) conn sd ac (lp : livePacket) (k : Z) :
  (0 < pageBytes)%nat ->
  ret a = [BCLive lp] ->
  queue (getHalf conn sd) = [] ->
  saved (getHalf conn sd) = [] ->
  lp_end lp = false ->
  0 <= k < len (lp_bytes lp) ->
  (forall sg, fst (ReassembledSG (stream conn) sg ac) = k) ->
  exists a' conn' sg ps,
    sendToConnection pageBytes ReassembledSG ReassemblyComplete a conn sd ac
    = Some (a', conn', lp_endSeq lp)
    /\ received conn' = received conn ++ [CbReassembled sg]
    /\ sg_all sg = [BCLive lp]
    /\ saved (getHalf conn' sd) = ps
    /\ pages_bytes ps = drop (Z.to_nat k) (lp_bytes lp)
    /\ p_seq <$> head ps = Some (Add (lp_seq lp) k)
    /\ queue (getHalf conn' sd) = []
    /\ closed (getHalf conn' sd) = closed (getHalf conn sd)
    /\ nextSeq (getHalf conn' sd) = nextSeq (getHalf conn sd)
    /\ dir (getHalf conn' sd) = dir (getHalf conn sd)
    /\ getHalf conn' (other sd) = getHalf conn (other sd)
    /\ opts a' = opts a.
Proof.
  intros Hpb Hr Hq Hs He Hk HK.
  unfold sendToConnection. rewrite (buildSG_single a _ _ Hr Hq Hs).
  cbn [mbind option_bind bc_isEnd]. rewrite He.
  match goal with
  | |- context [ReassembledSG (stream conn) ?sg ac] => set (sg0 := sg)
  end.
  pose proof (HK sg0) as Hk0.
  destruct (ReassembledSG (stream conn) sg0 ac) as [keep s]. cbn [fst] in Hk0. subst keep.
  match goal with
  | |- context [cleanSG pageBytes ?a2 ?h2 ac] =>
      destruct (cleanSG_single a2 h2 ac lp k Hpb) as (c' & ps & EC & P1 & P2);
        [reflexivity | reflexivity | exact Hk |]
  end.
  rewrite EC. cbn [mbind option_bind].
  eexists _, _, sg0, ps. split; [reflexivity |].
  rewrite getHalf_setHalf.
  split_and!; auto; try (destruct sd; reflexivity).
Qed.

(** A segment in position on a half with nothing saved and nothing queued,
    of which the stream keeps the bytes from offset [k] on. *)
Lemma assemble_keep (a : Assembler Stream) conn sd t ac st s (k : Z) :
  (0 < pageBytes)%nat ->
  Accept (stream conn) t (GetCaptureInfo ac) (dir (getHalf conn sd))
    (nextSeq (getHalf conn sd))
    ((nextSeq (getHalf conn sd) =? invalidSequence) && SYN t) ac = (true, st, s) ->
  closed (getHalf conn sd) = false ->
  queue (getHalf conn sd) = [] ->
  saved (getHalf conn sd) = [] ->
  nextSeq (getHalf conn sd) <> invalidSequence ->
  nextSeq (getHalf conn sd) = Seq t ->
  FIN t = false ->
  RST t = false ->
  0 <= k < len (Payload t) ->
  len (Payload t) < two31 ->
  (forall sg, fst (ReassembledSG s sg (Some ac)) = k) ->
  exists a' conn' sg ps,
    AssembleWithContext_conn pageBytes Accept ReassembledSG ReassemblyComplete a conn sd t ac
    = Some (a', conn')
    /\ received conn' = received conn ++ [CbAccept t true; CbReassembled sg]
    /\ sg_payload sg = Payload t
    /\ saved (getHalf conn' sd) = ps
    /\ pages_bytes ps = drop (Z.to_nat k) (Payload t)
    /\ p_seq <$> head ps = Some (Add (Seq t) k)
    /\ queue (getHalf conn' sd) = []
    /\ closed (getHalf conn' sd) = false
    /\ nextSeq (getHalf conn' sd) = Add (Seq t) (len (Payload t))
    /\ dir (getHalf conn' sd) = dir (getHalf conn sd)
    /\ opts a' = opts a.
Proof.
  intros Hpb HA Hc Hq Hsv Hv Hn HF HR Hk Hw HK.
  rewrite AssembleWithContext_conn_eq. cbv zeta.
  set (h := getHalf conn sd) in *.
  set (half0 := seen_at h (Timestamp (GetCaptureInfo ac))) in *.
  destruct (seen_at_data h (Timestamp (GetCaptureInfo ac))) as [D0 N0].
  fold half0 in D0, N0.
  assert (Hd0 : dir half0 = dir h) by (destruct D0; assumption).
  assert (Hc0 : closed half0 = closed h) by (unfold same_data in D0; tauto).
  rewrite Hd0, N0, HA, Hc0, Hc. cbn [negb].
  set (halfK := if ACK t then half_set_ackSeq half0 (Ack t) else half0) in *.
  destruct (halfK_data half0 t) as [DK NK]. fold halfK in DK, NK.
  assert (DhK : same_data h halfK) by (eapply same_data_trans; eassumption).
  destruct DhK as (K1 & K2 & K3 & K4 & K5 & K6 & K7 & K8 & K9).
  assert (NhK : nextSeq halfK = Seq t) by congruence.
  assert (SD : sequenceDecision halfK t st = (Seq t, halfK, false)).
  { unfold sequenceDecision. rewrite NhK, Difference_self.
    destruct (Z.eqb_spec (Seq t) invalidSequence); [congruence | reflexivity]. }
  rewrite SD.
  set (aA := asm_set_start
               (asm_set_start (asm_set_ret a [])
                  ((nextSeq h =? invalidSequence) && SYN t)) st).
  unfold handleBytes. cbn [act_queue cacheLP asm_set_cacheLP lp_bytes].
  assert (OE : overlapExisting halfK (Seq t) (Add (Seq t) (len (Payload t))) (Payload t)
               = Some (Payload t, Seq t, halfK)).
  { unfold overlapExisting. rewrite NhK, Difference_self.
    destruct (Z.eqb_spec (Seq t) invalidSequence); [congruence | reflexivity]. }
  rewrite OE. cbn [mbind option_bind].
  set (lp := {| lp_bytes := Payload t; lp_start := SYN t; lp_end := RST t || FIN t;
                lp_ci := GetCaptureInfo ac; lp_ac := Some ac; lp_seq := Seq t |}).
  change (lp_set_bytes_seq _ (Payload t) (Seq t)) with lp.
  match goal with
  | |- context [checkOverlap pageBytes ?a1 halfK false ac] => set (aC := a1)
  end.
  destruct (checkOverlap_beyond aC halfK ac)
    as (a2 & half2 & EC & Q2 & LP2 & R2 & _ & Sv2 & Nx2 & Cl2 & Dr2 & _).
  { rewrite K4, Hq. constructor. }
  { rewrite K4, Hq. simpl. unfold aC. cbn [cacheLP asm_set_cacheLP lp_bytes lp]. lia. }
  pose proof (checkOverlap_frame _ _ _ _ _ _ EC) as (_ & (O2 & _) & _).
  rewrite EC. cbn [mbind option_bind]. rewrite LP2.
  unfold aC at 1. cbn [cacheLP asm_set_cacheLP lp_bytes lp].
  assert (X : negb (len (Payload t) =? 0) || (RST t || FIN t) || SYN t = true).
  { destruct (Z.eqb_spec (len (Payload t)) 0); [lia | reflexivity]. }
  rewrite X. cbn [ret asm_set_ret]. rewrite R2.
  unfold aC at 1. cbn [ret asm_set_cacheLP aA asm_set_start asm_set_ret app].
  change (len [BCLive (cacheLP aC)] >? 0) with true. cbv iota.
  change (cacheLP aC) with lp.
  cbn [mbind option_bind ret asm_set_ret].
  change (len [BCLive lp] >? 0) with true. cbv iota.
  match goal with
  | |- context [sendToConnection _ _ _ ?a3 ?c3 sd (Some ac)] =>
      set (aS := a3); set (connS := c3)
  end.
  assert (GS : getHalf connS sd = half2) by (unfold connS; apply getHalf_setHalf).
  destruct (sendToConnection_keep aS connS sd (Some ac) lp k Hpb)
    as (a3 & conn3 & sg & ps & ES & R3 & A3 & S3 & P3 & H3 & Q3 & C3 & N3 & D3 & _ & O3).
  - reflexivity.
  - rewrite GS, Q2, K4. exact Hq.
  - rewrite GS, Sv2, K3. exact Hsv.
  - cbn [lp_end lp]. rewrite HF, HR. reflexivity.
  - exact Hk.
  - assert (SS : stream connS = s) by (unfold connS; destruct sd; reflexivity).
    rewrite SS. exact HK.
  - rewrite ES. cbn [mbind option_bind].
    assert (Hnv : lp_endSeq lp <> invalidSequence) by apply Add_valid.
    destruct (finishAssemble_fields conn3 sd t (lp_endSeq lp) Hnv) as (FN & FC & FR).
    eexists _, _, sg, ps. split; [reflexivity |].
    rewrite FR, R3.
    assert (RH : received connS = received conn ++ [CbAccept t true]).
    { unfold connS. rewrite received_setHalf. simpl. rewrite received_setHalf. reflexivity. }
    rewrite RH, <- app_assoc. simpl.
    assert (Hfin : getHalf (finishAssemble conn3 sd t (lp_endSeq lp)) sd
                   = half_set_nextSeq (getHalf conn3 sd) (lp_endSeq lp)).
    { unfold finishAssemble. destruct (Z.eqb_spec (lp_endSeq lp) invalidSequence);
        [contradiction |]. cbn [negb]. rewrite HF. apply getHalf_setHalf. }
    rewrite Hfin. simpl.
    rewrite GS in C3, D3.
    split_and!; auto; try congruence.
    + unfold sg_payload. rewrite A3. simpl. apply app_nil_r.
    + rewrite O3. unfold aS. simpl. rewrite O2. reflexivity.
Qed.

(** X25. Bytes the stream asks to keep are offered again. When the stream
    answers a delivery of the payload of [t1] by keeping the bytes from
    offset [k] on, these bytes are saved in the half, and the delivery of
    the segment [t2] that follows carries them in front of the payload of
    [t2], with [saved] telling how many they are. *)
Theorem kept_bytes_are_offered_again (a : Assembler Stream) (conn : connection Stream)
    (sd : side) (t1 t2 : TCP) (ac1 ac2 : AssemblerContext) (st1 : bool) (s1 : Stream)
    (k : Z) :
  (0 < pageBytes)%nat ->
  closed (getHalf conn sd) = false ->
  queue (getHalf conn sd) = [] ->
  saved (getHalf conn sd) = [] ->
  nextSeq (getHalf conn sd) <> invalidSequence ->
  nextSeq (getHalf conn sd) = Seq t1 ->
  FIN t1 = false ->
  RST t1 = false ->
  0 <= k < len (Payload t1) ->
  len (Payload t1) < two31 ->
  Accept (stream conn) t1 (GetCaptureInfo ac1) (dir (getHalf conn sd))
    (nextSeq (getHalf conn sd)) false ac1 = (true, st1, s1) ->
  (forall sg, fst (ReassembledSG s1 sg (Some ac1)) = k) ->
  Seq t2 = Add (Seq t1) (len (Payload t1)) ->
  (forall s, fst (fst (Accept s t2 (GetCaptureInfo ac2) (dir (getHalf conn sd))
                         (Seq t2) false ac2)) = true) ->
  Payload t2 <> [] ->
  len (Payload t2) < two31 ->
  exists a1 conn1 sg1,
    AssembleWithContext_conn pageBytes Accept ReassembledSG ReassemblyComplete
      a conn sd t1 ac1 = Some (a1, conn1)
    /\ received conn1 = received conn ++ [CbAccept t1 true; CbReassembled sg1]
    /\ sg_payload sg1 = Payload t1
    /\ pages_bytes (saved (getHalf conn1 sd)) = drop (Z.to_nat k) (Payload t1)
    /\ forall a2 conn2,
         AssembleWithContext_conn pageBytes Accept ReassembledSG ReassemblyComplete
           a1 conn1 sd t2 ac2 = Some (a2, conn2) ->
         exists sg2 l,
           received conn2
           = received conn1 ++ CbAccept t2 true :: CbReassembled sg2 :: l
           /\ sg_payload sg2 = drop (Z.to_nat k) (Payload t1) ++ Payload t2
           /\ sg_saved sg2 = len (Payload t1) - k
           /\ sg_Skip sg2 = 0.
Proof.
  intros Hpb Hc Hq Hsv Hv Hn HF HR Hk Hw1 HA1 HK Hs2 HA2 Hn2 Hw2.
  set (h := getHalf conn sd) in *.
  assert (Hv' : (nextSeq h =? invalidSequence) = false).
  { destruct (Z.eqb_spec (nextSeq h) invalidSequence); [contradiction | reflexivity]. }
  destruct (assemble_keep a conn sd t1 ac1 st1 s1 k Hpb)
    as (a1 & conn1 & sg1 & ps & E1 & R1 & P1 & S1 & B1 & H1 & Q1 & C1 & N1 & D1 & _); auto.
  { fold h. rewrite Hv'. exact HA1. }
  exists a1, conn1, sg1. rewrite S1. split_and!; auto.
  intros a2 conn2 E2.
  set (h1 := getHalf conn1 sd) in *.
  assert (N1' : nextSeq h1 = Seq t2) by congruence.
  assert (Hv1 : (nextSeq h1 =? invalidSequence) = false).
  { rewrite N1. destruct (Z.eqb_spec (Add (Seq t1) (len (Payload t1))) invalidSequence) as [E |];
      [| reflexivity]. exfalso. revert E. apply Add_valid. }
  destruct (Accept (stream conn1) t2 (GetCaptureInfo ac2) (dir h1) (nextSeq h1)
              ((nextSeq h1 =? invalidSequence) && SYN t2) ac2) as [[ok st2] s2] eqn:EA.
  assert (ok = true) as ->.
  { pose proof (HA2 (stream conn1)) as X. fold h in D1. rewrite <- D1, <- N1' in X.
    rewrite Hv1 in EA. cbn [andb] in EA. rewrite EA in X. exact X. }
  set (halfK := if ACK t2
                then half_set_ackSeq (seen_at h1 (Timestamp (GetCaptureInfo ac2))) (Ack t2)
                else seen_at h1 (Timestamp (GetCaptureInfo ac2))).
  destruct (decision_in_position halfK t2 st2 (Seq t2)) as (X1 & X2 & X3 & X4).
  { right. right. unfold halfK. rewrite halfK_nextSeq. fold h1.
    split_and!; auto. rewrite N1. apply Add_valid. }
  destruct (assemble_immediate a1 conn1 sd t2 ac2 st2 s2 a2 conn2 (Payload t2) (Seq t2)
              (sequenceDecision halfK t2 st2).1.2 EA C1)
    as (_ & sg & l & pre & rest & R2 & Hl & Hq2 & Hcont & Hh & Hall & Hsv2 & Hsk & _); auto.
  { fold h1. rewrite Q1. constructor. }
  { fold h1. rewrite Q1. simpl. lia. }
  fold h1 in Hq2, Hall, Hsv2. rewrite Q1 in Hq2.
  symmetry in Hq2. apply app_eq_nil in Hq2. destruct Hq2 as [-> ->].
  assert (Lk : len (drop (Z.to_nat k) (Payload t1)) = len (Payload t1) - k).
  { unfold len. rewrite length_drop. unfold len in Hk. lia. }
  assert (PF : pending_for h1 (Seq t2) = ps).
  { unfold pending_for. fold (pages_bytes (saved h1)). rewrite S1, B1, Lk.
    destruct ps as [| p0 ps']; [reflexivity |].
    simpl in H1. injection H1 as ->. rewrite Add_Add, Hs2.
    replace (k + (len (Payload t1) - k)) with (len (Payload t1)) by lia.
    rewrite Z.eqb_refl. reflexivity. }
  rewrite PF in Hall, Hsv2.
  exists sg, l. split_and!; auto.
  - rewrite (sg_payload_live _ _ _ _ Hall). simpl. rewrite B1, app_nil_r. reflexivity.
  - rewrite Hsv2, B1. exact Lk.
  - rewrite Hsk, X3, Difference_self.
    destruct (Z.eqb_spec (Seq t2) invalidSequence); [contradiction | reflexivity].
Qed.

(** *** A new segment against one queued page *)

(** The tests of one turn of the loop of [checkOverlap], decided from the
    hypotheses at hand. *)
Ltac decide_test :=
  match goal with
  | |- context [(?x >? ?y)] => destruct (Z.gtb_spec x y); [try lia | try lia]
  | |- context [(?x <=? ?y)] => destruct (Z.leb_spec x y); [try lia | try lia]
  | |- context [(?x >=? ?y)] => destruct (Z.geb_spec x y); [try lia | try lia]
  | |- context [(?x <? ?y)] => destruct (Z.ltb_spec x y); [try lia | try lia]
  end; cbn [andb orb negb].

Lemma checkOverlap_loop_case2 (start end_ : Sequence) (cur : page) (st : overlapState) :
  len (p_bytes cur) < two31 ->
  Difference end_ (p_seq cur) <= 0 ->
  Difference start (page_end cur) > 0 ->
  Difference end_ (page_end cur) < 0 ->
  Difference start (p_seq cur) < 0 ->
  0 < - Difference start (p_seq cur) < len (p_bytes cur)
  /\ checkOverlap_loop start end_ [cur] st
     = Some ([page_set_bytes cur
                (take (Z.to_nat (- Difference start (p_seq cur))) (p_bytes cur))], st).
Proof.
  unfold page_end. intros HL H1 H2 H3 H4.
  assert (Hk : 0 < - Difference start (p_seq cur) < len (p_bytes cur)).
  { rewrite Difference_Add in H2. pose proof (len_nonneg (p_bytes cur)).
    pose proof (signed32_range (p_seq cur - start)).
    revert H2 H4 HL H H0. generalize (len (p_bytes cur)). intros L.
    generalize (p_seq cur). intros cs. intros. seq_arith. }
  split; [exact Hk |].
  cbn [checkOverlap_loop]. repeat decide_test.
  unfold slice_to. repeat decide_test. reflexivity.
Qed.

(** X26. A new segment that starts inside a queued page and ends after it
    wins over the tail of the page: the page keeps only its bytes before the
    start of the segment, and the segment is queued whole behind it. Nothing
    is counted as overlap. *)
Theorem checkOverlap_tail_overlap (a : Assembler Stream) (half : halfconnection)
    (cur : page) (ac : AssemblerContext) :
  (0 < pageBytes)%nat ->
  len (p_bytes cur) < two31 ->
  queue half = [cur] ->
  Difference (lp_endSeq (cacheLP a)) (p_seq cur) <= 0 ->
  Difference (lp_seq (cacheLP a)) (page_end cur) > 0 ->
  Difference (lp_endSeq (cacheLP a)) (page_end cur) < 0 ->
  Difference (lp_seq (cacheLP a)) (p_seq cur) < 0 ->
  exists a' half' ps,
    checkOverlap pageBytes a half true ac = Some (a', half')
    /\ 0 < - Difference (lp_seq (cacheLP a)) (p_seq cur) < len (p_bytes cur)
    /\ queue half'
       = page_set_bytes cur
           (take (Z.to_nat (- Difference (lp_seq (cacheLP a)) (p_seq cur))) (p_bytes cur))
         :: ps
    /\ pages_bytes ps = lp_bytes (cacheLP a)
    /\ contiguous_from (lp_seq (cacheLP a)) ps
    /\ overlapPackets half' = overlapPackets half
    /\ overlapBytes half' = overlapBytes half
    /\ queuedPackets half' = queuedPackets half + 1
    /\ queuedBytes half' = queuedBytes half + len (lp_bytes (cacheLP a)).
Proof.
  intros Hpb HL Hq H1 H2 H3 H4.
  assert (Hb : lp_bytes (cacheLP a) <> []).
  { intros E. unfold lp_endSeq in H3. rewrite E in H3. unfold len in H3. simpl in H3.
    revert H2 H3. generalize (page_end cur) (lp_seq (cacheLP a)). intros. seq_arith. }
  unfold checkOverlap. rewrite Hq. change (rev [cur]) with [cur].
  fold (lp_endSeq (cacheLP a)).
  match goal with
  | |- context [checkOverlap_loop _ _ _ ?st0] =>
      destruct (checkOverlap_loop_case2 (lp_seq (cacheLP a)) (lp_endSeq (cacheLP a)) cur st0
                  HL H1 H2 H3 H4) as [Hk ->]
  end.
  cbn [mbind option_bind os_bytes os_next os_skipped os_overlapPackets os_overlapBytes
       os_pages os_pc].
  cbv zeta.
  assert (Hpos : (len (lp_bytes (cacheLP a)) >? 0) && true = true).
  { pose proof (len_nonneg (lp_bytes (cacheLP a))).
    destruct (Z.gtb_spec (len (lp_bytes (cacheLP a))) 0); [reflexivity |].
    assert (len (lp_bytes (cacheLP a)) = 0) as E0 by lia.
    apply len_nil_inv in E0. contradiction. }
  rewrite Hpos.
  set (lp := lp_set_bytes_seq (cacheLP a) (lp_bytes (cacheLP a)) (lp_seq (cacheLP a))).
  match goal with
  | |- context [lp_convertToPages pageBytes lp ?c 0 (Some ac)] =>
      destruct (lp_convertToPages_chain lp c (Some ac) Hpb Hb) as (ps & c' & EC & P1 & P2 & _)
  end.
  rewrite EC. cbn [mbind option_bind].
  eexists _, _, ps. split; [reflexivity |].
  simpl. rewrite app_nil_r. split_and!; auto; lia.
Qed.

(** The pages of a chain are all acquired from the page cache. *)
Lemma fillPages_used (fuel : nat) (c : pageCache) (ts : Z) (e : bool) (cur : page)
    (s : Sequence) (b : list byte) :
  pc_used (fillPages pageBytes fuel c ts e cur s b).2
  = pc_used c + len (fillPages pageBytes fuel c ts e cur s b).1 - 1.
Proof.
  revert c cur s b. induction fuel as [| fuel IH]; intros c cur s b; cbn [fillPages].
  - destruct (drop (Nat.min (length b) pageBytes) b); unfold len; simpl; lia.
  - destruct (drop (Nat.min (length b) pageBytes) b) as [| x rest];
      [unfold len; simpl; lia |].
    destruct (pc_next c ts) as [nxt c1] eqn:En.
    assert (U1 : pc_used c1 = pc_used c + 1).
    { unfold pc_next in En. injection En as _ <-. simpl. destruct (pc_free c); reflexivity. }
    specialize (IH c1 nxt (Add s (Z.of_nat (Nat.min (length b) pageBytes))) (x :: rest)).
    destruct (fillPages pageBytes fuel c1 ts e nxt _ (x :: rest)) as [ps c2].
    cbn [fst snd] in IH |- *. rewrite IH, U1. unfold len. simpl. lia.
Qed.

Lemma lp_convertToPages_pc_used (lp : livePacket) (c : pageCache) (k : Z)
    (ac : option AssemblerContext) ps n c' :
  lp_convertToPages pageBytes lp c k ac = Some (ps, n, c') ->
  pc_used c' = pc_used c + len ps.
Proof.
  unfold lp_convertToPages. intros H.
  destruct (slice_from (lp_bytes lp) k) as [b |]; [| discriminate].
  cbn [mbind option_bind] in H.
  destruct (pc_next c (Timestamp (lp_ci lp))) as [first c1] eqn:En.
  assert (U1 : pc_used c1 = pc_used c + 1).
  { unfold pc_next in En. injection En as _ <-. simpl. destruct (pc_free c); reflexivity. }
  match type of H with
  | context [fillPages pageBytes ?f c1 ?ts ?e ?cur ?s b] =>
      pose proof (fillPages_used f c1 ts e cur s b) as HU;
        destruct (fillPages pageBytes f c1 ts e cur s b) as [ps0 c2]
  end.
  injection H as <- _ <-. cbn [fst snd] in HU. lia.
Qed.

Lemma checkOverlap_loop_case3 (start end_ : Sequence) (cur : page) (st : overlapState) :
  Difference end_ (p_seq cur) <= 0 ->
  Difference start (page_end cur) > 0 ->
  Difference end_ (page_end cur) <= 0 ->
  Difference start (p_seq cur) >= 0 ->
  checkOverlap_loop start end_ [cur] st = Some ([], os_drop st cur).
Proof.
  unfold page_end. intros H1 H2 H3 H4.
  cbn [checkOverlap_loop]. repeat decide_test; reflexivity.
Qed.

(** X27. A queued page that a new segment covers from its first byte to
    its last is dropped from the queue and given back to the page cache, and
    the segment is queued whole in its place: the bytes that arrive later
    win. The page counts as overlap, with all its bytes, and as one
    overlapping packet when it is the first page of a packet. *)
Theorem checkOverlap_covered_page_is_dropped (a : Assembler Stream)
    (half : halfconnection) (cur : page) (ac : AssemblerContext) :
  (0 < pageBytes)%nat ->
  lp_bytes (cacheLP a) <> [] ->
  queue half = [cur] ->
  Difference (lp_endSeq (cacheLP a)) (p_seq cur) <= 0 ->
  Difference (lp_seq (cacheLP a)) (page_end cur) > 0 ->
  Difference (lp_endSeq (cacheLP a)) (page_end cur) <= 0 ->
  Difference (lp_seq (cacheLP a)) (p_seq cur) >= 0 ->
  exists a' half' ps,
    checkOverlap pageBytes a half true ac = Some (a', half')
    /\ queue half' = ps
    /\ pages_bytes ps = lp_bytes (cacheLP a)
    /\ contiguous_from (lp_seq (cacheLP a)) ps
    /\ overlapPackets half'
       = (if page_isPacket cur then overlapPackets half + 1 else overlapPackets half)
    /\ overlapBytes half' = overlapBytes half + len (p_bytes cur)
    /\ pages half' = pages half - 1 + len ps
    /\ pc_used (pc a') = pc_used (pc a) - 1 + len ps.
Proof.
  intros Hpb Hb Hq H1 H2 H3 H4.
  unfold checkOverlap. rewrite Hq. change (rev [cur]) with [cur].
  fold (lp_endSeq (cacheLP a)).
  rewrite (checkOverlap_loop_case3 _ _ _ _ H1 H2 H3 H4).
  cbn [mbind option_bind os_drop os_bytes os_next os_skipped os_overlapPackets
       os_overlapBytes os_pages os_pc].
  cbv zeta.
  assert (Hpos : (len (lp_bytes (cacheLP a)) >? 0) && true = true).
  { pose proof (len_nonneg (lp_bytes (cacheLP a))).
    destruct (Z.gtb_spec (len (lp_bytes (cacheLP a))) 0); [reflexivity |].
    assert (len (lp_bytes (cacheLP a)) = 0) as E0 by lia.
    apply len_nil_inv in E0. contradiction. }
  rewrite Hpos.
  set (lp := lp_set_bytes_seq (cacheLP a) (lp_bytes (cacheLP a)) (lp_seq (cacheLP a))).
  match goal with
  | |- context [lp_convertToPages pageBytes lp ?c 0 (Some ac)] =>
      destruct (lp_convertToPages_chain lp c (Some ac) Hpb Hb) as (ps & c' & EC & P1 & P2 & _);
        pose proof (lp_convertToPages_pc_used _ _ _ _ _ _ _ EC) as P3
  end.
  rewrite EC. cbn [mbind option_bind].
  eexists _, _, ps. split; [reflexivity |].
  simpl. rewrite app_nil_r. simpl in P3. split_and!; auto.
Qed.

Lemma checkOverlap_loop_case6 (start end_ : Sequence) (cur : page) (st : overlapState) :
  len (p_bytes cur) < two31 ->
  len (os_bytes st) < two31 ->
  end_ = Add start (len (os_bytes st)) ->
  Difference end_ (p_seq cur) <= 0 ->
  Difference start (page_end cur) > 0 ->
  Difference end_ (page_end cur) > 0 ->
  Difference start (p_seq cur) < 0 ->
  0 < - Difference start (p_seq cur)
  /\ - Difference start (p_seq cur) + len (os_bytes st) < len (p_bytes cur)
  /\ checkOverlap_loop start end_ [cur] st
     = Some ([], os_consume st
                   (page_set_bytes cur
                      (take (Z.to_nat (- Difference start (p_seq cur))) (p_bytes cur)
                       ++ os_bytes st
                       ++ drop (Z.to_nat (- Difference start (p_seq cur) + len (os_bytes st)))
                            (p_bytes cur)))).
Proof.
  unfold page_end. intros HL Hn -> H1 H2 H3 H4.
  assert (Hk : 0 < - Difference start (p_seq cur)
               /\ - Difference start (p_seq cur) + len (os_bytes st) < len (p_bytes cur)).
  { pose proof (len_nonneg (p_bytes cur)). pose proof (len_nonneg (os_bytes st)).
    revert H2 H3 H4 HL Hn H H0.
    generalize (len (p_bytes cur)) (len (os_bytes st)) (p_seq cur).
    intros L n cs. intros. seq_arith. }
  destruct Hk as [K1 K2]. split; [exact K1 |]. split; [exact K2 |].
  cbn [checkOverlap_loop]. repeat decide_test; unfold copy_into; repeat decide_test;
    reflexivity.
Qed.

(** X28. A new segment that lies inside a queued page, after its first
    byte and before its last, is written over the bytes of the page at its
    place and is not queued itself: the queue keeps the one page, with the
    same length, and the counters of the half, those of overlap included,
    stay as they were. *)
Theorem checkOverlap_inside_page_overwrites (a : Assembler Stream)
    (half : halfconnection) (cur : page) (ac : AssemblerContext) :
  len (p_bytes cur) < two31 ->
  len (lp_bytes (cacheLP a)) < two31 ->
  queue half = [cur] ->
  Difference (lp_endSeq (cacheLP a)) (p_seq cur) <= 0 ->
  Difference (lp_seq (cacheLP a)) (page_end cur) > 0 ->
  Difference (lp_endSeq (cacheLP a)) (page_end cur) > 0 ->
  Difference (lp_seq (cacheLP a)) (p_seq cur) < 0 ->
  exists a' half' k,
    checkOverlap pageBytes a half true ac = Some (a', half')
    /\ k = Z.to_nat (- Difference (lp_seq (cacheLP a)) (p_seq cur))
    /\ (0 < k)%nat
    /\ (k + length (lp_bytes (cacheLP a)) < length (p_bytes cur))%nat
    /\ queue half'
       = [page_set_bytes cur
            (take k (p_bytes cur) ++ lp_bytes (cacheLP a)
             ++ drop (k + length (lp_bytes (cacheLP a))) (p_bytes cur))]
    /\ lp_bytes (cacheLP a') = []
    /\ queuedPackets half' = queuedPackets half
    /\ queuedBytes half' = queuedBytes half
    /\ overlapPackets half' = overlapPackets half
    /\ overlapBytes half' = overlapBytes half
    /\ pages half' = pages half
    /\ pc a' = pc a.
Proof.
  intros HL Hn Hq H1 H2 H3 H4.
  unfold checkOverlap. rewrite Hq. change (rev [cur]) with [cur].
  fold (lp_endSeq (cacheLP a)).
  match goal with
  | |- context [checkOverlap_loop _ _ _ ?st0] =>
      destruct (checkOverlap_loop_case6 (lp_seq (cacheLP a)) (lp_endSeq (cacheLP a)) cur st0
                  HL Hn eq_refl H1 H2 H3 H4) as (K1 & K2 & ->)
  end.
  cbn [mbind option_bind os_consume os_bytes os_next os_skipped os_overlapPackets
       os_overlapBytes os_pages os_pc].
  cbv zeta. change (len (@nil byte) >? 0) with false. cbn [andb].
  eexists _, _, _. split; [reflexivity |]. split; [reflexivity |].
  cbn [os_bytes] in K2. unfold len in K2.
  simpl. split_and!; auto; try lia.
  repeat f_equal. unfold len. lia.
Qed.

Lemma checkOverlap_loop_no_case (start end_ : Sequence) (cur : page) (st : overlapState) :
  Difference end_ (p_seq cur) <= 0 ->
  Difference start (page_end cur) > 0 ->
  (Difference start (p_seq cur) = 0 /\ Difference end_ (page_end cur) > 0)
  \/ (Difference start (p_seq cur) < 0 /\ Difference end_ (page_end cur) = 0) ->
  checkOverlap_loop start end_ [cur] st = Some ([], os_set_next st cur).
Proof.
  unfold page_end. intros H1 H2 [[H3 H4] | [H3 H4]];
    cbn [checkOverlap_loop]; repeat decide_test; reflexivity.
Qed.

(** X29. A new segment that lies inside a queued page and shares one
    boundary with it, starting where the page starts and ending before its
    end, or starting after its start and ending where it ends, matches none
    of the overlap cases: it is queued whole in front of the page, the page
    keeps all its bytes, and nothing is counted as overlap, so that the
    queue then holds bytes for the range of the segment twice. *)
Theorem checkOverlap_shared_boundary_is_not_resolved (a : Assembler Stream)
    (half : halfconnection) (cur : page) (ac : AssemblerContext) :
  (0 < pageBytes)%nat ->
  lp_bytes (cacheLP a) <> [] ->
  queue half = [cur] ->
  Difference (lp_endSeq (cacheLP a)) (p_seq cur) <= 0 ->
  Difference (lp_seq (cacheLP a)) (page_end cur) > 0 ->
  (Difference (lp_seq (cacheLP a)) (p_seq cur) = 0
   /\ Difference (lp_endSeq (cacheLP a)) (page_end cur) > 0)
  \/ (Difference (lp_seq (cacheLP a)) (p_seq cur) < 0
      /\ Difference (lp_endSeq (cacheLP a)) (page_end cur) = 0) ->
  exists a' half' ps,
    checkOverlap pageBytes a half true ac = Some (a', half')
    /\ queue half' = ps ++ [cur]
    /\ pages_bytes ps = lp_bytes (cacheLP a)
    /\ contiguous_from (lp_seq (cacheLP a)) ps
    /\ overlapPackets half' = overlapPackets half
    /\ overlapBytes half' = overlapBytes half
    /\ queuedPackets half' = queuedPackets half + 1
    /\ queuedBytes half' = queuedBytes half + len (lp_bytes (cacheLP a)).
Proof.
  intros Hpb Hb Hq H1 H2 H3.
  unfold checkOverlap. rewrite Hq. change (rev [cur]) with [cur].
  fold (lp_endSeq (cacheLP a)).
  rewrite (checkOverlap_loop_no_case _ _ _ _ H1 H2 H3).
  cbn [mbind option_bind os_set_next os_bytes os_next os_skipped os_overlapPackets
       os_overlapBytes os_pages os_pc].
  cbv zeta.
  assert (Hpos : (len (lp_bytes (cacheLP a)) >? 0) && true = true).
  { pose proof (len_nonneg (lp_bytes (cacheLP a))).
    destruct (Z.gtb_spec (len (lp_bytes (cacheLP a))) 0); [reflexivity |].
    assert (len (lp_bytes (cacheLP a)) = 0) as E0 by lia.
    apply len_nil_inv in E0. contradiction. }
  rewrite Hpos.
  set (lp := lp_set_bytes_seq (cacheLP a) (lp_bytes (cacheLP a)) (lp_seq (cacheLP a))).
  match goal with
  | |- context [lp_convertToPages pageBytes lp ?c 0 (Some ac)] =>
      destruct (lp_convertToPages_chain lp c (Some ac) Hpb Hb) as (ps & c' & EC & P1 & P2 & _)
  end.
  rewrite EC. cbn [mbind option_bind].
  eexists _, _, ps. split; [reflexivity |].
  simpl. split_and!; auto.
Qed.
End Frames.

(** ** The theorems at work *)


Lemma duplicate_segment_is_absorbed_witness :
  received afterABCDtwice.2
  = received afterABCD.2 ++ [CbAccept (data_ 1001 "ABCD") true]
  /\ deliveries afterABCDtwice.2 = deliveries afterABCD.2.
Proof.
  destruct (duplicate_segment_is_absorbed examplePageBytes unit acceptAll keepNothing complete
              afterSyn connAfterSyn C2S (data_ 1001 "ABCD") (at_ 1) (at_ 2)
              afterABCD.1 afterABCDtwice.1 afterABCD.2 afterABCDtwice.2)
    as (R & D & _).
  - vm_compute. split; discriminate.
  - intros s t ci d n st ac. exists s. reflexivity.
  - vm_compute. split_and!; (reflexivity || discriminate).
  - assert (Hn : nextSeq (getHalf connAfterSyn C2S) = 1001) by (vm_compute; reflexivity).
    assert (Hq : queue (getHalf connAfterSyn C2S) = []) by (vm_compute; reflexivity).
    unfold queue_ahead. rewrite Hn, Hq.
    split_and!; [right; unfold two32; lia | constructor | vm_compute; reflexivity].
  - vm_compute. reflexivity.
  - vm_compute. reflexivity.
  - split; assumption.
Defined.

(** Under a limit of two buffered pages, with a page held back for the
    stream in the other direction: [PQ] at 1020 submitted once leaves [PQ]
    queued, submitted twice has it delivered and moves the next sequence
    number past it. The bytes [abcdefgh] at 1012 that fill the gap are then
    delivered in the first case and lost in the second. *)
Lemma duplicate_under_page_limit_is_delivered :
  clientDeliveries (assembleAllK limitedAssembler (beforePQ ++ [segmentPQ]))
  = Some [[]; bs "XY"]
  /\ clientDeliveries (assembleAllK limitedAssembler (beforePQ ++ [segmentPQ; segmentPQ]))
     = Some [[]; bs "XY"; bs "PQ"]
  /\ clientDeliveries (assembleAllK limitedAssembler
                         (beforePQ ++ [segmentPQ; data_ 1012 "abcdefgh"]))
     = Some [[]; bs "XY"; bs "abcdefghPQ"]
  /\ clientDeliveries (assembleAllK limitedAssembler
                         (beforePQ ++ [segmentPQ; segmentPQ; data_ 1012 "abcdefgh"]))
     = Some [[]; bs "XY"; bs "PQ"].
Proof. split_and!; vm_compute; reflexivity. Qed.







(** ** Further theorems at work *)

(** A [Forall] over the queue of a state at hand, by evaluating the queue. *)
Ltac queue_by_computation :=
  unfold queue_beyond;
  match goal with
  | |- Forall _ ?q => let q' := eval vm_compute in q in change q with q'
  end;
  repeat constructor; vm_compute; first [reflexivity | discriminate].

Lemma assemble_calls_stream_in_order_witness :
  exists ok l,
  received afterABCD.2 = received connAfterSyn ++ CbAccept segmentABCD ok :: l
  /\ (l = [] \/ (exists sg, l = [CbReassembled sg])
      \/ (exists sg, l = [CbReassembled sg; CbReassemblyComplete]))
  /\ (ok = false -> l = [])
  /\ (closed (getHalf connAfterSyn C2S) = true -> l = []).
Proof.
  simple apply (assemble_calls_stream_in_order examplePageBytes unit acceptAll keepNothing
      complete afterSyn connAfterSyn C2S segmentABCD (at_ 1) afterABCD.1 afterABCD.2).
  vm_compute. reflexivity.
Defined.

Lemma closed_half_drops_segment_witness :
  exists a' conn' ok,
  AssembleWithContext_conn examplePageBytes acceptAll keepNothing complete afterClose.1
      afterClose.2 C2S segmentAB (at_ 5)
  = Some (a', conn')
  /\ received conn' = received afterClose.2 ++ [CbAccept segmentAB ok]
  /\ same_but_lastSeen (getHalf afterClose.2 C2S) (getHalf conn' C2S)
  /\ lastSeen (getHalf conn' C2S)
     = Z.max (lastSeen (getHalf afterClose.2 C2S)) (Timestamp (GetCaptureInfo (at_ 5)))
  /\ getHalf conn' (other C2S) = getHalf afterClose.2 (other C2S)
  /\ pc a' = pc afterClose.1 /\ connPool a' = connPool afterClose.1.
Proof.
  simple apply (closed_half_drops_segment examplePageBytes unit acceptAll keepNothing complete
      afterClose.1 afterClose.2 C2S segmentAB (at_ 5)).
  vm_compute. reflexivity.
Defined.

Lemma one_half_leaves_the_other_witness :
  match (OpAssemble C2S segmentABCD (at_ 1)) with
  | OpAssemble sd _ _ | OpSkipFlush sd | OpFlushClose sd _ _ | OpClose sd =>
    getHalf afterABCD.2 (other sd) = getHalf connAfterSyn (other sd)
  | OpFlushWithOptions _ | OpFlushAll => True
  end.
Proof.
  simple apply (one_half_leaves_the_other examplePageBytes unit acceptAll keepNothing complete
      afterSyn connAfterSyn (OpAssemble C2S segmentABCD (at_ 1)) afterABCD.1 afterABCD.2).
  vm_compute. reflexivity.
Defined.

Lemma skipFlush_delivers_head_of_queue_witness :
  exists sg l pre rest,
  received afterSkipFlush.2 = received connWithQueuedPages ++ CbReassembled sg :: l
  /\ (l = [] \/ l = [CbReassemblyComplete])
  /\ otherQueuedPages = pre ++ rest
  /\ contiguous_from (page_end firstQueuedPage) pre
  /\ match rest with
     | [] => True
     | p1 :: _ => Difference (Add (page_end firstQueuedPage) (qbytes pre)) (p_seq p1) <> 0
     end
  /\ sg_payload sg
     = pages_bytes (pending_for (getHalf connWithQueuedPages C2S) (p_seq firstQueuedPage)) ++
         pages_bytes (firstQueuedPage :: pre)
  /\ sg_saved sg = len (pages_bytes (pending_for (getHalf connWithQueuedPages C2S) (p_seq
      firstQueuedPage)))
  /\ sg_Skip sg
     = (if nextSeq (getHalf connWithQueuedPages C2S) =? invalidSequence then -1
        else Difference (nextSeq (getHalf connWithQueuedPages C2S)) (p_seq firstQueuedPage))
  /\ nextSeq (getHalf afterSkipFlush.2 C2S) = Add (page_end firstQueuedPage) (qbytes pre)
  /\ closed (getHalf afterSkipFlush.2 C2S)
     = closed (getHalf connWithQueuedPages C2S) || p_end (List.last pre firstQueuedPage).
Proof.
  simple apply (skipFlush_delivers_head_of_queue examplePageBytes unit keepNothing complete
      withQueuedPages connWithQueuedPages C2S afterSkipFlush.1 afterSkipFlush.2 firstQueuedPage
      otherQueuedPages).
  - vm_compute. reflexivity.
  - vm_compute. reflexivity.
Defined.

Lemma flushClose_flags_witness :
  (afterFlushClose.2 = true <-> closed (getHalf connWithQueuedPages C2S) = false /\ closed
      (getHalf afterFlushClose.1.1.2 C2S) = true)
  /\ (afterFlushClose.1.2 = true <-> (length (deliveries connWithQueuedPages) < length
      (deliveries afterFlushClose.1.1.2))%nat)
  /\ (afterFlushClose.1.2 = false -> deliveries afterFlushClose.1.1.2 = deliveries
      connWithQueuedPages)
  /\ (closed (getHalf connWithQueuedPages C2S) = true -> afterFlushClose.1.1.1 = withQueuedPages
      /\ afterFlushClose.1.1.2 = connWithQueuedPages).
Proof.
  simple apply (flushClose_flags examplePageBytes unit keepNothing complete withQueuedPages
      connWithQueuedPages C2S 10 10 afterFlushClose.1.1.1 afterFlushClose.1.1.2
      afterFlushClose.1.2 afterFlushClose.2).
  vm_compute. reflexivity.
Defined.

Lemma FlushWithOptions_counts_per_connection_witness :
  afterFlushConn.2 = 0 + (if negb (closed (s2c connWithQueuedPages)) && closed (s2c
      afterFlushConn.1.1.2) then 1 else 0)
       + (if negb (closed (c2s connWithQueuedPages)) && closed (c2s afterFlushConn.1.1.2) then 1
           else 0)
  /\ 0 <= afterFlushConn.1.2 <= 0 + 2
  /\ (afterFlushConn.1.2 = 0 -> deliveries afterFlushConn.1.1.2 = deliveries connWithQueuedPages)
  /\ (closed (s2c afterFlushConn.1.1.2) && closed (c2s afterFlushConn.1.1.2)
    && (lastSeen (s2c afterFlushConn.1.1.2) <? TC {| T := 10; TC := 10 |}) && (lastSeen (c2s
        afterFlushConn.1.1.2) <? TC {| T := 10; TC := 10 |}) = true ->
    conns (connPool afterFlushConn.1.1.1) !! ckey afterFlushConn.1.1.2 = None).
Proof.
  simple apply (FlushWithOptions_counts_per_connection examplePageBytes unit acceptAll
      keepNothing complete withQueuedPages connWithQueuedPages {| T := 10; TC := 10 |} 0 0
      afterFlushConn.1.1.1 afterFlushConn.1.1.2 afterFlushConn.1.2 afterFlushConn.2).
  vm_compute. reflexivity.
Defined.

Lemma FlushCloseOlderThan_spares_the_young_witness :
  FlushCloseOlderThan examplePageBytes keepNothing complete withQueuedPages 0
  = Some (withQueuedPages, pool_connections (connPool withQueuedPages), 0, 0).
Proof.
  simple apply (FlushCloseOlderThan_spares_the_young examplePageBytes unit keepNothing complete
      withQueuedPages 0).
  intros k conn H.
  assert (E : conns (connPool withQueuedPages) = {[clientKey := connWithQueuedPages]})
    by (vm_compute; reflexivity).
  rewrite E in H. apply lookup_singleton_Some in H. destruct H as [<- <-].
  split; [reflexivity |]. split; [vm_compute; discriminate |].
  intros sd p q Hq.
  assert (Hs : Forall (fun p => 0 <= p_seen p) (queue (getHalf connWithQueuedPages sd))).
  { destruct sd; vm_compute; repeat constructor; discriminate. }
  rewrite Hq in Hs. inversion Hs; assumption.
Defined.

Lemma segment_in_position_is_delivered_witness :
  exists sg l pre rest,
  received afterEFGHthenABCD.2 = received afterEFGH.2 ++ CbAccept segmentABCD true ::
      CbReassembled sg :: l
  /\ (l = [] \/ l = [CbReassemblyComplete])
  /\ queue (getHalf afterEFGH.2 C2S) = pre ++ rest
  /\ contiguous_from (Add (Seq segmentABCD) (len (Payload segmentABCD))) pre
  /\ match rest with
     | [] => True
     | p :: _ =>
         Difference (Add (Seq segmentABCD) (len (Payload segmentABCD) + qbytes pre)) (p_seq p) <>
             0
     end
  /\ sg_payload sg
     = pages_bytes (pending_for (getHalf afterEFGH.2 C2S) (Seq segmentABCD)) ++ Payload
         segmentABCD ++ pages_bytes pre
  /\ sg_Skip sg = 0
  /\ nextSeq (getHalf afterEFGHthenABCD.2 C2S)
     = (if FIN segmentABCD then Add (Add (Seq segmentABCD) (len (Payload segmentABCD) + qbytes
         pre)) 1
        else Add (Seq segmentABCD) (len (Payload segmentABCD) + qbytes pre))
  /\ closed (getHalf afterEFGHthenABCD.2 C2S)
     = match pre with
       | [] => RST segmentABCD || FIN segmentABCD
       | p :: ps => p_end (List.last ps p)
       end.
Proof.
  simple apply (segment_in_position_is_delivered examplePageBytes unit acceptAll keepNothing
      complete afterEFGH.1 afterEFGH.2 C2S segmentABCD (at_ 2) false tt afterEFGHthenABCD.1
      afterEFGHthenABCD.2).
  - vm_compute. reflexivity.
  - vm_compute. reflexivity.
  - vm_compute. discriminate.
  - vm_compute. reflexivity.
  - left. vm_compute. discriminate.
  - queue_by_computation.
  - vm_compute. reflexivity.
  - vm_compute. reflexivity.
Defined.

Lemma opening_segment_starts_the_half_witness :
  exists sg l pre rest,
  received afterLateSyn.2 = received beforeSyn.2 ++ CbAccept (syn 1000) true :: CbReassembled sg
      :: l
  /\ (l = [] \/ l = [CbReassemblyComplete])
  /\ queue (getHalf beforeSyn.2 C2S) = pre ++ rest
  /\ contiguous_from (Add 1001 (len (Payload (syn 1000)))) pre
  /\ match rest with
     | [] => True
     | p :: _ => Difference (Add 1001 (len (Payload (syn 1000)) + qbytes pre)) (p_seq p) <> 0
     end
  /\ sg_payload sg
     = pages_bytes (pending_for (getHalf beforeSyn.2 C2S) 1001) ++ Payload (syn 1000) ++
         pages_bytes pre
  /\ sg_Skip sg = 0
  /\ nextSeq (getHalf afterLateSyn.2 C2S)
     = (if FIN (syn 1000) then Add (Add 1001 (len (Payload (syn 1000)) + qbytes pre)) 1
        else Add 1001 (len (Payload (syn 1000)) + qbytes pre)).
Proof.
  simple apply (opening_segment_starts_the_half examplePageBytes unit acceptAll keepNothing
      complete beforeSyn.1 beforeSyn.2 C2S (syn 1000) (at_ 2) true tt afterLateSyn.1
      afterLateSyn.2 1001).
  - vm_compute. reflexivity.
  - vm_compute. reflexivity.
  - vm_compute. reflexivity.
  - left. vm_compute. split; reflexivity.
  - right. left. reflexivity.
  - queue_by_computation.
  - vm_compute. reflexivity.
  - vm_compute. reflexivity.
Defined.


Lemma segment_ahead_is_queued_witness :
  exists a' conn' ps,
  AssembleWithContext_conn examplePageBytes acceptAll keepNothing complete afterSyn connAfterSyn
      C2S segmentEFGH (at_ 1)
  = Some (a', conn')
  /\ received conn' = received connAfterSyn ++ [CbAccept segmentEFGH true]
  /\ queue (getHalf conn' C2S) = queue (getHalf connAfterSyn C2S) ++ ps
  /\ pages_bytes ps = Payload segmentEFGH
  /\ contiguous_from (Seq segmentEFGH) ps
  /\ nextSeq (getHalf conn' C2S) = nextSeq (getHalf connAfterSyn C2S)
  /\ queuedPackets (getHalf conn' C2S) = queuedPackets (getHalf connAfterSyn C2S) + 1
  /\ queuedBytes (getHalf conn' C2S) = queuedBytes (getHalf connAfterSyn C2S) + len (Payload
      segmentEFGH).
Proof.
  simple apply (segment_ahead_is_queued examplePageBytes unit acceptAll keepNothing complete
      afterSyn connAfterSyn C2S segmentEFGH (at_ 1) false tt).
  - unfold examplePageBytes. lia.
  - vm_compute. reflexivity.
  - vm_compute. reflexivity.
  - left. vm_compute. split; [discriminate | reflexivity].
  - vm_compute. discriminate.
  - vm_compute. exact I.
  - vm_compute. split; discriminate.
Defined.



Lemma kept_bytes_are_offered_again_witness :
  exists a1 conn1 sg1,
  AssembleWithContext_conn examplePageBytes acceptAll keepFromTwo complete
    afterSyn connAfterSyn C2S segmentABCD (at_ 1) = Some (a1, conn1)
  /\ received conn1 = received connAfterSyn ++ [CbAccept segmentABCD true; CbReassembled sg1]
  /\ sg_payload sg1 = Payload segmentABCD
  /\ pages_bytes (saved (getHalf conn1 C2S)) = drop (Z.to_nat 2) (Payload segmentABCD)
  /\ forall a2 conn2,
       AssembleWithContext_conn examplePageBytes acceptAll keepFromTwo complete
         a1 conn1 C2S segmentEF (at_ 2) = Some (a2, conn2) ->
       exists sg2 l,
         received conn2
         = received conn1 ++ CbAccept segmentEF true :: CbReassembled sg2 :: l
         /\ sg_payload sg2 = drop (Z.to_nat 2) (Payload segmentABCD) ++ Payload segmentEF
         /\ sg_saved sg2 = len (Payload segmentABCD) - 2
         /\ sg_Skip sg2 = 0.
Proof.
  simple apply (kept_bytes_are_offered_again examplePageBytes unit acceptAll keepFromTwo complete
      afterSyn connAfterSyn C2S segmentABCD segmentEF (at_ 1) (at_ 2) false tt 2).
  - unfold examplePageBytes. lia.
  - vm_compute. reflexivity.
  - vm_compute. reflexivity.
  - vm_compute. reflexivity.
  - vm_compute. discriminate.
  - vm_compute. reflexivity.
  - reflexivity.
  - reflexivity.
  - vm_compute. split; [discriminate | reflexivity].
  - vm_compute. reflexivity.
  - vm_compute. reflexivity.
  - intros sg. reflexivity.
  - vm_compute. reflexivity.
  - intros s. reflexivity.
  - vm_compute. discriminate.
  - vm_compute. reflexivity.
Defined.

Lemma checkOverlap_tail_overlap_witness :
  exists a' half' ps,
  checkOverlap examplePageBytes (checkingSegment 1012 "ghij") halfWithEFGH true (at_ 1) = Some
      (a', half')
  /\ 0 < - Difference (lp_seq (cacheLP (checkingSegment 1012 "ghij"))) (p_seq queuedEFGH) < len
      (p_bytes queuedEFGH)
  /\ queue half'
     = page_set_bytes queuedEFGH
         (take (Z.to_nat (- Difference (lp_seq (cacheLP (checkingSegment 1012 "ghij"))) (p_seq
             queuedEFGH))) (p_bytes queuedEFGH))
       :: ps
  /\ pages_bytes ps = lp_bytes (cacheLP (checkingSegment 1012 "ghij"))
  /\ contiguous_from (lp_seq (cacheLP (checkingSegment 1012 "ghij"))) ps
  /\ overlapPackets half' = overlapPackets halfWithEFGH
  /\ overlapBytes half' = overlapBytes halfWithEFGH
  /\ queuedPackets half' = queuedPackets halfWithEFGH + 1
  /\ queuedBytes half' = queuedBytes halfWithEFGH + len (lp_bytes (cacheLP (checkingSegment 1012
      "ghij"))).
Proof.
  simple apply (checkOverlap_tail_overlap examplePageBytes unit (checkingSegment 1012 "ghij")
      halfWithEFGH queuedEFGH (at_ 1)).
  - unfold examplePageBytes. lia.
  - vm_compute. reflexivity.
  - reflexivity.
  - vm_compute. discriminate.
  - vm_compute. reflexivity.
  - vm_compute. reflexivity.
  - vm_compute. reflexivity.
Defined.

Lemma checkOverlap_covered_page_is_dropped_witness :
  exists a' half' ps,
  checkOverlap examplePageBytes (checkingSegment 1009 "defghi") halfWithEFGH true (at_ 1) = Some
      (a', half')
  /\ queue half' = ps
  /\ pages_bytes ps = lp_bytes (cacheLP (checkingSegment 1009 "defghi"))
  /\ contiguous_from (lp_seq (cacheLP (checkingSegment 1009 "defghi"))) ps
  /\ overlapPackets half'
     = (if page_isPacket queuedEFGH then overlapPackets halfWithEFGH + 1 else overlapPackets
         halfWithEFGH)
  /\ overlapBytes half' = overlapBytes halfWithEFGH + len (p_bytes queuedEFGH)
  /\ pages half' = pages halfWithEFGH - 1 + len ps
  /\ pc_used (pc a') = pc_used (pc (checkingSegment 1009 "defghi")) - 1 + len ps.
Proof.
  simple apply (checkOverlap_covered_page_is_dropped examplePageBytes unit (checkingSegment 1009
      "defghi") halfWithEFGH queuedEFGH (at_ 1)).
  - unfold examplePageBytes. lia.
  - vm_compute. discriminate.
  - reflexivity.
  - vm_compute. discriminate.
  - vm_compute. reflexivity.
  - vm_compute. discriminate.
  - vm_compute. discriminate.
Defined.

Lemma checkOverlap_inside_page_overwrites_witness :
  exists a' half' k,
  checkOverlap examplePageBytes (checkingSegment 1011 "fg") halfWithEFGH true (at_ 1) = Some (a',
      half')
  /\ k = Z.to_nat (- Difference (lp_seq (cacheLP (checkingSegment 1011 "fg"))) (p_seq queuedEFGH))
  /\ (0 < k)%nat
  /\ (k + length (lp_bytes (cacheLP (checkingSegment 1011 "fg"))) < length (p_bytes
      queuedEFGH))%nat
  /\ queue half'
     = [page_set_bytes queuedEFGH
          (take k (p_bytes queuedEFGH) ++ lp_bytes (cacheLP (checkingSegment 1011 "fg"))
           ++ drop (k + length (lp_bytes (cacheLP (checkingSegment 1011 "fg")))) (p_bytes
               queuedEFGH))]
  /\ lp_bytes (cacheLP a') = []
  /\ queuedPackets half' = queuedPackets halfWithEFGH
  /\ queuedBytes half' = queuedBytes halfWithEFGH
  /\ overlapPackets half' = overlapPackets halfWithEFGH
  /\ overlapBytes half' = overlapBytes halfWithEFGH
  /\ pages half' = pages halfWithEFGH
  /\ pc a' = pc (checkingSegment 1011 "fg").
Proof.
  simple apply (checkOverlap_inside_page_overwrites examplePageBytes unit (checkingSegment 1011
      "fg") halfWithEFGH queuedEFGH (at_ 1)).
  - vm_compute. reflexivity.
  - vm_compute. reflexivity.
  - reflexivity.
  - vm_compute. discriminate.
  - vm_compute. reflexivity.
  - vm_compute. reflexivity.
  - vm_compute. reflexivity.
Defined.

Lemma checkOverlap_shared_boundary_is_not_resolved_witness :
  exists a' half' ps,
  checkOverlap examplePageBytes (checkingSegment 1010 "ef") halfWithEFGH true (at_ 1) = Some (a',
      half')
  /\ queue half' = ps ++ [queuedEFGH]
  /\ pages_bytes ps = lp_bytes (cacheLP (checkingSegment 1010 "ef"))
  /\ contiguous_from (lp_seq (cacheLP (checkingSegment 1010 "ef"))) ps
  /\ overlapPackets half' = overlapPackets halfWithEFGH
  /\ overlapBytes half' = overlapBytes halfWithEFGH
  /\ queuedPackets half' = queuedPackets halfWithEFGH + 1
  /\ queuedBytes half' = queuedBytes halfWithEFGH + len (lp_bytes (cacheLP (checkingSegment 1010
      "ef"))).
Proof.
  simple apply (checkOverlap_shared_boundary_is_not_resolved examplePageBytes unit
      (checkingSegment 1010 "ef") halfWithEFGH queuedEFGH (at_ 1)).
  - unfold examplePageBytes. lia.
  - vm_compute. discriminate.
  - reflexivity.
  - vm_compute. discriminate.
  - vm_compute. reflexivity.
  - left. vm_compute. split; reflexivity.
Defined.

End ReassemblyProps.

(** * Properties of the reader pipeline *)

Module EncoderProps.

Import Reassembly Encoder Examples.

Section Props.

Variable Credentials : Type.
Variable env : Env Credentials.

Lemma Atoi_Endpoint_String (port : Z) : strconv_Atoi (Endpoint_String port) = port.
Proof.
  unfold strconv_Atoi, Endpoint_String.
  rewrite DecimalString.NilZero.isi.
  - apply DecimalZ.of_to.
  - destruct port; simpl; try discriminate.
    intros [= H]. exact (DecimalPos.Unsigned.to_uint_nonnil _ H).
  - destruct port; simpl; try discriminate.
    intros [= H]. exact (DecimalPos.Unsigned.to_uint_nonnil _ H).
Qed.


Lemma utf8_ValidString_ascii_example : utf8_ValidString (bs "GET / HTTP/1.1") = true.
Proof. reflexivity. Qed.

Lemma utf8_ValidString_two_byte_example : utf8_ValidString [xc3; xa9] = true.
Proof. reflexivity. Qed.

Lemma utf8_ValidString_overlong_example : utf8_ValidString [xc0; x80] = false.
Proof. reflexivity. Qed.

Lemma utf8_ValidString_surrogate_example : utf8_ValidString [xed; xa0; x80] = false.
Proof. reflexivity. Qed.

Lemma utf8_ValidString_truncated_example : utf8_ValidString [xe2; x82] = false.
Proof. reflexivity. Qed.

(** C8. The service class is the registry's answer for the destination port
    when that answer is not the empty string; otherwise it is "utf8" for a
    payload that is valid UTF-8 and "unknown" for any other payload. *)
Theorem getServiceName_class (data : list byte) (destination : Flow) :
  getServiceName env data destination =
    let s := LookupServiceByPort env (fdst destination) "tcp" in
    if bool_decide (s = EmptyString) then
      if utf8_ValidString data then "utf8" else "unknown"
    else s.
Proof.
  unfold getServiceName. rewrite Atoi_Endpoint_String. cbv zeta.
  destruct (String.eqb_spec (LookupServiceByPort env (fdst destination) "tcp") EmptyString) as [E | E].
  - rewrite E. reflexivity.
  - rewrite bool_decide_eq_false_2 by exact E. reflexivity.
Qed.

(** C10. With an empty raw conversation [saveConnection] returns nil and
    leaves the world as it was: no harvester has run, no credentials record
    has been emitted, no directory or file has been created and
    [savedConnections] has not moved. *)
Theorem saveConnection_empty (w : World Credentials) (colored : list byte)
    (ident : string) (firstPacket : Z) (transport : Flow) :
  saveConnection env w [] colored ident firstPacket transport = (w, None).
Proof. reflexivity. Qed.

Lemma runHarvesters_files hs (w : World Credentials) raw ident fp :
  files (runHarvesters hs w raw ident fp) = files w
  /\ savedConnections (runHarvesters hs w raw ident fp) = savedConnections w
  /\ dirs (runHarvesters hs w raw ident fp) = dirs w.
Proof.
  revert w. induction hs as [| ch hs IH]; intros w; simpl; [done |].
  destruct (ch raw ident fp); [done |].
  destruct (IH (world_ran_harvester w)) as (-> & -> & ->). done.
Qed.

Lemma wg_Done_ok (f : tcpConnectionFactory) :
  1 <= wg f -> wg_Done f = Some {| wg := wg f - 1; numActive := numActive f |}.
Proof. intros H. unfold wg_Done. destruct (Z.ltb_spec (wg f - 1) 0); [lia | done]. Qed.

(** What [Cleanup] does to the factory and to the parent, on either path. *)
Lemma Cleanup_factory (h : tcpReader) (parent : tcpConnection)
    (f : tcpConnectionFactory) (w : World Credentials) :
  1 <= wg f ->
  exists h' w',
    Cleanup env h parent f w
    = Some (h', parent_set_last parent true,
            {| wg := wg f - 1; numActive := numActive f - 1 |}, w').
Proof.
  intros Hwg. unfold Cleanup.
  assert (Hp : last parent = true -> parent = parent_set_last parent true).
  { destruct parent; simpl; intros ->; reflexivity. }
  destruct (isClient h);
    [destruct (saveConnection env w (conversationRaw parent)
                 (conversationColored parent) (ident parent) (firstPacket parent)
                 (transport parent)) as [w1 e] |];
    (destruct (last parent) eqn:El; simpl; rewrite (wg_Done_ok f Hwg); simpl;
     [rewrite <- (Hp eq_refl) |]; eexists _, _; reflexivity).
Qed.

(** C9. Every invocation of [Cleanup] performs one [wg.Done] and one
    decrement of [numActive], whether the parent has already seen a reader
    close or not (the wait group counting the reader, as [wg.Done] needs);
    the two readers of a connection together take both counters down by
    two. *)
Theorem Cleanup_decrements_once (h : tcpReader) (parent : tcpConnection)
    (f : tcpConnectionFactory) (w : World Credentials) :
  1 <= wg f ->
  exists h' p' f' w',
    Cleanup env h parent f w = Some (h', p', f', w')
    /\ wg f' = wg f - 1
    /\ numActive f' = numActive f - 1
    /\ last p' = true
    /\ forall h2 : tcpReader,
         1 <= wg f' ->
         exists h2' p2 f2 w2,
           Cleanup env h2 p' f' w' = Some (h2', p2, f2, w2)
           /\ wg f2 = wg f - 2
           /\ numActive f2 = numActive f - 2.
Proof.
  intros Hwg.
  destruct (Cleanup_factory h parent f w Hwg) as (h' & w' & E).
  eexists _, _, _, _. split; [exact E |]. simpl.
  repeat split; try reflexivity.
  intros h2 Hwg2.
  destruct (Cleanup_factory h2 (parent_set_last parent true)
              {| wg := wg f - 1; numActive := numActive f - 1 |} w' Hwg2)
    as (h2' & w2 & E2).
  eexists _, _, _, _. split; [exact E2 |]. simpl. lia.
Qed.

(** C7 (amended). When the client-side reader cleans up with a non-empty
    conversation, and the file can be opened and written, the coloured
    conversation bytes (the raw bytes framed by the colour escapes of each
    chunk) are appended to the file
    [<out>/tcpConnections/<serviceClass>/<ident>.bin], and [savedConnections]
    is incremented. *)
Theorem Cleanup_client_saves_colored (h : tcpReader) (parent : tcpConnection)
    (f : tcpConnectionFactory) (w : World Credentials) :
  isClient h = true ->
  conversationRaw parent <> [] ->
  1 <= wg f ->
  OpenFile_err env
    (connectionPath env (conversationRaw parent) (ident parent) (transport parent)) = None ->
  Copy_err env
    (connectionPath env (conversationRaw parent) (ident parent) (transport parent))
    (conversationColored parent) = None ->
  exists h' p' f' w',
    Cleanup env h parent f w = Some (h', p', f', w')
    /\ saved h' = true
    /\ files w' !! connectionPath env (conversationRaw parent) (ident parent) (transport parent)
       = Some (default []
                 (files w !! connectionPath env (conversationRaw parent) (ident parent)
                                (transport parent))
               ++ conversationColored parent)
    /\ savedConnections w' = savedConnections w + 1.
Proof.
  intros Hc Hraw Hwg Hopen Hcopy.
  unfold Cleanup. rewrite Hc.
  unfold saveConnection.
  destruct (Z.eqb_spec (len (conversationRaw parent)) 0) as [E | _].
  { destruct (conversationRaw parent); [done | discriminate E]. }
  fold (connectionPath env (conversationRaw parent) (ident parent) (transport parent)).
  set (path := connectionPath env (conversationRaw parent) (ident parent) (transport parent)) in *.
  destruct (runHarvesters_files (tcpConnectionHarvesters env) w (conversationRaw parent)
              (ident parent) (firstPacket parent)) as (Hf & Hs & _).
  unfold os_OpenFile. rewrite Hopen.
  unfold io_Copy. rewrite Hcopy.
  assert (Hdone : forall (h0 : tcpReader) (p0 : tcpConnection) (w0 : World Credentials),
             (if negb (last parent)
              then f0 ← wg_Done f; Some (h0, p0, numActive_dec f0, w0)
              else f0 ← wg_Done f; Some (h0, parent, numActive_dec f0, w0))
             = Some (h0, (if negb (last parent) then p0 else parent),
                     numActive_dec {| wg := wg f - 1; numActive := numActive f |}, w0)).
  { intros. rewrite (wg_Done_ok f Hwg). destruct (last parent); reflexivity. }
  unfold file_Close.
  destruct (Close_err env path); rewrite Hdone; eexists _, _, _, _;
    (split; [reflexivity |]); simpl; rewrite !lookup_insert_eq; simpl;
    rewrite Hf, Hs; done.
Qed.


(** ** Harvesters, failures and what [saveConnection] returns *)

Lemma runHarvesters_credentials hs (w : World Credentials) raw ident fp :
  credentials (runHarvesters hs w raw ident fp)
  = credentials w ++ option_list (head (omap (fun ch => ch raw ident fp) hs)).
Proof.
  revert w. induction hs as [| ch hs IH]; intros w; simpl.
  - symmetry. apply app_nil_r.
  - destruct (ch raw ident fp) as [c |]; simpl; [reflexivity |].
    rewrite IH. reflexivity.
Qed.

Lemma runHarvesters_runs_none hs (w : World Credentials) raw ident fp :
  Forall (fun ch => ch raw ident fp = None) hs ->
  harvesterRuns (runHarvesters hs w raw ident fp) = harvesterRuns w + len hs.
Proof.
  intros H. revert w. induction H as [| ch hs Hc _ IH]; intros w; simpl.
  - unfold len. simpl. lia.
  - rewrite Hc, IH. unfold len. simpl. lia.
Qed.

Lemma runHarvesters_runs_match pre ch post c (w : World Credentials) raw ident fp :
  Forall (fun h => h raw ident fp = None) pre ->
  ch raw ident fp = Some c ->
  harvesterRuns (runHarvesters (pre ++ ch :: post) w raw ident fp)
  = harvesterRuns w + len pre + 1.
Proof.
  intros H Hc. revert w. induction H as [| h pre Hh _ IH]; intros w; simpl.
  - rewrite Hc. unfold len. simpl. lia.
  - rewrite Hh, IH. unfold len. simpl. lia.
Qed.

Lemma runHarvesters_errorLog hs (w : World Credentials) raw ident fp :
  errorLog (runHarvesters hs w raw ident fp) = errorLog w.
Proof.
  revert w. induction hs as [| ch hs IH]; intros w; simpl; [done |].
  destruct (ch raw ident fp); [done |]. rewrite IH. reflexivity.
Qed.

(** The world of [saveConnection] up to the opening of the file. *)
Lemma saveConnection_unfold (w : World Credentials) raw colored ident fp tr :
  raw <> [] ->
  saveConnection env w raw colored ident fp tr
  = let w1 := world_saved_connection
                (os_MkdirAll (runHarvesters (tcpConnectionHarvesters env) w raw ident fp)
                   (filepath_Join env [Out env; "tcpConnections"; getServiceName env raw tr])) in
    match os_OpenFile env w1 (connectionPath env raw ident tr) with
    | inr err => (logReassemblyError w1 "TCP conn create", Some err)
    | inl w2 =>
        (file_Close env (io_Copy env w2 (connectionPath env raw ident tr) colored "TCP stream")
           (connectionPath env raw ident tr) "TCP conn", None)
    end.
Proof.
  intros Hraw. unfold saveConnection.
  destruct (Z.eqb_spec (len raw) 0) as [E | _].
  { destruct raw; [done | discriminate E]. }
  reflexivity.
Qed.

(** X1. [saveConnection] emits at most one credentials record: the one of
    the first harvester that matches the raw conversation. The harvesters
    after it are not run, and without a match all of them are. *)
Theorem saveConnection_first_harvester_match (w : World Credentials)
    (raw colored : list byte) (ident : string) (firstPacket : Z) (transport : Flow) :
  raw <> [] ->
  let hs := tcpConnectionHarvesters env in
  let w' := (saveConnection env w raw colored ident firstPacket transport).1 in
  credentials w'
  = credentials w ++ option_list (head (omap (fun ch => ch raw ident firstPacket) hs))
  /\ (forall pre ch post c,
        hs = pre ++ ch :: post ->
        Forall (fun h => h raw ident firstPacket = None) pre ->
        ch raw ident firstPacket = Some c ->
        harvesterRuns w' = harvesterRuns w + len pre + 1)
  /\ (Forall (fun h => h raw ident firstPacket = None) hs ->
      harvesterRuns w' = harvesterRuns w + len hs).
Proof.
  intros Hraw hs w'.
  assert (E : credentials w'
              = credentials (runHarvesters hs w raw ident firstPacket)
              /\ harvesterRuns w'
                 = harvesterRuns (runHarvesters hs w raw ident firstPacket)).
  { subst w'. rewrite saveConnection_unfold by exact Hraw. cbv zeta.
    unfold os_OpenFile, io_Copy, file_Close.
    destruct (OpenFile_err env _); simpl; [done |].
    destruct (Copy_err env _ _) as [[n e] |]; destruct (Close_err env _); done. }
  destruct E as [Ec Eh]. rewrite Ec, Eh. split_and!.
  - apply runHarvesters_credentials.
  - intros pre ch post c Hhs Hpre Hc. fold hs. rewrite Hhs.
    apply (runHarvesters_runs_match pre ch post c); assumption.
  - intros Hall. apply runHarvesters_runs_none. exact Hall.
Qed.

(** X2. The error that [saveConnection] returns is the error of opening the
    file, and nothing else: with an empty conversation, and when the file
    opens, it returns nil, also when writing to the file or closing it
    fails. *)
Theorem saveConnection_returns_open_error (w : World Credentials)
    (raw colored : list byte) (ident : string) (firstPacket : Z) (transport : Flow) :
  (saveConnection env w raw colored ident firstPacket transport).2
  = match raw with
    | [] => None
    | _ :: _ => OpenFile_err env (connectionPath env raw ident transport)
    end.
Proof.
  destruct raw as [| b raw]; [reflexivity |].
  rewrite saveConnection_unfold by discriminate. cbv zeta.
  unfold os_OpenFile. destruct (OpenFile_err env _); reflexivity.
Qed.


(** X4. When the write fails after [n] bytes, the file holds what it held
    followed by the first [n] bytes of the coloured conversation, the
    failure is logged, and the connection still counts as saved. *)
Theorem saveConnection_partial_write (w : World Credentials)
    (raw colored : list byte) (ident : string) (firstPacket : Z) (transport : Flow)
    (n : nat) (e : string) :
  raw <> [] ->
  OpenFile_err env (connectionPath env raw ident transport) = None ->
  Copy_err env (connectionPath env raw ident transport) colored = Some (n, e) ->
  let path := connectionPath env raw ident transport in
  let w' := (saveConnection env w raw colored ident firstPacket transport).1 in
  files w' !! path = Some (default [] (files w !! path) ++ take n colored)
  /\ savedConnections w' = savedConnections w + 1
  /\ "TCP stream" ∈ errorLog w'.
Proof.
  intros Hraw Ho Hc path w'. subst w' path. rewrite saveConnection_unfold by exact Hraw.
  cbv zeta. unfold os_OpenFile. rewrite Ho. unfold io_Copy. rewrite Hc.
  destruct (runHarvesters_files (tcpConnectionHarvesters env) w raw ident firstPacket)
    as (Hf & Hs & _).
  unfold file_Close. destruct (Close_err env _); simpl;
    rewrite ?lookup_insert_eq; simpl; rewrite ?Hf, ?Hs; split_and!; try reflexivity;
    set_solver.
Qed.

(** ** Cleanup and the saved flag *)

(** X5. [Cleanup] marks a client reader as saved whatever came of the
    saving, also when the conversation is empty and nothing was written; a
    server reader is left as it is and its cleanup does not touch the world.
    The parent keeps its conversation and is marked as having seen a reader
    close. *)
Theorem Cleanup_saved_flag (h : tcpReader) (parent : tcpConnection)
    (f : tcpConnectionFactory) (w : World Credentials) :
  1 <= wg f ->
  exists h' f' w',
    Cleanup env h parent f w = Some (h', parent_set_last parent true, f', w')
    /\ saved h' = isClient h || saved h
    /\ (isClient h = false -> h' = h /\ w' = w)
    /\ (isClient h = true -> conversationRaw parent = [] -> w' = w).
Proof.
  intros Hwg. unfold Cleanup.
  assert (Hp : last parent = true -> parent = parent_set_last parent true).
  { destruct parent; simpl; intros ->; reflexivity. }
  rewrite (wg_Done_ok f Hwg).
  destruct (isClient h) eqn:Hc.
  - destruct (saveConnection env w (conversationRaw parent) (conversationColored parent)
                (ident parent) (firstPacket parent) (transport parent)) as [w1 e] eqn:Es.
    destruct (last parent) eqn:El; simpl; [rewrite <- (Hp eq_refl) |];
      (eexists _, _, _; split_and!; [reflexivity | reflexivity | discriminate |]);
      intros _ Hr; rewrite Hr in Es; unfold saveConnection in Es; simpl in Es;
      injection Es as <- _; reflexivity.
  - destruct (last parent) eqn:El; simpl; [rewrite <- (Hp eq_refl) |];
      (eexists _, _, _; split_and!; [reflexivity | reflexivity | done | discriminate]).
Qed.

(** ** Read *)

Lemma Read_receive_some chunks (isClosed : bool) d (ok : bool) ch :
  Read_receive chunks isClosed = Some (d, ok, ch) ->
  (ok = true /\ d <> [] /\ d ++ concat (pending ch) = concat chunks
   /\ chanClosed ch = isClosed)
  \/ (ok = false /\ d = [] /\ isClosed = true /\ Forall (eq []) chunks
      /\ pending ch = [] /\ chanClosed ch = true).
Proof.
  induction chunks as [| c chunks IH]; simpl; intros H.
  - destruct isClosed; [| discriminate]. injection H as <- <- <-. right. done.
  - destruct c as [| b c].
    + destruct (IH H) as [(-> & Hd & Hc & Hcl) | (-> & -> & -> & Hf & Hp & Hcl)].
      * left. done.
      * right. split_and!; try done. constructor; done.
    + injection H as <- <- <-. left. done.
Qed.

Lemma Read_receive_none chunks (isClosed : bool) :
  Read_receive chunks isClosed = None <-> isClosed = false /\ Forall (eq []) chunks.
Proof.
  induction chunks as [| c chunks IH]; simpl.
  - destruct isClosed; split; try done. intros [? _]. done.
  - destruct c as [| b c].
    + rewrite IH. split; intros [H1 H2]; split; try done.
      * constructor; done.
      * inversion H2; done.
    + split; [done |]. intros [_ H]. inversion H. done.
Qed.

Lemma Read_outcome (h : tcpReader) (parent : tcpConnection) (n : nat) :
  (Read env h parent n = ReadBlocks
   <-> data h = [] /\ Forall (eq []) (pending (bytes h)) /\ chanClosed (bytes h) = false)
  /\ ((exists h', Read env h parent n = ReadEOF h')
      <-> data h = [] /\ Forall (eq []) (pending (bytes h)) /\ chanClosed (bytes h) = true).
Proof.
  unfold Read. destruct (data h) as [| b d] eqn:Hd.
  - destruct (Read_receive (pending (bytes h)) (chanClosed (bytes h)))
      as [[[d1 ok] ch] |] eqn:E.
    + pose proof (proj1 (Read_receive_none (pending (bytes h)) (chanClosed (bytes h)))) as N.
      apply Read_receive_some in E.
      destruct E as [(-> & Hne & Hc & Hcl) | (-> & -> & Hcl & Hf & Hp & Hcl')].
      * destruct d1 as [| b1 d1]; [done |]. simpl.
        assert (~ Forall (eq []) (pending (bytes h))).
        { intros Hf. assert (concat (pending (bytes h)) = []) as Hnil.
          { clear -Hf. induction Hf as [| x l <- _ IH]; simpl; done. }
          rewrite Hnil in Hc. discriminate Hc. }
        split; split; try done; try tauto.
        intros [h' Hh]. discriminate Hh.
      * simpl. rewrite Hcl. split; split; try done; try tauto; eauto.
        intros (_ & _ & ?). done.
    + apply Read_receive_none in E. destruct E as [Hcl Hf]. rewrite Hcl.
      split; split; try done; try tauto.
      * intros [h' Hh]. discriminate Hh.
      * intros (_ & _ & ?). done.
  - simpl. split; split; try done; try tauto.
    + intros (? & _). done.
    + intros [h' Hh]. discriminate Hh.
    + intros (? & _). done.
Qed.

Lemma Read_bytes (h : tcpReader) (parent : tcpConnection) (n : nat)
    (l : list byte) (h' : tcpReader) (parent' : tcpConnection) :
  Read env h parent n = ReadBytes l h' parent' ->
  l ++ data h' ++ concat (pending (bytes h')) = data h ++ concat (pending (bytes h))
  /\ (length l <= n)%nat
  /\ (0 < n -> l <> [])%nat
  /\ conversationRaw parent' = conversationRaw parent ++ l
  /\ conversationColored parent'
     = conversationColored parent
       ++ (if isClient h then ansi_Red env else ansi_Blue env) ++ l ++ ansi_Reset env
  /\ clientData h' = (if isClient h then clientData h ++ l else clientData h)
  /\ serverData h' = (if isClient h then serverData h else serverData h ++ l)
  /\ isClient h' = isClient h /\ saved h' = saved h
  /\ chanClosed (bytes h') = chanClosed (bytes h)
  /\ last parent' = last parent /\ ident parent' = ident parent
  /\ transport parent' = transport parent.
Proof.
  unfold Read. intros H.
  assert (G : forall d ch,
             d <> [] ->
             d ++ concat (pending ch) = data h ++ concat (pending (bytes h)) ->
             chanClosed ch = chanClosed (bytes h) ->
             (if negb true || (len d =? 0)
              then ReadEOF {| r_ident := r_ident h; isClient := isClient h; bytes := ch;
                              data := d; clientData := clientData h;
                              serverData := serverData h; saved := saved h |}
              else ReadBytes (take n d)
                     {| r_ident := r_ident h; isClient := isClient h; bytes := ch;
                        data := drop n d;
                        clientData := if isClient h then clientData h ++ take n d
                                      else clientData h;
                        serverData := if isClient h then serverData h
                                      else serverData h ++ take n d;
                        saved := saved h |}
                     {| ident := ident parent; net := net parent;
                        transport := transport parent; firstPacket := firstPacket parent;
                        conversationRaw := conversationRaw parent ++ take n d;
                        conversationColored :=
                          conversationColored parent
                          ++ (if isClient h then ansi_Red env else ansi_Blue env)
                          ++ take n d ++ ansi_Reset env;
                        last := last parent |})
             = ReadBytes l h' parent' ->
             l ++ data h' ++ concat (pending (bytes h'))
             = data h ++ concat (pending (bytes h))
             /\ (length l <= n)%nat
             /\ (0 < n -> l <> [])%nat
             /\ conversationRaw parent' = conversationRaw parent ++ l
             /\ conversationColored parent'
                = conversationColored parent
                  ++ (if isClient h then ansi_Red env else ansi_Blue env) ++ l
                  ++ ansi_Reset env
             /\ clientData h' = (if isClient h then clientData h ++ l else clientData h)
             /\ serverData h' = (if isClient h then serverData h else serverData h ++ l)
             /\ isClient h' = isClient h /\ saved h' = saved h
             /\ chanClosed (bytes h') = chanClosed (bytes h)
             /\ last parent' = last parent /\ ident parent' = ident parent
             /\ transport parent' = transport parent).
  { intros d ch Hne Hc Hcl E. simpl in E.
    destruct (Z.eqb_spec (len d) 0) as [E0 | _].
    { destruct d; [done | discriminate E0]. }
    injection E as <- <- <-. simpl.
    split_and!; try reflexivity; try exact Hcl.
    - rewrite app_assoc, take_drop. exact Hc.
    - rewrite length_take. lia.
    - intros Hn Ht. destruct d; [done |]. destruct n; [lia | discriminate Ht]. }
  destruct (data h) as [| b d] eqn:Hd.
  - destruct (Read_receive (pending (bytes h)) (chanClosed (bytes h)))
      as [[[d1 ok] ch] |] eqn:E; [| discriminate H].
    apply Read_receive_some in E.
    destruct E as [(-> & Hne & Hc & Hcl) | (-> & -> & _)]; [| discriminate H].
    apply (G d1 ch); assumption.
  - apply (G (b :: d) (bytes h)); [discriminate | reflexivity | reflexivity | exact H].
Qed.

(** X6. [Read] waits for ever when the reader has no bytes at hand, every
    chunk left in its channel is empty and the channel is open; it returns
    [io.EOF] in the same situation with the channel closed, and in no other:
    empty chunks are skipped, and bytes at hand or a chunk that is not empty
    are always read. *)
Theorem Read_blocks_or_ends (h : tcpReader) (parent : tcpConnection) (n : nat) :
  (Read env h parent n = ReadBlocks
   <-> data h = [] /\ Forall (eq []) (pending (bytes h)) /\ chanClosed (bytes h) = false)
  /\ ((exists h', Read env h parent n = ReadEOF h')
      <-> data h = [] /\ Forall (eq []) (pending (bytes h)) /\ chanClosed (bytes h) = true).
Proof. exact (Read_outcome h parent n). Qed.

(** X7. A [Read] that returns bytes loses none and invents none: the bytes
    returned, followed by what the reader then has at hand and by what is
    left in its channel, are what was at hand and in the channel before. The
    bytes returned are at most [len(p)], are appended to the raw
    conversation, and to the coloured one between the colour of the
    direction and the reset; they go to the client data of a client reader
    and to the server data of a server reader, never to the other. *)
Theorem Read_keeps_every_byte (h : tcpReader) (parent : tcpConnection) (n : nat)
    (l : list byte) (h' : tcpReader) (parent' : tcpConnection) :
  Read env h parent n = ReadBytes l h' parent' ->
  l ++ data h' ++ concat (pending (bytes h')) = data h ++ concat (pending (bytes h))
  /\ (length l <= n)%nat
  /\ (0 < n -> l <> [])%nat
  /\ conversationRaw parent' = conversationRaw parent ++ l
  /\ conversationColored parent'
     = conversationColored parent
       ++ (if isClient h then ansi_Red env else ansi_Blue env) ++ l ++ ansi_Reset env
  /\ clientData h' = (if isClient h then clientData h ++ l else clientData h)
  /\ serverData h' = (if isClient h then serverData h else serverData h ++ l).
Proof.
  intros H. destruct (Read_bytes h parent n l h' parent' H)
    as (H1 & H2 & H3 & H4 & H5 & H6 & H7 & _).
  split_and!; assumption.
Qed.

(** ** Run *)

Lemma Read_receive_pending chunks (isClosed : bool) d (ok : bool) ch :
  Read_receive chunks isClosed = Some (d, ok, ch) ->
  (ok = true -> length (pending ch) < length chunks)%nat.
Proof.
  induction chunks as [| c chunks IH]; simpl; intros H Hok.
  - destruct isClosed; [| discriminate]. injection H as <- <- <-. discriminate Hok.
  - destruct c as [| b c].
    + specialize (IH H Hok). lia.
    + injection H as <- <- <-. simpl. lia.
Qed.

Lemma Read_bytes_pending (h : tcpReader) (parent : tcpConnection) (n : nat)
    (l : list byte) (h' : tcpReader) (parent' : tcpConnection) :
  Read env h parent n = ReadBytes l h' parent' ->
  (length (pending (bytes h')) <= length (pending (bytes h)))%nat.
Proof.
  unfold Read. intros H. destruct (data h) as [| b d].
  - destruct (Read_receive (pending (bytes h)) (chanClosed (bytes h)))
      as [[[d1 ok] ch] |] eqn:E; [| discriminate H].
    destruct ok; simpl in H.
    + apply Read_receive_pending in E; [| reflexivity].
      destruct (len d1 =? 0); [discriminate H |]. injection H as _ <- _. simpl. lia.
    + discriminate H.
  - simpl in H. injection H as _ <- _. simpl. lia.
Qed.

Lemma Read_EOF (h : tcpReader) (parent : tcpConnection) (n : nat) (h' : tcpReader) :
  Read env h parent n = ReadEOF h' ->
  data h = [] /\ concat (pending (bytes h)) = []
  /\ data h' = [] /\ pending (bytes h') = []
  /\ clientData h' = clientData h /\ serverData h' = serverData h
  /\ isClient h' = isClient h /\ saved h' = saved h.
Proof.
  unfold Read. intros H. destruct (data h) as [| b d] eqn:Hd.
  - destruct (Read_receive (pending (bytes h)) (chanClosed (bytes h)))
      as [[[d1 ok] ch] |] eqn:E; [| discriminate H].
    apply Read_receive_some in E.
    destruct E as [(-> & Hne & Hc & Hcl) | (-> & -> & _ & Hf & Hp & _)].
    + simpl in H. destruct (Z.eqb_spec (len d1) 0) as [E0 | _]; [| discriminate H].
      destruct d1; [done | discriminate E0].
    + simpl in H. injection H as <-. simpl. split_and!; try done.
      clear -Hf. induction Hf as [| x l <- _ IH]; simpl; done.
  - simpl in H. discriminate H.
Qed.

(** The loop of [Run] on a closed channel: it comes to its end within as
    many turns as there are bytes and chunks to read, plus one. *)
Lemma Run_loop_ends (fuel : nat) (h : tcpReader) (parent : tcpConnection)
    (buffered : list byte) :
  chanClosed (bytes h) = true ->
  (length buffered + length (data h) + length (concat (pending (bytes h)))
   + length (pending (bytes h)) < fuel)%nat ->
  exists h' parent',
    Run_loop env fuel h parent buffered = StreamEOF h' parent'
    /\ conversationRaw parent'
       = conversationRaw parent ++ data h ++ concat (pending (bytes h))
    /\ clientData h'
       = (if isClient h then clientData h ++ data h ++ concat (pending (bytes h))
          else clientData h)
    /\ serverData h'
       = (if isClient h then serverData h
          else serverData h ++ data h ++ concat (pending (bytes h)))
    /\ data h' = [] /\ pending (bytes h') = []
    /\ isClient h' = isClient h /\ saved h' = saved h
    /\ last parent' = last parent /\ ident parent' = ident parent
    /\ transport parent' = transport parent.
Proof.
  revert h parent buffered.
  induction fuel as [| fuel IH]; intros h parent buffered Hcl Hm; [lia |].
  cbn [Run_loop]. unfold readStream.
  destruct buffered as [| b0 buffered].
  - destruct (Read env h parent bufio_size) as [| h1 | l h1 p1] eqn:ER.
    + apply (proj1 (Read_outcome h parent bufio_size)) in ER.
      destruct ER as (_ & _ & ?). congruence.
    + apply Read_EOF in ER.
      destruct ER as (Hd & Hc & Hd' & Hp' & Hcd & Hsd & Hic & Hsv).
      exists h1, parent. rewrite Hd, Hc, !app_nil_r.
      split_and!; try done; destruct (isClient h); done.
    + pose proof (Read_bytes_pending _ _ _ _ _ _ ER) as Hpl.
      apply Read_bytes in ER.
      destruct ER as (Hall & Hlen & Hne & Hraw & _ & Hcd & Hsd & Hic & Hsv & Hcl1
                      & Hl & Hi & Ht).
      assert (Hl0 : (0 < length l)%nat).
      { destruct l; [exfalso; apply Hne; [unfold bufio_size; lia | reflexivity]
                    | simpl; lia]. }
      pose proof (f_equal length Hall) as HL. rewrite !length_app in HL.
      destruct (IH h1 p1 (drop 512 l)) as (h2 & p2 & E & Hraw2 & Hcd2 & Hsd2 & R).
      { congruence. }
      { rewrite length_drop. lia. }
      exists h2, p2. split; [exact E |].
      rewrite Hraw2, Hraw, Hcd2, Hsd2, Hcd, Hsd, Hic.
      destruct R as (? & ? & ? & ? & ? & ? & ?).
      split_and!; try congruence.
      * rewrite <- !app_assoc. f_equal. exact Hall.
      * destruct (isClient h); [| reflexivity].
        rewrite <- !app_assoc. f_equal. exact Hall.
      * destruct (isClient h); [reflexivity |].
        rewrite <- !app_assoc. f_equal. exact Hall.
  - destruct (IH h parent (drop 512 (b0 :: buffered))) as (h2 & p2 & E & R).
    + exact Hcl.
    + rewrite length_drop. simpl in *. lia.
    + exists h2, p2. split; [exact E | exact R].
Qed.

(** On an open channel the loop of [Run] never meets the end of the
    stream. *)
Lemma Run_loop_open (fuel : nat) (h : tcpReader) (parent : tcpConnection)
    (buffered : list byte) (h' : tcpReader) (parent' : tcpConnection) :
  chanClosed (bytes h) = false ->
  Run_loop env fuel h parent buffered <> StreamEOF h' parent'.
Proof.
  revert h parent buffered.
  induction fuel as [| fuel IH]; intros h parent buffered Hcl; [discriminate |].
  cbn [Run_loop]. unfold readStream.
  destruct buffered as [| b0 buffered]; [| apply IH; exact Hcl].
  destruct (Read env h parent bufio_size) as [| h1 | l h1 p1] eqn:ER.
  - discriminate.
  - assert (exists h', Read env h parent bufio_size = ReadEOF h') as Hex by eauto.
    apply (proj2 (Read_outcome h parent bufio_size)) in Hex.
    destruct Hex as (_ & _ & ?). congruence.
  - apply Read_bytes in ER. apply IH. destruct ER as (_ & _ & _ & _ & _ & _ & _ & _ & _ & E & _).
    congruence.
Qed.

Lemma Cleanup_reader (h : tcpReader) (parent : tcpConnection)
    (f : tcpConnectionFactory) (w : World Credentials) :
  1 <= wg f ->
  exists w',
    Cleanup env h parent f w
    = Some (if isClient h then reader_set_saved h true else h,
            parent_set_last parent true,
            {| wg := wg f - 1; numActive := numActive f - 1 |}, w').
Proof.
  intros Hwg. unfold Cleanup.
  assert (Hp : last parent = true -> parent = parent_set_last parent true).
  { destruct parent; simpl; intros ->; reflexivity. }
  rewrite (wg_Done_ok f Hwg).
  destruct (isClient h);
    [destruct (saveConnection env w (conversationRaw parent) (conversationColored parent)
                 (ident parent) (firstPacket parent) (transport parent)) as [w1 e] |];
    (destruct (last parent) eqn:El; simpl; [rewrite <- (Hp eq_refl) |];
     eexists; reflexivity).
Qed.

(** X8. A reader whose channel has been closed runs to its end: [Run] reads
    everything the reader has at hand and everything left in its channel,
    and then cleans up. The raw conversation of the parent has grown by
    exactly these bytes, in order, and so has the reader's own record of its
    direction; the loop takes no more turns than there are bytes and chunks
    to read, plus one. *)
Theorem Run_reads_to_the_end (fuel : nat) (h : tcpReader) (parent : tcpConnection)
    (f : tcpConnectionFactory) (w : World Credentials) :
  chanClosed (bytes h) = true ->
  1 <= wg f ->
  (length (data h) + length (concat (pending (bytes h)))
   + length (pending (bytes h)) < fuel)%nat ->
  exists h' parent' f' w',
    Run env fuel h parent f w = RunDone Credentials h' parent' f' w'
    /\ conversationRaw parent'
       = conversationRaw parent ++ data h ++ concat (pending (bytes h))
    /\ clientData h'
       = (if isClient h then clientData h ++ data h ++ concat (pending (bytes h))
          else clientData h)
    /\ serverData h'
       = (if isClient h then serverData h
          else serverData h ++ data h ++ concat (pending (bytes h)))
    /\ data h' = [] /\ pending (bytes h') = []
    /\ saved h' = isClient h || saved h
    /\ last parent' = true
    /\ wg f' = wg f - 1 /\ numActive f' = numActive f - 1.
Proof.
  intros Hcl Hwg Hm. unfold Run.
  destruct (Run_loop_ends fuel h parent [] Hcl) as (h1 & p1 & E & Hraw & Hcd & Hsd & Hd
                                                    & Hp & Hic & Hsv & _).
  { simpl. lia. }
  rewrite E. destruct (Cleanup_reader h1 p1 f w Hwg) as [w' ->].
  eexists _, _, _, _. split; [reflexivity |]. simpl.
  rewrite Hic. destruct (isClient h); simpl; split_and!; try done.
Qed.

(** On an open channel the loop of [Run] ends up waiting. *)
Lemma Run_loop_blocks (fuel : nat) (h : tcpReader) (parent : tcpConnection)
    (buffered : list byte) :
  chanClosed (bytes h) = false ->
  (length buffered + length (data h) + length (concat (pending (bytes h)))
   + length (pending (bytes h)) < fuel)%nat ->
  Run_loop env fuel h parent buffered = StreamBlocks.
Proof.
  revert h parent buffered.
  induction fuel as [| fuel IH]; intros h parent buffered Hcl Hm; [lia |].
  cbn [Run_loop]. unfold readStream.
  destruct buffered as [| b0 buffered].
  - destruct (Read env h parent bufio_size) as [| h1 | l h1 p1] eqn:ER.
    + reflexivity.
    + assert (exists h', Read env h parent bufio_size = ReadEOF h') as Hex by eauto.
      apply (proj2 (Read_outcome h parent bufio_size)) in Hex.
      destruct Hex as (_ & _ & ?). congruence.
    + pose proof (Read_bytes_pending _ _ _ _ _ _ ER) as Hpl.
      apply Read_bytes in ER.
      destruct ER as (Hall & Hlen & Hne & _ & _ & _ & _ & _ & _ & Hcl1 & _).
      assert (Hl0 : (0 < length l)%nat).
      { destruct l; [exfalso; apply Hne; [unfold bufio_size; lia | reflexivity]
                    | simpl; lia]. }
      pose proof (f_equal length Hall) as HL. rewrite !length_app in HL.
      apply IH; [congruence |]. rewrite length_drop. lia.
  - apply IH; [exact Hcl |]. rewrite length_drop. simpl in *. lia.
Qed.

(** X9. A reader whose channel is never closed never cleans up: [Run] reads
    what there is and then waits on the channel for ever, so that the wait
    group of the factory is never signalled by it. *)
Theorem Run_open_channel_never_cleans_up (fuel : nat) (h : tcpReader)
    (parent : tcpConnection) (f : tcpConnectionFactory) (w : World Credentials) :
  chanClosed (bytes h) = false ->
  (forall h' parent' f' w',
      Run env fuel h parent f w <> RunDone Credentials h' parent' f' w')
  /\ Run env fuel h parent f w <> RunPanics Credentials
  /\ ((length (data h) + length (concat (pending (bytes h)))
       + length (pending (bytes h)) < fuel)%nat ->
      Run env fuel h parent f w = RunBlocks Credentials).
Proof.
  intros Hcl. unfold Run.
  destruct (Run_loop env fuel h parent []) as [| h1 p1 | h1 p1 b1] eqn:E.
  - split_and!; try discriminate. reflexivity.
  - exfalso. exact (Run_loop_open fuel h parent [] h1 p1 Hcl E).
  - split_and!; try discriminate. intros Hm.
    rewrite (Run_loop_blocks fuel h parent [] Hcl) in E; [discriminate E | simpl; lia].
Qed.

(** ** saveStream *)

Variable saveTCPServiceBanner :
  World Credentials -> list byte -> string -> Z -> Flow -> Flow -> World Credentials.

(** X10. [saveStream] appends the data of one direction, as they are, to the
    file [<out>/tcpStreams/<serviceClass>/<ident>.bin] when the file opens
    and the write succeeds; it touches no other file, runs no harvester and
    does not count a connection. The service banner is saved for the server
    side only, and after the file has been written. *)
Theorem saveStream_appends_data (w : World Credentials) (savedStreams : Z)
    (data : list byte) (ident : string) (isClient_ : bool) (firstPacket : Z)
    (net_ transport_ : Flow) :
  data <> [] ->
  OpenFile_err env (streamPath env data ident transport_) = None ->
  Copy_err env (streamPath env data ident transport_) data = None ->
  let path := streamPath env data ident transport_ in
  exists w1,
    saveStream env saveTCPServiceBanner w savedStreams data ident isClient_ firstPacket
      net_ transport_
    = (if isClient_ then w1
       else saveTCPServiceBanner w1 data ident firstPacket net_ transport_,
       savedStreams + 1, None)
    /\ files w1 !! path = Some (default [] (files w !! path) ++ data)
    /\ (forall p, p <> path -> files w1 !! p = files w !! p)
    /\ credentials w1 = credentials w
    /\ harvesterRuns w1 = harvesterRuns w
    /\ savedConnections w1 = savedConnections w.
Proof.
  intros Hd Ho Hc path. unfold saveStream.
  destruct (Z.eqb_spec (len data) 0) as [E | _].
  { destruct data; [done | discriminate E]. }
  fold (streamPath env data ident transport_). fold path.
  unfold os_OpenFile. fold path in Ho, Hc. rewrite Ho.
  match goal with
  | |- context [file_Close env ?x path ?t] => exists (file_Close env x path t)
  end.
  split; [destruct isClient_; reflexivity |].
  unfold io_Copy. rewrite Hc. unfold file_Close.
  destruct (Close_err env path); simpl;
    (split_and!; try reflexivity;
     [rewrite lookup_insert_eq, lookup_insert_eq; reflexivity
     | intros p Hp; rewrite !lookup_insert_ne by congruence; reflexivity]).
Qed.

End Props.

Lemma Cleanup_client_saves_colored_witness :
  exists h' p' f' w',
    Cleanup plainEnv clientAfterRead.1 clientAfterRead.2 twoReaders emptyWorld
    = Some (h', p', f', w')
    /\ saved h' = true
    /\ files w' !! connectionPath plainEnv (conversationRaw clientAfterRead.2)
                     (ident clientAfterRead.2) (transport clientAfterRead.2)
       = Some (default []
                 (files emptyWorld
                    !! connectionPath plainEnv (conversationRaw clientAfterRead.2)
                         (ident clientAfterRead.2) (transport clientAfterRead.2))
               ++ conversationColored clientAfterRead.2)
    /\ savedConnections w' = savedConnections emptyWorld + 1.
Proof.
  apply (Cleanup_client_saves_colored unit plainEnv clientAfterRead.1 clientAfterRead.2
           twoReaders emptyWorld).
  - reflexivity.
  - vm_compute. discriminate.
  - vm_compute. discriminate.
  - reflexivity.
  - reflexivity.
Defined.

Lemma Cleanup_decrements_once_witness :
  1 <= wg twoReaders
  /\ exists h' p' f' w',
       Cleanup plainEnv clientReader freshParent twoReaders emptyWorld
       = Some (h', p', f', w')
       /\ wg f' = wg twoReaders - 1
       /\ numActive f' = numActive twoReaders - 1
       /\ last p' = true
       /\ forall h2 : tcpReader,
            1 <= wg f' ->
            exists h2' p2 f2 w2,
              Cleanup plainEnv h2 p' f' w' = Some (h2', p2, f2, w2)
              /\ wg f2 = wg twoReaders - 2
              /\ numActive f2 = numActive twoReaders - 2.
Proof.
  split; [simpl; lia |].
  apply (Cleanup_decrements_once unit plainEnv clientReader freshParent twoReaders emptyWorld).
  simpl; lia.
Defined.

(** The conversation read off the wire and what ends up in the file: the
    coloured bytes, which differ from the raw ones. *)
Lemma Cleanup_writes_colored_not_raw :
  conversationRaw clientAfterRead.2 = bs "A"
  /\ clientFile
     = connectionPath plainEnv (conversationRaw clientAfterRead.2)
         (ident clientAfterRead.2) (transport clientAfterRead.2)
  /\ clientFileAfterCleanup = Some (x1b :: bs "[31mA" ++ x1b :: bs "[0m")
  /\ clientFileAfterCleanup <> Some (conversationRaw clientAfterRead.2).
Proof. repeat split; try (vm_compute; reflexivity). vm_compute. discriminate. Qed.


(** ** The properties of the reader at work *)

Lemma saveConnection_first_harvester_match_witness :
  credentials (saveConnection harvestingEnv emptyWorld (bs "A") (bs "A")
                 (ident freshParent) 0 webFlow).1 = [tt]
  /\ harvesterRuns (saveConnection harvestingEnv emptyWorld (bs "A") (bs "A")
                      (ident freshParent) 0 webFlow).1 = 2.
Proof.
  destruct (saveConnection_first_harvester_match unit harvestingEnv emptyWorld (bs "A")
              (bs "A") (ident freshParent) 0 webFlow) as (Hc & Hm & _).
  - discriminate.
  - split; [exact Hc |].
    apply (Hm [fun _ _ _ => None] (fun _ _ _ => Some tt) [fun _ _ _ => Some tt] tt).
    + reflexivity.
    + repeat constructor.
    + reflexivity.
Defined.


Lemma saveConnection_partial_write_witness :
  files (saveConnection fullDiskEnv emptyWorld (bs "A") (bs "coloured")
           (ident freshParent) 0 webFlow).1 !! clientFile
  = Some (bs "col").
Proof.
  destruct (saveConnection_partial_write unit fullDiskEnv emptyWorld (bs "A") (bs "coloured")
              (ident freshParent) 0 webFlow 3 "no space left on device")
    as (Hf & _).
  - discriminate.
  - reflexivity.
  - reflexivity.
  - exact Hf.
Defined.

Lemma Cleanup_saved_flag_witness :
  exists h' f' w',
    Cleanup plainEnv clientReader freshParent twoReaders emptyWorld
    = Some (h', parent_set_last freshParent true, f', w')
    /\ saved h' = true /\ w' = emptyWorld.
Proof.
  destruct (Cleanup_saved_flag unit plainEnv clientReader freshParent twoReaders emptyWorld)
    as (h' & f' & w' & E & Hs & _ & Hw).
  - simpl. lia.
  - exists h', f', w'. split; [exact E |]. split; [exact Hs |].
    apply Hw; reflexivity.
Defined.

Lemma Read_keeps_every_byte_witness :
  conversationRaw clientAfterRead.2 = conversationRaw freshParent ++ bs "A"
  /\ clientData clientAfterRead.1 = clientData clientReader ++ bs "A".
Proof.
  destruct (Read_keeps_every_byte unit plainEnv clientReader freshParent 512 (bs "A")
              clientAfterRead.1 clientAfterRead.2) as (_ & _ & _ & Hr & _ & Hc & _).
  - reflexivity.
  - split; [exact Hr | exact Hc].
Defined.

Lemma Run_reads_to_the_end_witness :
  exists h' parent' f' w',
    Run plainEnv 3 clientReader freshParent twoReaders emptyWorld
    = RunDone unit h' parent' f' w'
    /\ conversationRaw parent' = bs "A"
    /\ clientData h' = bs "A".
Proof.
  destruct (Run_reads_to_the_end unit plainEnv 3 clientReader freshParent twoReaders emptyWorld)
    as (h' & p' & f' & w' & E & Hr & Hc & _).
  - reflexivity.
  - simpl. lia.
  - simpl. lia.
  - exists h', p', f', w'. split; [exact E |]. split; [exact Hr | exact Hc].
Defined.

Lemma Run_open_channel_never_cleans_up_witness :
  Run plainEnv 3 waitingReader freshParent twoReaders emptyWorld = RunBlocks unit.
Proof.
  destruct (Run_open_channel_never_cleans_up unit plainEnv 3 waitingReader freshParent
              twoReaders emptyWorld) as (_ & _ & H).
  - reflexivity.
  - apply H. simpl. lia.
Defined.

Lemma saveStream_appends_data_witness :
  exists w1,
    saveStream plainEnv noBanner emptyWorld 0 (bs "A") (ident freshParent) false 0
      (net freshParent) webFlow
    = (noBanner w1 (bs "A") (ident freshParent) 0 (net freshParent) webFlow, 1, None)
    /\ files w1 !! streamPath plainEnv (bs "A") (ident freshParent) webFlow
       = Some (bs "A").
Proof.
  destruct (saveStream_appends_data unit plainEnv noBanner emptyWorld 0 (bs "A")
              (ident freshParent) false 0 (net freshParent) webFlow)
    as (w1 & E & Hf & _).
  - discriminate.
  - reflexivity.
  - reflexivity.
  - exists w1. split; [exact E | exact Hf].
Defined.
End EncoderProps.
